(** * FUSE-sfs: a shallow embedding of the inode, directory and storage layers

    The program keeps all of its state in one memory-mapped image of
    [BLOCK_COUNT] blocks of [BLOCK_SIZE] bytes, and reaches every part of it
    through pointers into the blocks.  The embedding keeps the image as

    - the bytes of the blocks, addressed by block number and offset, and
    - the two bitmaps of block 0, each as one integer whose bit [i] is the
      bitmap's bit [i] (the bitmaps are stored LSB first).

    Where in block 0 the bitmaps lie is not in the sources, so the bitmaps
    are kept next to the bytes of the blocks; the properties of the
    operations that store into files are stated for files whose blocks are
    not block 0.

    The inode table is not a component of its own: [get_inode] returns
    [blocks_get_block (1) + INODE_SIZE * inum], so the record of inode [i] is
    the [INODE_SIZE] bytes at offset [INODE_SIZE * i] from the start of
    block 1, and [itab s i] reads the record out of these bytes.  The table
    of [INODE_COUNT] records is four and a half blocks long; [inode_init]
    reserves blocks 1 to 4 for it, so the records from 227 on lie, in part or
    in whole, in block 5, which is the first block that [alloc_block] hands
    out.  A store to a field of a record is a store to the bytes of the
    block, and a store into a file whose block holds records changes these
    records.

    A C [int] in memory is four bytes, little-endian, two's complement: a
    store keeps the low 32 bits of the value and a load returns a value of
    the [int] range.  The conversions of [off_t] and [size_t] arguments to
    [int] parameters, and the sum [offset + n] of [inode_write], keep the low
    32 bits as well.  The sums [offset + i] of the loops of [inode_read] and
    [inode_write] stay in the [int] range: the loops return at
    [node->size <= offset + i].  A pointer is the place it points to ([None] is
    [NULL]).  Dereferencing [NULL], or a pointer into a block outside the
    image, is the outcome [Fault]; a loop that can never exit is the outcome
    [Hang].  The content of an uninitialised stack buffer is taken to be zero
    bytes. *)

From Stdlib Require Import ZArith List Lia Bool Ascii FunctionalExtensionality.
From Stdlib Require String.
Import ListNotations.
Import String.StringSyntax.
Delimit Scope string_scope with string.
Open Scope list_scope.
Open Scope Z_scope.

(** ** Constants (inode.h, directory.h; the sizes of the image are those of
    the specification) *)

Definition BLOCK_SIZE : Z := 4096.
Definition BLOCK_COUNT : Z := 256.
Definition INODE_COUNT : Z := 256.
Definition INODE_SIZE : Z := 72.
Definition NDIRECT : Z := 12.
Definition NINDIRECT : Z := 1024.
Definition DIR_NAME_LENGTH : Z := 48.
Definition DIRENT_SIZE : Z := 64.
Definition DIR_ROOT : Z := 1.

(** sys/stat.h *)
Definition S_IFDIR : Z := 16384.   (* 0040000 *)
Definition S_IFREG : Z := 32768.   (* 0100000 *)
Definition MODE_ROOT : Z := 16877. (* 040755 *)
Definition MODE_FILE : Z := 33188. (* 0100644 *)

(** ** The image *)

Record image := mk_image {
  bbm : Z;                (* block bitmap *)
  ibm : Z;                (* inode bitmap *)
  blocks : Z -> Z -> Z    (* block number, offset |-> byte *)
}.

Definition upd {A : Type} (f : Z -> A) (k : Z) (v : A) : Z -> A :=
  fun j => if j =? k then v else f j.

Definition with_bbm (v : Z) (s : image) : image :=
  mk_image v (ibm s) (blocks s).
Definition with_ibm (v : Z) (s : image) : image :=
  mk_image (bbm s) v (blocks s).
Definition with_byte (b off v : Z) (s : image) : image :=
  mk_image (bbm s) (ibm s) (upd (blocks s) b (upd (blocks s b) off v)).
Definition with_block (b : Z) (c : Z -> Z) (s : image) : image :=
  mk_image (bbm s) (ibm s) (upd (blocks s) b c).

Definition zero_image : image := mk_image 0 0 (fun _ _ => 0).

(** four bytes, little-endian, of a two's complement [int] *)
Definition int_byte (v : Z) (j : Z) : Z := (v / 256 ^ j) mod 256.
Definition int_of_bytes (b0 b1 b2 b3 : Z) : Z :=
  let u := b0 + 256 * b1 + 65536 * b2 + 16777216 * b3 in
  if u <? 2147483648 then u else u - 4294967296.

(** the [int] that the low 32 bits of a number are *)
Definition int32 (v : Z) : Z :=
  int_of_bytes (int_byte v 0) (int_byte v 1) (int_byte v 2) (int_byte v 3).

(** an [int] at offset [o] of the content [c] of a block *)
Definition load_int (c : Z -> Z) (o : Z) : Z :=
  int_of_bytes (c o) (c (o + 1)) (c (o + 2)) (c (o + 3)).
Definition store_int (c : Z -> Z) (o : Z) (v : Z) : Z -> Z :=
  upd (upd (upd (upd c o (int_byte v 0)) (o + 1) (int_byte v 1))
           (o + 2) (int_byte v 2)) (o + 3) (int_byte v 3).

(** ** The inode table (inode.h, [get_inode]) *)

(** [inode_t] as a value: what the seven fields of a record hold.  [direct]
    is the array of [NDIRECT] cells. *)
Record inode_t := mk_inode {
  inum : Z;
  mode : Z;
  refs : Z;
  links : Z;
  size : Z;
  direct : Z -> Z;
  indirect : Z
}.

(** the fields of [inode_t] and their offsets in the record *)
Inductive field : Type :=
| f_inum | f_mode | f_refs | f_links | f_size | f_direct (k : Z) | f_indirect.

Definition field_off (f : field) : Z :=
  match f with
  | f_inum => 0
  | f_mode => 4
  | f_refs => 8
  | f_links => 12
  | f_size => 16
  | f_direct k => 20 + 4 * k
  | f_indirect => 68
  end.

(** a field that lies in the record: a cell of [direct] has an index below
    [NDIRECT] *)
Definition field_ok (f : field) : Prop :=
  match f with f_direct k => 0 <= k < NDIRECT | _ => True end.

(** the place of byte [o] of the record of inode [i]: its block and the
    offset in the block (byte [INODE_SIZE * i + o] after the start of
    block 1) *)
Definition rec_block (i o : Z) : Z := 1 + (INODE_SIZE * i + o) / BLOCK_SIZE.
Definition rec_off (i o : Z) : Z := (INODE_SIZE * i + o) mod BLOCK_SIZE.

(** [node->f] *)
Definition load_field (s : image) (i : Z) (f : field) : Z :=
  load_int (blocks s (rec_block i (field_off f))) (rec_off i (field_off f)).

(** [node->f = v] *)
Definition with_field (i : Z) (f : field) (v : Z) (s : image) : image :=
  with_block (rec_block i (field_off f))
             (store_int (blocks s (rec_block i (field_off f)))
                        (rec_off i (field_off f)) v) s.

(** the record of inode [i], read out of the bytes of the table *)
Definition itab (s : image) (i : Z) : inode_t :=
  mk_inode (load_field s i f_inum) (load_field s i f_mode)
           (load_field s i f_refs) (load_field s i f_links)
           (load_field s i f_size)
           (fun k => if (0 <=? k) && (k <? NDIRECT)
                     then load_field s i (f_direct k) else 0)
           (load_field s i f_indirect).

(** the four bytes of field [f] of record [i]: byte [o] of block [b] *)
Definition field_bytes (i : Z) (f : field) (b o : Z) : Prop :=
  b = rec_block i (field_off f) /\
  rec_off i (field_off f) <= o < rec_off i (field_off f) + 4.

(** what a store to a field makes of the value of a record *)
Definition set_inum (v : Z) (nd : inode_t) : inode_t :=
  mk_inode v (mode nd) (refs nd) (links nd) (size nd) (direct nd) (indirect nd).
Definition set_mode (v : Z) (nd : inode_t) : inode_t :=
  mk_inode (inum nd) v (refs nd) (links nd) (size nd) (direct nd) (indirect nd).
Definition set_refs (v : Z) (nd : inode_t) : inode_t :=
  mk_inode (inum nd) (mode nd) v (links nd) (size nd) (direct nd) (indirect nd).
Definition set_links (v : Z) (nd : inode_t) : inode_t :=
  mk_inode (inum nd) (mode nd) (refs nd) v (size nd) (direct nd) (indirect nd).
Definition set_size (v : Z) (nd : inode_t) : inode_t :=
  mk_inode (inum nd) (mode nd) (refs nd) (links nd) v (direct nd) (indirect nd).
Definition set_direct (k v : Z) (nd : inode_t) : inode_t :=
  mk_inode (inum nd) (mode nd) (refs nd) (links nd) (size nd)
           (upd (direct nd) k v) (indirect nd).
Definition set_indirect (v : Z) (nd : inode_t) : inode_t :=
  mk_inode (inum nd) (mode nd) (refs nd) (links nd) (size nd) (direct nd) v.

Definition set_field (f : field) (v : Z) (nd : inode_t) : inode_t :=
  match f with
  | f_inum => set_inum v nd
  | f_mode => set_mode v nd
  | f_refs => set_refs v nd
  | f_links => set_links v nd
  | f_size => set_size v nd
  | f_direct k => set_direct k v nd
  | f_indirect => set_indirect v nd
  end.

(** ** Outcomes of the operations that change the image *)

Inductive outcome (A : Type) : Type :=
| Ok (a : A) (s : image)
| Fault
| Hang.
Arguments Ok {A} a s.
Arguments Fault {A}.
Arguments Hang {A}.

Definition M (A : Type) : Type := image -> outcome A.

Definition ret {A} (a : A) : M A := fun s => Ok a s.
Definition bind {A B} (m : M A) (k : A -> M B) : M B :=
  fun s => match m s with
           | Ok a s' => k a s'
           | Fault => Fault
           | Hang => Hang
           end.
Definition fault {A} : M A := fun _ => Fault.
Definition reads {A} (f : image -> A) : M A := fun s => Ok (f s) s.
Definition modify (f : image -> image) : M unit := fun s => Ok tt (f s).
(** a read that may dereference a bad pointer *)
Definition deref {A} (f : image -> option A) : M A :=
  fun s => match f s with Some a => Ok a s | None => Fault end.
Definition update (f : image -> option image) : M unit :=
  fun s => match f s with Some s' => Ok tt s' | None => Fault end.

Notation "x <- m ;; k" := (bind m (fun x => k))
  (at level 61, m at next level, right associativity).
Notation "m ;;; k" := (bind m (fun _ => k))
  (at level 61, right associativity).

(** ** bitmap.c
    Modelled from the spec: the source of the bitmap is not part of the
    sources; bit [i] of a bitmap is bit [i] of its little-endian number. *)

Definition bitmap_get (bm : Z) (i : Z) : bool := Z.testbit bm i.
Definition bitmap_put (bm : Z) (i : Z) (v : bool) : Z :=
  if v then Z.setbit bm i else Z.clearbit bm i.

(** the lowest clear bit among [i, i + n) *)
Fixpoint first_clear (bm : Z) (i : Z) (n : nat) : option Z :=
  match n with
  | O => None
  | S n' => if bitmap_get bm i then first_clear bm (i + 1) n' else Some i
  end.

(** ** blocks.c
    Modelled from the spec: the source of the block layer is not part of the
    sources.  [bytes_to_blocks n] is the ceiling of [n / BLOCK_SIZE];
    [alloc_block] takes the lowest clear bit of [1, BLOCK_COUNT), sets it and
    zero-fills the block; [free_block] clears the bit; a block outside
    [0, BLOCK_COUNT) is not part of the image. *)

Definition bytes_to_blocks (n : Z) : Z := (n + BLOCK_SIZE - 1) / BLOCK_SIZE.

Definition in_image (b : Z) : bool := (0 <=? b) && (b <? BLOCK_COUNT).

Definition alloc_block : M Z := fun s =>
  match first_clear (bbm s) 1 (Z.to_nat (BLOCK_COUNT - 1)) with
  | Some b => Ok b (with_block b (fun _ => 0) (with_bbm (bitmap_put (bbm s) b true) s))
  | None => Ok (-1) s
  end.

Definition free_block (b : Z) : M unit :=
  modify (fun s => with_bbm (bitmap_put (bbm s) b false) s).

(** the superblock: block 0 is in use *)
Definition blocks_init : M unit :=
  modify (fun s => with_bbm (bitmap_put (bbm s) 0 true) s).

(** ** Pointers *)

(** [char *] into a block: block number and offset *)
Definition byte_ptr : Type := (Z * Z)%type.

(** [int *] to a block number of a file: a cell of [direct] of an inode, or
    a cell of an indirect block *)
Inductive slot : Type :=
| SDirect (i : Z) (k : Z)
| SIndirect (b : Z) (k : Z).

(** [inode_t *]: the index in the inode table *)
Definition inode_ptr : Type := option Z.

Definition load_byte (s : image) (p : byte_ptr) : option Z :=
  if in_image (fst p) then Some (blocks s (fst p) (snd p)) else None.
Definition store_byte (p : byte_ptr) (v : Z) (s : image) : option image :=
  if in_image (fst p) then Some (with_byte (fst p) (snd p) v s) else None.

Definition load_slot (s : image) (p : slot) : option Z :=
  match p with
  | SDirect i k => Some (direct (itab s i) k)
  | SIndirect b k => if in_image b then Some (load_int (blocks s b) (4 * k)) else None
  end.
Definition store_slot (p : slot) (v : Z) (s : image) : option image :=
  match p with
  | SDirect i k => Some (with_field i (f_direct k) v s)
  | SIndirect b k =>
      if in_image b then Some (with_block b (store_int (blocks s b) (4 * k) v) s)
      else None
  end.

(** ** inode.c *)

Definition zseq (lo : Z) (n : nat) : list Z :=
  map (fun k => lo + Z.of_nat k) (seq 0 n).

(** Reserves the blocks [1 .. blocks - 1] and the inode 0. *)
Definition inode_init : M unit :=
  modify (fun s =>
    let nblocks := bytes_to_blocks (INODE_COUNT * INODE_SIZE) in
    let bm := fold_left (fun bm ii => bitmap_put bm ii true)
                        (zseq 1 (Z.to_nat (nblocks - 1))) (bbm s) in
    let s1 := with_bbm bm s in
    with_ibm (bitmap_put (ibm s1) 0 true) s1).

Definition get_inode (i : Z) : inode_ptr :=
  if (i <=? 0) || (INODE_COUNT <=? i) then None else Some i.

Definition alloc_inode (md : Z) : M Z := fun s =>
  match first_clear (ibm s) 2 (Z.to_nat (INODE_COUNT - 2)) with
  | Some ii =>
      match get_inode ii with
      | Some i =>
          Ok ii (with_field i f_inum ii
                   (with_field i f_mode md
                      (with_ibm (bitmap_put (ibm s) ii true) s)))
      | None => Fault
      end
  | None => Ok (-1) s
  end.

Definition inode_valid (s : image) (node : inode_ptr) : bool :=
  match node with
  | None => false
  | Some i =>
      bitmap_get (ibm s) (inum (itab s i)) && negb (inum (itab s i) =? 0)
  end.

Definition inode_get_bnum (s : image) (node : inode_ptr) (file_bnum : Z)
  : option slot :=
  if negb (inode_valid s node) || (file_bnum <? 0)
     || (NINDIRECT + NDIRECT <=? file_bnum)
  then None
  else match node with
       | None => None
       | Some i =>
           if file_bnum <? NDIRECT then Some (SDirect i file_bnum)
           else if indirect (itab s i) =? 0 then None
           else Some (SIndirect (indirect (itab s i)) (file_bnum - NDIRECT))
       end.

(** The outer [None] is a fault (the block number is read through the
    pointer that [inode_get_bnum] returns), the inner one is [NULL]. *)
Definition inode_get_byte (s : image) (node : inode_ptr) (file_byte : Z)
  : option (option byte_ptr) :=
  match node with
  | None => Some None
  | Some i =>
      if negb (inode_valid s node) || (file_byte <? 0)
         || (size (itab s i) <=? file_byte)
      then Some None
      else
        match inode_get_bnum s node (Z.quot file_byte BLOCK_SIZE) with
        | None => None
        | Some q =>
            match load_slot s q with
            | None => None
            | Some bnum => Some (Some (bnum, Z.rem file_byte BLOCK_SIZE))
            end
        end
  end.

Definition alloc_indirect (i : Z) : M Z :=
  bnum <- alloc_block ;;
  if bnum =? -1 then ret (-1)
  else modify (with_field i f_indirect bnum) ;;; ret 0.

(** The loop of [grow_inode]: [k] is the number of iterations that are left,
    [target_bcount - curr_bcount].  The result is [Some r] when the loop
    returns [r] from the function. *)
Fixpoint grow_loop (k : nat) (i : Z) (curr_bcount : Z) : M (option Z) :=
  match k with
  | O => ret None
  | S k' =>
      ind <- reads (fun s => indirect (itab s i)) ;;
      r <- (if (NDIRECT <=? curr_bcount) && (ind =? 0)
            then alloc_indirect i else ret 0) ;;
      if r =? -1 then
        modify (with_field i f_size (BLOCK_SIZE * curr_bcount)) ;;;
        ret (Some (-1))
      else
        bnum <- alloc_block ;;
        if bnum =? -1 then
          modify (with_field i f_size (BLOCK_SIZE * curr_bcount)) ;;;
          ret (Some (-1))
        else
          q <- deref (fun s => inode_get_bnum s (Some i) curr_bcount) ;;
          update (store_slot q bnum) ;;;
          grow_loop k' i (curr_bcount + 1)
  end.

Definition grow_inode (node : inode_ptr) (sz : Z) : M Z :=
  match node with
  | None => ret (-1)
  | Some i =>
      v <- reads (fun s => inode_valid s node) ;;
      old <- reads (fun s => size (itab s i)) ;;
      if negb v || (sz <? old) then ret (-1)
      else
        let curr_bcount := bytes_to_blocks old in
        let target_bcount := bytes_to_blocks sz in
        r <- grow_loop (Z.to_nat (target_bcount - curr_bcount)) i curr_bcount ;;
        match r with
        | Some e => ret e
        | None => modify (with_field i f_size sz) ;;; ret 0
        end
  end.

(** One iteration of the loop of [shrink_inode]; the result is the new
    [curr_bcount].  On [continue] neither the image nor [curr_bcount]
    changes. *)
Definition shrink_body (i : Z) (curr_bcount : Z) : M Z :=
  block <- reads (fun s => inode_get_bnum s (Some i) (curr_bcount - 1)) ;;
  match block with
  | None => ret curr_bcount
  | Some q =>
      b <- deref (fun s => load_slot s q) ;;
      if b =? 0 then ret curr_bcount
      else
        free_block b ;;;
        update (store_slot q 0) ;;;
        ret (curr_bcount - 1)
  end.

(** [while (target_bcount < curr_bcount)]: out of fuel is [Hang]. *)
Fixpoint shrink_while (fuel : nat) (i : Z) (target_bcount curr_bcount : Z)
  : M Z :=
  fun s =>
    if target_bcount <? curr_bcount then
      match fuel with
      | O => Hang
      | S fuel' =>
          (c <- shrink_body i curr_bcount ;;
           shrink_while fuel' i target_bcount c) s
      end
    else Ok curr_bcount s.

(** An iteration that frees a block decreases [curr_bcount] by one, and one
    that does not leaves everything as it is, so the loop exits within
    [curr_bcount - target_bcount] iterations or never
    (see [shrink_while_more_fuel] and [shrink_while_hang]). *)
Definition shrink_inode (node : inode_ptr) (sz : Z) : M Z :=
  match node with
  | None => ret (-1)
  | Some i =>
      v <- reads (fun s => inode_valid s node) ;;
      old <- reads (fun s => size (itab s i)) ;;
      if negb v || (old <? sz) then ret (-1)
      else
        let curr_bcount := bytes_to_blocks old in
        let target_bcount := bytes_to_blocks sz in
        shrink_while (Z.to_nat (curr_bcount - target_bcount)) i
                     target_bcount curr_bcount ;;;
        ind <- reads (fun s => indirect (itab s i)) ;;
        (if (target_bcount <=? NDIRECT) && negb (ind =? 0)
         then free_block ind ;;; modify (with_field i f_indirect 0)
         else ret tt) ;;;
        modify (with_field i f_size sz) ;;;
        ret sz
  end.

Definition free_inode (i : Z) : M unit :=
  b <- reads (fun s => bitmap_get (ibm s) i) ;;
  if b then
    shrink_inode (get_inode i) 0 ;;;
    modify (fun s => with_ibm (bitmap_put (ibm s) i false) s)
  else ret tt.

(** The loop of [inode_read]: [k] iterations are left, [i] bytes are read.
    The result is the return value and the bytes copied to the buffer;
    [None] is a fault. *)
Fixpoint read_loop (k : nat) (s : image) (node : inode_ptr) (nsize : Z)
         (offset i : Z) : option (Z * list Z) :=
  match k with
  | O => Some (i, [])
  | S k' =>
      if nsize <=? offset + i then Some (i, [])
      else
        match inode_get_byte s node (offset + i) with
        | Some (Some p) =>
            match load_byte s p with
            | Some c =>
                match read_loop k' s node nsize offset (i + 1) with
                | Some (r, cs) => Some (r, c :: cs)
                | None => None
                end
            | None => None
            end
        | _ => None
        end
  end.

Definition inode_read (s : image) (node : inode_ptr) (offset n : Z)
  : option (Z * list Z) :=
  match node with
  | None => Some (-1, [])
  | Some i =>
      if negb (inode_valid s node) || (offset <? 0) || (n <? 0)
      then Some (-1, [])
      else read_loop (Z.to_nat n) s node (size (itab s i)) offset 0
  end.

(** The loop of [inode_write]: [k] iterations are left, [i] bytes are
    written, [buf] is what is left of the buffer. *)
Fixpoint write_loop (k : nat) (i0 : Z) (buf : list Z) (offset i : Z) : M Z :=
  match k with
  | O => ret i
  | S k' =>
      sz <- reads (fun s => size (itab s i0)) ;;
      if sz <=? offset + i then ret (if i =? 0 then -1 else i)
      else
        p <- deref (fun s => inode_get_byte s (Some i0) (offset + i)) ;;
        match p with
        | None => fault
        | Some q =>
            update (store_byte q (hd 0 buf)) ;;;
            write_loop k' i0 (tl buf) offset (i + 1)
        end
  end.

Definition inode_write (node : inode_ptr) (buf : list Z) (offset n : Z) : M Z :=
  match node with
  | None => ret (-1)
  | Some i =>
      v <- reads (fun s => inode_valid s node) ;;
      if negb v || (offset <? 0) || (n <=? 0) then ret (-1)
      else
        grow_inode node (int32 (offset + n)) ;;;
        write_loop (Z.to_nat n) i buf offset 0
  end.

(** [read_mode]: the flags that the callers ask for *)
Definition mode_isdir (md : Z) : bool := 0 <? Z.land md S_IFDIR.
Definition mode_isfile (md : Z) : bool := 0 <? Z.land md S_IFREG.

(** ** slist.c
    Modelled from the spec: the source of the string lists is not part of
    the sources.  A list of strings is a list, [NULL] is the empty list, and
    [slist_explode] splits a string at a delimiter into its non-empty
    components. *)

Definition cstring : Type := list Z.
Definition slist_t : Type := list cstring.

Fixpoint explode_from (text : list Z) (delim : Z) (part : list Z) : slist_t :=
  match text with
  | [] => match part with [] => [] | _ => [rev part] end
  | c :: rest =>
      if c =? delim then
        match part with
        | [] => explode_from rest delim []
        | _ => rev part :: explode_from rest delim []
        end
      else explode_from rest delim (c :: part)
  end.

Definition slist_explode (text : cstring) (delim : Z) : slist_t :=
  explode_from text delim [].

(** ** Strings *)

Definition bytes_of_string (s : String.string) : cstring :=
  map (fun c => Z.of_N (N_of_ascii c)) (String.list_ascii_of_string s).

Definition SLASH : Z := 47.

(** the C string that starts a buffer: the bytes before the first NUL *)
Fixpoint cstr (l : list Z) : cstring :=
  match l with
  | [] => []
  | c :: rest => if c =? 0 then [] else c :: cstr rest
  end.

Fixpoint bytes_eqb (a b : list Z) : bool :=
  match a, b with
  | [], [] => true
  | x :: a', y :: b' => (x =? y) && bytes_eqb a' b'
  | _, _ => false
  end.

(** [strcmp (a, b) == 0] *)
Definition streq (a b : list Z) : bool := bytes_eqb (cstr a) (cstr b).

(** ** directory.c *)

(** [dirent_t]: the [DIRENT_SIZE] bytes of the struct; the name is at
    offset 0, [inum] at offset [DIR_NAME_LENGTH]. *)
Definition dirent_t : Type := list Z.

Definition zero_dirent : dirent_t := repeat 0 (Z.to_nat DIRENT_SIZE).

Definition dirent_name (d : dirent_t) : cstring := cstr d.
Definition dirent_inum (d : dirent_t) : Z :=
  int_of_bytes (nth 48 d 0) (nth 49 d 0) (nth 50 d 0) (nth 51 d 0).

(** [memcpy (&dirent.name, name, DIR_NAME_LENGTH)] *)
Definition dirent_set_name (name : cstring) (d : dirent_t) : dirent_t :=
  firstn 48 (name ++ repeat 0 48) ++ skipn 48 d.
(** [memset (dirent.name, 0, DIR_NAME_LENGTH)] *)
Definition dirent_clear_name (d : dirent_t) : dirent_t :=
  repeat 0 48 ++ skipn 48 d.
Definition dirent_set_inum (v : Z) (d : dirent_t) : dirent_t :=
  firstn 48 d ++ [int_byte v 0; int_byte v 1; int_byte v 2; int_byte v 3]
         ++ skipn 52 d.

(** the bytes that a read copied to the start of a buffer *)
Definition overlay (data buf : list Z) : list Z :=
  data ++ skipn (length data) buf.

Definition directory_init : M unit := fun s =>
  match get_inode DIR_ROOT with
  | None => Fault
  | Some i =>
      if bitmap_get (ibm s) DIR_ROOT && mode_isdir (mode (itab s i))
      then Ok tt s
      else Ok tt (with_field i f_mode MODE_ROOT
                    (with_field i f_inum DIR_ROOT
                       (with_ibm (bitmap_put (ibm s) DIR_ROOT true) s)))
  end.

Definition dirent_read (s : image) (di : inode_ptr) (dirent : dirent_t) (idx : Z)
  : option (Z * dirent_t) :=
  match inode_read s di (idx * DIRENT_SIZE) DIRENT_SIZE with
  | None => None
  | Some (r, data) =>
      Some (if DIRENT_SIZE =? r then 0 else -1, overlay data dirent)
  end.

(** [di->size / DIRENT_SIZE]; [None] when [di] is [NULL] *)
Definition dir_slots (s : image) (di : inode_ptr) : option (list Z) :=
  match di with
  | None => None
  | Some i => Some (zseq 0 (Z.to_nat (Z.quot (size (itab s i)) DIRENT_SIZE)))
  end.

Fixpoint dirent_lookup_loop (s : image) (di : inode_ptr) (name : cstring)
         (iis : list Z) : option Z :=
  match iis with
  | [] => Some (-1)
  | ii :: rest =>
      match dirent_read s di zero_dirent ii with
      | None => None
      | Some (_, dirent) =>
          if streq name dirent then Some ii
          else dirent_lookup_loop s di name rest
      end
  end.

Definition dirent_lookup (s : image) (di : inode_ptr) (name : cstring)
  : option Z :=
  match dir_slots s di with
  | None => None
  | Some iis => dirent_lookup_loop s di name iis
  end.

Definition directory_lookup (s : image) (di : inode_ptr) (name : cstring)
  : option Z :=
  match dirent_lookup s di name with
  | None => None
  | Some idx =>
      if idx <? 0 then Some (-1)
      else
        match dirent_read s di zero_dirent idx with
        | None => None
        | Some (r, dirent) =>
            if negb (r =? 0) then Some (-1) else Some (dirent_inum dirent)
        end
  end.

Fixpoint directory_read_loop (s : image) (di : inode_ptr) (dnum : Z)
         (iis : list Z) (count : Z) (temp : dirent_t) : option (Z * dirent_t) :=
  match iis with
  | [] => Some (count, temp)
  | ii :: rest =>
      if count <? dnum then
        match dirent_read s di temp ii with
        | None => None
        | Some (r, temp') =>
            directory_read_loop s di dnum rest
              (if (r =? 0) && negb (dirent_inum temp' =? 0)
               then count + 1 else count) temp'
        end
      else Some (count, temp)
  end.

(** The result is the return value and what is copied to [dirent]. *)
Definition directory_read (s : image) (di : inode_ptr) (dnum : Z)
  : option (Z * dirent_t) :=
  match (if -1 <? dnum then dir_slots s di else Some []) with
  | None => None
  | Some iis =>
      match directory_read_loop s di dnum iis (-1) zero_dirent with
      | None => None
      | Some (count, temp) => Some (if dnum <=? count then 0 else -1, temp)
      end
  end.

(** the scan of [directory_put] for the first empty entry: the offset to
    write at and the content of [dirent] after the loop *)
Fixpoint put_scan (s : image) (di : inode_ptr) (iis : list Z)
         (offset : Z) (dirent : dirent_t) : option (Z * dirent_t) :=
  match iis with
  | [] => Some (offset, dirent)
  | ii :: rest =>
      match dirent_read s di dirent ii with
      | None => None
      | Some (_, dirent') =>
          if dirent_inum dirent' =? 0 then Some (ii * DIRENT_SIZE, dirent')
          else put_scan s di rest offset dirent'
      end
  end.

Definition directory_put (di : inode_ptr) (name : cstring) (inum_ : Z) : M Z :=
  let node := get_inode inum_ in
  v <- reads (fun s => inode_valid s di && inode_valid s node) ;;
  if negb v then ret (-1)
  else
    match di, node with
    | Some d, Some n =>
        sc <- deref (fun s =>
                match dir_slots s di with
                | None => None
                | Some iis => put_scan s di iis (size (itab s d)) zero_dirent
                end) ;;
        let dirent := dirent_set_inum inum_ (dirent_set_name name (snd sc)) in
        inode_write di dirent (fst sc) DIRENT_SIZE ;;;
        modify (fun s => with_field n f_links (links (itab s n) + 1) s) ;;;
        ret 0
    | _, _ => ret (-1)
    end.

Definition directory_delete (di : inode_ptr) (name : cstring) : M Z :=
  v <- reads (fun s => inode_valid s di) ;;
  if negb v then ret (-1)
  else
    idx <- deref (fun s => dirent_lookup s di name) ;;
    if idx =? -1 then ret (-1)
    else
      rd <- deref (fun s => inode_read s di (idx * DIRENT_SIZE) DIRENT_SIZE) ;;
      if fst rd =? 0 then ret (-1)
      else
        let dirent := overlay (snd rd) zero_dirent in
        let inum_ := dirent_inum dirent in
        let node := get_inode inum_ in
        v' <- reads (fun s => inode_valid s node) ;;
        if negb v' then ret (-1)
        else
          match node with
          | None => ret (-1)
          | Some n =>
              modify (fun s => with_field n f_links (links (itab s n) - 1) s) ;;;
              l <- reads (fun s => links (itab s n)) ;;
              (if l <=? 0 then free_inode inum_ else ret tt) ;;;
              let dirent' := dirent_clear_name (dirent_set_inum 0 dirent) in
              inode_write di dirent' (idx * DIRENT_SIZE) DIRENT_SIZE ;;;
              ret 0
          end.

Fixpoint directory_list_loop (s : image) (di : inode_ptr) (iis : list Z)
         (entries : slist_t) : option slist_t :=
  match iis with
  | [] => Some entries
  | ii :: rest =>
      match inode_read s di (ii * DIRENT_SIZE) DIRENT_SIZE with
      | None => None
      | Some (_, data) =>
          let dirent := overlay data zero_dirent in
          directory_list_loop s di rest
            (if negb (dirent_inum dirent =? 0)
             then dirent_name dirent :: entries else entries)
      end
  end.

(** [di->mode] is read before [di] is compared with [NULL]. *)
Definition directory_list (s : image) (di : inode_ptr) : option slist_t :=
  match di with
  | None => None
  | Some i =>
      if mode_isdir (mode (itab s i)) then Some []
      else
        match dir_slots s di with
        | None => None
        | Some iis =>
            match directory_list_loop s di iis [] with
            | None => None
            | Some entries => Some (rev entries)
            end
        end
  end.

Fixpoint path_walk (s : image) (di : inode_ptr) (elems : slist_t)
  : option inode_ptr :=
  match elems with
  | [] => Some di
  | e :: rest =>
      match directory_lookup s di e with
      | None => None
      | Some inum_ =>
          if inum_ =? -1 then Some None
          else path_walk s (get_inode inum_) rest
      end
  end.

Definition path_get_inode (s : image) (path : cstring) : option inode_ptr :=
  if streq path [SLASH] then Some (get_inode DIR_ROOT)
  else path_walk s (get_inode DIR_ROOT) (slist_explode (tl path) SLASH).

(** ** storage.c
    The [size_t] and [off_t] arguments reach the [int] parameters of the
    inode layer through [int32]. *)

Definition storage_access (s : image) (path : cstring) : option Z :=
  match path_get_inode s path with
  | None => None
  | Some node => Some (match node with Some _ => 1 | None => 0 end)
  end.

Definition storage_read (s : image) (path : cstring) (sz offset : Z)
  : option (Z * list Z) :=
  match path_get_inode s path with
  | None => None
  | Some None => Some (-1, [])
  | Some node => inode_read s node (int32 offset) (int32 sz)
  end.

Definition storage_write (path : cstring) (buf : list Z) (sz offset : Z) : M Z :=
  node <- deref (fun s => path_get_inode s path) ;;
  match node with
  | None => ret (-1)
  | Some _ => inode_write node buf (int32 offset) (int32 sz)
  end.

Definition storage_truncate (path : cstring) (sz : Z) : M Z :=
  node <- deref (fun s => path_get_inode s path) ;;
  match node with
  | None => ret (-1)
  | Some i =>
      cur <- reads (fun s => size (itab s i)) ;;
      r <- (if cur <? sz then grow_inode node (int32 sz) else ret 0) ;;
      if (cur <? sz) && (r =? -1) then ret (-1)
      else
        cur' <- reads (fun s => size (itab s i)) ;;
        r' <- (if sz <? cur' then shrink_inode node (int32 sz) else ret 0) ;;
        if (sz <? cur') && (r' =? -1) then ret (-1) else ret 0
  end.

(** The loop of [path_split_strings]: [dir] is [path_to_dir] up to [off],
    the list starts at [tail].  The result is [path_to_dir] and the last
    element. *)
Fixpoint split_loop (dir : list Z) (tail : slist_t) : list Z * cstring :=
  match tail with
  | [] => (dir, [])
  | [data] => (dir, data)
  | data :: ((_ :: next) as tail') =>
      let dir1 := dir ++ data in
      let dir2 :=
        if negb (last dir1 0 =? SLASH) && negb (match next with [] => true | _ => false end)
        then dir1 ++ [SLASH] else dir1 in
      split_loop dir2 tail'
  end.

(** The result is the return value, [path_to_dir] and [name]; the two
    buffers are those of the caller when the function returns -1. *)
Definition path_split_strings (path : cstring) (path_to_dir name : list Z)
  : Z * list Z * list Z :=
  match slist_explode path SLASH with
  | [] => (-1, path_to_dir, name)
  | elems =>
      let r := split_loop [SLASH] elems in
      (0, fst r, firstn (Z.to_nat DIR_NAME_LENGTH) (snd r))
  end.

Definition storage_mknod (path : cstring) (md : Z) : M Z :=
  let '(_, path_to_dir, name) := path_split_strings path [] [] in
  inum_ <- alloc_inode md ;;
  if inum_ <? 0 then ret (-1)
  else
    di <- deref (fun s => path_get_inode s path_to_dir) ;;
    r <- directory_put di name inum_ ;;
    if r =? -1 then ret (-1) else ret 0.

Definition storage_unlink (path : cstring) : M Z :=
  let '(_, path_to_dir, name) := path_split_strings path [] [] in
  di <- deref (fun s => path_get_inode s path_to_dir) ;;
  match di with
  | None => ret (-1)
  | Some _ => directory_delete di name
  end.

Definition storage_rmdir (path : cstring) : M Z :=
  di <- deref (fun s => path_get_inode s path) ;;
  r <- deref (fun s => directory_read s di 0) ;;
  if 0 <=? fst r then ret (-1)
  else storage_unlink path.

Definition storage_rename (from to : cstring) : M Z :=
  let '(_, from_dir, from_name) := path_split_strings from [] [] in
  let '(_, to_dir, to_name) := path_split_strings to [] [] in
  from_di <- deref (fun s => path_get_inode s from_dir) ;;
  from_fi <- deref (fun s => path_get_inode s from) ;;
  match from_fi with
  | None => ret (-1)
  | Some fi =>
      to_di <- deref (fun s => path_get_inode s to_dir) ;;
      md <- reads (fun s => mode (itab s fi)) ;;
      to_node <- (if mode_isfile md then deref (fun s => path_get_inode s to)
                  else ret None) ;;
      let '(to_di', to_name') :=
        match to_node with
        | Some _ => (to_node, from_name)
        | None => (to_di, to_name)
        end in
      fnum <- reads (fun s => inum (itab s fi)) ;;
      r <- directory_put to_di' to_name' fnum ;;
      if r =? -1 then ret (-1)
      else
        r' <- directory_delete from_di from_name ;;
        if r' =? -1 then ret (-1) else ret 0
  end.

Definition storage_list (s : image) (path : cstring) : option slist_t :=
  match path_get_inode s path with
  | None => None
  | Some di => directory_list s di
  end.

(** ** Formatting
    Modelled from the spec: the mount code is not part of the sources.  A
    fresh image is all zero; mounting marks block 0, then runs [inode_init]
    and [directory_init]. *)

Definition storage_init : M unit :=
  blocks_init ;;; inode_init ;;; directory_init.

Definition state_of {A} (o : outcome A) : image :=
  match o with Ok _ s => s | _ => zero_image end.
Definition value_of {A} (o : outcome A) : option A :=
  match o with Ok a _ => Some a | _ => None end.

Definition fresh : image := state_of (storage_init zero_image).

Definition run {A} (m : M A) (s : image) : image := state_of (m s).


(** * The notions that the properties are stated with *)

Definition MAX_FILE_SIZE : Z := (NDIRECT + NINDIRECT) * BLOCK_SIZE.

(** the number of set bits among the first [n] bits of a bitmap *)
Definition count_bits (bm : Z) (n : Z) : Z :=
  Z.of_nat (length (filter (bitmap_get bm) (zseq 0 (Z.to_nat n)))).

(** the block number of file block [j] of inode [i], read the way the
    code reads it *)
Definition file_block (s : image) (i j : Z) : option Z :=
  match inode_get_bnum s (Some i) j with
  | Some q => load_slot s q
  | None => None
  end.

(** the byte at offset [x] of the file of inode [i] *)
Definition file_byte (s : image) (i x : Z) : option Z :=
  match inode_get_byte s (Some i) x with
  | Some (Some p) => load_byte s p
  | _ => None
  end.

(** block [b] is a block of the image that the block bitmap has in use,
    and not block 0 *)
Definition used_block (s : image) (b : Z) : Prop :=
  0 < b < BLOCK_COUNT /\ bitmap_get (bbm s) b = true.

Definition indirect_ok (s : image) (i : Z) : Prop :=
  indirect (itab s i) = 0 \/ used_block s (indirect (itab s i)).

(** The block chain of inode [i] is well formed: the inode is valid, every
    file block below the size is mapped to a block in use, no two file blocks
    share a block, and none is the indirect block. *)
Record chain_ok (s : image) (i : Z) : Prop := mk_chain_ok {
  ck_valid : inode_valid s (Some i) = true;
  ck_size : 0 <= size (itab s i);
  ck_indirect : indirect_ok s i;
  ck_mapped : forall j, 0 <= j < bytes_to_blocks (size (itab s i)) ->
      exists b, file_block s i j = Some b /\ used_block s b
                /\ b <> indirect (itab s i);
  ck_inj : forall j1 j2 b,
      0 <= j1 < bytes_to_blocks (size (itab s i)) ->
      0 <= j2 < bytes_to_blocks (size (itab s i)) ->
      file_block s i j1 = Some b -> file_block s i j2 = Some b -> j1 = j2
}.

(** ** The inode table and the blocks of the files *)

(** [inode_init] reserves the blocks below [TABLE_END] for the inode table
    (its loop runs over [1 .. blocks - 1]). *)
Definition TABLE_END : Z := bytes_to_blocks (INODE_COUNT * INODE_SIZE).

Definition table_reserved (s : image) : Prop :=
  forall b, 0 < b < TABLE_END -> bitmap_get (bbm s) b = true.

(** the record of inode [i] lies in the reserved blocks *)
Definition low_inode (i : Z) : Prop :=
  0 <= i /\ INODE_SIZE * (i + 1) <= (TABLE_END - 1) * BLOCK_SIZE.

(** The file of inode [i] keeps off the inode table: the record of [i] lies
    in the reserved blocks and these are marked in use, and the file blocks
    below the size and the indirect block are blocks from [TABLE_END] on. *)
Record off_table (s : image) (i : Z) : Prop := mk_off_table {
  ot_low : low_inode i;
  ot_reserved : table_reserved s;
  ot_indirect : indirect (itab s i) <> 0 -> TABLE_END <= indirect (itab s i);
  ot_blocks : forall j b, 0 <= j < bytes_to_blocks (size (itab s i)) ->
      file_block s i j = Some b -> TABLE_END <= b
}.

(** the inode numbers of the non-empty entries of a directory *)
Fixpoint entry_inums (s : image) (di : inode_ptr) (iis : list Z) : list Z :=
  match iis with
  | [] => []
  | ii :: rest =>
      match dirent_read s di zero_dirent ii with
      | Some (0, d) =>
          if dirent_inum d =? 0 then entry_inums s di rest
          else dirent_inum d :: entry_inums s di rest
      | _ => entry_inums s di rest
      end
  end.

Definition children (s : image) (i : Z) : list Z :=
  match dir_slots s (Some i) with
  | Some iis => entry_inums s (Some i) iis
  | None => []
  end.

Definition mem (x : Z) (l : list Z) : bool := existsb (Z.eqb x) l.

(** depth-first search from an inode through the directories *)
Fixpoint reach (fuel : nat) (s : image) (seen : list Z) (i : Z) : list Z :=
  if mem i seen then seen
  else
    match fuel with
    | O => i :: seen
    | S fuel' =>
        if mode_isdir (mode (itab s i))
        then fold_left (reach fuel' s) (children s i) (i :: seen)
        else i :: seen
    end.

(** the inodes other than the root that are reachable from the root *)
Definition reachable (s : image) : list Z :=
  filter (fun i => negb (i =? DIR_ROOT))
         (reach (Z.to_nat INODE_COUNT) s [] DIR_ROOT).

(** inode accounting: the set bits of the inode bitmap are the inodes 0 and 1
    and the reachable ones *)
Definition inode_accounting (s : image) : Prop :=
  count_bits (ibm s) INODE_COUNT = Z.of_nat (length (reachable s)) + 2.

(** the [inum] field of entry [ii] in the byte stream of directory [i] *)
Definition slot_inum (s : image) (i ii : Z) : Z :=
  let fb x := match file_byte s i x with Some c => c | None => 0 end in
  let o := ii * DIRENT_SIZE + DIR_NAME_LENGTH in
  int_of_bytes (fb o) (fb (o + 1)) (fb (o + 2)) (fb (o + 3)).

(** the number of entries of directory [i] *)
Definition slot_count (s : image) (i : Z) : Z :=
  Z.quot (size (itab s i)) DIRENT_SIZE.

Definition path (s : String.string) : cstring := bytes_of_string s.
Arguments path s%_string.

(** [grown i s s' cur bs]: the image [s'] is [s] after inode [i] took the
    blocks [bs], in this order, for its file blocks [cur], [cur + 1], ...
    (and an indirect block, when it had none and needed one).  The records
    that are said to be untouched are those of the reserved blocks: a new
    block is zero-filled, and block 5 holds the records from 227 on. *)
Record grown (i : Z) (s s' : image) (cur : Z) (bs : list Z) : Prop := mk_grown {
  gr_ibm : ibm s' = ibm s;
  gr_other : forall i', i' <> i -> low_inode i' -> itab s' i' = itab s i';
  gr_inum : inum (itab s' i) = inum (itab s i);
  gr_mode : mode (itab s' i) = mode (itab s i);
  gr_refs : refs (itab s' i) = refs (itab s i);
  gr_links : links (itab s' i) = links (itab s i);
  gr_ind : indirect (itab s i) <> 0 ->
           indirect (itab s' i) = indirect (itab s i);
  gr_ind_new : indirect (itab s i) = 0 -> indirect (itab s' i) <> 0 ->
               0 < indirect (itab s' i) < BLOCK_COUNT /\
               bitmap_get (bbm s) (indirect (itab s' i)) = false;
  gr_fresh : forall b, In b bs ->
             0 < b < BLOCK_COUNT /\ bitmap_get (bbm s) b = false /\
             b <> indirect (itab s' i);
  gr_nodup : NoDup bs;
  gr_bbm : forall b, bitmap_get (bbm s') b = true <->
             (bitmap_get (bbm s) b = true \/ In b bs \/
              (indirect (itab s i) = 0 /\ indirect (itab s' i) <> 0 /\
               b = indirect (itab s' i)));
  gr_new : forall j, (j < length bs)%nat ->
           file_block s' i (cur + Z.of_nat j) = Some (nth j bs 0);
  gr_old : forall j v, j < cur -> file_block s i j = Some v ->
           file_block s' i j = Some v
}.

(** the number of bytes that a loop over [k] bytes from offset [from] finds
    below the size [sz] *)
Definition room (k : nat) (sz from : Z) : Z :=
  Z.max 0 (Z.min (Z.of_nat k) (sz - from)).

(** the names of the non-empty entries of directory [i], in the order of
    the entries: what a listing of the directory is specified to be *)
Definition slot_name (s : image) (i ii : Z) : cstring :=
  cstr (map (fun t => match file_byte s i (ii * DIRENT_SIZE + t) with
                      | Some c => c
                      | None => 0
                      end)
            (zseq 0 (Z.to_nat DIR_NAME_LENGTH))).

Definition live_names (s : image) (i : Z) : slist_t :=
  map (slot_name s i)
      (filter (fun ii => negb (slot_inum s i ii =? 0))
              (zseq 0 (Z.to_nat (slot_count s i)))).

(** ** Images that the properties are checked on *)

(** a fresh image with one regular file of size 0 *)
Definition one_file : image := run (storage_mknod (path "/a") MODE_FILE) fresh.

(** a fresh image after the creation of a file in a directory that does
    not exist *)
Definition leaked : image := run (storage_mknod (path "/nodir/x") MODE_FILE) fresh.

(** the bytes of a directory entry *)
Definition dirent_of (name : cstring) (inum_ : Z) : dirent_t :=
  dirent_set_inum inum_ (dirent_set_name name zero_dirent).

(** [leaked], then an entry "b" for inode 2 written into the root directory,
    then that entry unlinked: inode 2 is free and its link count is -1 *)
Definition stale : image :=
  run (storage_unlink (path "/b"))
      (run (storage_write (path "/") (dirent_of (path "b") 2) DIRENT_SIZE 0) leaked).

(** [one_file], then an entry "a" for inode 2 written into the file itself *)
Definition self_entry : image :=
  run (storage_write (path "/a") (dirent_of (path "a") 2) DIRENT_SIZE 0) one_file.

(** the four bytes of an [int] *)
Definition int_bytes (v : Z) : list Z :=
  [int_byte v 0; int_byte v 1; int_byte v 2; int_byte v 3].

(** The root directory of a fresh image has no block; the first block that
    it takes is block [TABLE_END], the lowest one that [inode_init] does not
    reserve, and the bytes from 32 on of that block are also record 228 of
    the inode table ([INODE_SIZE * 228 = 4 * BLOCK_SIZE + 32]).  A write of
    104 bytes to "/" therefore sets record 228: here to [inum = 1] (whose bit
    in the inode bitmap is set), the size [sz], [direct] 5, 6, ... and
    [indirect = 5]; the eight cells before the record hold 20 .. 27. *)
Definition alias_record (sz : Z) : list Z :=
  [1; MODE_FILE; 0; 1; sz] ++ [5; 6; 7; 8; 9; 10; 11; 12; 13; 14; 15; 16] ++ [5].

Definition alias_bytes (sz : Z) : list Z :=
  flat_map int_bytes ([20; 21; 22; 23; 24; 25; 26; 27] ++ alias_record sz).

Definition alias_image (sz : Z) : image :=
  run (storage_write (path "/") (alias_bytes sz) 104 0) fresh.

(** A write of one entry to the root of a fresh image: the entry "q" for
    inode 228.  Bytes 32 .. 63 of the entry are the start of record 228:
    [inum = 1], the mode of a file, one link, the size 228 (the [inum] field
    of the entry is the [size] field of the record) and [direct[0] = 5], so
    that "/q" is a file whose first block is block 5 and holds the record of
    the file. *)
Definition q_entry : list Z :=
  flat_map int_bytes [113; 0; 0; 0; 0; 0; 0; 0; 1; MODE_FILE; 0; 1; 228; 5; 0; 0].

Definition own_record : image := run (storage_write (path "/") q_entry 64 0) fresh.

(** [one_file] with fields of the record of its file, inode 2, set to values
    that [inode_valid] does not look at: the size of the whole block map; a
    negative size; a size of [NDIRECT] blocks with an indirect pointer to a
    block that the image does not have; a size of one block with a first
    block that the image does not have *)
Definition oversized : image := with_field 2 f_size MAX_FILE_SIZE one_file.

Definition negative_size : image := with_field 2 f_size (-2 * BLOCK_SIZE) one_file.

Definition dangling : image :=
  with_field 2 f_indirect 300
    (with_field 2 f_size (NDIRECT * BLOCK_SIZE) one_file).

Definition stray_block : image :=
  with_field 2 (f_direct 0) 300 (with_field 2 f_size BLOCK_SIZE one_file).

(** a directory "/d" whose only entry was unlinked *)
Definition tomb_dir : image :=
  run (storage_unlink (path "/d/x"))
      (run (storage_mknod (path "/d/x") MODE_FILE)
           (run (storage_mknod (path "/d") MODE_ROOT) fresh)).

(** the file blocks [lo .. hi - 1] of inode [i] are mapped to block numbers
    other than 0 *)
Definition blocks_mapped (s : image) (i lo hi : Z) : Prop :=
  forall j, lo <= j < hi ->
    exists b, file_block s i j = Some b /\ b <> 0.

(** [one_file] with the file grown to 5000 bytes, which are two blocks *)
Definition two_blocks : image := run (grow_inode (Some 2) 5000) one_file.

(** entry [ii] of directory [i] is not empty *)
Definition live_slot (s : image) (i ii : Z) : bool :=
  negb (slot_inum s i ii =? 0).

(** the number of blocks that [alloc_block] can still hand out *)
Definition free_blocks (s : image) : Z :=
  Z.of_nat (length (filter (fun b => negb (bitmap_get (bbm s) b))
                           (zseq 1 (Z.to_nat (BLOCK_COUNT - 1))))).

(** [one_file] with a second file "/b", and then "/a" renamed to "/b" *)
Definition two_files : image := run (storage_mknod (path "/b") MODE_FILE) one_file.

Definition renamed : image :=
  run (storage_rename (path "/a") (path "/b")) two_files.

(** ** The entries of a directory, as bytes of its file *)

(** the [DIRENT_SIZE] bytes of entry [ii] of directory [i] *)
Definition slot_bytes (s : image) (i ii : Z) : dirent_t :=
  map (fun t => match file_byte s i (ii * DIRENT_SIZE + t) with
                | Some c => c
                | None => 0
                end)
      (zseq 0 (Z.to_nat DIRENT_SIZE)).

(** entry [ii] of directory [i] has the name [name], as [strcmp] sees it *)
Definition slot_named (s : image) (i : Z) (name : cstring) (ii : Z) : bool :=
  streq name (slot_bytes s i ii).

(** the first entry of directory [i] with the name [name] *)
Definition first_named (s : image) (i : Z) (name : cstring) : option Z :=
  find (slot_named s i name) (zseq 0 (Z.to_nat (slot_count s i))).

(** the first entry of directory [i] that is empty *)
Definition first_empty (s : image) (i : Z) : option Z :=
  find (fun ii => slot_inum s i ii =? 0) (zseq 0 (Z.to_nat (slot_count s i))).

(** the names of the non-empty entries, in the order of the entries *)
Definition listed_names (s : image) (i : Z) : slist_t :=
  map (fun ii => dirent_name (slot_bytes s i ii))
      (filter (live_slot s i) (zseq 0 (Z.to_nat (slot_count s i)))).

(** a directory whose size is a whole number of entries *)
Definition dir_ok (s : image) (i : Z) : Prop :=
  chain_ok s i /\ size (itab s i) mod DIRENT_SIZE = 0.

(** a name that fits an entry with its terminator: no NUL, fewer than
    [DIR_NAME_LENGTH] bytes *)
Definition name_fits (name : cstring) : Prop :=
  Forall (fun c => c <> 0) name /\ Z.of_nat (length name) < DIR_NAME_LENGTH.

(** the slot that [directory_put] writes: the first empty entry, or the one
    after the last *)
Definition put_slot_of (s : image) (d : Z) : Z :=
  match first_empty s d with Some ii => ii | None => slot_count s d end.

(** [one_file] after the root directory took every free block of the
    volume *)
Definition full_volume : image :=
  run (storage_truncate (path "/") MAX_FILE_SIZE) one_file.

(** block [b] belongs to the file of inode [i]: it is the block of a file
    block below the size, or the indirect block *)
Definition owns (s : image) (i b : Z) : Prop :=
  (exists j, 0 <= j < bytes_to_blocks (size (itab s i)) /\
             file_block s i j = Some b) \/
  (indirect (itab s i) <> 0 /\ b = indirect (itab s i)).

(** the files of [i] and [n] share no block *)
Definition chains_apart (s : image) (i n : Z) : Prop :=
  forall b, owns s i b -> ~ owns s n b.

(** ** Paths *)

(** the path [/e1/e2/.../ek] of the components [e1 .. ek] *)
Definition path_of (elems : slist_t) : cstring :=
  concat (map (fun e => SLASH :: e) elems).

(** the path of the directory of the components: [/] when there is none *)
Definition dir_of (elems : slist_t) : cstring :=
  match elems with [] => [SLASH] | _ => path_of elems end.

(** a component of a path: not empty, no slash and no NUL in it *)
Definition comp_ok (e : cstring) : Prop :=
  e <> [] /\ Forall (fun c => c <> SLASH /\ c <> 0) e.

(** the directory part that the loop of [path_split_strings] builds *)
Fixpoint join (es : slist_t) : list Z :=
  match es with
  | [] => []
  | [e] => e
  | e :: es' => e ++ SLASH :: join es'
  end.

(** * Properties *)

(** ** Arrays, bitmaps and integers *)

Lemma upd_same {A} (f : Z -> A) k v : upd f k v k = v.
Proof. unfold upd. now rewrite Z.eqb_refl. Qed.

Lemma upd_other {A} (f : Z -> A) k v j : j <> k -> upd f k v j = f j.
Proof. intros H. unfold upd. destruct (Z.eqb_spec j k); congruence. Qed.

Lemma bitmap_get_put_same bm i v : 0 <= i -> bitmap_get (bitmap_put bm i v) i = v.
Proof.
  intros Hi. unfold bitmap_get, bitmap_put. destruct v.
  - rewrite Z.setbit_eqb by assumption. now rewrite Z.eqb_refl.
  - rewrite Z.clearbit_eqb. rewrite Z.eqb_refl. apply andb_false_r.
Qed.

Lemma bitmap_get_put_other bm i v j :
  j <> i -> bitmap_get (bitmap_put bm i v) j = bitmap_get bm j.
Proof.
  intros Hne. unfold bitmap_get, bitmap_put. destruct v.
  - destruct (Z_lt_le_dec i 0) as [Hneg|Hpos].
    + unfold Z.setbit. rewrite Z.shiftl_1_l.
      rewrite Z.pow_neg_r by assumption. now rewrite Z.lor_0_r.
    + rewrite Z.setbit_eqb by assumption.
      destruct (Z.eqb_spec i j); [congruence | reflexivity].
  - rewrite Z.clearbit_eqb. destruct (Z.eqb_spec i j); [congruence|].
    apply andb_true_r.
Qed.

Lemma first_clear_some bm n : forall i j,
  first_clear bm i n = Some j ->
  i <= j < i + Z.of_nat n /\ bitmap_get bm j = false /\
  forall k, i <= k < j -> bitmap_get bm k = true.
Proof.
  induction n as [|n IH]; intros i j H; simpl in H; [discriminate|].
  destruct (bitmap_get bm i) eqn:E.
  - apply IH in H. destruct H as (H1 & H2 & H3).
    split; [lia|]. split; [assumption|].
    intros k Hk. destruct (Z.eq_dec k i) as [->|]; [assumption|]. apply H3. lia.
  - inversion H; subst. split; [lia|]. split; [assumption|]. intros; lia.
Qed.

Lemma first_clear_none bm n : forall i,
  first_clear bm i n = None ->
  forall k, i <= k < i + Z.of_nat n -> bitmap_get bm k = true.
Proof.
  induction n as [|n IH]; intros i H k Hk; simpl in *; [lia|].
  destruct (bitmap_get bm i) eqn:E; [|discriminate].
  destruct (Z.eq_dec k i) as [->|]; [assumption|]. apply (IH (i + 1)); [assumption|lia].
Qed.

Lemma int_of_bytes_int_byte v :
  -2147483648 <= v < 2147483648 ->
  int_of_bytes (int_byte v 0) (int_byte v 1) (int_byte v 2) (int_byte v 3) = v.
Proof.
  intros Hv. unfold int_of_bytes, int_byte.
  change (256 ^ 0) with 1. change (256 ^ 1) with 256.
  change (256 ^ 2) with 65536. change (256 ^ 3) with 16777216.
  rewrite Z.div_1_r.
  match goal with |- (if ?c then _ else _) = _ => destruct c eqn:E end.
  - apply Z.ltb_lt in E. Z.to_euclidean_division_equations. lia.
  - apply Z.ltb_ge in E. Z.to_euclidean_division_equations. lia.
Qed.

Ltac consts :=
  unfold MAX_FILE_SIZE, BLOCK_SIZE, BLOCK_COUNT, INODE_COUNT, NDIRECT,
    NINDIRECT, DIRENT_SIZE, DIR_NAME_LENGTH, DIR_ROOT in *.
Ltac zlia := consts; lia.

Lemma ltb_true a b : a < b -> (a <? b) = true.
Proof. apply Z.ltb_lt. Qed.
Lemma ltb_false a b : b <= a -> (a <? b) = false.
Proof. apply Z.ltb_ge. Qed.
Lemma leb_true a b : a <= b -> (a <=? b) = true.
Proof. apply Z.leb_le. Qed.
Lemma leb_false a b : b < a -> (a <=? b) = false.
Proof. apply Z.leb_gt. Qed.
Lemma eqb_false a b : a <> b -> (a =? b) = false.
Proof. apply Z.eqb_neq. Qed.

(** ** Cells of an indirect block *)

Lemma load_store_int_same c o v :
  -2147483648 <= v < 2147483648 -> load_int (store_int c o v) o = v.
Proof.
  intros Hv. unfold load_int, store_int.
  rewrite upd_other by lia. rewrite upd_other by lia. rewrite upd_other by lia.
  rewrite upd_same.
  rewrite (upd_other _ (o + 3)) by lia. rewrite (upd_other _ (o + 2)) by lia.
  rewrite upd_same.
  rewrite (upd_other _ (o + 3)) by lia. rewrite upd_same. rewrite upd_same.
  now apply int_of_bytes_int_byte.
Qed.

Lemma load_store_int_other c o o' v :
  o + 3 < o' \/ o' + 3 < o -> load_int (store_int c o v) o' = load_int c o'.
Proof.
  intros H. unfold load_int, store_int.
  repeat rewrite upd_other by lia. reflexivity.
Qed.

(** ** The block allocator *)
(** ** The records of the inode table *)

Lemma load_store_int32 c o v : load_int (store_int c o v) o = int32 v.
Proof.
  unfold load_int, store_int, int32.
  rewrite upd_other by lia. rewrite upd_other by lia. rewrite upd_other by lia.
  rewrite upd_same.
  rewrite (upd_other _ (o + 3)) by lia. rewrite (upd_other _ (o + 2)) by lia.
  rewrite upd_same.
  rewrite (upd_other _ (o + 3)) by lia. rewrite upd_same. rewrite upd_same.
  reflexivity.
Qed.

Lemma int32_id v : -2147483648 <= v < 2147483648 -> int32 v = v.
Proof. exact (int_of_bytes_int_byte v). Qed.

Lemma int32_range v : -2147483648 <= int32 v < 2147483648.
Proof.
  unfold int32, int_of_bytes, int_byte.
  change (256 ^ 0) with 1. change (256 ^ 1) with 256.
  change (256 ^ 2) with 65536. change (256 ^ 3) with 16777216.
  match goal with |- _ <= (if ?c then _ else _) < _ => destruct c eqn:E end.
  - apply Z.ltb_lt in E. Z.to_euclidean_division_equations. lia.
  - apply Z.ltb_ge in E. Z.to_euclidean_division_equations. lia.
Qed.

Lemma field_off_aligned f : field_off f mod 4 = 0.
Proof.
  destruct f; try reflexivity. cbn [field_off].
  Z.to_euclidean_division_equations. lia.
Qed.

Lemma field_off_range f : field_ok f -> 0 <= field_off f <= INODE_SIZE - 4.
Proof. destruct f; cbn [field_ok field_off]; unfold INODE_SIZE, NDIRECT; lia. Qed.

Lemma rec_place_split i o :
  INODE_SIZE * i + o = BLOCK_SIZE * (rec_block i o - 1) + rec_off i o /\
  0 <= rec_off i o < BLOCK_SIZE.
Proof.
  unfold rec_block, rec_off. split.
  - replace (1 + (INODE_SIZE * i + o) / BLOCK_SIZE - 1)
      with ((INODE_SIZE * i + o) / BLOCK_SIZE) by lia.
    apply Z.div_mod. unfold BLOCK_SIZE. lia.
  - apply Z.mod_pos_bound. unfold BLOCK_SIZE. lia.
Qed.

Lemma rec_off_aligned i f : rec_off i (field_off f) mod 4 = 0.
Proof.
  unfold rec_off. pose proof (field_off_aligned f) as H.
  unfold INODE_SIZE, BLOCK_SIZE.
  Z.to_euclidean_division_equations. lia.
Qed.

Lemma load_field_with_field_same i f v s :
  load_field (with_field i f v s) i f = int32 v.
Proof.
  unfold load_field, with_field. cbn [blocks with_block].
  rewrite upd_same. apply load_store_int32.
Qed.

Lemma load_field_with_field_other i f v s j g :
  INODE_SIZE * i + field_off f <> INODE_SIZE * j + field_off g ->
  load_field (with_field i f v s) j g = load_field s j g.
Proof.
  intros Hne. unfold load_field, with_field. cbn [blocks with_block].
  unfold upd at 1.
  destruct (Z.eqb_spec (rec_block j (field_off g)) (rec_block i (field_off f)))
    as [E|E]; [|reflexivity].
  rewrite E. apply load_store_int_other.
  pose proof (rec_place_split i (field_off f)) as [H1 _].
  pose proof (rec_place_split j (field_off g)) as [H2 _].
  pose proof (rec_off_aligned i f) as A1. pose proof (rec_off_aligned j g) as A2.
  rewrite E in H2.
  assert (rec_off i (field_off f) <> rec_off j (field_off g)) by lia.
  Z.to_euclidean_division_equations. lia.
Qed.

Lemma load_field_with_field_rec i f v s j g :
  j <> i -> field_ok f -> field_ok g ->
  load_field (with_field i f v s) j g = load_field s j g.
Proof.
  intros Hne Hf Hg. apply load_field_with_field_other.
  pose proof (field_off_range f Hf). pose proof (field_off_range g Hg).
  unfold INODE_SIZE in *. lia.
Qed.

Lemma direct_guard k : (0 <=? k) && (k <? NDIRECT) = true -> field_ok (f_direct k).
Proof.
  intros H. apply andb_prop in H. destruct H as [H1 H2].
  apply Z.leb_le in H1. apply Z.ltb_lt in H2. cbn [field_ok]. lia.
Qed.

(** A store to a field of the record of [i] changes that field of [i] and
    no field of another record. *)
Lemma itab_with_field_other i f v s j :
  j <> i -> field_ok f -> itab (with_field i f v s) j = itab s j.
Proof.
  intros Hne Hf. unfold itab.
  rewrite !(load_field_with_field_rec i f v s j) by (assumption || exact I).
  f_equal. apply functional_extensionality. intros k.
  destruct ((0 <=? k) && (k <? NDIRECT)) eqn:G; [|reflexivity].
  apply load_field_with_field_rec; [assumption|assumption|now apply direct_guard].
Qed.

Lemma itab_with_field_same i f v s :
  field_ok f -> itab (with_field i f v s) i = set_field f (int32 v) (itab s i).
Proof.
  intros Hf. unfold itab.
  assert (Hd : forall g, g <> f -> field_ok g ->
                 load_field (with_field i f v s) i g = load_field s i g).
  { intros g Hg Hok. apply load_field_with_field_other.
    pose proof (field_off_range f Hf). pose proof (field_off_range g Hok).
    destruct f, g; cbn [field_off field_ok] in *; unfold NDIRECT in *;
      try congruence; try lia.
    intros E. apply Hg. f_equal. lia. }
  assert (Hdir : (forall k, f <> f_direct k) ->
            (fun k => if (0 <=? k) && (k <? NDIRECT)
                      then load_field (with_field i f v s) i (f_direct k) else 0)
            = (fun k => if (0 <=? k) && (k <? NDIRECT)
                        then load_field s i (f_direct k) else 0)).
  { intros Hg. apply functional_extensionality. intros k.
    destruct ((0 <=? k) && (k <? NDIRECT)) eqn:G; [|reflexivity].
    apply Hd; [apply not_eq_sym, Hg | now apply direct_guard]. }
  destruct f; cbn [set_field set_inum set_mode set_refs set_links set_size
                   set_direct set_indirect inum mode refs links size direct
                   indirect];
    rewrite ?load_field_with_field_same;
    rewrite ?Hd by (discriminate || exact I);
    try (rewrite Hdir by (intros; discriminate); reflexivity).
  unfold set_direct. cbn [inum mode refs links size direct indirect].
  f_equal. apply functional_extensionality. intros k'. unfold upd.
  destruct (Z.eqb_spec k' k) as [->|Hne].
  - cbn [field_ok] in Hf. rewrite (leb_true 0 k), (ltb_true k NDIRECT) by lia.
    cbn [andb]. apply load_field_with_field_same.
  - destruct ((0 <=? k') && (k' <? NDIRECT)) eqn:G; [|reflexivity].
    apply Hd; [congruence | now apply direct_guard].
Qed.

Lemma itab_with_field i f v s :
  field_ok f ->
  itab (with_field i f v s) = upd (itab s) i (set_field f (int32 v) (itab s i)).
Proof.
  intros Hf. apply functional_extensionality. intros j. unfold upd.
  destruct (Z.eqb_spec j i) as [->|Hne].
  - now apply itab_with_field_same.
  - now apply itab_with_field_other.
Qed.

(** The records of the reserved blocks and the blocks past them *)

Lemma TABLE_END_eq : TABLE_END = 5.
Proof. reflexivity. Qed.

Lemma rec_block_low i o :
  low_inode i -> 0 <= o < INODE_SIZE -> 0 < rec_block i o < TABLE_END.
Proof.
  intros [H1 H2] Ho. rewrite TABLE_END_eq in *. unfold rec_block.
  unfold INODE_SIZE, BLOCK_SIZE in *.
  Z.to_euclidean_division_equations. lia.
Qed.

Lemma load_field_ext s s' i f :
  field_ok f ->
  blocks s' (rec_block i (field_off f)) = blocks s (rec_block i (field_off f)) ->
  load_field s' i f = load_field s i f.
Proof. intros _ H. unfold load_field. now rewrite H. Qed.

Lemma itab_ext s s' i :
  (forall o, 0 <= o < INODE_SIZE -> blocks s' (rec_block i o) = blocks s (rec_block i o)) ->
  itab s' i = itab s i.
Proof.
  intros H. unfold itab.
  assert (Hf : forall f, field_ok f -> load_field s' i f = load_field s i f).
  { intros f Hf. apply load_field_ext; [assumption|]. apply H.
    pose proof (field_off_range f Hf). lia. }
  rewrite !Hf by exact I. f_equal.
  apply functional_extensionality. intros k.
  destruct ((0 <=? k) && (k <? NDIRECT)) eqn:G; [|reflexivity].
  apply Hf. now apply direct_guard.
Qed.

Lemma itab_low_ext s s' i :
  low_inode i ->
  (forall b, 0 < b < TABLE_END -> blocks s' b = blocks s b) ->
  itab s' i = itab s i.
Proof.
  intros Hl H. apply itab_ext. intros o Ho. apply H. now apply rec_block_low.
Qed.

Lemma itab_with_block b c s i :
  low_inode i -> TABLE_END <= b -> itab (with_block b c s) i = itab s i.
Proof.
  intros Hl Hb. apply itab_low_ext; [assumption|].
  intros b' Hb'. cbn [blocks with_block]. apply upd_other. lia.
Qed.

Lemma itab_with_byte b off v s i :
  low_inode i -> TABLE_END <= b -> itab (with_byte b off v s) i = itab s i.
Proof.
  intros Hl Hb. apply itab_low_ext; [assumption|].
  intros b' Hb'. cbn [blocks with_byte]. apply upd_other. lia.
Qed.

Lemma itab_with_bbm v s : itab (with_bbm v s) = itab s.
Proof. reflexivity. Qed.

Lemma itab_with_ibm v s : itab (with_ibm v s) = itab s.
Proof. reflexivity. Qed.

Lemma low_inode_bound i : low_inode i <-> 0 <= i <= 226.
Proof.
  unfold low_inode. rewrite TABLE_END_eq. unfold INODE_SIZE, BLOCK_SIZE. lia.
Qed.

Lemma get_inode_low i : low_inode i -> 0 < i -> get_inode i = Some i.
Proof.
  intros Hl Hi. apply low_inode_bound in Hl. unfold get_inode, INODE_COUNT.
  rewrite (leb_false i 0) by lia. now rewrite (leb_false 256 i) by lia.
Qed.

Lemma blocks_with_field i f v s b :
  low_inode i -> field_ok f -> TABLE_END <= b ->
  blocks (with_field i f v s) b = blocks s b.
Proof.
  intros Hl Hf Hb. unfold with_field. cbn [blocks with_block].
  apply upd_other.
  pose proof (field_off_range f Hf).
  pose proof (rec_block_low i (field_off f) Hl ltac:(lia)). lia.
Qed.

Lemma blocks_with_field_frame i f v s b o :
  ~ field_bytes i f b o -> blocks (with_field i f v s) b o = blocks s b o.
Proof.
  intros Hn. unfold with_field. cbn [blocks with_block]. unfold upd at 1.
  destruct (Z.eqb_spec b (rec_block i (field_off f))) as [->|Hb]; [|reflexivity].
  unfold store_int, upd.
  repeat match goal with
         | |- context [?x =? ?y] => destruct (Z.eqb_spec x y)
         end; try reflexivity; exfalso; apply Hn; split; (reflexivity || lia).
Qed.

Lemma bbm_with_field i f v s : bbm (with_field i f v s) = bbm s.
Proof. reflexivity. Qed.

Lemma ibm_with_field i f v s : ibm (with_field i f v s) = ibm s.
Proof. reflexivity. Qed.

Lemma alloc_block_spec s :
  (alloc_block s = Ok (-1) s /\
   forall b, 0 < b < BLOCK_COUNT -> bitmap_get (bbm s) b = true) \/
  (exists b, alloc_block s =
             Ok b (with_block b (fun _ => 0)
                     (with_bbm (bitmap_put (bbm s) b true) s)) /\
             0 < b < BLOCK_COUNT /\ bitmap_get (bbm s) b = false /\
             forall k, 0 < k < b -> bitmap_get (bbm s) k = true).
Proof.
  unfold alloc_block.
  destruct (first_clear (bbm s) 1 (Z.to_nat (BLOCK_COUNT - 1))) as [b|] eqn:E.
  - right. exists b. apply first_clear_some in E. unfold BLOCK_COUNT in *.
    destruct E as (H1 & H2 & H3). split; [reflexivity|].
    split; [lia|]. split; [assumption|]. intros k Hk. apply H3. lia.
  - left. split; [reflexivity|]. intros b Hb.
    apply (first_clear_none _ _ _ E). unfold BLOCK_COUNT in *. lia.
Qed.

Lemma used_block_in_image s b : used_block s b -> in_image b = true.
Proof.
  intros [H _]. unfold in_image. apply andb_true_intro. split.
  - apply Z.leb_le. lia.
  - apply Z.ltb_lt. lia.
Qed.

Lemma in_image_range b : 0 <= b < BLOCK_COUNT -> in_image b = true.
Proof.
  intros H. unfold in_image. apply andb_true_intro. split.
  - apply Z.leb_le. lia.
  - apply Z.ltb_lt. lia.
Qed.

(** ** How [file_block] depends on the image *)

Lemma inode_valid_ext s s' i :
  ibm s' = ibm s -> inum (itab s' i) = inum (itab s i) ->
  inode_valid s' (Some i) = inode_valid s (Some i).
Proof. intros H1 H2. unfold inode_valid. now rewrite H1, H2. Qed.

Lemma inode_get_bnum_direct s i j :
  inode_valid s (Some i) = true -> 0 <= j < NDIRECT ->
  inode_get_bnum s (Some i) j = Some (SDirect i j).
Proof.
  intros Hv Hj. unfold inode_get_bnum. rewrite Hv.
  rewrite (ltb_false j 0) by lia.
  rewrite (leb_false (NINDIRECT + NDIRECT) j) by zlia.
  rewrite (ltb_true j NDIRECT) by lia. reflexivity.
Qed.

Lemma inode_get_bnum_indirect s i j :
  inode_valid s (Some i) = true -> NDIRECT <= j < NDIRECT + NINDIRECT ->
  indirect (itab s i) <> 0 ->
  inode_get_bnum s (Some i) j =
  Some (SIndirect (indirect (itab s i)) (j - NDIRECT)).
Proof.
  intros Hv Hj Hi. unfold inode_get_bnum. rewrite Hv.
  rewrite (ltb_false j 0) by zlia.
  rewrite (leb_false (NINDIRECT + NDIRECT) j) by zlia.
  rewrite (ltb_false j NDIRECT) by lia.
  rewrite (eqb_false _ 0) by assumption. reflexivity.
Qed.

Lemma inode_get_bnum_some s i j q :
  inode_get_bnum s (Some i) j = Some q ->
  inode_valid s (Some i) = true /\ 0 <= j < NDIRECT + NINDIRECT /\
  ((j < NDIRECT /\ q = SDirect i j) \/
   (NDIRECT <= j /\ indirect (itab s i) <> 0 /\
    q = SIndirect (indirect (itab s i)) (j - NDIRECT))).
Proof.
  unfold inode_get_bnum. intros H.
  destruct (inode_valid s (Some i)); [|discriminate].
  destruct (Z.ltb_spec j 0); [discriminate|].
  destruct (Z.leb_spec (NINDIRECT + NDIRECT) j); [discriminate|].
  cbn [negb orb] in H.
  split; [reflexivity|]. split; [lia|].
  destruct (Z.ltb_spec j NDIRECT).
  - left. inversion H. split; [assumption|reflexivity].
  - right. destruct (Z.eqb_spec (indirect (itab s i)) 0); [discriminate|].
    inversion H. repeat split; auto.
Qed.

Lemma file_block_direct s i j :
  inode_valid s (Some i) = true -> 0 <= j < NDIRECT ->
  file_block s i j = Some (direct (itab s i) j).
Proof.
  intros Hv Hj. unfold file_block.
  rewrite inode_get_bnum_direct by assumption. reflexivity.
Qed.

Lemma file_block_indirect s i j :
  inode_valid s (Some i) = true -> NDIRECT <= j < NDIRECT + NINDIRECT ->
  indirect (itab s i) <> 0 -> in_image (indirect (itab s i)) = true ->
  file_block s i j =
  Some (load_int (blocks s (indirect (itab s i))) (4 * (j - NDIRECT))).
Proof.
  intros Hv Hj Hi Him. unfold file_block.
  rewrite inode_get_bnum_indirect by assumption.
  unfold load_slot. now rewrite Him.
Qed.

Lemma file_block_some s i j v :
  file_block s i j = Some v ->
  inode_valid s (Some i) = true /\ 0 <= j < NDIRECT + NINDIRECT /\
  ((j < NDIRECT /\ v = direct (itab s i) j) \/
   (NDIRECT <= j /\ indirect (itab s i) <> 0 /\
    in_image (indirect (itab s i)) = true /\
    v = load_int (blocks s (indirect (itab s i))) (4 * (j - NDIRECT)))).
Proof.
  unfold file_block. intros H.
  destruct (inode_get_bnum s (Some i) j) as [q|] eqn:E; [|discriminate].
  apply inode_get_bnum_some in E. destruct E as (Hv & Hj & [[Hd ->]|(Hd & Hi & ->)]).
  - split; [assumption|]. split; [assumption|]. left. inversion H. auto.
  - split; [assumption|]. split; [assumption|]. right.
    unfold load_slot in H. destruct (in_image (indirect (itab s i))); [|discriminate].
    inversion H. auto.
Qed.

(** ** The relation [grown] *)

Lemma file_block_ext s s' i j :
  ibm s' = ibm s -> inum (itab s' i) = inum (itab s i) ->
  indirect (itab s' i) = indirect (itab s i) ->
  (0 <= j < NDIRECT -> direct (itab s' i) j = direct (itab s i) j) ->
  (NDIRECT <= j -> indirect (itab s i) <> 0 ->
   load_int (blocks s' (indirect (itab s i))) (4 * (j - NDIRECT)) =
   load_int (blocks s (indirect (itab s i))) (4 * (j - NDIRECT))) ->
  file_block s' i j = file_block s i j.
Proof.
  intros Hb Hn Hi Hd Hl.
  assert (Hv : inode_valid s' (Some i) = inode_valid s (Some i))
    by now apply inode_valid_ext.
  unfold file_block, inode_get_bnum. rewrite Hv, Hi.
  destruct (inode_valid s (Some i)); [|reflexivity].
  destruct (Z.ltb_spec j 0); [reflexivity|].
  destruct (Z.leb_spec (NINDIRECT + NDIRECT) j); [reflexivity|].
  cbn [negb orb].
  destruct (Z.ltb_spec j NDIRECT).
  - unfold load_slot. rewrite Hd by lia. reflexivity.
  - destruct (Z.eqb_spec (indirect (itab s i)) 0); [reflexivity|].
    unfold load_slot. rewrite Hl by (assumption || lia). reflexivity.
Qed.

Lemma grown_refl i s cur : grown i s s cur [].
Proof.
  constructor; try reflexivity; try tauto.
  - intros b [].
  - constructor.
  - intros b. simpl. tauto.
  - simpl. intros j Hj. lia.
Qed.

Lemma grown_valid i s s' cur bs :
  grown i s s' cur bs -> inode_valid s' (Some i) = inode_valid s (Some i).
Proof. intros G. apply inode_valid_ext; [apply (gr_ibm _ _ _ _ _ G) | apply (gr_inum _ _ _ _ _ G)]. Qed.

Lemma grown_mono i s s' cur bs b :
  grown i s s' cur bs -> bitmap_get (bbm s) b = true -> bitmap_get (bbm s') b = true.
Proof. intros G H. apply (gr_bbm _ _ _ _ _ G). now left. Qed.

Lemma grown_indirect_ok i s s' cur bs :
  grown i s s' cur bs -> indirect_ok s i -> indirect_ok s' i.
Proof.
  intros G H. unfold indirect_ok in *.
  destruct (Z.eq_dec (indirect (itab s i)) 0) as [E|E].
  - destruct (Z.eq_dec (indirect (itab s' i)) 0) as [E'|E']; [now left|].
    right. destruct (gr_ind_new _ _ _ _ _ G E E') as [Hr Hc].
    split; [assumption|]. apply (gr_bbm _ _ _ _ _ G). right. right. auto.
  - destruct H as [H|[Hr Hu]]; [contradiction|]. right.
    rewrite (gr_ind _ _ _ _ _ G E). split; [assumption|].
    now apply (grown_mono _ _ _ _ _ _ G).
Qed.

Lemma grown_trans i s s1 s2 cur bs1 bs2 :
  grown i s s1 cur bs1 ->
  grown i s1 s2 (cur + Z.of_nat (length bs1)) bs2 ->
  grown i s s2 cur (bs1 ++ bs2).
Proof.
  intros G1 G2.
  assert (Hnew : indirect (itab s i) = 0 -> indirect (itab s2 i) <> 0 ->
                 0 < indirect (itab s2 i) < BLOCK_COUNT /\
                 bitmap_get (bbm s) (indirect (itab s2 i)) = false).
  { intros E E2.
    destruct (Z.eq_dec (indirect (itab s1 i)) 0) as [E1|E1].
    - destruct (gr_ind_new _ _ _ _ _ G2 E1 E2) as [Hr Hc]. split; [assumption|].
      destruct (bitmap_get (bbm s) (indirect (itab s2 i))) eqn:B; [|reflexivity].
      apply (grown_mono _ _ _ _ _ _ G1) in B. congruence.
    - rewrite (gr_ind _ _ _ _ _ G2 E1).
      apply (gr_ind_new _ _ _ _ _ G1 E E1). }
  assert (Hf1 : forall b, In b bs1 -> b <> indirect (itab s2 i)).
  { intros b Hb. destruct (gr_fresh _ _ _ _ _ G1 b Hb) as (Hr & Hc & Hn).
    destruct (Z.eq_dec (indirect (itab s1 i)) 0) as [E1|E1].
    - destruct (Z.eq_dec (indirect (itab s2 i)) 0) as [E2|E2]; [lia|].
      destruct (gr_ind_new _ _ _ _ _ G2 E1 E2) as [_ Hc2].
      assert (bitmap_get (bbm s1) b = true)
        by (apply (gr_bbm _ _ _ _ _ G1); auto).
      congruence.
    - rewrite (gr_ind _ _ _ _ _ G2 E1). assumption. }
  constructor.
  - rewrite (gr_ibm _ _ _ _ _ G2). apply (gr_ibm _ _ _ _ _ G1).
  - intros i' Hi' Hl'. rewrite (gr_other _ _ _ _ _ G2 i' Hi' Hl').
    apply (gr_other _ _ _ _ _ G1 i' Hi' Hl').
  - rewrite (gr_inum _ _ _ _ _ G2). apply (gr_inum _ _ _ _ _ G1).
  - rewrite (gr_mode _ _ _ _ _ G2). apply (gr_mode _ _ _ _ _ G1).
  - rewrite (gr_refs _ _ _ _ _ G2). apply (gr_refs _ _ _ _ _ G1).
  - rewrite (gr_links _ _ _ _ _ G2). apply (gr_links _ _ _ _ _ G1).
  - intros E. rewrite <- (gr_ind _ _ _ _ _ G1 E).
    apply (gr_ind _ _ _ _ _ G2). rewrite (gr_ind _ _ _ _ _ G1 E). assumption.
  - exact Hnew.
  - intros b Hb. apply in_app_or in Hb. destruct Hb as [Hb|Hb].
    + destruct (gr_fresh _ _ _ _ _ G1 b Hb) as (Hr & Hc & _).
      split; [assumption|]. split; [assumption|]. now apply Hf1.
    + destruct (gr_fresh _ _ _ _ _ G2 b Hb) as (Hr & Hc & Hn).
      split; [assumption|]. split; [|assumption].
      destruct (bitmap_get (bbm s) b) eqn:B; [|reflexivity].
      apply (grown_mono _ _ _ _ _ _ G1) in B. congruence.
  - apply NoDup_app; [apply (gr_nodup _ _ _ _ _ G1) | apply (gr_nodup _ _ _ _ _ G2) |].
    intros b Hb1 Hb2.
    destruct (gr_fresh _ _ _ _ _ G2 b Hb2) as (_ & Hc & _).
    assert (bitmap_get (bbm s1) b = true) by (apply (gr_bbm _ _ _ _ _ G1); auto).
    congruence.
  - intros b. rewrite (gr_bbm _ _ _ _ _ G2 b). rewrite (gr_bbm _ _ _ _ _ G1 b).
    rewrite in_app_iff.
    destruct (Z.eq_dec (indirect (itab s i)) 0) as [E|E].
    + destruct (Z.eq_dec (indirect (itab s1 i)) 0) as [E1|E1].
      * tauto.
      * pose proof (gr_ind _ _ _ _ _ G2 E1) as E2. rewrite E2. tauto.
    + pose proof (gr_ind _ _ _ _ _ G1 E) as E1.
      assert (indirect (itab s1 i) <> 0) by congruence. tauto.
  - intros j Hj. rewrite length_app in Hj.
    destruct (Nat.lt_ge_cases j (length bs1)) as [Hlt|Hge].
    + rewrite app_nth1 by assumption.
      apply (gr_old _ _ _ _ _ G2); [lia|]. now apply (gr_new _ _ _ _ _ G1).
    + rewrite app_nth2 by lia.
      replace (cur + Z.of_nat j)
        with (cur + Z.of_nat (length bs1) + Z.of_nat (j - length bs1)) by lia.
      apply (gr_new _ _ _ _ _ G2). lia.
  - intros j v Hj Hv. apply (gr_old _ _ _ _ _ G2); [lia|].
    now apply (gr_old _ _ _ _ _ G1).
Qed.

(** ** One iteration of the loop of [grow_inode] *)

Ltac proj :=
  cbn [ibm bbm blocks with_block with_bbm with_ibm with_byte
       inum mode refs links size direct indirect set_field
       set_direct set_indirect set_size set_inum set_mode set_links set_refs] in *.

Lemma bitmap_put_true_iff bm b b' :
  0 <= b ->
  bitmap_get (bitmap_put bm b true) b' = true <->
  bitmap_get bm b' = true \/ b' = b.
Proof.
  intros Hb. destruct (Z.eq_dec b' b) as [->|Hne].
  - rewrite bitmap_get_put_same by assumption. tauto.
  - rewrite bitmap_get_put_other by assumption. tauto.
Qed.

Lemma indirect_ok_not_free s i b :
  indirect_ok s i -> 0 < b -> bitmap_get (bbm s) b = false ->
  b <> indirect (itab s i).
Proof.
  intros [E|[_ Hu]] Hb Hc; [lia|]. intros ->. congruence.
Qed.

(** a free block lies past the reserved blocks *)
Lemma free_past_table s b :
  table_reserved s -> 0 < b -> bitmap_get (bbm s) b = false -> TABLE_END <= b.
Proof.
  intros Hres Hb Hfree. destruct (Z_lt_le_dec b TABLE_END) as [Hlt|]; [|assumption].
  rewrite (Hres b) in Hfree by lia. discriminate.
Qed.

Lemma table_reserved_mono s s' :
  (forall b, bitmap_get (bbm s) b = true -> bitmap_get (bbm s') b = true) ->
  table_reserved s -> table_reserved s'.
Proof. intros H Hres b Hb. apply H. now apply Hres. Qed.

Lemma grown_reserved i s s' cur bs :
  grown i s s' cur bs -> table_reserved s -> table_reserved s'.
Proof. intros G. apply table_reserved_mono. intros b. now apply (grown_mono _ _ _ _ _ _ G). Qed.

Lemma grown_ind_off i s s' cur bs :
  grown i s s' cur bs -> table_reserved s ->
  (indirect (itab s i) <> 0 -> TABLE_END <= indirect (itab s i)) ->
  indirect (itab s' i) <> 0 -> TABLE_END <= indirect (itab s' i).
Proof.
  intros G Hres Hoff Hne.
  destruct (Z.eq_dec (indirect (itab s i)) 0) as [E|E].
  - destruct (gr_ind_new _ _ _ _ _ G E Hne) as [Hr Hc].
    apply (free_past_table s); [assumption|lia|assumption].
  - rewrite (gr_ind _ _ _ _ _ G E). now apply Hoff.
Qed.

(** the image after [alloc_block] took the block [b]: the records of the
    reserved blocks are as they were *)
Lemma itab_alloc_block s b i :
  low_inode i -> TABLE_END <= b ->
  itab (with_block b (fun _ => 0) (with_bbm (bitmap_put (bbm s) b true) s)) i
  = itab s i.
Proof. intros Hl Hb. now rewrite itab_with_block by assumption. Qed.

Lemma maybe_indirect_spec i cur s :
  low_inode i -> table_reserved s ->
  inode_valid s (Some i) = true -> indirect_ok s i ->
  let m := if (NDIRECT <=? cur) && (indirect (itab s i) =? 0)
           then alloc_indirect i else ret 0 in
  (m s = Ok (-1) s /\
   forall b, 0 < b < BLOCK_COUNT -> bitmap_get (bbm s) b = true) \/
  (exists s1, m s = Ok 0 s1 /\ grown i s s1 cur [] /\
              size (itab s1 i) = size (itab s i) /\
              (NDIRECT <= cur -> indirect (itab s1 i) <> 0)).
Proof.
  intros Hl Hres Hv Hok m. subst m.
  destruct (Z.leb_spec NDIRECT cur) as [Hc|Hc];
    [destruct (Z.eqb_spec (indirect (itab s i)) 0) as [E|E]|]; cbn [andb].
  - unfold alloc_indirect, bind.
    destruct (alloc_block_spec s) as [[-> Hfull]|(b & -> & Hr & Hfree & _)].
    + left. split; [reflexivity|assumption].
    + right. rewrite (eqb_false b (-1)) by lia.
      unfold modify, ret. eexists. split; [reflexivity|].
      assert (Hb5 : TABLE_END <= b) by (apply (free_past_table s); (assumption || lia)).
      set (sb := with_block b (fun _ => 0) (with_bbm (bitmap_put (bbm s) b true) s)).
      assert (Hi : itab (with_field i f_indirect b sb) i = set_indirect b (itab s i)).
      { rewrite itab_with_field_same by exact I. cbn [set_field].
        rewrite int32_id by zlia. unfold sb. now rewrite itab_alloc_block. }
      assert (Ho : forall i', i' <> i -> low_inode i' ->
                     itab (with_field i f_indirect b sb) i' = itab s i').
      { intros i' Hne Hl'. rewrite itab_with_field_other by (assumption || exact I).
        unfold sb. now rewrite itab_alloc_block. }
      split; [|split].
      * constructor; rewrite ?Hi; proj; try reflexivity.
        -- exact Ho.
        -- intros Hne. contradiction.
        -- intros _ _. split; assumption.
        -- intros b' [].
        -- constructor.
        -- intros b'. rewrite bbm_with_field. unfold sb. proj.
           rewrite bitmap_put_true_iff by lia. cbn [In].
           split; [intros [H|H]; [now left | right; right; repeat split; (assumption || lia)]
                  | intros [H|[[]|(_ & _ & H)]]; [now left | now right]].
        -- cbn [length]. intros j Hj. lia.
        -- intros j v Hj Hfb. apply file_block_some in Hfb.
           destruct Hfb as (_ & Hr' & [[Hd ->]|(_ & Hne & _)]); [|contradiction].
           rewrite file_block_direct.
           ++ rewrite Hi. reflexivity.
           ++ rewrite <- Hv. apply inode_valid_ext; [reflexivity|].
              rewrite Hi. reflexivity.
           ++ lia.
      * rewrite Hi. reflexivity.
      * intros _. rewrite Hi. proj. lia.
  - right. exists s. split; [reflexivity|]. split; [apply grown_refl|].
    split; [reflexivity|]. intros _. assumption.
  - right. exists s. split; [reflexivity|]. split; [apply grown_refl|].
    split; [reflexivity|]. intros H. lia.
Qed.

Lemma data_block_spec i cur s :
  low_inode i -> table_reserved s ->
  (indirect (itab s i) <> 0 -> TABLE_END <= indirect (itab s i)) ->
  inode_valid s (Some i) = true -> indirect_ok s i -> 0 <= cur ->
  (NDIRECT <= cur -> indirect (itab s i) <> 0) ->
  (alloc_block s = Ok (-1) s /\
   forall b, 0 < b < BLOCK_COUNT -> bitmap_get (bbm s) b = true) \/
  (exists b sb, alloc_block s = Ok b sb /\ b <> -1 /\
     ((NDIRECT + NINDIRECT <= cur /\ inode_get_bnum sb (Some i) cur = None) \/
      (exists q s2, inode_get_bnum sb (Some i) cur = Some q /\
                    store_slot q b sb = Some s2 /\
                    grown i s s2 cur [b] /\
                    size (itab s2 i) = size (itab s i)))).
Proof.
  intros Hl Hres Hoff Hv Hok Hcur Hind.
  destruct (alloc_block_spec s) as [[-> Hfull]|(b & -> & Hr & Hfree & _)].
  { left. split; [reflexivity|assumption]. }
  right. eexists b, _. split; [reflexivity|]. split; [lia|].
  assert (Hb5 : TABLE_END <= b) by (apply (free_past_table s); (assumption || lia)).
  set (sb := with_block b (fun _ => 0) (with_bbm (bitmap_put (bbm s) b true) s)).
  assert (Hsb : forall j, low_inode j -> itab sb j = itab s j)
    by (intros j Hj; unfold sb; now rewrite itab_alloc_block).
  assert (Hvb : inode_valid sb (Some i) = true).
  { rewrite <- Hv. apply inode_valid_ext; [reflexivity|]. now rewrite Hsb. }
  assert (Hbi : b <> indirect (itab s i))
    by (apply indirect_ok_not_free; (assumption || lia)).
  destruct (Z_lt_le_dec cur (NDIRECT + NINDIRECT)) as [Hlt|Hge].
  2:{ left. split; [assumption|]. unfold inode_get_bnum. rewrite Hvb.
      rewrite (leb_true (NINDIRECT + NDIRECT) cur) by lia.
      rewrite orb_true_r. reflexivity. }
  right.
  destruct (Z_lt_le_dec cur NDIRECT) as [Hd|Hd].
  - (* a cell of [direct] *)
    rewrite inode_get_bnum_direct by (assumption || lia).
    eexists _, _. split; [reflexivity|]. split; [reflexivity|].
    assert (Hi : itab (with_field i (f_direct cur) b sb) i
                 = set_direct cur b (itab s i)).
    { rewrite itab_with_field_same by (cbn [field_ok]; lia). cbn [set_field].
      rewrite int32_id by zlia. now rewrite Hsb. }
    assert (Ho : forall i', i' <> i -> low_inode i' ->
                   itab (with_field i (f_direct cur) b sb) i' = itab s i').
    { intros i' Hne Hl'.
      rewrite itab_with_field_other by (assumption || (cbn [field_ok]; lia)).
      now apply Hsb. }
    split.
    + constructor; rewrite ?Hi; proj; try reflexivity.
      * exact Ho.
      * intros H1 H2. contradiction.
      * intros b' [<-|[]]. split; [assumption|]. split; assumption.
      * constructor; [intros []|constructor].
      * intros b'. rewrite bbm_with_field. unfold sb. proj.
        rewrite bitmap_put_true_iff by lia. cbn [In].
        split; [intros [H|H]; [now left | right; left; left; now symmetry]
               | intros [H|[[H|[]]|(H1 & H2 & _)]];
                 [now left | right; now symmetry | contradiction]].
      * cbn [length]. intros j Hj. assert (j = 0)%nat as -> by lia.
        rewrite Z.add_0_r. rewrite file_block_direct.
        -- rewrite Hi. proj. rewrite upd_same. reflexivity.
        -- rewrite <- Hv. apply inode_valid_ext; [reflexivity|].
           rewrite Hi. reflexivity.
        -- lia.
      * intros j v Hj Hfb. rewrite <- Hfb. apply file_block_ext;
          rewrite ?Hi; proj; try reflexivity.
        -- intros Hj'. rewrite upd_other by lia. reflexivity.
        -- intros _ Hne.
           rewrite blocks_with_field
             by (try assumption; try (cbn [field_ok]; lia); now apply Hoff).
           unfold sb. proj. rewrite upd_other; [reflexivity|].
           intros Heq. apply Hbi. now symmetry.
    + rewrite Hi. reflexivity.
  - (* a cell of the indirect block *)
    specialize (Hind Hd). specialize (Hoff Hind).
    assert (Hused : used_block s (indirect (itab s i)))
      by (destruct Hok as [E|H]; [contradiction|assumption]).
    assert (Him : in_image (indirect (itab s i)) = true)
      by (eapply used_block_in_image; eassumption).
    rewrite inode_get_bnum_indirect;
      [| assumption | lia | now rewrite Hsb].
    rewrite (Hsb i Hl).
    eexists _, _. split; [reflexivity|].
    split; [unfold store_slot; rewrite Him; reflexivity|].
    set (ind := indirect (itab s i)) in *.
    set (s2 := with_block ind (store_int (blocks sb ind) (4 * (cur - NDIRECT)) b) sb).
    assert (Hs2 : forall j, low_inode j -> itab s2 j = itab s j).
    { intros j Hj. unfold s2. rewrite itab_with_block by assumption. now apply Hsb. }
    split.
    + constructor; rewrite ?(Hs2 i Hl); proj; try reflexivity.
      * intros i' _ Hl'. now apply Hs2.
      * intros H1 H2. contradiction.
      * intros b' [<-|[]]. split; [assumption|]. split; assumption.
      * constructor; [intros []|constructor].
      * intros b'. unfold s2, sb. proj. rewrite bitmap_put_true_iff by lia. cbn [In].
        split; [intros [H|H]; [now left | right; left; left; now symmetry]
               | intros [H|[[H|[]]|(H1 & H2 & _)]];
                 [now left | right; now symmetry | contradiction]].
      * cbn [length]. intros j Hj. assert (j = 0)%nat as -> by lia.
        rewrite Z.add_0_r. rewrite file_block_indirect; rewrite ?(Hs2 i Hl);
          [| rewrite <- Hv; apply inode_valid_ext; [reflexivity|now rewrite Hs2]
           | lia | assumption | assumption].
        fold ind. unfold s2. proj.
        rewrite upd_same. rewrite load_store_int_same by zlia. reflexivity.
      * intros j v Hj Hfb. rewrite <- Hfb. apply file_block_ext;
          rewrite ?(Hs2 i Hl); proj; try reflexivity.
        intros Hj' _. fold ind. unfold s2. proj. rewrite upd_same.
        rewrite load_store_int_other by zlia.
        unfold sb. proj.
        rewrite upd_other; [reflexivity|]. intros Heq. apply Hbi. now symmetry.
    + now rewrite Hs2.
Qed.

Lemma grown_set_size i s v cur :
  low_inode i ->
  (indirect (itab s i) <> 0 -> TABLE_END <= indirect (itab s i)) ->
  grown i s (with_field i f_size v s) cur [].
Proof.
  intros Hl Hoff.
  assert (Hi : itab (with_field i f_size v s) i = set_size (int32 v) (itab s i))
    by (now rewrite itab_with_field_same by exact I).
  constructor; rewrite ?Hi; proj; try reflexivity; try tauto.
  - intros i' Hi' _. now rewrite itab_with_field_other by (assumption || exact I).
  - intros b [].
  - constructor.
  - intros b. rewrite bbm_with_field. cbn [In]. tauto.
  - cbn [length]. intros j Hj. lia.
  - intros j w Hj Hfb. rewrite <- Hfb. apply file_block_ext;
      rewrite ?Hi; proj; try reflexivity.
    intros _ Hne. now rewrite blocks_with_field by (try assumption; try exact I; auto).
Qed.

Lemma size_set_size i s v :
  -2147483648 <= v < 2147483648 -> size (itab (with_field i f_size v s) i) = v.
Proof.
  intros Hv. rewrite itab_with_field_same by exact I. cbn [set_field set_size size].
  now apply int32_id.
Qed.

Lemma grow_loop_S k i cur s :
  grow_loop (S k) i cur s =
  match (if (NDIRECT <=? cur) && (indirect (itab s i) =? 0)
         then alloc_indirect i else ret 0) s with
  | Ok r s1 =>
      if r =? -1
      then Ok (Some (-1)) (with_field i f_size (BLOCK_SIZE * cur) s1)
      else
        match alloc_block s1 with
        | Ok bnum sb =>
            if bnum =? -1
            then Ok (Some (-1)) (with_field i f_size (BLOCK_SIZE * cur) sb)
            else
              match inode_get_bnum sb (Some i) cur with
              | None => Fault
              | Some q =>
                  match store_slot q bnum sb with
                  | Some s2 => grow_loop k i (cur + 1) s2
                  | None => Fault
                  end
              end
        | Fault => Fault
        | Hang => Hang
        end
  | Fault => Fault
  | Hang => Hang
  end.
Proof.
  cbn [grow_loop]. unfold bind at 1. unfold reads at 1. unfold bind at 1.
  destruct ((if (NDIRECT <=? cur) && (indirect (itab s i) =? 0)
             then alloc_indirect i else ret 0) s) as [r s1| |]; try reflexivity.
  destruct (r =? -1); [reflexivity|].
  unfold bind at 1. destruct (alloc_block s1) as [bnum sb| |]; try reflexivity.
  destruct (bnum =? -1); [reflexivity|].
  unfold bind, deref, update.
  destruct (inode_get_bnum sb (Some i) cur) as [q|]; [|reflexivity].
  destruct (store_slot q bnum sb); reflexivity.
Qed.

Lemma grow_loop_spec i : low_inode i -> forall k s cur,
  table_reserved s ->
  (indirect (itab s i) <> 0 -> TABLE_END <= indirect (itab s i)) ->
  inode_valid s (Some i) = true -> indirect_ok s i -> 0 <= cur ->
  BLOCK_SIZE * (cur + Z.of_nat k - 1) <= 2147483647 ->
  (grow_loop k i cur s = Fault /\ NDIRECT + NINDIRECT < cur + Z.of_nat k) \/
  (exists r s' bs,
     grow_loop k i cur s = Ok r s' /\ grown i s s' cur bs /\
     ((r = None /\ length bs = k /\ size (itab s' i) = size (itab s i)) \/
      (r = Some (-1) /\ (length bs < k)%nat /\
       size (itab s' i) = BLOCK_SIZE * (cur + Z.of_nat (length bs)) /\
       forall b, 0 < b < BLOCK_COUNT -> bitmap_get (bbm s') b = true))).
Proof.
  intros Hl. induction k as [|k IH]; intros s cur Hres Hoff Hv Hok Hcur Hmax.
  - right. exists None, s, []. split; [reflexivity|]. split; [apply grown_refl|].
    left. auto.
  - rewrite grow_loop_S.
    assert (Hrange : -2147483648 <= BLOCK_SIZE * cur < 2147483648) by zlia.
    destruct (maybe_indirect_spec i cur s Hl Hres Hv Hok)
      as [[-> Hfull]|(s1 & -> & G1 & Hsz1 & Hind1)].
    { right. rewrite Z.eqb_refl. eexists _, _, []. split; [reflexivity|].
      split; [now apply grown_set_size|]. right. split; [reflexivity|].
      split; [cbn [length]; lia|]. split.
      - rewrite size_set_size by assumption. cbn [length]. f_equal. lia.
      - rewrite bbm_with_field. exact Hfull. }
    rewrite (eqb_false 0 (-1)) by lia.
    assert (Hv1 : inode_valid s1 (Some i) = true)
      by (rewrite (grown_valid _ _ _ _ _ G1); assumption).
    assert (Hok1 : indirect_ok s1 i)
      by (eapply grown_indirect_ok; eassumption).
    assert (Hres1 : table_reserved s1) by (eapply grown_reserved; eassumption).
    assert (Hoff1 : indirect (itab s1 i) <> 0 -> TABLE_END <= indirect (itab s1 i))
      by (eapply grown_ind_off; eassumption).
    destruct (data_block_spec i cur s1 Hl Hres1 Hoff1 Hv1 Hok1 Hcur Hind1)
      as [[-> Hfull]|(b & sb & -> & Hb & [[Hge ->]|(q & s2 & -> & -> & G2 & Hsz2)])].
    + right. rewrite Z.eqb_refl. eexists _, _, []. split; [reflexivity|].
      split.
      * change (@nil Z) with (@nil Z ++ @nil Z). eapply grown_trans; [eassumption|].
        now apply grown_set_size.
      * right. split; [reflexivity|]. split; [cbn [length]; lia|]. split.
        -- rewrite size_set_size by assumption. cbn [length]. f_equal. lia.
        -- rewrite bbm_with_field. exact Hfull.
    + left. rewrite (eqb_false b (-1)) by assumption. split; [reflexivity|]. lia.
    + rewrite (eqb_false b (-1)) by assumption.
      assert (G : grown i s s2 cur [b]).
      { change [b] with ([] ++ [b]). eapply grown_trans; [eassumption|].
        cbn [length]. rewrite Z.add_0_r. assumption. }
      assert (Hv2 : inode_valid s2 (Some i) = true)
        by (rewrite (grown_valid _ _ _ _ _ G); assumption).
      assert (Hok2 : indirect_ok s2 i)
        by (eapply grown_indirect_ok; eassumption).
      assert (Hres2 : table_reserved s2) by (eapply grown_reserved; eassumption).
      assert (Hoff2 : indirect (itab s2 i) <> 0 -> TABLE_END <= indirect (itab s2 i))
        by (eapply grown_ind_off; eassumption).
      destruct (IH s2 (cur + 1) Hres2 Hoff2 Hv2 Hok2 ltac:(lia) ltac:(lia))
        as [[-> Hf]|(r & s' & bs & -> & G' & Hr)].
      * left. split; [reflexivity|]. lia.
      * right. exists r, s', (b :: bs). split; [reflexivity|]. split.
        -- change (b :: bs) with ([b] ++ bs). eapply grown_trans; [eassumption|].
           cbn [length]. assumption.
        -- destruct Hr as [(-> & Hl' & Hs)|(-> & Hl' & Hs & Hfull)].
           ++ left. split; [reflexivity|]. split; [cbn [length]; lia|]. congruence.
           ++ right. split; [reflexivity|]. split; [cbn [length]; lia|].
              split; [|assumption]. rewrite Hs. cbn [length]. f_equal. lia.
Qed.

(** ** [grow_inode] *)

Lemma bytes_to_blocks_mono a b : a <= b -> bytes_to_blocks a <= bytes_to_blocks b.
Proof. intros H. unfold bytes_to_blocks. apply Z.div_le_mono; zlia. Qed.

Lemma bytes_to_blocks_nonneg a : 0 <= a -> 0 <= bytes_to_blocks a.
Proof. intros H. unfold bytes_to_blocks. apply Z.div_pos; zlia. Qed.

Lemma bytes_to_blocks_bounds a :
  BLOCK_SIZE * (bytes_to_blocks a - 1) < a <= BLOCK_SIZE * bytes_to_blocks a.
Proof.
  unfold bytes_to_blocks, BLOCK_SIZE.
  pose proof (Z.div_mod (a + 4096 - 1) 4096 ltac:(lia)).
  pose proof (Z.mod_pos_bound (a + 4096 - 1) 4096 ltac:(lia)). lia.
Qed.

Lemma bytes_to_blocks_mul k : bytes_to_blocks (BLOCK_SIZE * k) = k.
Proof.
  unfold bytes_to_blocks, BLOCK_SIZE.
  replace (4096 * k + 4096 - 1) with (k * 4096 + 4095) by lia.
  rewrite Z.div_add_l by lia. change (4095 / 4096) with 0. lia.
Qed.

Lemma grow_inode_unfold i sz s :
  grow_inode (Some i) sz s =
  if negb (inode_valid s (Some i)) || (sz <? size (itab s i)) then Ok (-1) s
  else
    match grow_loop (Z.to_nat (bytes_to_blocks sz
                               - bytes_to_blocks (size (itab s i))))
                    i (bytes_to_blocks (size (itab s i))) s with
    | Ok (Some e) s' => Ok e s'
    | Ok None s' => Ok 0 (with_field i f_size sz s')
    | Fault => Fault
    | Hang => Hang
    end.
Proof.
  unfold grow_inode, bind, reads, ret, modify.
  destruct (negb (inode_valid s (Some i)) || (sz <? size (itab s i)));
    [reflexivity|].
  destruct (grow_loop _ i _ s) as [[e|] s'| |]; reflexivity.
Qed.

(** What [grow_inode] does to a valid inode: it returns 0 with the new size
    and the blocks [bs] taken for the new file blocks, or -1 with the size
    at the blocks that it got and no block left free; the dereference of the
    null cell past the last cell of the block map is the only other
    outcome. *)
Lemma grow_inode_spec (s : image) (i new_size : Z) :
  low_inode i -> table_reserved s ->
  (indirect (itab s i) <> 0 -> TABLE_END <= indirect (itab s i)) ->
  new_size <= 2147483647 ->
  inode_valid s (Some i) = true ->
  0 <= size (itab s i) <= new_size ->
  indirect_ok s i ->
  let cur := bytes_to_blocks (size (itab s i)) in
  let tgt := bytes_to_blocks new_size in
  (grow_inode (Some i) new_size s = Fault /\ NDIRECT + NINDIRECT < tgt) \/
  (exists r s' bs,
     grow_inode (Some i) new_size s = Ok r s' /\
     grown i s s' cur bs /\
     ((r = 0 /\ size (itab s' i) = new_size /\
       cur + Z.of_nat (length bs) = tgt) \/
      (r = -1 /\ size (itab s' i) = BLOCK_SIZE * (cur + Z.of_nat (length bs)) /\
       cur + Z.of_nat (length bs) < tgt /\
       forall b, 0 < b < BLOCK_COUNT -> bitmap_get (bbm s') b = true))).
Proof.
  intros Hlow Hres Hoff Hmax Hv Hsz Hok cur tgt.
  assert (Hct : cur <= tgt) by (apply bytes_to_blocks_mono; lia).
  assert (Hc0 : 0 <= cur) by (apply bytes_to_blocks_nonneg; lia).
  rewrite grow_inode_unfold. rewrite Hv.
  rewrite (ltb_false new_size (size (itab s i))) by lia. cbn [negb orb].
  fold cur tgt.
  assert (Hbound : BLOCK_SIZE * (cur + Z.of_nat (Z.to_nat (tgt - cur)) - 1)
                   <= 2147483647).
  { pose proof (bytes_to_blocks_bounds new_size) as Hb. fold tgt in Hb.
    replace (cur + Z.of_nat (Z.to_nat (tgt - cur)) - 1) with (tgt - 1) by lia.
    lia. }
  destruct (grow_loop_spec i Hlow (Z.to_nat (tgt - cur)) s cur Hres Hoff Hv Hok
              Hc0 Hbound)
    as [[-> Hf]|(r & s' & bs & -> & G & Hr)].
  - left. split; [reflexivity|]. lia.
  - right. destruct Hr as [(-> & Hl & Hs)|(-> & Hl & Hs & Hfull)].
    + exists 0, (with_field i f_size new_size s'), bs.
      split; [reflexivity|]. split.
      * rewrite <- (app_nil_r bs). eapply grown_trans; [eassumption|].
        apply grown_set_size; [assumption|].
        now apply (grown_ind_off i s s' cur bs).
      * left. split; [reflexivity|]. split.
        -- apply size_set_size. lia.
        -- lia.
    + exists (-1), s', bs. split; [reflexivity|]. split; [assumption|].
      right. split; [reflexivity|]. split; [assumption|]. split; [lia|assumption].
Qed.

(** ** Counting the free blocks *)

Lemma in_zseq x lo n : In x (zseq lo n) <-> lo <= x < lo + Z.of_nat n.
Proof.
  unfold zseq. rewrite in_map_iff. split.
  - intros (k & <- & Hk). apply in_seq in Hk. lia.
  - intros H. exists (Z.to_nat (x - lo)). split; [lia|]. apply in_seq. lia.
Qed.

Section Counting.
Variable A : Type.
Variables f g : A -> bool.
Hypothesis g_le_f : forall x, g x = true -> f x = true.

Lemma filter_length_le (l : list A) :
  (length (filter g l) <= length (filter f l))%nat.
Proof.
  induction l as [|x l IH]; [apply Nat.le_refl|]. cbn [filter].
  destruct (g x) eqn:G.
  - rewrite (g_le_f x G). cbn [length]. lia.
  - destruct (f x); cbn [length]; lia.
Qed.

Lemma filter_length_lt (l : list A) (b : A) :
  In b l -> f b = true -> g b = false ->
  (length (filter g l) < length (filter f l))%nat.
Proof.
  induction l as [|x l IH]; intros Hin Hf Hg; [contradiction|].
  cbn [filter]. destruct Hin as [->|Hin].
  - rewrite Hf, Hg. cbn [length]. pose proof (filter_length_le l). lia.
  - specialize (IH Hin Hf Hg). destruct (g x) eqn:G.
    + rewrite (g_le_f x G). cbn [length]. lia.
    + destruct (f x); cbn [length]; lia.
Qed.
End Counting.

Lemma filter_split {A} (f : A -> bool) (l : list A) :
  (length (filter f l) + length (filter (fun x => negb (f x)) l) = length l)%nat.
Proof.
  induction l as [|x l IH]; [reflexivity|]. cbn [filter].
  destruct (f x); cbn [negb length]; lia.
Qed.

Lemma zseq_length lo n : length (zseq lo n) = n.
Proof. unfold zseq. now rewrite length_map, length_seq. Qed.

Lemma free_blocks_nonneg s : 0 <= free_blocks s.
Proof. unfold free_blocks. lia. Qed.

(** a block that becomes used is one free block less *)
Lemma free_blocks_decrease s s' b :
  (forall x, bitmap_get (bbm s) x = true -> bitmap_get (bbm s') x = true) ->
  0 < b < BLOCK_COUNT -> bitmap_get (bbm s) b = false ->
  bitmap_get (bbm s') b = true ->
  free_blocks s' < free_blocks s.
Proof.
  intros Hmono Hr Hc Hu. unfold free_blocks. apply inj_lt.
  apply (filter_length_lt _ _ _) with (b := b).
  - intros x Hx. destruct (bitmap_get (bbm s) x) eqn:E; [|reflexivity].
    rewrite (Hmono x E) in Hx. discriminate.
  - apply in_zseq. zlia.
  - now rewrite Hc.
  - now rewrite Hu.
Qed.

Lemma free_blocks_mono s s' :
  (forall x, bitmap_get (bbm s) x = true -> bitmap_get (bbm s') x = true) ->
  free_blocks s' <= free_blocks s.
Proof.
  intros Hmono. unfold free_blocks. apply inj_le. apply filter_length_le.
  intros x Hx. destruct (bitmap_get (bbm s) x) eqn:E; [|reflexivity].
  rewrite (Hmono x E) in Hx. discriminate.
Qed.

(** The file blocks of a well-formed chain are as many different blocks in
    use, so they and the free blocks fit the volume. *)
Lemma chain_ok_count s i :
  chain_ok s i ->
  bytes_to_blocks (size (itab s i)) + free_blocks s <= BLOCK_COUNT - 1.
Proof.
  intros C.
  set (n := bytes_to_blocks (size (itab s i))).
  assert (Hn : 0 <= n) by (apply bytes_to_blocks_nonneg, (ck_size _ _ C)).
  set (blk := fun j => match file_block s i j with Some b => b | None => 0 end).
  set (used := filter (fun b => bitmap_get (bbm s) b)
                      (zseq 1 (Z.to_nat (BLOCK_COUNT - 1)))).
  assert (Hblk : forall j, 0 <= j < n ->
            file_block s i j = Some (blk j) /\ used_block s (blk j)).
  { intros j Hj. destruct (ck_mapped _ _ C j Hj) as (b & Hb & Hu & _).
    unfold blk. rewrite Hb. auto. }
  assert (Hnd : NoDup (map blk (zseq 0 (Z.to_nat n)))).
  { apply NoDup_nth with (d := 0). intros a b Ha Hb Heq.
    rewrite length_map, zseq_length in Ha, Hb.
    rewrite !(nth_indep _ 0 (blk 0)) in Heq by (rewrite length_map, zseq_length; lia).
    rewrite !map_nth in Heq.
    assert (Hz : forall k, (k < Z.to_nat n)%nat -> nth k (zseq 0 (Z.to_nat n)) 0 = Z.of_nat k).
    { intros k Hk. unfold zseq.
      rewrite (nth_indep _ 0 (0 + Z.of_nat 0)) by (rewrite length_map, length_seq; lia).
      rewrite (map_nth (fun k => 0 + Z.of_nat k)). rewrite seq_nth by lia. lia. }
    rewrite !Hz in Heq by assumption.
    destruct (Hblk (Z.of_nat a) ltac:(lia)) as [Fa _].
    destruct (Hblk (Z.of_nat b) ltac:(lia)) as [Fb _].
    rewrite <- Heq in Fb.
    pose proof (ck_inj _ _ C (Z.of_nat a) (Z.of_nat b) _ ltac:(fold n; lia)
                  ltac:(fold n; lia) Fa Fb). lia. }
  assert (Hincl : incl (map blk (zseq 0 (Z.to_nat n))) used).
  { intros b Hb. apply in_map_iff in Hb. destruct Hb as (j & <- & Hj).
    apply in_zseq in Hj. destruct (Hblk j ltac:(lia)) as [_ [Hr Hu]].
    unfold used. apply filter_In. split; [apply in_zseq; zlia | assumption]. }
  pose proof (NoDup_incl_length Hnd Hincl) as Hlen.
  rewrite length_map, zseq_length in Hlen.
  pose proof (filter_split (fun b => bitmap_get (bbm s) b)
                (zseq 1 (Z.to_nat (BLOCK_COUNT - 1)))) as Hsplit.
  rewrite zseq_length in Hsplit. fold used in Hsplit.
  unfold free_blocks. zlia.
Qed.

Lemma free_blocks_pos s b :
  0 < b < BLOCK_COUNT -> bitmap_get (bbm s) b = false -> 0 < free_blocks s.
Proof.
  intros Hr Hc. unfold free_blocks.
  assert (Hin : In b (filter (fun b => negb (bitmap_get (bbm s) b))
                        (zseq 1 (Z.to_nat (BLOCK_COUNT - 1))))).
  { apply filter_In. split; [apply in_zseq; zlia | now rewrite Hc]. }
  destruct (filter _ _); [contradiction | cbn [length]; lia].
Qed.

Lemma grown_free_le i s s' cur bs :
  grown i s s' cur bs -> free_blocks s' <= free_blocks s.
Proof. intros G. apply free_blocks_mono. intros x. eapply grown_mono; eassumption. Qed.

Lemma grown_free_lt i s s' cur b :
  grown i s s' cur [b] -> free_blocks s' < free_blocks s.
Proof.
  intros G. destruct (gr_fresh _ _ _ _ _ G b (or_introl eq_refl)) as (Hr & Hc & _).
  apply free_blocks_decrease with (b := b); try assumption.
  - intros x. eapply grown_mono; eassumption.
  - apply (gr_bbm _ _ _ _ _ G). right. left. now left.
Qed.

(** The loop reaches the end of the block map only with a block in hand:
    where the volume has no more free blocks than the block map has cells
    left, it does not get there. *)
(** the size of a file with a well-formed chain is at most the volume *)
Lemma chain_ok_size_max s i :
  chain_ok s i -> size (itab s i) <= (BLOCK_COUNT - 1) * BLOCK_SIZE.
Proof.
  intros C. pose proof (chain_ok_count s i C) as Hcount.
  pose proof (free_blocks_nonneg s) as Hfree.
  pose proof (bytes_to_blocks_bounds (size (itab s i))) as Hbb. zlia.
Qed.

Lemma grow_loop_no_fault i : low_inode i -> forall k s cur,
  table_reserved s ->
  (indirect (itab s i) <> 0 -> TABLE_END <= indirect (itab s i)) ->
  inode_valid s (Some i) = true -> indirect_ok s i -> 0 <= cur ->
  cur + free_blocks s <= NDIRECT + NINDIRECT ->
  grow_loop k i cur s <> Fault.
Proof.
  intros Hl. induction k as [|k IH]; intros s cur Hres Hoff Hv Hok Hcur Hfree.
  - discriminate.
  - rewrite grow_loop_S.
    destruct (maybe_indirect_spec i cur s Hl Hres Hv Hok)
      as [[-> Hfull]|(s1 & -> & G1 & Hsz1 & Hind1)].
    { rewrite Z.eqb_refl. discriminate. }
    rewrite (eqb_false 0 (-1)) by lia.
    assert (Hv1 : inode_valid s1 (Some i) = true)
      by (rewrite (grown_valid _ _ _ _ _ G1); assumption).
    assert (Hok1 : indirect_ok s1 i)
      by (eapply grown_indirect_ok; eassumption).
    assert (Hres1 : table_reserved s1) by (eapply grown_reserved; eassumption).
    assert (Hoff1 : indirect (itab s1 i) <> 0 -> TABLE_END <= indirect (itab s1 i))
      by (eapply grown_ind_off; eassumption).
    pose proof (grown_free_le _ _ _ _ _ G1) as Hle1.
    destruct (data_block_spec i cur s1 Hl Hres1 Hoff1 Hv1 Hok1 Hcur Hind1)
      as [[-> Hfull]|(b & sb & Hb & Hne & Hcase)].
    + rewrite Z.eqb_refl. discriminate.
    + assert (Hpos : 0 < free_blocks s1).
      { destruct (alloc_block_spec s1) as [[E _]|(b' & _ & Hr & Hc & _)].
        - rewrite E in Hb. injection Hb as Hb _. congruence.
        - eapply free_blocks_pos; eassumption. }
      rewrite Hb. rewrite (eqb_false b (-1)) by assumption.
      destruct Hcase as [[Hge _]|(q & s2 & -> & -> & G2 & Hsz2)]; [lia|].
      pose proof (grown_free_lt _ _ _ _ _ G2) as Hlt.
      apply IH.
      * eapply grown_reserved; eassumption.
      * eapply grown_ind_off; eassumption.
      * rewrite (grown_valid _ _ _ _ _ G2); assumption.
      * eapply grown_indirect_ok; eassumption.
      * lia.
      * lia.
Qed.

Lemma grow_inode_no_fault s i n :
  low_inode i -> table_reserved s ->
  (indirect (itab s i) <> 0 -> TABLE_END <= indirect (itab s i)) ->
  inode_valid s (Some i) = true -> indirect_ok s i -> 0 <= size (itab s i) ->
  bytes_to_blocks (size (itab s i)) + free_blocks s <= NDIRECT + NINDIRECT ->
  grow_inode (Some i) n s <> Fault.
Proof.
  intros Hl Hres Hoff Hv Hok Hs Hfree. rewrite grow_inode_unfold.
  destruct (negb (inode_valid s (Some i)) || (n <? size (itab s i)));
    [discriminate|].
  pose proof (grow_loop_no_fault i Hl
                (Z.to_nat (bytes_to_blocks n - bytes_to_blocks (size (itab s i))))
                s _ Hres Hoff Hv Hok (bytes_to_blocks_nonneg _ Hs) Hfree) as Hnf.
  destruct (grow_loop _ i _ s) as [[e|] s'| |];
    [discriminate | discriminate | contradiction | discriminate].
Qed.

(** C5, as the code has it: for a valid inode whose record lies in the
    blocks that [inode_init] reserves (inodes 1 to 226), in an image where
    these blocks are marked in use, with a size that is not negative, an
    indirect pointer that is null or a block in use past the reserved ones,
    and [node.size <= new_size <= INT_MAX], where the target fits the block
    map of an inode or the free blocks of the volume cannot carry the file
    past it (so in every image whose chains are well formed, see
    [chain_ok_count]), [grow_inode] either returns 0 with
    [node.size = new_size] and every file block up to the new size
    allocated, or, when a block (or the indirect block) cannot be allocated,
    returns -1 and leaves the inode holding exactly the blocks [bs] that
    were allocated ([grown]), no block of the image left free, and
    [node.size] the number of file blocks times [BLOCK_SIZE]. *)
Theorem grow_inode_partial (s : image) (i new_size : Z) :
  low_inode i -> table_reserved s ->
  (indirect (itab s i) <> 0 -> TABLE_END <= indirect (itab s i)) ->
  inode_valid s (Some i) = true ->
  0 <= size (itab s i) <= new_size -> new_size <= 2147483647 ->
  indirect_ok s i ->
  let cur := bytes_to_blocks (size (itab s i)) in
  let tgt := bytes_to_blocks new_size in
  tgt <= NDIRECT + NINDIRECT \/ cur + free_blocks s <= NDIRECT + NINDIRECT ->
  exists r s' bs,
    grow_inode (Some i) new_size s = Ok r s' /\
    grown i s s' cur bs /\
    ((r = 0 /\ size (itab s' i) = new_size /\
      cur + Z.of_nat (length bs) = tgt) \/
     (r = -1 /\ size (itab s' i) = BLOCK_SIZE * (cur + Z.of_nat (length bs)) /\
      cur + Z.of_nat (length bs) < tgt /\
      forall b, 0 < b < BLOCK_COUNT -> bitmap_get (bbm s') b = true)).
Proof.
  intros Hl Hres Hoff Hv Hsz Hmax Hok cur tgt Hfit.
  destruct (grow_inode_spec s i new_size Hl Hres Hoff Hmax Hv Hsz Hok)
    as [[Hf Hbig]|H]; [exfalso | exact H].
  destruct Hfit as [Hfit|Hfit].
  - fold tgt in Hbig. lia.
  - revert Hf. apply grow_inode_no_fault; (assumption || lia).
Qed.

(** ** Well-formed block chains *)

Lemma grown_chain_ok i s s' bs :
  chain_ok s i ->
  grown i s s' (bytes_to_blocks (size (itab s i))) bs ->
  0 <= size (itab s' i) ->
  bytes_to_blocks (size (itab s' i)) =
    bytes_to_blocks (size (itab s i)) + Z.of_nat (length bs) ->
  chain_ok s' i.
Proof.
  intros C G Hsz Hn.
  set (cur := bytes_to_blocks (size (itab s i))) in *.
  assert (Hold : forall j, 0 <= j < cur ->
            exists b, file_block s i j = Some b /\ file_block s' i j = Some b /\
                      used_block s b /\ used_block s' b /\
                      b <> indirect (itab s' i)).
  { intros j Hj. destruct (ck_mapped _ _ C j Hj) as (b & Hfb & Hu & Hne).
    exists b. split; [assumption|].
    split; [apply (gr_old _ _ _ _ _ G); [lia|assumption]|].
    split; [assumption|].
    split; [destruct Hu as [Hr Hb]; split;
            [assumption | now apply (grown_mono _ _ _ _ _ _ G)]|].
    destruct (Z.eq_dec (indirect (itab s i)) 0) as [E|E].
    - destruct (Z.eq_dec (indirect (itab s' i)) 0) as [E'|E'].
      + destruct Hu. lia.
      + destruct (gr_ind_new _ _ _ _ _ G E E') as [_ Hc]. destruct Hu as [_ Hb].
        intros ->. congruence.
    - rewrite (gr_ind _ _ _ _ _ G E). assumption. }
  assert (Hnew : forall j, cur <= j < cur + Z.of_nat (length bs) ->
            exists b, file_block s' i j = Some b /\ In b bs /\
                      b = nth (Z.to_nat (j - cur)) bs 0).
  { intros j Hj. exists (nth (Z.to_nat (j - cur)) bs 0).
    split; [|split; [apply nth_In; lia | reflexivity]].
    replace j with (cur + Z.of_nat (Z.to_nat (j - cur))) at 1 by lia.
    apply (gr_new _ _ _ _ _ G). lia. }
  constructor.
  - rewrite (grown_valid _ _ _ _ _ G). apply (ck_valid _ _ C).
  - assumption.
  - eapply grown_indirect_ok; [eassumption | apply (ck_indirect _ _ C)].
  - rewrite Hn. intros j Hj. destruct (Z_lt_le_dec j cur) as [Hlt|Hge].
    + destruct (Hold j ltac:(lia)) as (b & _ & Hfb & _ & Hu & Hne).
      exists b. auto.
    + destruct (Hnew j ltac:(lia)) as (b & Hfb & Hin & _).
      destruct (gr_fresh _ _ _ _ _ G b Hin) as (Hr & _ & Hne).
      exists b. split; [assumption|]. split; [|assumption].
      split; [assumption|]. apply (gr_bbm _ _ _ _ _ G). auto.
  - rewrite Hn. intros j1 j2 b Hj1 Hj2 H1 H2.
    destruct (Z_lt_le_dec j1 cur) as [L1|G1]; destruct (Z_lt_le_dec j2 cur) as [L2|G2].
    + destruct (Hold j1 ltac:(lia)) as (b1 & Hs1 & Hs1' & _).
      destruct (Hold j2 ltac:(lia)) as (b2 & Hs2 & Hs2' & _).
      apply (ck_inj _ _ C j1 j2 b); try (fold cur; lia); congruence.
    + exfalso. destruct (Hold j1 ltac:(lia)) as (b1 & _ & Hs1' & [_ Hu] & _).
      destruct (Hnew j2 ltac:(lia)) as (b2 & Hs2' & Hin & _).
      destruct (gr_fresh _ _ _ _ _ G b2 Hin) as (_ & Hc & _). congruence.
    + exfalso. destruct (Hold j2 ltac:(lia)) as (b2 & _ & Hs2' & [_ Hu] & _).
      destruct (Hnew j1 ltac:(lia)) as (b1 & Hs1' & Hin & _).
      destruct (gr_fresh _ _ _ _ _ G b1 Hin) as (_ & Hc & _). congruence.
    + destruct (Hnew j1 ltac:(lia)) as (b1 & Hs1' & _ & E1).
      destruct (Hnew j2 ltac:(lia)) as (b2 & Hs2' & _ & E2).
      assert (Hnth : nth (Z.to_nat (j1 - cur)) bs 0 = nth (Z.to_nat (j2 - cur)) bs 0)
        by congruence.
      apply (proj1 (NoDup_nth bs 0) (gr_nodup _ _ _ _ _ G)) in Hnth; lia.
Qed.

(** The blocks that a file takes lie past the reserved blocks. *)
Lemma grown_off_table i s s' bs :
  chain_ok s i -> off_table s i ->
  grown i s s' (bytes_to_blocks (size (itab s i))) bs ->
  bytes_to_blocks (size (itab s' i)) =
    bytes_to_blocks (size (itab s i)) + Z.of_nat (length bs) ->
  off_table s' i.
Proof.
  intros C O G Hn. constructor.
  - apply (ot_low _ _ O).
  - eapply grown_reserved; [eassumption | apply (ot_reserved _ _ O)].
  - eapply grown_ind_off;
      [eassumption | apply (ot_reserved _ _ O) | apply (ot_indirect _ _ O)].
  - intros j b Hj Hfb. rewrite Hn in Hj.
    destruct (Z_lt_le_dec j (bytes_to_blocks (size (itab s i)))) as [Hlt|Hge].
    + destruct (ck_mapped _ _ C j ltac:(lia)) as (b0 & Hb0 & _).
      pose proof (gr_old _ _ _ _ _ G j b0 Hlt Hb0) as H1.
      assert (b = b0) by congruence. subst b0.
      apply (ot_blocks _ _ O j); [lia|assumption].
    + pose proof (gr_new _ _ _ _ _ G (Z.to_nat (j - bytes_to_blocks (size (itab s i))))
                    ltac:(lia)) as H1.
      rewrite Z2Nat.id in H1 by lia.
      replace (bytes_to_blocks (size (itab s i)) + (j - bytes_to_blocks (size (itab s i))))
        with j in H1 by lia.
      assert (Hin : In b bs).
      { assert (b = nth (Z.to_nat (j - bytes_to_blocks (size (itab s i)))) bs 0)
          as -> by congruence.
        apply nth_In. lia. }
      destruct (gr_fresh _ _ _ _ _ G b Hin) as (Hr & Hc & _).
      apply (free_past_table s); [apply (ot_reserved _ _ O) | lia | assumption].
Qed.

(** [grow_inode] keeps the chain of the inode well formed and off the
    table. *)
Lemma grow_inode_chain_ok s i n r s' :
  chain_ok s i -> off_table s i -> n <= 2147483647 ->
  grow_inode (Some i) n s = Ok r s' ->
  chain_ok s' i /\ off_table s' i /\ size (itab s i) <= size (itab s' i)
  /\ (r = 0 -> size (itab s' i) = n).
Proof.
  intros C O Hmax H.
  destruct (Z_lt_le_dec n (size (itab s i))) as [Hlt|Hge].
  - rewrite grow_inode_unfold in H. rewrite (ltb_true n _) in H by assumption.
    rewrite orb_true_r in H. inversion H; subst.
    split; [assumption|]. split; [assumption|]. split; [lia|]. intros; lia.
  - pose proof (ck_size _ _ C) as H0.
    destruct (grow_inode_spec s i n (ot_low _ _ O) (ot_reserved _ _ O)
                (ot_indirect _ _ O) Hmax (ck_valid _ _ C) ltac:(lia)
                (ck_indirect _ _ C))
      as [[Hf _]|(r' & s'' & bs & Hg & G & Hr)]; [congruence|].
    rewrite H in Hg. inversion Hg; subst r' s''. clear Hg.
    destruct Hr as [(-> & Hs & Hl)|(-> & Hs & Hl & _)].
    + assert (Hcnt : bytes_to_blocks (size (itab s' i)) =
                     bytes_to_blocks (size (itab s i)) + Z.of_nat (length bs))
        by (rewrite Hs; lia).
      split; [|split; [|split; [lia | auto]]].
      * eapply grown_chain_ok; try eassumption. lia.
      * eapply grown_off_table; eassumption.
    + pose proof (bytes_to_blocks_nonneg _ H0).
      pose proof (bytes_to_blocks_bounds (size (itab s i))).
      assert (Hcnt : bytes_to_blocks (size (itab s' i)) =
                     bytes_to_blocks (size (itab s i)) + Z.of_nat (length bs))
        by (rewrite Hs; apply bytes_to_blocks_mul).
      split; [|split; [|split; [rewrite Hs; zlia | intros; lia]]].
      * eapply grown_chain_ok; try eassumption. rewrite Hs; zlia.
      * eapply grown_off_table; eassumption.
Qed.

(** ** The bytes of a file *)

Lemma byte_block_range x sz :
  0 <= x < sz -> 0 <= x / BLOCK_SIZE < bytes_to_blocks sz.
Proof.
  intros H. pose proof (bytes_to_blocks_bounds sz).
  split; [apply Z.div_pos; zlia|].
  apply Z.div_lt_upper_bound; zlia.
Qed.

Lemma inode_get_byte_file_block s i x :
  inode_valid s (Some i) = true -> 0 <= x < size (itab s i) ->
  inode_get_byte s (Some i) x =
  match file_block s i (x / BLOCK_SIZE) with
  | Some b => Some (Some (b, x mod BLOCK_SIZE))
  | None => None
  end.
Proof.
  intros Hv Hx. unfold inode_get_byte, file_block. rewrite Hv.
  rewrite (ltb_false x 0) by lia.
  rewrite (leb_false (size (itab s i)) x) by lia. cbn [negb orb].
  rewrite Z.quot_div_nonneg by zlia. rewrite Z.rem_mod_nonneg by zlia.
  destruct (inode_get_bnum s (Some i) (x / BLOCK_SIZE)); reflexivity.
Qed.

Lemma file_byte_eq s i x b :
  chain_ok s i -> 0 <= x < size (itab s i) ->
  file_block s i (x / BLOCK_SIZE) = Some b ->
  file_byte s i x = Some (blocks s b (x mod BLOCK_SIZE)).
Proof.
  intros C Hx Hb. unfold file_byte.
  rewrite inode_get_byte_file_block by (apply (ck_valid _ _ C) || assumption).
  rewrite Hb. unfold load_byte. cbn [fst snd].
  destruct (ck_mapped _ _ C _ (byte_block_range _ _ Hx)) as (b' & Hb' & Hu & _).
  assert (b' = b) by congruence. subst b'.
  now rewrite (used_block_in_image _ _ Hu).
Qed.

Lemma with_byte_file_block s i b o v j :
  low_inode i -> TABLE_END <= b -> b <> indirect (itab s i) ->
  file_block (with_byte b o v s) i j = file_block s i j.
Proof.
  intros Hl Hb Hne. apply file_block_ext; rewrite ?itab_with_byte by assumption;
    proj; try reflexivity.
  intros _ _. rewrite upd_other; [reflexivity|]. intros E. apply Hne. now symmetry.
Qed.

Lemma with_byte_chain_ok s i b o v :
  chain_ok s i -> low_inode i -> TABLE_END <= b -> b <> indirect (itab s i) ->
  chain_ok (with_byte b o v s) i.
Proof.
  intros C Hl Hb Hne. constructor; rewrite ?itab_with_byte by assumption; proj.
  - rewrite <- (ck_valid _ _ C). apply inode_valid_ext; [reflexivity|].
    now rewrite itab_with_byte.
  - apply (ck_size _ _ C).
  - unfold indirect_ok, used_block. rewrite itab_with_byte by assumption. proj.
    apply (ck_indirect _ _ C).
  - intros j Hj. destruct (ck_mapped _ _ C j Hj) as (b' & Hb' & Hu & Hn).
    exists b'. rewrite with_byte_file_block by assumption. auto.
  - intros j1 j2 b'. rewrite !with_byte_file_block by assumption.
    apply (ck_inj _ _ C).
Qed.

Lemma with_byte_off_table s i b o v :
  off_table s i -> TABLE_END <= b -> b <> indirect (itab s i) ->
  off_table (with_byte b o v s) i.
Proof.
  intros O Hb Hne. pose proof (ot_low _ _ O) as Hl.
  constructor; rewrite ?itab_with_byte by assumption.
  - assumption.
  - exact (ot_reserved _ _ O).
  - exact (ot_indirect _ _ O).
  - intros j b'. rewrite with_byte_file_block by assumption.
    apply (ot_blocks _ _ O).
Qed.

(** what storing a byte of the file does to the bytes of the file *)
Lemma with_byte_file_byte s i x v b y :
  chain_ok s i -> off_table s i ->
  0 <= x < size (itab s i) -> 0 <= y < size (itab s i) ->
  file_block s i (x / BLOCK_SIZE) = Some b ->
  file_byte (with_byte b (x mod BLOCK_SIZE) v s) i y =
  if y =? x then Some v else file_byte s i y.
Proof.
  intros C O Hx Hy Hb. pose proof (ot_low _ _ O) as Hl.
  destruct (ck_mapped _ _ C _ (byte_block_range _ _ Hx)) as (b0 & Hb0 & Hu & Hne).
  assert (b0 = b) by congruence. subst b0.
  assert (Hb5 : TABLE_END <= b)
    by (apply (ot_blocks _ _ O (x / BLOCK_SIZE));
        [now apply byte_block_range | assumption]).
  pose proof (with_byte_chain_ok s i b (x mod BLOCK_SIZE) v C Hl Hb5 Hne) as C2.
  destruct (ck_mapped _ _ C _ (byte_block_range _ _ Hy)) as (by_ & Hby & Huy & _).
  rewrite (file_byte_eq _ i y by_ C2);
    [| rewrite itab_with_byte by assumption; assumption
     | rewrite with_byte_file_block by assumption; assumption].
  rewrite (file_byte_eq s i y by_ C Hy Hby). proj.
  destruct (Z.eqb_spec y x) as [->|Hyx].
  - assert (by_ = b) by congruence. subst by_.
    rewrite upd_same. rewrite upd_same. reflexivity.
  - destruct (Z.eq_dec by_ b) as [->|Hbb].
    + rewrite upd_same.
      assert (Hj : y / BLOCK_SIZE = x / BLOCK_SIZE).
      { apply (ck_inj _ _ C _ _ b); try apply byte_block_range; assumption. }
      rewrite upd_other; [reflexivity|]. intros Hm. apply Hyx.
      rewrite (Z.div_mod y BLOCK_SIZE) by zlia.
      rewrite (Z.div_mod x BLOCK_SIZE) by zlia. congruence.
    + rewrite upd_other by assumption. reflexivity.
Qed.

(** ** The loops of [inode_write] and [inode_read] *)

Lemma write_loop_S k i buf off idx s :
  write_loop (S k) i buf off idx s =
  if size (itab s i) <=? off + idx then Ok (if idx =? 0 then -1 else idx) s
  else
    match inode_get_byte s (Some i) (off + idx) with
    | Some (Some q) =>
        match store_byte q (hd 0 buf) s with
        | Some s2 => write_loop k i (tl buf) off (idx + 1) s2
        | None => Fault
        end
    | _ => Fault
    end.
Proof.
  cbn [write_loop]. unfold bind, reads, ret, deref, update, fault.
  destruct (size (itab s i) <=? off + idx); [reflexivity|].
  destruct (inode_get_byte s (Some i) (off + idx)) as [[q|]|]; try reflexivity.
  destruct (store_byte q (hd 0 buf) s); reflexivity.
Qed.

Lemma nth_tl (l : list Z) n d : nth n (tl l) d = nth (S n) l d.
Proof. destruct l; [destruct n|]; reflexivity. Qed.

Lemma empty_range a y : (a <=? y) && (y <? a + 0) = false.
Proof.
  destruct (Z.leb_spec a y); destruct (Z.ltb_spec y (a + 0)); cbn [andb];
    try reflexivity; lia.
Qed.

Lemma write_loop_spec i : forall k buf off idx s,
  chain_ok s i -> off_table s i -> 0 <= off -> 0 <= idx ->
  let sz := size (itab s i) in
  let w := room k sz (off + idx) in
  exists s',
    write_loop k i buf off idx s =
      Ok (if w =? Z.of_nat k then idx + w
          else if idx + w =? 0 then -1 else idx + w) s' /\
    chain_ok s' i /\ off_table s' i /\
    (forall j, low_inode j -> itab s' j = itab s j) /\
    ibm s' = ibm s /\ bbm s' = bbm s /\
    (forall b, (forall j, 0 <= j < bytes_to_blocks sz -> file_block s i j <> Some b) ->
               blocks s' b = blocks s b) /\
    forall y, 0 <= y < sz ->
      file_byte s' i y =
      if (off + idx <=? y) && (y <? off + idx + w)
      then Some (nth (Z.to_nat (y - (off + idx))) buf 0)
      else file_byte s i y.
Proof.
  induction k as [|k IH]; intros buf off idx s C O Hoff Hidx sz w.
  - exists s. subst w. unfold room. cbn [write_loop Z.of_nat]. unfold ret.
    replace (Z.max 0 (Z.min 0 (sz - (off + idx)))) with 0 by lia.
    rewrite Z.eqb_refl, (Z.add_0_r idx).
    repeat (split; [reflexivity || assumption|]).
    intros y Hy. now rewrite empty_range.
  - rewrite write_loop_S. fold sz.
    destruct (Z.leb_spec sz (off + idx)) as [Hfull|Hroom].
    + exists s. subst w. unfold room.
      replace (Z.max 0 (Z.min (Z.of_nat (S k)) (sz - (off + idx)))) with 0 by lia.
      rewrite (eqb_false 0 (Z.of_nat (S k))) by lia. rewrite (Z.add_0_r idx).
      repeat (split; [reflexivity || assumption|]).
      intros y Hy. now rewrite empty_range.
    + assert (Hx : 0 <= off + idx < size (itab s i)) by (fold sz; lia).
      pose proof (ot_low _ _ O) as Hl.
      destruct (ck_mapped _ _ C _ (byte_block_range _ _ Hx)) as (b & Hb & Hu & Hne).
      assert (Hb5 : TABLE_END <= b)
        by (apply (ot_blocks _ _ O ((off + idx) / BLOCK_SIZE));
            [now apply byte_block_range | assumption]).
      rewrite inode_get_byte_file_block by (apply (ck_valid _ _ C) || assumption).
      rewrite Hb. unfold store_byte. cbn [fst snd].
      rewrite (used_block_in_image _ _ Hu).
      set (s2 := with_byte b ((off + idx) mod BLOCK_SIZE) (hd 0 buf) s).
      pose proof (with_byte_chain_ok s i b ((off + idx) mod BLOCK_SIZE) (hd 0 buf)
                    C Hl Hb5 Hne) as C2.
      pose proof (with_byte_off_table s i b ((off + idx) mod BLOCK_SIZE) (hd 0 buf)
                    O Hb5 Hne) as O2.
      fold s2 in C2, O2.
      assert (Hit2 : forall j, low_inode j -> itab s2 j = itab s j)
        by (intros j Hj; unfold s2; now rewrite itab_with_byte).
      destruct (IH (tl buf) off (idx + 1) s2 C2 O2 Hoff ltac:(lia))
        as (s' & Hrun & C' & O' & Hit & Hib & Hbb & Hblk & Hbytes).
      exists s'. rewrite Hrun.
      rewrite (Hit2 i Hl) in *. fold sz in Hrun, Hblk, Hbytes |- *.
      assert (Hw : room k sz (off + (idx + 1)) = w - 1)
        by (subst w; unfold room; lia).
      rewrite Hw in *.
      split.
      { f_equal.
        destruct (Z.eqb_spec (w - 1) (Z.of_nat k));
          destruct (Z.eqb_spec w (Z.of_nat (S k))); try lia.
        rewrite (eqb_false (idx + 1 + (w - 1)) 0)
          by (subst w; unfold room; lia).
        rewrite (eqb_false (idx + w) 0) by (subst w; unfold room; lia). lia. }
      split; [assumption|]. split; [assumption|].
      split; [intros j Hj; rewrite (Hit j Hj); now apply Hit2|].
      split; [assumption|]. split; [assumption|].
      split.
      { intros b' Hb'. rewrite Hblk.
        - unfold s2. proj. apply upd_other. intros ->.
          apply (Hb' ((off + idx) / BLOCK_SIZE));
            [now apply byte_block_range | assumption].
        - intros j Hj. unfold s2.
          rewrite with_byte_file_block by assumption. now apply Hb'. }
      intros y Hy. rewrite (Hbytes y Hy).
      assert (Hw1 : 1 <= w) by (subst w; unfold room; lia).
      destruct (Z.eq_dec y (off + idx)) as [->|Hyx].
      * rewrite (leb_false (off + (idx + 1))) by lia. cbn [andb].
        unfold s2. rewrite (with_byte_file_byte s i (off + idx)) by assumption.
        rewrite Z.eqb_refl. rewrite Z.leb_refl. rewrite (ltb_true (off + idx)) by lia.
        cbn [andb]. rewrite Z.sub_diag. destruct buf; reflexivity.
      * destruct (Z.leb_spec (off + (idx + 1)) y) as [H1|H1];
          destruct (Z.ltb_spec y (off + (idx + 1) + (w - 1))) as [H2|H2]; cbn [andb].
        -- rewrite (leb_true (off + idx) y) by lia.
           rewrite (ltb_true y (off + idx + w)) by lia. cbn [andb].
           rewrite nth_tl. do 2 f_equal. lia.
        -- rewrite (ltb_false y (off + idx + w)) by lia. rewrite andb_false_r.
           unfold s2. rewrite (with_byte_file_byte s i (off + idx)) by assumption.
           now rewrite (eqb_false y) by assumption.
        -- rewrite (leb_false (off + idx) y) by lia. cbn [andb].
           unfold s2. rewrite (with_byte_file_byte s i (off + idx)) by assumption.
           now rewrite (eqb_false y) by assumption.
        -- rewrite (leb_false (off + idx) y) by lia. cbn [andb].
           unfold s2. rewrite (with_byte_file_byte s i (off + idx)) by assumption.
           now rewrite (eqb_false y) by assumption.
Qed.

(** the loop of [inode_write] does not return 0, whatever the image *)
Lemma write_loop_ret i : forall k buf off idx s r s',
  write_loop k i buf off idx s = Ok r s' -> 0 <= idx ->
  (0 < k)%nat \/ 0 < idx -> r <> 0.
Proof.
  induction k as [|k IH]; intros buf off idx s r s' H Hidx Hpos.
  - cbn [write_loop] in H. unfold ret in H. injection H as Hr Hs. subst r s'. lia.
  - rewrite write_loop_S in H.
    destruct (Z.leb_spec (size (itab s i)) (off + idx)) as [Hfull|Hroom].
    + injection H as Hr Hs. subst r s'.
      destruct (Z.eqb_spec idx 0); lia.
    + destruct (inode_get_byte s (Some i) (off + idx)) as [[q|]|]; try discriminate.
      unfold store_byte in H. destruct (in_image (fst q)); [|discriminate].
      apply IH in H; [assumption|lia|lia].
Qed.

Lemma read_loop_spec i : forall k off idx s,
  chain_ok s i -> 0 <= off -> 0 <= idx ->
  let sz := size (itab s i) in
  let w := room k sz (off + idx) in
  exists cs,
    read_loop k s (Some i) sz off idx = Some (idx + w, cs) /\
    length cs = Z.to_nat w /\
    forall t, (t < length cs)%nat ->
      file_byte s i (off + idx + Z.of_nat t) = Some (nth t cs 0).
Proof.
  induction k as [|k IH]; intros off idx s C Hoff Hidx sz w.
  - exists []. subst w. unfold room. cbn [read_loop Z.of_nat].
    replace (Z.max 0 (Z.min 0 (sz - (off + idx)))) with 0 by lia.
    rewrite Z.add_0_r. split; [reflexivity|]. split; [reflexivity|].
    intros t Ht. cbn [length] in Ht. lia.
  - cbn [read_loop].
    destruct (Z.leb_spec sz (off + idx)) as [Hfull|Hroom].
    + exists []. subst w. unfold room.
      replace (Z.max 0 (Z.min (Z.of_nat (S k)) (sz - (off + idx)))) with 0 by lia.
      rewrite Z.add_0_r. split; [reflexivity|]. split; [reflexivity|].
      intros t Ht. cbn [length] in Ht. lia.
    + assert (Hx : 0 <= off + idx < size (itab s i)) by (fold sz; lia).
      destruct (ck_mapped _ _ C _ (byte_block_range _ _ Hx)) as (b & Hb & Hu & Hne).
      pose proof (file_byte_eq s i (off + idx) b C Hx Hb) as Hfb.
      rewrite inode_get_byte_file_block by (apply (ck_valid _ _ C) || assumption).
      rewrite Hb. unfold load_byte. cbn [fst snd].
      rewrite (used_block_in_image _ _ Hu).
      destruct (IH off (idx + 1) s C Hoff ltac:(lia)) as (cs & Hrun & Hlen & Hcs).
      fold sz in Hrun, Hlen. rewrite Hrun.
      assert (Hw : room k sz (off + (idx + 1)) = w - 1)
        by (subst w; unfold room; lia).
      assert (Hw1 : 1 <= w) by (subst w; unfold room; lia).
      rewrite Hw in *.
      exists (blocks s b ((off + idx) mod BLOCK_SIZE) :: cs).
      split; [do 2 f_equal; lia|]. split; [cbn [length]; lia|].
      intros [|t] Ht.
      * cbn [nth Z.of_nat]. rewrite Z.add_0_r. assumption.
      * cbn [nth]. cbn [length] in Ht.
        replace (off + idx + Z.of_nat (S t)) with (off + (idx + 1) + Z.of_nat t) by lia.
        apply Hcs. lia.
Qed.

Lemma inode_write_unfold i buf off n s :
  inode_write (Some i) buf off n s =
  if negb (inode_valid s (Some i)) || (off <? 0) || (n <=? 0) then Ok (-1) s
  else
    match grow_inode (Some i) (int32 (off + n)) s with
    | Ok _ sg => write_loop (Z.to_nat n) i buf off 0 sg
    | Fault => Fault
    | Hang => Hang
    end.
Proof.
  unfold inode_write, bind, reads, ret.
  destruct (negb (inode_valid s (Some i)) || (off <? 0) || (n <=? 0)); reflexivity.
Qed.

(** What is written is what is read back, for an inode with a well-formed
    block chain. *)
Lemma inode_write_read s i buf off n s' :
  chain_ok s i -> off_table s i -> length buf = Z.to_nat n ->
  inode_write (Some i) buf off n s = Ok n s' ->
  chain_ok s' i /\ off_table s' i /\
  inode_read s' (Some i) off n = Some (n, buf).
Proof.
  intros C O Hlen H. rewrite inode_write_unfold in H.
  rewrite (ck_valid _ _ C) in H. cbn [negb orb] in H.
  destruct (Z.ltb_spec off 0) as [Hoff|Hoff]; cbn [orb] in H.
  { inversion H; subst. split; [assumption|]. split; [assumption|].
    unfold inode_read. rewrite (ck_valid _ _ C).
    rewrite (ltb_true off 0) by lia. cbn [negb orb].
    destruct buf; [reflexivity|discriminate]. }
  destruct (Z.leb_spec n 0) as [Hn|Hn].
  { inversion H; subst. split; [assumption|]. split; [assumption|].
    unfold inode_read. rewrite (ck_valid _ _ C). rewrite orb_true_r.
    destruct buf; [reflexivity|discriminate]. }
  destruct (grow_inode (Some i) (int32 (off + n)) s) as [rg sg| |] eqn:Hg;
    try discriminate.
  assert (Hmax : int32 (off + n) <= 2147483647)
    by (pose proof (int32_range (off + n)); lia).
  destruct (grow_inode_chain_ok _ _ _ _ _ C O Hmax Hg) as (Cg & Og & _ & _).
  destruct (write_loop_spec i (Z.to_nat n) buf off 0 sg Cg Og Hoff ltac:(lia))
    as (s2 & Hrun & C2 & O2 & Hit & Hib & Hbb & _ & Hbytes).
  rewrite Hrun in H. rewrite !Z.add_0_r in *. rewrite Z2Nat.id in * by lia.
  set (w := room (Z.to_nat n) (size (itab sg i)) off) in *.
  assert (Hw : w = n).
  { destruct (Z.eqb_spec w n) as [E|E]; [assumption|].
    destruct (Z.eqb_spec (0 + w) 0); inversion H; lia. }
  assert (s2 = s') by (destruct (w =? n); [|destruct (0 + w =? 0)]; congruence).
  subst s2. split; [assumption|]. split; [assumption|].
  unfold inode_read. rewrite (ck_valid _ _ C2).
  rewrite (ltb_false off 0) by lia. rewrite (ltb_false n 0) by lia.
  cbn [negb orb].
  destruct (read_loop_spec i (Z.to_nat n) off 0 s' C2 Hoff ltac:(lia))
    as (cs & Hrd & Hcl & Hcs).
  rewrite Hrd. rewrite !Z.add_0_r in *.
  rewrite (Hit i (ot_low _ _ O)) in *. fold w in Hcl |- *.
  rewrite Hw in *. do 2 f_equal.
  apply (nth_ext cs buf 0 0); [congruence|].
  intros t Ht. specialize (Hcs t Ht).
  rewrite Hbytes in Hcs by (unfold w, room in Hw; lia).
  rewrite (leb_true off) in Hcs by lia.
  rewrite (ltb_true (off + Z.of_nat t)) in Hcs by lia. cbn [andb] in Hcs.
  replace (Z.to_nat (off + Z.of_nat t - off)) with t in Hcs by lia.
  congruence.
Qed.

(** ** Outcomes *)

Lemma outcome_eta {A} (o : outcome A) (a : A) :
  value_of o = Some a -> o = Ok a (state_of o).
Proof. destruct o; cbn; congruence. Qed.

(** ** [directory_list] *)

Lemma directory_list_of_directory s i :
  mode_isdir (mode (itab s i)) = true -> directory_list s (Some i) = Some [].
Proof. intros H. unfold directory_list. now rewrite H. Qed.

(** C1: the root directory of an image with the file "/a" is a directory
    (its mode has the directory bit) whose only non-empty entry is named "a",
    and [directory_list], like [storage_list], returns [NULL] for it, not the
    list of that name; the names are listed for an inode whose mode does not
    have the directory bit (the regular file of [self_entry], which holds an
    entry "a"). *)
Theorem directory_list_inverted :
  mode_isdir (mode (itab one_file DIR_ROOT)) = true /\
  live_names one_file DIR_ROOT = [path "a"] /\
  directory_list one_file (Some DIR_ROOT) = Some [] /\
  storage_list one_file (path "/") = Some [] /\
  mode_isdir (mode (itab self_entry 2)) = false /\
  directory_list self_entry (Some 2) = Some [path "a"].
Proof. vm_compute. repeat split; reflexivity. Qed.

(** ** [storage_access] *)

(** C3: [storage_access] returns 1 for a path that resolves (the root of a
    fresh image) and 0 for one that does not, where the contract of the
    facade is 0 and -1. *)
Theorem storage_access_root :
  storage_access fresh (path "/") = Some 1 /\
  path_get_inode fresh (path "/missing") = Some None /\
  storage_access fresh (path "/missing") = Some 0.
Proof. vm_compute. repeat split; reflexivity. Qed.

Lemma storage_access_not_minus_one s p : storage_access s p <> Some (-1).
Proof.
  unfold storage_access. destruct (path_get_inode s p) as [[i|]|]; discriminate.
Qed.

(** ** Inode accounting *)

(** C2: inode accounting holds in a fresh image, and fails after
    [storage_mknod] of a file whose parent directory does not exist: the call
    returns -1, the inode that it allocated stays allocated (three bits of
    the inode bitmap are set) and no inode is reachable from the root.  It
    also fails after calls that all return 0: the rename of the file "/a"
    to the name of the file "/b" puts the entry of "/a" into the bytes of
    the file "/b", so four bits are set and only the inode of "/b" is
    reachable through the directories. *)
Theorem inode_accounting_fails :
  inode_accounting fresh /\
  value_of (storage_mknod (path "/nodir/x") MODE_FILE fresh) = Some (-1) /\
  count_bits (ibm leaked) INODE_COUNT = 3 /\
  reachable leaked = [] /\
  ~ inode_accounting leaked /\
  value_of (storage_mknod (path "/a") MODE_FILE fresh) = Some 0 /\
  value_of (storage_mknod (path "/b") MODE_FILE one_file) = Some 0 /\
  value_of (storage_rename (path "/a") (path "/b") two_files) = Some 0 /\
  count_bits (ibm renamed) INODE_COUNT = 4 /\
  reachable renamed = [3] /\
  ~ inode_accounting renamed.
Proof.
  split; [vm_compute; reflexivity|]. split; [vm_compute; reflexivity|].
  split; [vm_compute; reflexivity|]. split; [vm_compute; reflexivity|].
  split; [unfold inode_accounting; vm_compute; discriminate|].
  split; [vm_compute; reflexivity|]. split; [vm_compute; reflexivity|].
  split; [vm_compute; reflexivity|]. split; [vm_compute; reflexivity|].
  split; [vm_compute; reflexivity|].
  unfold inode_accounting. vm_compute. discriminate.
Qed.

(** ** [alloc_inode] *)

(** C6, as the code has it: [alloc_inode] takes the lowest clear bit [i] of
    the inode bitmap in [2, INODE_COUNT), sets it, writes [mode] (as an
    [int]) and [inum = i] into the record and leaves the size, the link and
    reference counts, [direct] and [indirect] of the record, all other
    records, the block bitmap and every byte of the blocks other than the
    eight of the two fields it writes as they are; when no bit of
    [2, INODE_COUNT) is clear it returns -1 and changes nothing. *)
Theorem alloc_inode_keeps_fields (s : image) (md : Z) :
  (exists i s',
     alloc_inode md s = Ok i s' /\
     2 <= i < INODE_COUNT /\
     bitmap_get (ibm s) i = false /\
     (forall j, 2 <= j < i -> bitmap_get (ibm s) j = true) /\
     bitmap_get (ibm s') i = true /\
     (forall j, j <> i -> bitmap_get (ibm s') j = bitmap_get (ibm s) j) /\
     mode (itab s' i) = int32 md /\
     (-2147483648 <= md < 2147483648 -> mode (itab s' i) = md) /\
     inum (itab s' i) = i /\
     size (itab s' i) = size (itab s i) /\
     links (itab s' i) = links (itab s i) /\
     refs (itab s' i) = refs (itab s i) /\
     direct (itab s' i) = direct (itab s i) /\
     indirect (itab s' i) = indirect (itab s i) /\
     (forall j, j <> i -> itab s' j = itab s j) /\
     bbm s' = bbm s /\
     (forall b o, ~ field_bytes i f_inum b o -> ~ field_bytes i f_mode b o ->
                  blocks s' b o = blocks s b o))
  \/
  (alloc_inode md s = Ok (-1) s /\
   forall j, 2 <= j < INODE_COUNT -> bitmap_get (ibm s) j = true).
Proof.
  unfold alloc_inode.
  destruct (first_clear (ibm s) 2 (Z.to_nat (INODE_COUNT - 2))) as [i|] eqn:E.
  - left. apply first_clear_some in E. destruct E as (Hr & Hc & Hlow).
    assert (Hi : 2 <= i < INODE_COUNT) by zlia.
    unfold get_inode. rewrite (leb_false i 0) by lia.
    rewrite (leb_false INODE_COUNT i) by lia. cbn [orb].
    eexists i, _. split; [reflexivity|].
    rewrite !bbm_with_field, !ibm_with_field.
    rewrite !itab_with_field_same by exact I. rewrite itab_with_ibm.
    rewrite (int32_id i) by (unfold INODE_COUNT in Hi; lia). proj.
    split; [assumption|]. split; [assumption|]. split; [assumption|].
    split; [apply bitmap_get_put_same; lia|].
    split; [intros j Hj; now apply bitmap_get_put_other|].
    split; [reflexivity|]. split; [intros Hmd; now apply int32_id|].
    repeat (split; [reflexivity|]).
    split; [intros j Hj; now rewrite !itab_with_field_other by (assumption || exact I)|].
    split; [reflexivity|].
    intros b o H1 H2. now rewrite !blocks_with_field_frame by assumption.
  - right. split; [reflexivity|]. intros j Hj.
    apply (first_clear_none _ _ _ E). zlia.
Qed.

(** C6, counterexample: in the image [stale], which the facade reaches,
    inode 2 is free with a link count of -1; [alloc_inode] returns 2 and the
    link count of the inode is still -1, not 0. *)
Lemma alloc_inode_stale_links :
  value_of (alloc_inode MODE_FILE stale) = Some 2 /\
  links (itab (state_of (alloc_inode MODE_FILE stale)) 2) = -1 /\
  links (itab (state_of (alloc_inode MODE_FILE stale)) 2) <> 0.
Proof.
  split; [vm_compute; reflexivity|]. split; [vm_compute; reflexivity|].
  vm_compute. discriminate.
Qed.

(** ** The loop of [shrink_inode] *)

Lemma shrink_while_unfold fuel i tgt cur s :
  shrink_while fuel i tgt cur s =
  if tgt <? cur then
    match fuel with
    | O => Hang
    | S fuel' =>
        match shrink_body i cur s with
        | Ok c s1 => shrink_while fuel' i tgt c s1
        | Fault => Fault
        | Hang => Hang
        end
    end
  else Ok cur s.
Proof. destruct fuel; reflexivity. Qed.

(** The three things that an iteration can do: [continue] with nothing
    changed, fault on the indirect block, or free a block. *)
Lemma shrink_body_cases i c s :
  (shrink_body i c s = Ok c s /\
   (inode_get_bnum s (Some i) (c - 1) = None \/
    file_block s i (c - 1) = Some 0)) \/
  (shrink_body i c s = Fault /\
   exists q, inode_get_bnum s (Some i) (c - 1) = Some q /\ load_slot s q = None) \/
  (exists q b s',
     inode_get_bnum s (Some i) (c - 1) = Some q /\ load_slot s q = Some b /\
     b <> 0 /\
     store_slot q 0 (with_bbm (bitmap_put (bbm s) b false) s) = Some s' /\
     shrink_body i c s = Ok (c - 1) s').
Proof.
  unfold shrink_body, bind, reads, deref, ret, update, free_block, modify, file_block.
  destruct (inode_get_bnum s (Some i) (c - 1)) as [q|] eqn:Eq.
  2:{ left. split; [reflexivity|]. now left. }
  destruct (load_slot s q) as [b|] eqn:El.
  2:{ right. left. split; [reflexivity|]. exists q. auto. }
  destruct (Z.eqb_spec b 0) as [->|Hb].
  { left. split; [reflexivity|]. now right. }
  right. right.
  assert (Hst : exists s', store_slot q 0 (with_bbm (bitmap_put (bbm s) b false) s) = Some s').
  { destruct q as [i' k|b' k]; cbn [store_slot load_slot] in *.
    - eexists. reflexivity.
    - destruct (in_image b'); [|discriminate]. eexists. reflexivity. }
  destruct Hst as (s' & Hst). exists q, b, s'. rewrite Hst. auto.
Qed.

(** what freeing the block of file block [j] does *)
Lemma shrink_step_effect s i j q b bm s' :
  low_inode i ->
  (indirect (itab s i) <> 0 -> TABLE_END <= indirect (itab s i)) ->
  inode_get_bnum s (Some i) j = Some q -> load_slot s q = Some b ->
  store_slot q 0 (with_bbm bm s) = Some s' ->
  ibm s' = ibm s /\ bbm s' = bm /\
  inum (itab s' i) = inum (itab s i) /\ size (itab s' i) = size (itab s i) /\
  indirect (itab s' i) = indirect (itab s i) /\
  file_block s' i j = Some 0 /\
  (forall j', j' <> j -> file_block s' i j' = file_block s i j') /\
  (forall i', i' <> i -> low_inode i' -> itab s' i' = itab s i') /\
  (forall b', TABLE_END <= b' -> b' <> indirect (itab s i) ->
              blocks s' b' = blocks s b').
Proof.
  intros Hlow Hind Hq Hl Hst. apply inode_get_bnum_some in Hq.
  destruct Hq as (Hv & Hj & [[Hd ->]|(Hd & Hi & ->)]);
    unfold store_slot, load_slot in *.
  - injection Hst as Hst; subst s'.
    assert (Hok : field_ok (f_direct j)) by (cbn; lia).
    assert (Hit : itab (with_field i (f_direct j) 0 (with_bbm bm s)) i =
                  set_direct j 0 (itab s i))
      by (rewrite itab_with_field_same by assumption; reflexivity).
    rewrite bbm_with_field, ibm_with_field, Hit. proj.
    repeat (split; [reflexivity|]). split; [|split; [|split]].
    + rewrite file_block_direct; [| |lia].
      * rewrite Hit. proj. unfold set_direct. proj. now rewrite upd_same.
      * rewrite <- Hv. apply inode_valid_ext; [reflexivity|]. now rewrite Hit.
    + intros j' Hj'. apply file_block_ext; rewrite ?Hit; proj; try reflexivity.
      * intros _. unfold set_direct. proj. now rewrite upd_other.
      * intros _ Hne. rewrite blocks_with_field by auto. reflexivity.
    + intros i' Hne _. now rewrite itab_with_field_other.
    + intros b' Hb' _. now rewrite blocks_with_field.
  - destruct (in_image (indirect (itab s i))) eqn:Him; [|discriminate].
    remember (4 * (j - NDIRECT)) as o eqn:Ho.
    injection Hst as Hst; subst s'.
    pose proof (Hind Hi) as Hge.
    rewrite itab_with_block by assumption. proj.
    repeat (split; [reflexivity|]). split; [|split; [|split]].
    + rewrite file_block_indirect; rewrite ?itab_with_block by assumption.
      * proj. rewrite upd_same. rewrite <- Ho.
        rewrite load_store_int32. reflexivity.
      * rewrite <- Hv. apply inode_valid_ext; [reflexivity|].
        now rewrite itab_with_block.
      * lia.
      * assumption.
      * assumption.
    + intros j' Hj'. apply file_block_ext; rewrite ?itab_with_block by assumption;
        proj; try reflexivity.
      intros Hj1 _. rewrite upd_same. rewrite load_store_int_other by zlia.
      reflexivity.
    + intros i' _ Hl'. now rewrite itab_with_block.
    + intros b' _ Hne. proj. now rewrite upd_other.
Qed.

(** An iteration that does not free a block repeats for ever. *)
Lemma shrink_while_hang i tgt cur s :
  tgt < cur -> shrink_body i cur s = Ok cur s ->
  forall fuel, shrink_while fuel i tgt cur s = Hang.
Proof.
  intros Hlt Hb fuel. induction fuel as [|fuel IH];
    rewrite shrink_while_unfold; rewrite (ltb_true tgt cur) by assumption.
  - reflexivity.
  - rewrite Hb. assumption.
Qed.

(** [curr_bcount - target_bcount] iterations are all that the loop can use. *)
Lemma shrink_while_more_fuel i tgt : forall fuel cur s,
  (Z.to_nat (cur - tgt) <= fuel)%nat ->
  shrink_while fuel i tgt cur s =
  shrink_while (Z.to_nat (cur - tgt)) i tgt cur s.
Proof.
  induction fuel as [|fuel IH]; intros cur s Hf.
  - replace (Z.to_nat (cur - tgt)) with 0%nat by lia. reflexivity.
  - rewrite !(shrink_while_unfold _ i tgt cur s).
    destruct (Z.ltb_spec tgt cur) as [Hlt|Hge]; [|reflexivity].
    destruct (Z.to_nat (cur - tgt)) as [|n] eqn:En; [lia|].
    destruct (shrink_body_cases i cur s)
      as [[Hb _]|[[Hb _]|(q & b & s' & _ & _ & _ & _ & Hb)]]; rewrite Hb.
    + rewrite !(shrink_while_hang i tgt cur s Hlt Hb). reflexivity.
    + reflexivity.
    + rewrite IH by lia. replace n with (Z.to_nat (cur - 1 - tgt)) by lia.
      reflexivity.
Qed.

Lemma bitmap_get_clear_same bm i : bitmap_get (bitmap_put bm i false) i = false.
Proof.
  unfold bitmap_get, bitmap_put. rewrite Z.clearbit_eqb, Z.eqb_refl.
  apply andb_false_r.
Qed.

Lemma bitmap_put_false_iff bm b b' :
  bitmap_get (bitmap_put bm b false) b' = true <->
  bitmap_get bm b' = true /\ b' <> b.
Proof.
  destruct (Z.eq_dec b' b) as [->|Hne].
  - rewrite bitmap_get_clear_same. split; [discriminate|tauto].
  - rewrite bitmap_get_put_other by assumption. tauto.
Qed.

(** With every file block of [tgt .. cur - 1] mapped, each iteration frees
    the block of the last file block and the loop ends with [curr_bcount] at
    the target. *)
Lemma shrink_while_spec i tgt : low_inode i -> forall fuel cur s,
  (indirect (itab s i) <> 0 -> TABLE_END <= indirect (itab s i)) ->
  (Z.to_nat (cur - tgt) <= fuel)%nat -> blocks_mapped s i tgt cur ->
  exists s',
    shrink_while fuel i tgt cur s = Ok (Z.min cur tgt) s' /\
    ibm s' = ibm s /\ inum (itab s' i) = inum (itab s i) /\
    size (itab s' i) = size (itab s i) /\
    indirect (itab s' i) = indirect (itab s i) /\
    (forall j, j < tgt \/ cur <= j -> file_block s' i j = file_block s i j) /\
    (forall j, tgt <= j < cur -> file_block s' i j = Some 0) /\
    (forall b, bitmap_get (bbm s') b = true <->
               bitmap_get (bbm s) b = true /\
               forall j, tgt <= j < cur -> file_block s i j <> Some b) /\
    (forall i', i' <> i -> low_inode i' -> itab s' i' = itab s i') /\
    (forall b, TABLE_END <= b -> b <> indirect (itab s i) ->
               blocks s' b = blocks s b).
Proof.
  intros Hlow.
  induction fuel as [|fuel IH]; intros cur s Hind Hf Hm;
    rewrite shrink_while_unfold;
    (destruct (Z.ltb_spec tgt cur) as [Hlt|Hge];
     [| exists s; rewrite Z.min_l by lia;
        repeat (split; [reflexivity|]); split; [intros; lia|];
        split; [intros b; split; [intros H; split; [assumption|intros; lia] | tauto]|];
        split; reflexivity]).
  - lia.
  - destruct (Hm (cur - 1) ltac:(lia)) as (b & Hb & Hr).
    destruct (shrink_body_cases i cur s)
      as [[_ [Hn|Hz]]|[(_ & q & Hq & Hl)|(q & b' & s1 & Hq & Hl & Hb' & Hst & Hrun)]].
    + unfold file_block in Hb. rewrite Hn in Hb. discriminate.
    + rewrite Hb in Hz. injection Hz as ->. lia.
    + unfold file_block in Hb. rewrite Hq, Hl in Hb. discriminate.
    + assert (b' = b) by (unfold file_block in Hb; rewrite Hq, Hl in Hb; congruence).
      subst b'. rewrite Hrun.
      destruct (shrink_step_effect s i (cur - 1) q b _ s1 Hlow Hind Hq Hl Hst)
        as (Hib & Hbb & Hin & Hsz & Hind1 & Hcell & Hoth & Hrec & Hblk).
      assert (Hm1 : blocks_mapped s1 i tgt (cur - 1)).
      { intros j Hj. rewrite Hoth by lia. apply Hm. lia. }
      assert (Hind2 : indirect (itab s1 i) <> 0 -> TABLE_END <= indirect (itab s1 i))
        by (rewrite Hind1; exact Hind).
      destruct (IH (cur - 1) s1 Hind2 ltac:(lia) Hm1)
        as (s' & Hw & Hib' & Hin' & Hsz' & Hind' & Hout & Hzero & Hbits & Hrec' & Hblk').
      exists s'. rewrite Hw.
      split; [f_equal; lia|].
      split; [congruence|]. split; [congruence|]. split; [congruence|].
      split; [congruence|].
      split; [intros j Hj; rewrite Hout by lia; apply Hoth; lia|].
      split.
      { intros j Hj. destruct (Z.eq_dec j (cur - 1)) as [->|Hne].
        - rewrite Hout by lia. assumption.
        - apply Hzero. lia. }
      split.
      { intros b0. rewrite Hbits. rewrite Hbb. rewrite bitmap_put_false_iff.
        split.
        * intros [[Hg Hne] Hall]. split; [assumption|]. intros j Hj.
          destruct (Z.eq_dec j (cur - 1)) as [->|Hj1]; [congruence|].
          rewrite <- Hoth by lia. apply Hall. lia.
        * intros [Hg Hall]. split; [split; [assumption|]|].
          -- intros ->. apply (Hall (cur - 1)); [lia|assumption].
          -- intros j Hj. rewrite Hoth by lia. apply Hall. lia. }
      split.
      { intros i' Hne Hl'. rewrite Hrec' by assumption. now apply Hrec. }
      intros b0 Hb0 Hne. rewrite Hblk' by (rewrite ?Hind1; assumption).
      now apply Hblk.
Qed.

Lemma shrink_inode_unfold i sz s :
  shrink_inode (Some i) sz s =
  if negb (inode_valid s (Some i)) || (size (itab s i) <? sz) then Ok (-1) s
  else
    match shrink_while (Z.to_nat (bytes_to_blocks (size (itab s i))
                                  - bytes_to_blocks sz)) i
                       (bytes_to_blocks sz)
                       (bytes_to_blocks (size (itab s i))) s with
    | Ok _ s1 =>
        let s2 :=
          if (bytes_to_blocks sz <=? NDIRECT) && negb (indirect (itab s1 i) =? 0)
          then with_field i f_indirect 0
                 (with_bbm (bitmap_put (bbm s1) (indirect (itab s1 i)) false) s1)
          else s1 in
        Ok sz (with_field i f_size sz s2)
    | Fault => Fault
    | Hang => Hang
    end.
Proof.
  unfold shrink_inode, bind, reads, ret, modify, free_block.
  destruct (negb (inode_valid s (Some i)) || (size (itab s i) <? sz));
    [reflexivity|].
  destruct (shrink_while _ i _ _ s) as [c s1| |]; try reflexivity.
  destruct ((bytes_to_blocks sz <=? NDIRECT) && negb (indirect (itab s1 i) =? 0));
    reflexivity.
Qed.

(** the two stores that end [shrink_inode] *)
Lemma shrink_tail i sz tgt s1 :
  low_inode i ->
  (indirect (itab s1 i) <> 0 -> TABLE_END <= indirect (itab s1 i)) ->
  let s2 :=
    if (tgt <=? NDIRECT) && negb (indirect (itab s1 i) =? 0)
    then with_field i f_indirect 0
           (with_bbm (bitmap_put (bbm s1) (indirect (itab s1 i)) false) s1)
    else s1 in
  let s' := with_field i f_size sz s2 in
  ibm s' = ibm s1 /\
  bbm s' = bbm s2 /\
  bbm s2 = (if (tgt <=? NDIRECT) && negb (indirect (itab s1 i) =? 0)
            then bitmap_put (bbm s1) (indirect (itab s1 i)) false else bbm s1) /\
  itab s' i =
    set_size (int32 sz)
      (if (tgt <=? NDIRECT) && negb (indirect (itab s1 i) =? 0)
       then set_indirect 0 (itab s1 i) else itab s1 i) /\
  (forall i', i' <> i -> itab s' i' = itab s1 i') /\
  (forall b, TABLE_END <= b -> blocks s' b = blocks s1 b).
Proof.
  intros Hlow Hind s2 s'. subst s' s2.
  rewrite ibm_with_field, bbm_with_field.
  rewrite (itab_with_field_same i f_size) by exact I.
  destruct ((tgt <=? NDIRECT) && negb (indirect (itab s1 i) =? 0)).
  - rewrite ibm_with_field, bbm_with_field.
    rewrite (itab_with_field_same i f_indirect) by exact I.
    split; [reflexivity|]. split; [reflexivity|]. split; [reflexivity|].
    split; [reflexivity|].
    split; [intros i' Hne; now rewrite !itab_with_field_other by (assumption || exact I)|].
    intros b Hb. now rewrite !blocks_with_field by (assumption || exact I).
  - split; [reflexivity|]. split; [reflexivity|]. split; [reflexivity|].
    split; [reflexivity|].
    split; [intros i' Hne; now rewrite !itab_with_field_other by (assumption || exact I)|].
    intros b Hb. now rewrite !blocks_with_field by (assumption || exact I).
Qed.


(** ** [inode_write] *)

Lemma room_pos_le k sz from : 0 < room k sz from -> from + room k sz from <= sz.
Proof. unfold room. lia. Qed.

(** [grow_inode] returns on every inode with a well-formed block chain: the
    volume is smaller than the block map of an inode. *)
Lemma grow_inode_returns s i n :
  chain_ok s i -> off_table s i -> n <= 2147483647 ->
  exists r sg, grow_inode (Some i) n s = Ok r sg.
Proof.
  intros C O Hmax.
  destruct (Z_lt_le_dec n (size (itab s i))) as [Hlt|Hge].
  - rewrite grow_inode_unfold. rewrite (ltb_true n _) by assumption.
    rewrite orb_true_r. eauto.
  - pose proof (ck_size _ _ C) as Hs0.
    destruct (grow_inode_spec s i n (ot_low _ _ O) (ot_reserved _ _ O)
                (ot_indirect _ _ O) Hmax (ck_valid _ _ C) ltac:(lia)
                (ck_indirect _ _ C)) as [[Hf _]|(rg & sg & bs & Hg & _)];
      [exfalso | eauto].
    revert Hf. apply grow_inode_no_fault;
      [exact (ot_low _ _ O) | exact (ot_reserved _ _ O) | exact (ot_indirect _ _ O)
       | exact (ck_valid _ _ C) | exact (ck_indirect _ _ C) | exact Hs0 |].
    pose proof (chain_ok_count s i C). zlia.
Qed.

(** What [inode_write] does to a file with a well-formed block chain that
    is off the table. *)
Lemma inode_write_chain s i buf off n :
  chain_ok s i -> off_table s i -> 0 <= off -> 0 < n ->
  exists rg sg r s',
    grow_inode (Some i) (int32 (off + n)) s = Ok rg sg /\
    inode_write (Some i) buf off n s = Ok r s' /\
    chain_ok sg i /\ off_table sg i /\
    chain_ok s' i /\ off_table s' i /\
    (forall j, low_inode j -> itab s' j = itab sg j) /\
    ibm s' = ibm sg /\ bbm s' = bbm sg /\
    (forall b, (forall j, 0 <= j < bytes_to_blocks (size (itab sg i)) ->
                          file_block sg i j <> Some b) ->
               blocks s' b = blocks sg b) /\
    (let w := Z.max 0 (Z.min n (size (itab sg i) - off)) in
     r = (if w =? 0 then -1 else w) /\
     forall y, 0 <= y < size (itab sg i) ->
       file_byte s' i y =
       if (off <=? y) && (y <? off + w)
       then Some (nth (Z.to_nat (y - off)) buf 0)
       else file_byte sg i y).
Proof.
  intros C O Hoff Hn. rewrite inode_write_unfold.
  rewrite (ck_valid _ _ C). rewrite (ltb_false off 0) by lia.
  rewrite (leb_false n 0) by lia. cbn [negb orb].
  assert (Hmax : int32 (off + n) <= 2147483647)
    by (pose proof (int32_range (off + n)); lia).
  destruct (grow_inode_returns s i _ C O Hmax) as (rg & sg & Hg).
  rewrite Hg.
  destruct (grow_inode_chain_ok _ _ _ _ _ C O Hmax Hg) as (Cg & Og & _ & _).
  destruct (write_loop_spec i (Z.to_nat n) buf off 0 sg Cg Og Hoff ltac:(lia))
    as (s2 & Hrun & C2 & O2 & Hit & Hib & Hbb & Hblk & Hbytes).
  exists rg, sg. eexists _, s2. split; [reflexivity|].
  split; [exact Hrun|].
  split; [assumption|]. split; [assumption|].
  split; [assumption|]. split; [assumption|]. split; [assumption|].
  split; [assumption|]. split; [assumption|]. split; [assumption|].
  rewrite !Z.add_0_r in *. rewrite !Z.add_0_l. cbv zeta.
  unfold room in *. rewrite Z2Nat.id in * by lia.
  set (w := Z.max 0 (Z.min n (size (itab sg i) - off))) in *.
  split.
  - destruct (Z.eqb_spec w n); destruct (Z.eqb_spec w 0); try reflexivity; lia.
  - exact Hbytes.
Qed.

(** C7, as the code has it: [inode_write] returns -1, with the image
    untouched, when the inode is not valid, [off < 0] or [n <= 0]; it never
    returns 0; and for an inode among the records that lie in the blocks
    reserved for the table, with a well-formed block chain whose blocks are
    past the table, it first calls [grow_inode (node, off + n)] (the sum as
    an [int]), which returns, and then copies [min (n, size - off)] bytes
    into the file, the size being the one that [grow_inode] left, and
    returns that number, or -1 when it is zero; the records of the reserved
    blocks and the bitmaps are as [grow_inode] left them. *)
Theorem inode_write_contract (s : image) (node : inode_ptr) (buf : list Z)
        (off n : Z) :
  (inode_valid s node = false \/ off < 0 \/ n <= 0 ->
   inode_write node buf off n s = Ok (-1) s) /\
  (forall i,
     node = Some i -> chain_ok s i -> off_table s i -> 0 <= off -> 0 < n ->
     exists rg sg r s',
       grow_inode node (int32 (off + n)) s = Ok rg sg /\
       inode_write node buf off n s = Ok r s' /\
       chain_ok s' i /\
       (forall j, low_inode j -> itab s' j = itab sg j) /\
       ibm s' = ibm sg /\ bbm s' = bbm sg /\
       (let w := Z.max 0 (Z.min n (size (itab sg i) - off)) in
        r = (if w =? 0 then -1 else w)) /\
       forall t, 0 <= t < r ->
         file_byte s' i (off + t) = Some (nth (Z.to_nat t) buf 0)) /\
  (forall r s', inode_write node buf off n s = Ok r s' -> r <> 0).
Proof.
  split; [|split].
  - intros H. destruct node as [i|]; [|reflexivity].
    rewrite inode_write_unfold.
    destruct H as [H|[H|H]].
    + now rewrite H.
    + rewrite (ltb_true off 0) by assumption. now rewrite orb_true_r.
    + rewrite (leb_true n 0) by assumption. now rewrite orb_true_r.
  - intros i -> C O Hoff Hn.
    destruct (inode_write_chain s i buf off n C O Hoff Hn)
      as (rg & sg & r & s' & Hg & Hw & Cg & Og & C' & O' & Hit & Hib & Hbb & _ & Hr & Hbytes).
    exists rg, sg, r, s'.
    split; [assumption|]. split; [assumption|]. split; [assumption|].
    split; [assumption|]. split; [assumption|]. split; [assumption|].
    split; [assumption|].
    intros t Ht. cbv zeta in Hr, Hbytes.
    set (w := Z.max 0 (Z.min n (size (itab sg i) - off))) in *.
    assert (Hw' : 0 < w /\ t < w) by (destruct (Z.eqb_spec w 0); lia).
    rewrite Hbytes by lia.
    rewrite (leb_true off) by lia. rewrite (ltb_true (off + t)) by lia.
    cbn [andb]. do 2 f_equal. lia.
  - intros r s' H. destruct node as [i|]; [|inversion H; lia].
    rewrite inode_write_unfold in H.
    destruct (negb (inode_valid s (Some i)) || (off <? 0)) eqn:G1;
      [cbn [orb] in H; inversion H; lia|].
    destruct (Z.leb_spec n 0) as [Hn|Hn]; cbn [orb] in H; [inversion H; lia|].
    destruct (grow_inode (Some i) (int32 (off + n)) s) as [rg sg| |];
      try discriminate.
    apply write_loop_ret in H; [assumption|lia|left; lia].
Qed.

(** C7, counterexample: record 228 of the inode table lies in block 5, the
    first block that a file takes; in [alias_image (20 * BLOCK_SIZE)] the
    inode is valid (its [inum] is 1), its size is 81920 and block 5 is also
    its file block 0.  A write of five zero bytes at offset 32 first calls
    [grow_inode (node, 37)], which returns -1, copies the first byte over the
    low byte of [inum], which makes the inode invalid, and then stores the
    second byte through the [NULL] that [inode_get_byte] returns: the call
    does not return.  Nor does the write of one byte to the valid inode 2
    of [stray_block], whose size is one block and whose file block 0 is
    block 300, which the image does not have. *)
Lemma inode_write_faults :
  inode_valid (alias_image (20 * BLOCK_SIZE)) (Some 228) = true /\
  size (itab (alias_image (20 * BLOCK_SIZE)) 228) = 81920 /\
  file_block (alias_image (20 * BLOCK_SIZE)) 228 0 = Some 5 /\
  value_of (grow_inode (Some 228) (int32 (32 + 5)) (alias_image (20 * BLOCK_SIZE)))
    = Some (-1) /\
  inode_write (Some 228) [0; 0; 0; 0; 0] 32 5 (alias_image (20 * BLOCK_SIZE)) = Fault /\
  inode_valid stray_block (Some 2) = true /\
  size (itab stray_block 2) = BLOCK_SIZE /\
  file_block stray_block 2 0 = Some 300 /\
  inode_write (Some 2) [7] 0 1 stray_block = Fault.
Proof.
  split; [vm_compute; reflexivity|]. split; [vm_compute; reflexivity|].
  split; [vm_compute; reflexivity|]. split; [vm_compute; reflexivity|].
  split; [vm_compute; reflexivity|].
  vm_compute. repeat split; reflexivity.
Qed.

(** ** The image with one file *)

Lemma one_file_chain_ok : chain_ok one_file 2.
Proof.
  assert (Hs : size (itab one_file 2) = 0) by (vm_compute; reflexivity).
  constructor.
  - vm_compute. reflexivity.
  - rewrite Hs. lia.
  - left. vm_compute. reflexivity.
  - rewrite Hs. change (bytes_to_blocks 0) with 0. intros j Hj. lia.
  - rewrite Hs. change (bytes_to_blocks 0) with 0. intros j1 j2 b Hj. lia.
Qed.

Lemma one_file_off_table : off_table one_file 2.
Proof.
  assert (Hs : size (itab one_file 2) = 0) by (vm_compute; reflexivity).
  constructor.
  - vm_compute. split; discriminate.
  - intros b Hb. rewrite TABLE_END_eq in Hb.
    assert (Hc : b = 1 \/ b = 2 \/ b = 3 \/ b = 4) by lia.
    destruct Hc as [->|[->|[->| ->]]]; vm_compute; reflexivity.
  - intros H. exfalso. apply H. vm_compute. reflexivity.
  - rewrite Hs. change (bytes_to_blocks 0) with 0. intros j b Hj. lia.
Qed.

Lemma inode_write_contract_witness :
  inode_write None [] 0 1 fresh = Ok (-1) fresh /\
  (exists rg sg r s',
     grow_inode (Some 2) (int32 (0 + 5)) one_file = Ok rg sg /\
     inode_write (Some 2) (path "hello") 0 5 one_file = Ok r s' /\
     chain_ok s' 2 /\
     (forall j, low_inode j -> itab s' j = itab sg j) /\
     ibm s' = ibm sg /\ bbm s' = bbm sg /\
     (let w := Z.max 0 (Z.min 5 (size (itab sg 2) - 0)) in
      r = (if w =? 0 then -1 else w)) /\
     forall t, 0 <= t < r ->
       file_byte s' 2 (0 + t) = Some (nth (Z.to_nat t) (path "hello") 0)).
Proof.
  split.
  - apply (proj1 (inode_write_contract fresh None [] 0 1)). left. reflexivity.
  - apply (proj1 (proj2
             (inode_write_contract one_file (Some 2) (path "hello") 0 5)) 2).
    + reflexivity.
    + exact one_file_chain_ok.
    + exact one_file_off_table.
    + lia.
    + lia.
Defined.

(** ** Writing and reading back *)

(** what [inode_write] returns for a file with a well-formed chain *)
Lemma inode_write_ret_range s i buf off n r s' :
  chain_ok s i -> off_table s i ->
  inode_write (Some i) buf off n s = Ok r s' ->
  r = -1 \/ (0 < r <= n /\ 0 <= off /\ r <= size (itab s' i)).
Proof.
  intros C O H.
  destruct (Z_lt_le_dec off 0) as [Hoff|Hoff].
  { rewrite inode_write_unfold in H. rewrite (ltb_true off 0) in H by lia.
    rewrite orb_true_r in H. cbn [orb] in H. injection H as <- _. now left. }
  destruct (Z_lt_le_dec 0 n) as [Hn|Hn].
  2:{ rewrite inode_write_unfold in H. rewrite (leb_true n 0) in H by lia.
      rewrite orb_true_r in H. injection H as <- _. now left. }
  destruct (inode_write_chain s i buf off n C O Hoff Hn)
    as (rg & sg & r0 & s0 & _ & Hw & _ & _ & _ & O' & Hit & _ & _ & _ & Hr & _).
  rewrite H in Hw. injection Hw as <- <-. cbv zeta in Hr.
  rewrite (Hit i (ot_low _ _ O)).
  destruct (Z.eqb_spec (Z.max 0 (Z.min n (size (itab sg i) - off))) 0); [now left|].
  right. lia.
Qed.

(** C9, as the code has it: when the path resolves to an inode among the
    records that lie in the blocks reserved for the table, with a
    well-formed block chain whose blocks are past the table,
    [storage_write] returns [n], and the path resolves to the same inode
    after the write, then [storage_read] of the same range returns [n] and
    the bytes that were written. *)
Theorem storage_write_read (s : image) (p : cstring) (i : Z) (buf : list Z)
        (n off : Z) (s' : image) :
  path_get_inode s p = Some (Some i) ->
  chain_ok s i -> off_table s i ->
  length buf = Z.to_nat n ->
  storage_write p buf n off s = Ok n s' ->
  path_get_inode s' p = Some (Some i) ->
  storage_read s' p n off = Some (n, buf).
Proof.
  intros Hp C O Hlen Hw Hp'.
  unfold storage_write, bind, deref in Hw. rewrite Hp in Hw.
  assert (Hn : int32 n = n).
  { destruct (inode_write_ret_range _ _ _ _ _ _ _ C O Hw) as [->|(Hr & _)].
    - reflexivity.
    - pose proof (int32_range n). apply int32_id. lia. }
  rewrite Hn in Hw.
  destruct (inode_write_read s i buf (int32 off) n s' C O Hlen Hw) as (_ & _ & Hr).
  unfold storage_read. rewrite Hp', Hn. assumption.
Qed.

Lemma storage_write_read_witness :
  storage_read
    (state_of (storage_write (path "/a") (path "hello") 5 0 one_file))
    (path "/a") 5 0 = Some (5, path "hello").
Proof.
  apply (storage_write_read one_file (path "/a") 2 (path "hello") 5 0).
  - vm_compute. reflexivity.
  - exact one_file_chain_ok.
  - exact one_file_off_table.
  - reflexivity.
  - apply outcome_eta. vm_compute. reflexivity.
  - vm_compute. reflexivity.
Defined.

(** C9, counterexample: in [self_entry] the regular file "/a" holds an entry
    "a" for itself, so that "/a/a" resolves to it; a write of 64 zero bytes at
    offset 0 of "/a/a" returns 64 and erases that entry, and the read of the
    same range of "/a/a" returns -1.  In [own_record] the path "/q" resolves
    to inode 228, a valid inode of size 228 whose file block 0 is block 5,
    where its record lies: [direct[0]] is the bytes 52 .. 55 of the file.  A
    write of the four bytes 6, 0, 0, 0 at offset 52 returns 4; its first byte
    makes block 6 the file block 0, the other three go to block 6, and the
    read of the same range, of a path that resolves as before, returns four
    zero bytes. *)
Lemma write_read_differs :
  (path_get_inode self_entry (path "/a/a") = Some (Some 2) /\
   value_of (storage_write (path "/a/a") zero_dirent 64 0 self_entry) = Some 64 /\
   length zero_dirent = 64%nat /\
   storage_read
     (state_of (storage_write (path "/a/a") zero_dirent 64 0 self_entry))
     (path "/a/a") 64 0 = Some (-1, [])) /\
  (path_get_inode own_record (path "/q") = Some (Some 228) /\
   inode_valid own_record (Some 228) = true /\
   size (itab own_record 228) = 228 /\
   file_block own_record 228 0 = Some 5 /\
   value_of (storage_write (path "/q") [6; 0; 0; 0] 4 52 own_record) = Some 4 /\
   path_get_inode (state_of (storage_write (path "/q") [6; 0; 0; 0] 4 52 own_record))
                  (path "/q") = Some (Some 228) /\
   file_block (state_of (storage_write (path "/q") [6; 0; 0; 0] 4 52 own_record))
              228 0 = Some 6 /\
   storage_read
     (state_of (storage_write (path "/q") [6; 0; 0; 0] 4 52 own_record))
     (path "/q") 4 52 = Some (4, [0; 0; 0; 0])).
Proof. split; vm_compute; repeat split; reflexivity. Qed.

(** ** Writing more than the volume holds *)

Lemma storage_write_short p buf n i s sz :
  path_get_inode s p = Some (Some i) -> chain_ok s i -> off_table s i ->
  0 < n <= 2147483647 ->
  value_of (grow_inode (Some i) n s) <> None ->
  size (itab (state_of (grow_inode (Some i) n s)) i) = sz ->
  0 < sz < n ->
  exists s', storage_write p buf n 0 s = Ok sz s' /\ size (itab s' i) = sz.
Proof.
  intros Hp C O Hn Hok Hsz Hlt.
  unfold storage_write, bind, deref. rewrite Hp.
  rewrite (int32_id n) by lia. change (int32 0) with 0.
  destruct (inode_write_chain s i buf 0 n C O ltac:(lia) ltac:(lia))
    as (rg & sg & r & s' & Hg & Hw & _ & _ & _ & O' & Hit & _ & _ & _ & Hr & _).
  rewrite Z.add_0_l in Hg. rewrite (int32_id n) in Hg by lia.
  rewrite Hg in Hok, Hsz. cbn [value_of state_of] in Hok, Hsz.
  exists s'. rewrite Hw. rewrite (Hit i (ot_low _ _ O)). split; [|assumption].
  f_equal. cbv zeta in Hr. rewrite Hr, Hsz.
  replace (Z.max 0 (Z.min n (sz - 0))) with sz by lia.
  now rewrite (eqb_false sz 0) by lia.
Qed.

(** No write returns more bytes than the volume has blocks for: a write of
    the maximum file size never returns its count. *)
Lemma storage_write_bounded p buf n off i s r s' :
  path_get_inode s p = Some (Some i) -> chain_ok s i -> off_table s i ->
  storage_write p buf n off s = Ok r s' ->
  r <= (BLOCK_COUNT - 1) * BLOCK_SIZE /\ r < MAX_FILE_SIZE.
Proof.
  intros Hp C O H.
  assert (Hb : (BLOCK_COUNT - 1) * BLOCK_SIZE < MAX_FILE_SIZE) by reflexivity.
  enough (r <= (BLOCK_COUNT - 1) * BLOCK_SIZE) by lia.
  unfold storage_write, bind, deref in H. rewrite Hp in H.
  destruct (Z_lt_le_dec (int32 off) 0) as [Hoff|Hoff].
  { rewrite inode_write_unfold in H. rewrite (ltb_true (int32 off) 0) in H by lia.
    rewrite orb_true_r in H. cbn [orb] in H. injection H as <- _. zlia. }
  destruct (Z_lt_le_dec 0 (int32 n)) as [Hn|Hn].
  2:{ rewrite inode_write_unfold in H. rewrite (leb_true (int32 n) 0) in H by lia.
      rewrite orb_true_r in H. injection H as <- _. zlia. }
  destruct (inode_write_chain s i buf _ _ C O Hoff Hn)
    as (rg & sg & r0 & s0 & _ & Hw & Cg & _ & _ & _ & _ & _ & _ & _ & Hr & _).
  rewrite H in Hw. injection Hw as <- <-. cbv zeta in Hr.
  pose proof (chain_ok_count sg i Cg) as Hcount.
  pose proof (free_blocks_nonneg sg) as Hfree.
  pose proof (bytes_to_blocks_bounds (size (itab sg i))) as Hbb.
  pose proof (ck_size _ _ Cg) as Hs0.
  set (w := Z.max 0 (Z.min (int32 n) (size (itab sg i) - int32 off))) in Hr.
  assert (Hw : w <= size (itab sg i)) by (subst w; lia).
  assert (Hsz : size (itab sg i) <= (BLOCK_COUNT - 1) * BLOCK_SIZE) by zlia.
  clearbody w.
  destruct (w =? 0); zlia.
Qed.

(** C4, as the code has it: on a fresh image with one regular file of size 0
    a write of [(NDIRECT + NINDIRECT) * BLOCK_SIZE] bytes at offset 0 returns
    1019904, which is 249 blocks: the volume of [BLOCK_COUNT] blocks has no
    more free blocks for the file and its indirect block.  A write of one
    byte more returns the same, fewer bytes than requested.  On no image
    does a write to a file of a record in the blocks reserved for the table,
    with a well-formed block chain whose blocks are past the table, return
    [(NDIRECT + NINDIRECT) * BLOCK_SIZE] or more.  No file block at or
    beyond [NDIRECT + NINDIRECT] has a cell in the block map, so
    [(NDIRECT + NINDIRECT) * BLOCK_SIZE] bounds the size of a file. *)
Theorem write_full_volume (buf : list Z) :
  (exists s', storage_write (path "/a") buf MAX_FILE_SIZE 0 one_file
              = Ok 1019904 s' /\ size (itab s' 2) = 1019904) /\
  (exists s', storage_write (path "/a") buf (MAX_FILE_SIZE + 1) 0 one_file
              = Ok 1019904 s' /\ size (itab s' 2) = 1019904) /\
  1019904 = 249 * BLOCK_SIZE /\ 1019904 < MAX_FILE_SIZE /\
  (forall s p i n off r s',
     path_get_inode s p = Some (Some i) -> chain_ok s i -> off_table s i ->
     storage_write p buf n off s = Ok r s' -> r < MAX_FILE_SIZE) /\
  (forall s node j, NDIRECT + NINDIRECT <= j -> inode_get_bnum s node j = None).
Proof.
  assert (Hp : path_get_inode one_file (path "/a") = Some (Some 2))
    by (vm_compute; reflexivity).
  split; [|split; [|split; [|split; [|split]]]].
  - apply (storage_write_short _ _ _ 2); try assumption.
    + exact one_file_chain_ok.
    + exact one_file_off_table.
    + vm_compute. split; [reflexivity|discriminate].
    + vm_compute. discriminate.
    + vm_compute. reflexivity.
    + vm_compute. split; reflexivity.
  - apply (storage_write_short _ _ _ 2); try assumption.
    + exact one_file_chain_ok.
    + exact one_file_off_table.
    + vm_compute. split; [reflexivity|discriminate].
    + vm_compute. discriminate.
    + vm_compute. reflexivity.
    + vm_compute. split; reflexivity.
  - reflexivity.
  - reflexivity.
  - intros s p i n off r s' Hq C O H.
    exact (proj2 (storage_write_bounded _ _ _ _ _ _ _ _ Hq C O H)).
  - intros s node j Hj. unfold inode_get_bnum.
    rewrite (leb_true (NINDIRECT + NDIRECT) j) by lia.
    now rewrite orb_true_r.
Qed.

(** ** Growing and shrinking the file of [one_file] *)

Lemma grow_inode_partial_witness :
  (exists s' bs,
     grow_inode (Some 2) 5000 one_file = Ok 0 s' /\
     grown 2 one_file s' 0 bs /\ size (itab s' 2) = 5000 /\ length bs = 2%nat) /\
  (exists s' bs,
     grow_inode (Some 2) MAX_FILE_SIZE one_file = Ok (-1) s' /\
     grown 2 one_file s' 0 bs /\
     size (itab s' 2) = BLOCK_SIZE * Z.of_nat (length bs) /\
     length bs = 249%nat).
Proof.
  pose proof (ot_low _ _ one_file_off_table) as Hl.
  pose proof (ot_reserved _ _ one_file_off_table) as Hres.
  pose proof (ot_indirect _ _ one_file_off_table) as Hio.
  assert (Hv : inode_valid one_file (Some 2) = true) by (vm_compute; reflexivity).
  assert (Hs : size (itab one_file 2) = 0) by (vm_compute; reflexivity).
  assert (Hi : indirect_ok one_file 2) by (left; vm_compute; reflexivity).
  split.
  - destruct (grow_inode_partial one_file 2 5000 Hl Hres Hio Hv)
      as (r & s' & bs & Hg & G & Hr).
    + rewrite Hs. lia.
    + lia.
    + exact Hi.
    + left. vm_compute. discriminate.
    + rewrite Hs in *. change (bytes_to_blocks 0) with 0 in *.
      change (bytes_to_blocks 5000) with 2 in *.
      assert (Hval : value_of (grow_inode (Some 2) 5000 one_file) = Some 0)
        by (vm_compute; reflexivity).
      rewrite Hg in Hval. cbn [value_of] in Hval. injection Hval as ->.
      exists s', bs. destruct Hr as [(_ & Hsz & Hl')|(Hr & _)]; [|lia].
      split; [assumption|]. split; [assumption|]. split; [assumption|]. lia.
  - destruct (grow_inode_partial one_file 2 MAX_FILE_SIZE Hl Hres Hio Hv)
      as (r & s' & bs & Hg & G & Hr).
    + rewrite Hs. vm_compute. split; discriminate.
    + vm_compute. discriminate.
    + exact Hi.
    + right. vm_compute. discriminate.
    + rewrite Hs in *. change (bytes_to_blocks 0) with 0 in *.
      assert (Hval : value_of (grow_inode (Some 2) MAX_FILE_SIZE one_file) = Some (-1))
        by (vm_compute; reflexivity).
      assert (Hsz : size (itab (state_of (grow_inode (Some 2) MAX_FILE_SIZE one_file)) 2)
                    = 1019904) by (vm_compute; reflexivity).
      rewrite Hg in Hval, Hsz. cbn [value_of state_of] in Hval, Hsz.
      injection Hval as ->.
      exists s', bs. destruct Hr as [(Hr & _)|(_ & Hsz' & _)]; [lia|].
      split; [assumption|]. split; [assumption|].
      rewrite Z.add_0_l in Hsz'. split; [assumption|].
      rewrite Hsz in Hsz'. unfold BLOCK_SIZE in Hsz'. lia.
Defined.

(** C5, counterexample: record 228 of the inode table lies in block 5, the
    first block that a file takes.  In [alias_image (20 * BLOCK_SIZE)] the
    inode is valid (its [inum] is 1), its size is 20 blocks and its indirect
    block is block 5, so that the cell of file block 20, cell 8 of that
    block, is the field [inum] of the record itself.  Growing the inode to
    21 blocks stores the number of the new block, 6, there and returns 0 with
    the inode no longer valid; growing it to 22 blocks goes on to store the
    number of the next block through the [NULL] that [inode_get_bnum] returns
    for an inode that is not valid: the call neither succeeds nor returns
    -1.  The same happens to the valid inode 2 of [oversized], whose size
    is that of the whole block map, when it grows by one byte (there is no
    cell for file block [NDIRECT + NINDIRECT]), and to that of
    [negative_size], whose size is negative, when it grows to 0 (there is no
    cell for a negative file block); the valid inode 2 of [dangling] has an
    indirect pointer to block 300, which the image does not have, and the
    store of the block number for file block [NDIRECT] goes there. *)
Lemma grow_inode_faults :
  inode_valid (alias_image (20 * BLOCK_SIZE)) (Some 228) = true /\
  size (itab (alias_image (20 * BLOCK_SIZE)) 228) = 20 * BLOCK_SIZE /\
  indirect (itab (alias_image (20 * BLOCK_SIZE)) 228) = 5 /\
  inode_get_bnum (alias_image (20 * BLOCK_SIZE)) (Some 228) 20 = Some (SIndirect 5 8) /\
  value_of (grow_inode (Some 228) (21 * BLOCK_SIZE) (alias_image (20 * BLOCK_SIZE)))
    = Some 0 /\
  inum (itab (state_of (grow_inode (Some 228) (21 * BLOCK_SIZE)
                                   (alias_image (20 * BLOCK_SIZE)))) 228) = 6 /\
  inode_valid (state_of (grow_inode (Some 228) (21 * BLOCK_SIZE)
                                    (alias_image (20 * BLOCK_SIZE)))) (Some 228)
    = false /\
  grow_inode (Some 228) (22 * BLOCK_SIZE) (alias_image (20 * BLOCK_SIZE)) = Fault /\
  (inode_valid oversized (Some 2) = true /\
   size (itab oversized 2) = MAX_FILE_SIZE /\
   grow_inode (Some 2) (MAX_FILE_SIZE + 1) oversized = Fault) /\
  (inode_valid negative_size (Some 2) = true /\
   size (itab negative_size 2) = -2 * BLOCK_SIZE /\
   grow_inode (Some 2) 0 negative_size = Fault) /\
  (inode_valid dangling (Some 2) = true /\
   size (itab dangling 2) = NDIRECT * BLOCK_SIZE /\
   indirect (itab dangling 2) = 300 /\
   grow_inode (Some 2) ((NDIRECT + 1) * BLOCK_SIZE) dangling = Fault).
Proof.
  split; [vm_compute; reflexivity|]. split; [vm_compute; reflexivity|].
  split; [vm_compute; reflexivity|]. split; [vm_compute; reflexivity|].
  split; [vm_compute; reflexivity|]. split; [vm_compute; reflexivity|].
  split; [vm_compute; reflexivity|]. split; [vm_compute; reflexivity|].
  split; [|split]; vm_compute; repeat split; reflexivity.
Qed.




(** ** Reading the entries of a directory *)

Lemma dirent_inum_overlay cs d :
  length cs = 64%nat -> dirent_inum (overlay cs d) = dirent_inum cs.
Proof.
  intros Hl. unfold dirent_inum, overlay.
  rewrite !app_nth1 by lia. reflexivity.
Qed.

Lemma slot_in_size s i ii :
  0 <= size (itab s i) -> 0 <= ii < slot_count s i ->
  ii * DIRENT_SIZE + DIRENT_SIZE <= size (itab s i).
Proof.
  unfold slot_count. intros Hs Hii.
  rewrite Z.quot_div_nonneg in Hii by zlia.
  pose proof (Z.div_mod (size (itab s i)) DIRENT_SIZE ltac:(zlia)).
  pose proof (Z.mod_pos_bound (size (itab s i)) DIRENT_SIZE ltac:(zlia)).
  unfold DIRENT_SIZE in *. nia.
Qed.

(** the read of entry [ii] of a directory with a well-formed chain *)
Lemma slot_read s i ii :
  chain_ok s i -> 0 <= ii < slot_count s i ->
  exists cs,
    inode_read s (Some i) (ii * DIRENT_SIZE) DIRENT_SIZE = Some (DIRENT_SIZE, cs) /\
    length cs = 64%nat /\ dirent_inum cs = slot_inum s i ii.
Proof.
  intros C Hii. pose proof (slot_in_size s i ii (ck_size _ _ C) Hii) as Hsz.
  unfold inode_read. rewrite (ck_valid _ _ C).
  rewrite (ltb_false (ii * DIRENT_SIZE) 0) by zlia.
  rewrite (ltb_false DIRENT_SIZE 0) by zlia. cbn [negb orb].
  destruct (read_loop_spec i (Z.to_nat DIRENT_SIZE) (ii * DIRENT_SIZE) 0 s C
              ltac:(zlia) ltac:(lia)) as (cs & Hrd & Hl & Hcs).
  rewrite Z.add_0_r in *.
  assert (Hw : room (Z.to_nat DIRENT_SIZE) (size (itab s i)) (ii * DIRENT_SIZE) = 64)
    by (unfold room; zlia).
  rewrite Hw in *. exists cs. split; [exact Hrd|].
  split; [rewrite Hl; reflexivity|].
  unfold dirent_inum, slot_inum.
  assert (Hb : forall t, (t < 64)%nat ->
            nth t cs 0 = match file_byte s i (ii * DIRENT_SIZE + Z.of_nat t) with
                         | Some c => c | None => 0 end).
  { intros t Ht. rewrite Hcs by (rewrite Hl; lia). reflexivity. }
  rewrite (Hb 48%nat), (Hb 49%nat), (Hb 50%nat), (Hb 51%nat) by lia.
  unfold DIR_NAME_LENGTH.
  repeat match goal with
         | |- context [file_byte s i ?a] =>
             match a with
             | context [Z.of_nat] => 
                 let a' := eval cbn [Z.of_nat Pos.of_succ_nat Pos.succ] in a in
                 change a with a'
             end
         end.
  replace (ii * DIRENT_SIZE + 48 + 1) with (ii * DIRENT_SIZE + 49) by lia.
  replace (ii * DIRENT_SIZE + 48 + 2) with (ii * DIRENT_SIZE + 50) by lia.
  replace (ii * DIRENT_SIZE + 48 + 3) with (ii * DIRENT_SIZE + 51) by lia.
  reflexivity.
Qed.

Lemma dirent_read_slot s i ii temp :
  chain_ok s i -> 0 <= ii < slot_count s i ->
  exists d, dirent_read s (Some i) temp ii = Some (0, d) /\
            dirent_inum d = slot_inum s i ii.
Proof.
  intros C Hii. destruct (slot_read s i ii C Hii) as (cs & Hrd & Hl & Hin).
  unfold dirent_read. rewrite Hrd. rewrite Z.eqb_refl.
  exists (overlay cs temp). split; [reflexivity|].
  rewrite dirent_inum_overlay by assumption. assumption.
Qed.

Lemma directory_read_loop_done s di iis temp :
  directory_read_loop s di 0 iis 0 temp = Some (0, temp).
Proof. destruct iis; reflexivity. Qed.

Lemma directory_read_loop_first s i : chain_ok s i -> forall iis temp,
  (forall ii, In ii iis -> 0 <= ii < slot_count s i) ->
  exists t,
    directory_read_loop s (Some i) 0 iis (-1) temp =
    Some (if existsb (live_slot s i) iis then 0 else -1, t).
Proof.
  intros C. induction iis as [|ii rest IH]; intros temp Hin.
  - exists temp. reflexivity.
  - cbn [directory_read_loop existsb].
    destruct (dirent_read_slot s i ii temp C (Hin ii (or_introl eq_refl)))
      as (d & Hrd & Hd).
    rewrite Hrd. change (-1 <? 0) with true. cbv iota.
    change (0 =? 0) with true. cbn [andb]. rewrite Hd. unfold live_slot at 1.
    destruct (negb (slot_inum s i ii =? 0)); cbn [orb].
    + exists d. apply directory_read_loop_done.
    + apply IH. intros ii' H'. apply Hin. now right.
Qed.

Lemma directory_read_first s i :
  chain_ok s i ->
  exists t,
    directory_read s (Some i) 0 =
    Some (if existsb (live_slot s i) (zseq 0 (Z.to_nat (slot_count s i)))
          then 0 else -1, t).
Proof.
  intros C. unfold directory_read. change (-1 <? 0) with true. cbv iota.
  unfold dir_slots. fold (slot_count s i).
  destruct (directory_read_loop_first s i C (zseq 0 (Z.to_nat (slot_count s i)))
              zero_dirent) as (t & Hrun).
  { intros ii Hii. apply in_zseq in Hii. lia. }
  rewrite Hrun. exists t.
  destruct (existsb (live_slot s i) (zseq 0 (Z.to_nat (slot_count s i))));
    reflexivity.
Qed.

Lemma live_slot_exists s i :
  existsb (live_slot s i) (zseq 0 (Z.to_nat (slot_count s i))) = true <->
  exists ii, 0 <= ii < slot_count s i /\ slot_inum s i ii <> 0.
Proof.
  rewrite existsb_exists. split.
  - intros (ii & Hin & Hl). apply in_zseq in Hin. exists ii. split; [lia|].
    unfold live_slot in Hl. destruct (Z.eqb_spec (slot_inum s i ii) 0);
      [discriminate|assumption].
  - intros (ii & Hr & Hl). exists ii. split; [apply in_zseq; lia|].
    unfold live_slot. now rewrite (eqb_false _ 0).
Qed.

Lemma storage_rmdir_unfold p s :
  storage_rmdir p s =
  match path_get_inode s p with
  | None => Fault
  | Some di =>
      match directory_read s di 0 with
      | None => Fault
      | Some r => if 0 <=? fst r then Ok (-1) s else storage_unlink p s
      end
  end.
Proof.
  unfold storage_rmdir, bind, deref, ret.
  destruct (path_get_inode s p) as [di|]; [|reflexivity].
  destruct (directory_read s di 0) as [r|]; [|reflexivity].
  destruct (0 <=? fst r); reflexivity.
Qed.

(** the search of [dirent_lookup] in a directory with a well-formed chain
    ends at -1 or at an entry of the directory *)
Lemma dirent_lookup_loop_spec s i name : chain_ok s i -> forall iis,
  (forall ii, In ii iis -> 0 <= ii < slot_count s i) ->
  exists idx, dirent_lookup_loop s (Some i) name iis = Some idx /\
              (idx = -1 \/ In idx iis).
Proof.
  intros C. induction iis as [|ii rest IH]; intros Hin.
  - exists (-1). split; [reflexivity|]. now left.
  - cbn [dirent_lookup_loop].
    destruct (dirent_read_slot s i ii zero_dirent C (Hin ii (or_introl eq_refl)))
      as (d & Hrd & _).
    rewrite Hrd. destruct (streq name d).
    + exists ii. split; [reflexivity|]. right. now left.
    + destruct IH as (idx & Hrun & Hidx); [intros ii' H'; apply Hin; now right|].
      exists idx. split; [assumption|]. destruct Hidx; [now left|right; now right].
Qed.

(** [storage_unlink] of the root finds no entry to delete when the root
    holds no non-empty entry. *)
Lemma storage_unlink_root s :
  chain_ok s DIR_ROOT ->
  (forall ii, 0 <= ii < slot_count s DIR_ROOT -> slot_inum s DIR_ROOT ii = 0) ->
  storage_unlink (path "/") s = Ok (-1) s.
Proof.
  intros C Hall. unfold storage_unlink.
  change (path_split_strings (path "/") [] []) with (-1, @nil Z, @nil Z).
  cbv iota beta. unfold bind, deref.
  change (path_get_inode s []) with (Some (Some DIR_ROOT)). cbv iota beta.
  unfold directory_delete, bind, reads, deref, ret.
  rewrite (ck_valid _ _ C). cbn [negb].
  unfold dirent_lookup, dir_slots. fold (slot_count s DIR_ROOT).
  destruct (dirent_lookup_loop_spec s DIR_ROOT [] C
              (zseq 0 (Z.to_nat (slot_count s DIR_ROOT))))
    as (idx & Hrun & Hidx).
  { intros ii Hii. apply in_zseq in Hii. lia. }
  rewrite Hrun.
  destruct Hidx as [->|Hin]; [reflexivity|].
  apply in_zseq in Hin. rewrite (eqb_false idx (-1)) by lia.
  destruct (slot_read s DIR_ROOT idx C ltac:(lia)) as (cs & Hrd & Hl & Hnum).
  rewrite Hrd. cbn [fst snd]. change (DIRENT_SIZE =? 0) with false. cbv iota.
  rewrite dirent_inum_overlay by assumption. rewrite Hnum.
  rewrite Hall by lia. reflexivity.
Qed.

(** ** [storage_rmdir] *)

(** a file of one block, checked by evaluation *)
Lemma chain_ok_one_block s i b :
  inode_valid s (Some i) = true ->
  0 < size (itab s i) <= BLOCK_SIZE ->
  indirect (itab s i) = 0 ->
  file_block s i 0 = Some b -> 0 < b < BLOCK_COUNT ->
  bitmap_get (bbm s) b = true ->
  chain_ok s i.
Proof.
  intros Hv Hs Hi Hb Hr Hu.
  assert (Hn : bytes_to_blocks (size (itab s i)) = 1).
  { pose proof (bytes_to_blocks_bounds (size (itab s i))). zlia. }
  constructor.
  - assumption.
  - lia.
  - now left.
  - rewrite Hn. intros j Hj. assert (j = 0) as -> by lia. exists b.
    split; [assumption|]. split; [split; assumption|]. lia.
  - rewrite Hn. intros j1 j2 b' Hj1 Hj2 _ _. lia.
Qed.

Lemma tomb_dir_chain_ok : chain_ok tomb_dir 2.
Proof.
  apply (chain_ok_one_block _ _ 6); try (vm_compute; reflexivity).
  - vm_compute. split; [reflexivity|discriminate].
  - unfold BLOCK_COUNT. lia.
Qed.

Lemma one_file_root_chain_ok : chain_ok one_file DIR_ROOT.
Proof.
  apply (chain_ok_one_block _ _ 5); try (vm_compute; reflexivity).
  - vm_compute. split; [reflexivity|discriminate].
  - unfold BLOCK_COUNT. lia.
Qed.

(** C4, counterexample: the write of a buffer of
    [(NDIRECT + NINDIRECT) * BLOCK_SIZE] zero bytes at offset 0 of the file
    of [one_file] returns 1019904, not the full count. *)
Lemma write_full_volume_short :
  exists s',
    storage_write (path "/a") (repeat 0 (Z.to_nat MAX_FILE_SIZE))
                  MAX_FILE_SIZE 0 one_file = Ok 1019904 s' /\
    1019904 < MAX_FILE_SIZE.
Proof.
  destruct (storage_write_short (path "/a") (repeat 0 (Z.to_nat MAX_FILE_SIZE))
              MAX_FILE_SIZE 2 one_file 1019904) as (s' & Hw & _).
  - vm_compute. reflexivity.
  - exact one_file_chain_ok.
  - exact one_file_off_table.
  - vm_compute. split; [reflexivity|discriminate].
  - vm_compute. discriminate.
  - vm_compute. reflexivity.
  - vm_compute. split; reflexivity.
  - exists s'. split; [assumption|reflexivity].
Qed.

(** * Further properties of the inode layer *)

(** ** [inode_read] *)

(** X1: [inode_read] returns -1 with no byte for an inode that is not valid, a
    negative offset or a negative count.  On an inode with a well-formed
    block chain it returns the number of bytes between the offset and the
    end of the file, at most [n] (0 at or past the end), with exactly these
    bytes of the file. *)
Theorem inode_read_result (s : image) (node : inode_ptr) (off n : Z) :
  (inode_valid s node = false \/ off < 0 \/ n < 0 ->
   inode_read s node off n = Some (-1, [])) /\
  (forall i, node = Some i -> chain_ok s i -> 0 <= off -> 0 <= n ->
   exists cs,
     inode_read s node off n
       = Some (Z.max 0 (Z.min n (size (itab s i) - off)), cs) /\
     Z.of_nat (length cs) = Z.max 0 (Z.min n (size (itab s i) - off)) /\
     forall t, 0 <= t < Z.of_nat (length cs) ->
       file_byte s i (off + t) = Some (nth (Z.to_nat t) cs 0)).
Proof.
  split.
  - intros H. destruct node as [i|]; [|reflexivity]. unfold inode_read.
    destruct H as [H|[H|H]].
    + now rewrite H.
    + rewrite (ltb_true off 0) by assumption. now rewrite orb_true_r.
    + rewrite (ltb_true n 0) by assumption. now rewrite orb_true_r.
  - intros i -> C Hoff Hn. unfold inode_read. rewrite (ck_valid _ _ C).
    rewrite (ltb_false off 0) by lia. rewrite (ltb_false n 0) by lia.
    cbn [negb orb].
    destruct (read_loop_spec i (Z.to_nat n) off 0 s C Hoff ltac:(lia))
      as (cs & Hrd & Hl & Hcs).
    rewrite Z.add_0_r in *. unfold room in *. rewrite Z2Nat.id in * by lia.
    rewrite Z.add_0_l in Hrd. exists cs. split; [exact Hrd|].
    split; [lia|]. intros t Ht.
    specialize (Hcs (Z.to_nat t) ltac:(lia)). rewrite Z2Nat.id in Hcs by lia.
    exact Hcs.
Qed.

Lemma inode_read_result_witness :
  inode_read one_file (Some DIR_ROOT) (-1) 100 = Some (-1, []) /\
  exists cs,
    inode_read one_file (Some DIR_ROOT) 0 100 = Some (64, cs) /\
    Z.of_nat (length cs) = 64 /\
    forall t, 0 <= t < Z.of_nat (length cs) ->
      file_byte one_file DIR_ROOT (0 + t) = Some (nth (Z.to_nat t) cs 0).
Proof.
  split.
  - apply (proj1 (inode_read_result one_file (Some DIR_ROOT) (-1) 100)).
    right. left. lia.
  - exact (proj2 (inode_read_result one_file (Some DIR_ROOT) 0 100) DIR_ROOT
             eq_refl one_file_root_chain_ok ltac:(lia) ltac:(lia)).
Defined.

(** ** What [shrink_inode] keeps *)

(** storing into the cell of a file block touches the inode's [direct]
    array or its indirect block, and nothing else *)
Lemma store_slot_frame s i j q v bm s' :
  low_inode i ->
  (indirect (itab s i) <> 0 -> TABLE_END <= indirect (itab s i)) ->
  inode_get_bnum s (Some i) j = Some q ->
  store_slot q v (with_bbm bm s) = Some s' ->
  (forall i', i' <> i -> low_inode i' -> itab s' i' = itab s i') /\
  mode (itab s' i) = mode (itab s i) /\ links (itab s' i) = links (itab s i) /\
  refs (itab s' i) = refs (itab s i) /\
  forall b, TABLE_END <= b -> b <> indirect (itab s i) -> blocks s' b = blocks s b.
Proof.
  intros Hlow Hind Hq Hst. apply inode_get_bnum_some in Hq.
  destruct Hq as (Hv & Hj & [[Hd ->]|(Hd & Hi & ->)]); unfold store_slot in Hst.
  - injection Hst as <-.
    assert (Hok : field_ok (f_direct j)) by (cbn; lia).
    rewrite itab_with_field_same by assumption. proj.
    split; [intros i' Hi' _; now rewrite itab_with_field_other|].
    repeat (split; [reflexivity|]).
    intros b Hb _. now rewrite blocks_with_field.
  - destruct (in_image (indirect (itab s i))); [|discriminate].
    injection Hst as <-. pose proof (Hind Hi) as Hge.
    rewrite itab_with_block by assumption. proj.
    split; [intros i' _ Hl'; now rewrite itab_with_block|].
    repeat (split; [reflexivity|]).
    intros b _ Hb. proj. now rewrite upd_other.
Qed.

Lemma shrink_while_frame i tgt : low_inode i -> forall fuel cur s r s',
  (indirect (itab s i) <> 0 -> TABLE_END <= indirect (itab s i)) ->
  shrink_while fuel i tgt cur s = Ok r s' ->
  (forall i', i' <> i -> low_inode i' -> itab s' i' = itab s i') /\
  mode (itab s' i) = mode (itab s i) /\ links (itab s' i) = links (itab s i) /\
  refs (itab s' i) = refs (itab s i) /\
  indirect (itab s' i) = indirect (itab s i) /\
  forall b, TABLE_END <= b -> b <> indirect (itab s i) -> blocks s' b = blocks s b.
Proof.
  intros Hlow.
  induction fuel as [|fuel IH]; intros cur s r s' Hind H;
    rewrite shrink_while_unfold in H;
    (destruct (tgt <? cur); [| injection H as _ <-; auto 10]).
  - discriminate.
  - destruct (shrink_body_cases i cur s)
      as [[Hb _]|[[Hb _]|(q & b & s1 & Hq & Hl & Hb0 & Hst & Hb)]];
      rewrite Hb in H; try discriminate.
    + apply IH in H; [exact H|exact Hind].
    + destruct (store_slot_frame _ _ _ _ _ _ _ Hlow Hind Hq Hst)
        as (F1 & F2 & F3 & F4 & F5).
      destruct (shrink_step_effect _ _ _ _ _ _ _ Hlow Hind Hq Hl Hst)
        as (_ & _ & _ & _ & Hind1 & _).
      apply IH in H; [|rewrite Hind1; exact Hind].
      destruct H as (G1 & G2 & G3 & G4 & G5 & G6).
      split; [intros i' Hi' Hl'; rewrite G1, F1 by assumption; reflexivity|].
      split; [congruence|]. split; [congruence|]. split; [congruence|].
      split; [congruence|].
      intros b' Hge Hb'. rewrite G6 by congruence. now apply F5.
Qed.

Lemma chain_ok_blocks_mapped s i :
  chain_ok s i -> blocks_mapped s i 0 (bytes_to_blocks (size (itab s i))).
Proof.
  intros C j Hj. destruct (ck_mapped _ _ C j Hj) as (b & Hb & [Hr _] & _).
  exists b. split; [assumption|lia].
Qed.

(** the bytes of a file are those of the blocks that its file blocks name *)
Lemma file_byte_ext s s' i x :
  chain_ok s i -> chain_ok s' i -> 0 <= x < size (itab s i) ->
  x < size (itab s' i) ->
  file_block s' i (x / BLOCK_SIZE) = file_block s i (x / BLOCK_SIZE) ->
  (forall b, file_block s i (x / BLOCK_SIZE) = Some b ->
             blocks s' b = blocks s b) ->
  file_byte s' i x = file_byte s i x.
Proof.
  intros C C' Hx Hx' Hfb Hbl.
  destruct (ck_mapped _ _ C _ (byte_block_range _ _ Hx)) as (b & Hb & _).
  rewrite (file_byte_eq s i x b C Hx Hb).
  rewrite (file_byte_eq s' i x b C' ltac:(lia) ltac:(congruence)).
  now rewrite (Hbl b Hb).
Qed.

(** [shrink_inode] on an inode with a well-formed block chain *)
Lemma shrink_inode_spec s i n :
  chain_ok s i -> off_table s i -> 0 <= n <= size (itab s i) ->
  n <= 2147483647 ->
  let cur := bytes_to_blocks (size (itab s i)) in
  let tgt := bytes_to_blocks n in
  exists s',
    shrink_inode (Some i) n s = Ok n s' /\
    chain_ok s' i /\ off_table s' i /\ size (itab s' i) = n /\
    ibm s' = ibm s /\
    (forall i', i' <> i -> low_inode i' -> itab s' i' = itab s i') /\
    inum (itab s' i) = inum (itab s i) /\
    mode (itab s' i) = mode (itab s i) /\ links (itab s' i) = links (itab s i) /\
    indirect (itab s' i) = (if tgt <=? NDIRECT then 0 else indirect (itab s i)) /\
    (forall j, 0 <= j < tgt -> file_block s' i j = file_block s i j) /\
    (forall b, TABLE_END <= b -> b <> indirect (itab s i) ->
               blocks s' b = blocks s b) /\
    (forall b, bitmap_get (bbm s') b = true <->
       bitmap_get (bbm s) b = true /\
       (forall j, tgt <= j < cur -> file_block s i j <> Some b) /\
       (tgt <= NDIRECT -> indirect (itab s i) <> 0 -> b <> indirect (itab s i))).
Proof.
  intros C O Hn Hmax cur tgt.
  pose proof (ot_low _ _ O) as Hlow. pose proof (ot_indirect _ _ O) as Hio.
  assert (Htc : tgt <= cur) by (apply bytes_to_blocks_mono; lia).
  assert (H0 : 0 <= tgt) by (apply bytes_to_blocks_nonneg; lia).
  pose proof (ck_valid _ _ C) as Hv.
  assert (Hm' : blocks_mapped s i tgt cur).
  { intros j Hj. apply (chain_ok_blocks_mapped s i C). fold cur. lia. }
  destruct (shrink_while_spec i tgt Hlow _ cur s Hio (Nat.le_refl _) Hm')
    as (s1 & Hw & Hib & Hin & Hs1 & Hind & Hout & Hzero & Hbits & _ & _).
  destruct (shrink_while_frame i tgt Hlow _ cur s _ s1 Hio Hw)
    as (F1 & F2 & F3 & F4 & _ & F6).
  rewrite shrink_inode_unfold. rewrite Hv.
  rewrite (ltb_false (size (itab s i)) n) by lia. cbn [negb orb].
  fold cur tgt. rewrite Hw. cbv zeta.
  assert (Hio1 : indirect (itab s1 i) <> 0 -> TABLE_END <= indirect (itab s1 i))
    by (rewrite Hind; exact Hio).
  destruct (shrink_tail i n tgt s1 Hlow Hio1)
    as (Tib & Tbb & Tbb2 & Tit & Toth & Tblk).
  cbv zeta in Tib, Tbb, Tbb2, Tit, Toth, Tblk.
  rewrite (int32_id n) in Tit by lia.
  set (s' := with_field i f_size n _) in *.
  assert (Hv1 : inode_valid s1 (Some i) = true)
    by (rewrite <- Hv; now apply inode_valid_ext).
  assert (Hsz' : size (itab s' i) = n)
    by (rewrite Tit; reflexivity).
  assert (Hin' : inum (itab s' i) = inum (itab s i)).
  { rewrite Tit. cbn [inum set_size].
    destruct ((tgt <=? NDIRECT) && negb (indirect (itab s1 i) =? 0)); assumption. }
  assert (Hdir' : forall j, direct (itab s' i) j = direct (itab s1 i) j).
  { intros j. rewrite Tit. cbn [direct set_size].
    destruct ((tgt <=? NDIRECT) && negb (indirect (itab s1 i) =? 0)); reflexivity. }
  assert (Hind' : indirect (itab s' i)
                  = (if tgt <=? NDIRECT then 0 else indirect (itab s i))).
  { rewrite Tit. cbn [indirect set_size].
    destruct (Z.leb_spec tgt NDIRECT) as [Hd|Hd]; cbn [andb];
      [destruct (Z.eqb_spec (indirect (itab s1 i)) 0) as [E|E]; cbn [negb]|];
      cbn [indirect set_indirect]; congruence. }
  assert (Hfb2 : forall j, 0 <= j < tgt -> file_block s' i j = file_block s i j).
  { intros j Hj. rewrite <- (Hout j) by lia.
    destruct (Z_lt_le_dec j NDIRECT) as [Hjd|Hjd].
    - rewrite !file_block_direct; try lia; try assumption.
      + now rewrite Hdir'.
      + rewrite <- Hv. apply inode_valid_ext; congruence.
    - apply file_block_ext.
      + congruence.
      + congruence.
      + rewrite Hind'. rewrite (leb_false tgt NDIRECT) by lia. congruence.
      + intros Hlt. lia.
      + intros _ Hne. rewrite Tblk by auto. reflexivity. }
  assert (Hbit2 : forall b, bitmap_get (bbm s') b = true <->
       bitmap_get (bbm s) b = true /\
       (forall j, tgt <= j < cur -> file_block s i j <> Some b) /\
       (tgt <= NDIRECT -> indirect (itab s i) <> 0 -> b <> indirect (itab s i))).
  { intros b. rewrite Tbb, Tbb2.
    destruct (Z.leb_spec tgt NDIRECT) as [Hd|Hd]; cbn [andb];
      [destruct (Z.eqb_spec (indirect (itab s1 i)) 0) as [E|E]; cbn [negb]|].
    - rewrite Hbits. rewrite Hind in E. intuition congruence.
    - rewrite Hind in *.
      assert (Hpos : 0 <= indirect (itab s i)).
      { destruct (ck_indirect _ _ C) as [Hz|[Hr _]]; lia. }
      rewrite bitmap_put_false_iff. rewrite Hbits. tauto.
    - rewrite Hbits. intuition lia. }
  assert (Hres' : table_reserved s').
  { intros b Hb. apply Hbit2. split; [apply (ot_reserved _ _ O b Hb)|]. split.
    - intros j Hj Hfb.
      pose proof (ot_blocks _ _ O j b ltac:(fold cur; lia) Hfb). lia.
    - intros _ Hne ->. pose proof (Hio Hne). lia. }
  assert (C' : chain_ok s' i).
  { constructor.
    - rewrite <- Hv. apply inode_valid_ext; congruence.
    - rewrite Hsz'. lia.
    - unfold indirect_ok. rewrite Hind'.
      destruct (Z.leb_spec tgt NDIRECT) as [Hd|Hd]; [now left|].
      destruct (ck_indirect _ _ C) as [Hz|[Hr Hu]]; [now left|right].
      split; [assumption|]. apply Hbit2. split; [assumption|].
      split; [|intros; lia].
      intros j Hj Hfb. destruct (ck_mapped _ _ C j ltac:(fold cur; lia))
        as (b & Hb & _ & Hne). congruence.
    - rewrite Hsz'. fold tgt. intros j Hj. rewrite Hfb2 by assumption.
      destruct (ck_mapped _ _ C j ltac:(fold cur; lia)) as (b & Hb & [Hr Hu] & Hne).
      exists b. split; [assumption|]. split.
      + split; [assumption|]. apply Hbit2. split; [assumption|]. split.
        * intros j' Hj' Hfb.
          assert (j' = j) by (apply (ck_inj _ _ C j' j b); fold cur; (lia || assumption)).
          lia.
        * intros _ _. assumption.
      + rewrite Hind'. destruct (tgt <=? NDIRECT); [lia|assumption].
    - rewrite Hsz'. fold tgt. intros j1 j2 b Hj1 Hj2.
      rewrite !Hfb2 by assumption.
      apply (ck_inj _ _ C); fold cur; lia. }
  assert (O' : off_table s' i).
  { constructor.
    - assumption.
    - assumption.
    - rewrite Hind'. destruct (tgt <=? NDIRECT); [congruence|exact Hio].
    - rewrite Hsz'. fold tgt. intros j b Hj. rewrite Hfb2 by assumption.
      apply (ot_blocks _ _ O). fold cur. lia. }
  exists s'. split; [reflexivity|].
  split; [assumption|]. split; [assumption|]. split; [assumption|].
  split; [congruence|].
  split; [intros i' Hi' Hl'; rewrite Toth by assumption; now apply F1|].
  split; [assumption|].
  split; [rewrite Tit; cbn [mode set_size];
          destruct ((tgt <=? NDIRECT) && negb (indirect (itab s1 i) =? 0)); assumption|].
  split; [rewrite Tit; cbn [links set_size];
          destruct ((tgt <=? NDIRECT) && negb (indirect (itab s1 i) =? 0)); assumption|].
  split; [assumption|]. split; [assumption|].
  split; [intros b Hb Hne; rewrite Tblk by assumption; now apply F6|].
  exact Hbit2.
Qed.

(** X2: [shrink_inode] keeps the head of the file: on an inode of the
    reserved part of the table with a well-formed block chain past the
    table, and for [0 <= n <= size], it returns [n], sets the size to [n],
    leaves the chain well formed and every byte below [n] as it was, and
    touches neither another inode record of the reserved part nor the inode
    bitmap nor the mode or link count of the inode. *)
Theorem shrink_inode_keeps_head (s : image) (i n : Z) :
  chain_ok s i -> off_table s i -> 0 <= n <= size (itab s i) ->
  n <= 2147483647 ->
  exists s',
    shrink_inode (Some i) n s = Ok n s' /\
    chain_ok s' i /\ size (itab s' i) = n /\
    (forall x, 0 <= x < n -> file_byte s' i x = file_byte s i x) /\
    ibm s' = ibm s /\
    (forall i', i' <> i -> low_inode i' -> itab s' i' = itab s i') /\
    mode (itab s' i) = mode (itab s i) /\ links (itab s' i) = links (itab s i).
Proof.
  intros C O Hn Hmax.
  destruct (shrink_inode_spec s i n C O Hn Hmax)
    as (s' & Hrun & C' & _ & Hsz & Hib & Hoth & _ & Hmd & Hln & _ & Hfb & Hbl & _).
  exists s'. split; [assumption|]. split; [assumption|]. split; [assumption|].
  split; [|auto].
  intros x Hx. apply file_byte_ext; try assumption; try lia.
  - apply Hfb. apply byte_block_range. lia.
  - intros b Hb.
    destruct (ck_mapped _ _ C (x / BLOCK_SIZE)
                ltac:(apply byte_block_range; lia)) as (b' & Hb' & _ & Hne).
    apply Hbl; [|congruence].
    apply (ot_blocks _ _ O (x / BLOCK_SIZE)); [apply byte_block_range; lia|assumption].
Qed.

Lemma two_blocks_ok : chain_ok two_blocks 2 /\ off_table two_blocks 2.
Proof.
  destruct (grow_inode_chain_ok one_file 2 5000 0 two_blocks one_file_chain_ok
              one_file_off_table ltac:(lia)) as (C & O & _).
  - apply (outcome_eta (grow_inode (Some 2) 5000 one_file)).
    vm_compute. reflexivity.
  - split; assumption.
Qed.

Lemma two_blocks_chain_ok : chain_ok two_blocks 2.
Proof. exact (proj1 two_blocks_ok). Qed.

Lemma two_blocks_off_table : off_table two_blocks 2.
Proof. exact (proj2 two_blocks_ok). Qed.

Lemma shrink_inode_keeps_head_witness :
  exists s',
    shrink_inode (Some 2) 100 two_blocks = Ok 100 s' /\
    chain_ok s' 2 /\ size (itab s' 2) = 100 /\
    (forall x, 0 <= x < 100 -> file_byte s' 2 x = file_byte two_blocks 2 x) /\
    ibm s' = ibm two_blocks /\
    (forall i', i' <> 2 -> low_inode i' -> itab s' i' = itab two_blocks i') /\
    mode (itab s' 2) = mode (itab two_blocks 2) /\
    links (itab s' 2) = links (itab two_blocks 2).
Proof.
  apply shrink_inode_keeps_head.
  - exact two_blocks_chain_ok.
  - exact two_blocks_off_table.
  - vm_compute. split; discriminate.
  - lia.
Defined.

(** X3: on an inode of the reserved part of the table with a well-formed
    block chain past the table, [shrink_inode] frees the blocks of the file
    blocks that it drops, the indirect block when no more than [NDIRECT] file
    blocks stay, and no other block: a block is in use afterwards exactly
    when it was in use and is none of these. *)
Theorem shrink_inode_frees (s : image) (i n : Z) :
  chain_ok s i -> off_table s i -> 0 <= n <= size (itab s i) ->
  n <= 2147483647 ->
  let cur := bytes_to_blocks (size (itab s i)) in
  let tgt := bytes_to_blocks n in
  exists s',
    shrink_inode (Some i) n s = Ok n s' /\
    indirect (itab s' i) = (if tgt <=? NDIRECT then 0 else indirect (itab s i)) /\
    forall b, bitmap_get (bbm s') b = true <->
      bitmap_get (bbm s) b = true /\
      (forall j, tgt <= j < cur -> file_block s i j <> Some b) /\
      (tgt <= NDIRECT -> indirect (itab s i) <> 0 -> b <> indirect (itab s i)).
Proof.
  intros C O Hn Hmax cur tgt.
  destruct (shrink_inode_spec s i n C O Hn Hmax)
    as (s' & Hrun & _ & _ & _ & _ & _ & _ & _ & _ & Hind & _ & _ & Hbits).
  exists s'. auto.
Qed.

Lemma shrink_inode_frees_witness :
  exists s',
    shrink_inode (Some 2) 100 two_blocks = Ok 100 s' /\
    indirect (itab s' 2) = 0 /\
    forall b, bitmap_get (bbm s') b = true <->
      bitmap_get (bbm two_blocks) b = true /\
      (forall j, 1 <= j < 2 -> file_block two_blocks 2 j <> Some b) /\
      (1 <= NDIRECT -> indirect (itab two_blocks 2) <> 0 ->
       b <> indirect (itab two_blocks 2)).
Proof.
  apply (shrink_inode_frees two_blocks 2 100).
  - exact two_blocks_chain_ok.
  - exact two_blocks_off_table.
  - vm_compute. split; discriminate.
  - lia.
Defined.

(** ** Cutting a file and growing it again *)

(** X4: on an inode of the reserved part of the table with a well-formed
    block chain past the table, [shrink_inode] does not clear the bytes that
    it cuts off, and [grow_inode] does not clear the bytes that it adds
    inside a block that the file holds already: after a cut to [a] bytes and
    a growth back to [b] bytes within the last block that stayed, all [b]
    bytes read as before the cut. *)
Theorem shrink_grow_old_bytes (s : image) (i a b : Z) :
  chain_ok s i -> off_table s i -> 0 <= a <= b -> b <= size (itab s i) ->
  b <= 2147483647 ->
  b <= BLOCK_SIZE * bytes_to_blocks a ->
  exists s1 s2,
    shrink_inode (Some i) a s = Ok a s1 /\
    grow_inode (Some i) b s1 = Ok 0 s2 /\
    size (itab s2 i) = b /\
    forall x, 0 <= x < b -> file_byte s2 i x = file_byte s i x.
Proof.
  intros C O Hab Hb Hmax Hblk.
  pose proof (ot_low _ _ O) as Hlow.
  destruct (shrink_inode_spec s i a C O ltac:(lia) ltac:(lia))
    as (s1 & Hrun & C1 & O1 & Hsz & Hib & Hoth & Hin & _ & _ & Hind & Hfb & Hbl & _).
  exists s1, (with_field i f_size b s1).
  assert (Hbb : bytes_to_blocks b = bytes_to_blocks a).
  { apply Z.le_antisymm; [|apply bytes_to_blocks_mono; lia].
    rewrite <- (bytes_to_blocks_mul (bytes_to_blocks a)).
    apply bytes_to_blocks_mono. assumption. }
  assert (Hg : grow_inode (Some i) b s1 = Ok 0 (with_field i f_size b s1)).
  { rewrite grow_inode_unfold. rewrite (ck_valid _ _ C1). rewrite Hsz.
    rewrite (ltb_false b a) by lia. cbn [negb orb].
    rewrite Hbb, Z.sub_diag. reflexivity. }
  split; [assumption|]. split; [assumption|].
  destruct (grow_inode_chain_ok _ _ _ _ _ C1 O1 Hmax Hg) as (C2 & O2 & _ & Hs2).
  specialize (Hs2 eq_refl). split; [assumption|].
  assert (Hit : itab (with_field i f_size b s1) i = set_size (int32 b) (itab s1 i))
    by (now rewrite itab_with_field_same).
  intros x Hx.
  assert (Hxb : 0 <= x / BLOCK_SIZE < bytes_to_blocks (size (itab s i)))
    by (apply byte_block_range; lia).
  destruct (ck_mapped _ _ C (x / BLOCK_SIZE) Hxb) as (b' & Hb' & _ & Hne).
  pose proof (ot_blocks _ _ O _ _ Hxb Hb') as Hge.
  apply file_byte_ext; try assumption; try lia.
  - transitivity (file_block s1 i (x / BLOCK_SIZE)).
    + apply file_block_ext; rewrite ?Hit; proj; try reflexivity.
      intros _ Hi0. rewrite blocks_with_field; [reflexivity|assumption|exact I|].
      apply (ot_indirect _ _ O1 Hi0).
    + apply Hfb. rewrite <- Hbb. apply byte_block_range. lia.
  - intros blk Hblk'. assert (blk = b') by congruence. subst blk.
    rewrite blocks_with_field by (assumption || exact I).
    apply Hbl; assumption.
Qed.

Lemma shrink_grow_old_bytes_witness :
  exists s1 s2,
    shrink_inode (Some 2) 100 two_blocks = Ok 100 s1 /\
    grow_inode (Some 2) 4000 s1 = Ok 0 s2 /\
    size (itab s2 2) = 4000 /\
    forall x, 0 <= x < 4000 -> file_byte s2 2 x = file_byte two_blocks 2 x.
Proof.
  apply shrink_grow_old_bytes.
  - exact two_blocks_chain_ok.
  - exact two_blocks_off_table.
  - lia.
  - vm_compute. discriminate.
  - lia.
  - vm_compute. discriminate.
Defined.

(** ** [free_inode] *)

Lemma free_inode_unfold i s :
  free_inode i s =
  if bitmap_get (ibm s) i then
    match shrink_inode (get_inode i) 0 s with
    | Ok _ s1 => Ok tt (with_ibm (bitmap_put (ibm s1) i false) s1)
    | Fault => Fault
    | Hang => Hang
    end
  else Ok tt s.
Proof.
  unfold free_inode, bind, reads, ret, modify.
  destruct (bitmap_get (ibm s) i); [|reflexivity].
  destruct (shrink_inode (get_inode i) 0 s); reflexivity.
Qed.

(** X5: [free_inode] does nothing to an inode whose bit is clear.  On an inode
    of the reserved part of the table whose bit is set, whose record holds
    its own number and whose block chain is well formed and past the table,
    it clears the bit, frees every block of the file and the indirect block,
    and leaves the record with size 0 and no indirect block, its mode and
    link count as they were; no other inode of the reserved part is touched.
    Afterwards the inode is not valid, and a second [free_inode] changes
    nothing. *)
Theorem free_inode_result (s : image) (i : Z) :
  (bitmap_get (ibm s) i = false -> free_inode i s = Ok tt s) /\
  (chain_ok s i -> off_table s i -> 0 < i -> inum (itab s i) = i ->
   exists s',
     free_inode i s = Ok tt s' /\
     bitmap_get (ibm s') i = false /\
     (forall j, j <> i -> bitmap_get (ibm s') j = bitmap_get (ibm s) j) /\
     inode_valid s' (Some i) = false /\
     size (itab s' i) = 0 /\ indirect (itab s' i) = 0 /\
     mode (itab s' i) = mode (itab s i) /\ links (itab s' i) = links (itab s i) /\
     (forall i', i' <> i -> low_inode i' -> itab s' i' = itab s i') /\
     (forall b, bitmap_get (bbm s') b = true <->
        bitmap_get (bbm s) b = true /\
        (forall j, 0 <= j < bytes_to_blocks (size (itab s i)) ->
                   file_block s i j <> Some b) /\
        (indirect (itab s i) <> 0 -> b <> indirect (itab s i))) /\
     free_inode i s' = Ok tt s').
Proof.
  split.
  - intros H. rewrite free_inode_unfold. now rewrite H.
  - intros C O Hi Hnum. rewrite free_inode_unfold.
    pose proof (ck_valid _ _ C) as Hv. unfold inode_valid in Hv.
    rewrite Hnum in Hv. apply andb_prop in Hv. destruct Hv as [Hbit _].
    rewrite Hbit.
    assert (Hg : get_inode i = Some i).
    { apply get_inode_low; [apply (ot_low _ _ O)|assumption]. }
    rewrite Hg.
    destruct (shrink_inode_spec s i 0 C O
                ltac:(pose proof (ck_size _ _ C); lia) ltac:(lia))
      as (s1 & Hrun & C1 & O1 & Hsz & Hib & Hoth & Hin & Hmd & Hln & Hind & _ & _ & Hbits).
    rewrite Hrun. eexists. split; [reflexivity|]. rewrite !itab_with_ibm. proj.
    change (bytes_to_blocks 0) with 0 in *.
    change (0 <=? NDIRECT) with true in Hind. cbv iota in Hind.
    split; [apply bitmap_get_put_same; lia|].
    split; [intros j Hj; rewrite bitmap_get_put_other by assumption; now rewrite Hib|].
    split.
    { unfold inode_valid. rewrite itab_with_ibm. proj. rewrite Hin, Hnum.
      rewrite bitmap_get_put_same by lia. reflexivity. }
    split; [assumption|]. split; [assumption|]. split; [assumption|].
    split; [assumption|]. split; [assumption|].
    split.
    { intros b. rewrite Hbits. split.
      - intros (H1 & H2 & H3). split; [assumption|]. split.
        + intros j Hj. apply H2. lia.
        + apply H3. unfold NDIRECT. lia.
      - intros (H1 & H2 & H3). split; [assumption|]. split.
        + intros j Hj. apply H2. lia.
        + intros _. assumption. }
    rewrite free_inode_unfold. proj.
    rewrite bitmap_get_put_same by lia. reflexivity.
Qed.

Lemma free_inode_result_witness :
  free_inode 7 fresh = Ok tt fresh /\
  exists s',
    free_inode 2 two_blocks = Ok tt s' /\
    bitmap_get (ibm s') 2 = false /\ inode_valid s' (Some 2) = false /\
    size (itab s' 2) = 0 /\ free_inode 2 s' = Ok tt s'.
Proof.
  split.
  - apply (proj1 (free_inode_result fresh 7)). vm_compute. reflexivity.
  - destruct (proj2 (free_inode_result two_blocks 2) two_blocks_chain_ok
                two_blocks_off_table)
      as (s' & H1 & H2 & _ & H4 & H5 & _ & _ & _ & _ & _ & H11).
    + lia.
    + vm_compute. reflexivity.
    + exists s'. auto.
Defined.

(** ** What [grow_inode] and [inode_write] keep *)

Lemma store_slot_blocks s i j q v s' :
  low_inode i ->
  (indirect (itab s i) <> 0 -> TABLE_END <= indirect (itab s i)) ->
  inode_get_bnum s (Some i) j = Some q -> store_slot q v s = Some s' ->
  ibm s' = ibm s /\ bbm s' = bbm s /\
  indirect (itab s' i) = indirect (itab s i) /\
  forall b, TABLE_END <= b -> b <> indirect (itab s i) -> blocks s' b = blocks s b.
Proof.
  intros Hlow Hind Hq Hst. apply inode_get_bnum_some in Hq.
  destruct Hq as (Hv & Hj & [[Hd ->]|(Hd & Hi & ->)]); unfold store_slot in Hst.
  - injection Hst as <-.
    assert (Hok : field_ok (f_direct j)) by (cbn; lia).
    rewrite itab_with_field_same by assumption. proj.
    repeat (split; [reflexivity|]).
    intros b Hb _. now rewrite blocks_with_field.
  - destruct (in_image (indirect (itab s i))); [|discriminate].
    injection Hst as <-. pose proof (Hind Hi) as Hge.
    rewrite itab_with_block by assumption. proj.
    repeat (split; [reflexivity|]). intros b _ Hb. now rewrite upd_other.
Qed.

(** The loop of [grow_inode] writes into the record of the inode, into
    blocks that were free and into the indirect block of the inode: a block
    past the table that was in use before, and is not that indirect block,
    keeps its bytes. *)
Lemma grow_loop_frame i s0 : low_inode i -> table_reserved s0 ->
  forall k s cur r s',
  (forall b, bitmap_get (bbm s0) b = true -> bitmap_get (bbm s) b = true) ->
  (indirect (itab s i) = indirect (itab s0 i) \/
   bitmap_get (bbm s0) (indirect (itab s i)) = false) ->
  (indirect (itab s i) <> 0 -> TABLE_END <= indirect (itab s i)) ->
  grow_loop k i cur s = Ok r s' ->
  forall b, TABLE_END <= b -> bitmap_get (bbm s0) b = true ->
            b <> indirect (itab s0 i) ->
            blocks s' b = blocks s b.
Proof.
  intros Hlow Hres0.
  induction k as [|k IH]; intros s cur r s' Hmono Hind Hoff H b Hge Hb Hne.
  - cbn [grow_loop] in H. unfold ret in H. injection H as _ <-. reflexivity.
  - rewrite grow_loop_S in H.
    assert (Hres : table_reserved s) by (intros x Hx; apply Hmono, Hres0, Hx).
    assert (Hne' : b <> indirect (itab s i)).
    { destruct Hind as [E|E]; [congruence|]. intros ->. congruence. }
    (* the indirect block *)
    assert (H1 : exists r1 s1,
      (if (NDIRECT <=? cur) && (indirect (itab s i) =? 0)
       then alloc_indirect i else ret 0) s = Ok r1 s1 /\
      (forall b', bitmap_get (bbm s0) b' = true -> bitmap_get (bbm s1) b' = true) /\
      (indirect (itab s1 i) = indirect (itab s0 i) \/
       bitmap_get (bbm s0) (indirect (itab s1 i)) = false) /\
      (indirect (itab s1 i) <> 0 -> TABLE_END <= indirect (itab s1 i)) /\
      blocks s1 b = blocks s b).
    { destruct ((NDIRECT <=? cur) && (indirect (itab s i) =? 0)).
      - unfold alloc_indirect, bind.
        destruct (alloc_block_spec s) as [[-> _]|(bi & -> & Hr & Hfree & _)].
        + rewrite Z.eqb_refl. eexists _, _. split; [reflexivity|]. auto.
        + rewrite (eqb_false bi (-1)) by lia. unfold modify, ret.
          eexists _, _. split; [reflexivity|].
          assert (Hbi5 : TABLE_END <= bi)
            by (apply (free_past_table s); (assumption || lia)).
          rewrite itab_with_field_same by exact I.
          rewrite itab_alloc_block by assumption.
          rewrite (int32_id bi) by (unfold BLOCK_COUNT in Hr; lia).
          rewrite bbm_with_field. proj.
          assert (Hbi : bitmap_get (bbm s0) bi = false).
          { destruct (bitmap_get (bbm s0) bi) eqn:E; [|reflexivity].
            apply Hmono in E. congruence. }
          split.
          { intros b' Hb'. apply bitmap_put_true_iff; [lia|]. left. now apply Hmono. }
          split; [now right|]. split; [intros _; assumption|].
          rewrite blocks_with_field by (assumption || exact I). proj.
          apply upd_other. intros ->. congruence.
      - eexists _, _. split; [reflexivity|]. auto. }
    destruct H1 as (r1 & s1 & E1 & Hmono1 & Hind1 & Hoff1 & Hbl1). rewrite E1 in H.
    destruct (r1 =? -1).
    { unfold bind, modify, ret in H. injection H as _ <-.
      rewrite blocks_with_field by (assumption || exact I). assumption. }
    assert (Hres1 : table_reserved s1) by (intros x Hx; apply Hmono1, Hres0, Hx).
    destruct (alloc_block_spec s1) as [[E _]|(bd & E & Hr & Hfree & _)];
      unfold bind in H; rewrite E in H.
    { rewrite Z.eqb_refl in H. unfold modify, ret in H. injection H as _ <-.
      rewrite blocks_with_field by (assumption || exact I). assumption. }
    rewrite (eqb_false bd (-1)) in H by lia.
    assert (Hbd5 : TABLE_END <= bd)
      by (apply (free_past_table s1); (assumption || lia)).
    set (sb := with_block bd (fun _ => 0)
                 (with_bbm (bitmap_put (bbm s1) bd true) s1)) in *.
    assert (Hsb : itab sb i = itab s1 i)
      by (unfold sb; now apply itab_alloc_block).
    unfold deref, update in H.
    destruct (inode_get_bnum sb (Some i) cur) as [q|] eqn:Hq; [|discriminate].
    destruct (store_slot q bd sb) as [s2|] eqn:Hst; [|discriminate].
    destruct (store_slot_blocks _ _ _ _ _ _ Hlow ltac:(rewrite Hsb; exact Hoff1) Hq Hst)
      as (_ & Hbb2 & Hind2 & Hbl2).
    assert (Hbd : bitmap_get (bbm s0) bd = false).
    { destruct (bitmap_get (bbm s0) bd) eqn:E'; [|reflexivity].
      apply Hmono1 in E'. congruence. }
    rewrite (IH s2 (cur + 1) r s') with (b := b); try assumption.
    + rewrite Hbl2; [| assumption |].
      * subst sb. proj. rewrite upd_other; [assumption|]. intros ->. congruence.
      * rewrite Hsb. destruct Hind1 as [Ei|Ei]; [congruence|]. intros ->. congruence.
    + intros b' Hb'. rewrite Hbb2. subst sb. proj.
      apply bitmap_put_true_iff; [lia|]. left. now apply Hmono1.
    + rewrite Hind2, Hsb. assumption.
    + rewrite Hind2, Hsb. assumption.
Qed.

Lemma grow_inode_frame s i n r s' :
  low_inode i -> table_reserved s ->
  (indirect (itab s i) <> 0 -> TABLE_END <= indirect (itab s i)) ->
  grow_inode (Some i) n s = Ok r s' ->
  forall b, TABLE_END <= b -> bitmap_get (bbm s) b = true ->
            b <> indirect (itab s i) ->
            blocks s' b = blocks s b.
Proof.
  intros Hlow Hres Hoff H b Hge Hb Hne. rewrite grow_inode_unfold in H.
  destruct (negb (inode_valid s (Some i)) || (n <? size (itab s i)));
    [injection H as _ <-; reflexivity|].
  destruct (grow_loop _ i _ s) as [[e|] s1| |] eqn:Hl; try discriminate;
    injection H as _ <-;
    rewrite ?blocks_with_field by (assumption || exact I);
    apply (grow_loop_frame i s Hlow Hres _ s _ _ _ ltac:(auto) ltac:(auto) Hoff Hl
             b Hge Hb Hne).
Qed.

(** [grow_inode] keeps the bytes of the file. *)
Lemma grow_inode_keeps_bytes s i n r s' :
  chain_ok s i -> off_table s i -> n <= 2147483647 ->
  grow_inode (Some i) n s = Ok r s' ->
  forall x, 0 <= x < size (itab s i) -> file_byte s' i x = file_byte s i x.
Proof.
  intros C O Hmax H x Hx.
  destruct (grow_inode_chain_ok _ _ _ _ _ C O Hmax H) as (C' & _ & Hsz & _).
  destruct (ck_mapped _ _ C (x / BLOCK_SIZE) (byte_block_range _ _ Hx))
    as (b & Hb & [Hr Hu] & Hne).
  assert (Hfb : file_block s' i (x / BLOCK_SIZE) = Some b).
  { destruct (Z_lt_le_dec n (size (itab s i))) as [Hlt|Hge].
    - rewrite grow_inode_unfold in H. rewrite (ltb_true n _) in H by assumption.
      rewrite orb_true_r in H. injection H as _ <-. assumption.
    - pose proof (ck_size _ _ C) as Hs0.
      destruct (grow_inode_spec s i n (ot_low _ _ O) (ot_reserved _ _ O)
                  (ot_indirect _ _ O) Hmax (ck_valid _ _ C) ltac:(lia)
                  (ck_indirect _ _ C))
        as [[Hf _]|(r' & s'' & bs & Hg & G & _)]; [congruence|].
      rewrite Hg in H. injection H as _ <-.
      apply (gr_old _ _ _ _ _ G); [|assumption].
      apply byte_block_range. assumption. }
  rewrite (file_byte_eq s i x b C Hx Hb).
  rewrite (file_byte_eq s' i x b C' ltac:(lia) Hfb).
  rewrite (grow_inode_frame _ _ _ _ _ (ot_low _ _ O) (ot_reserved _ _ O)
             (ot_indirect _ _ O) H b); try assumption; [reflexivity|].
  apply (ot_blocks _ _ O (x / BLOCK_SIZE)); [now apply byte_block_range|assumption].
Qed.

(** ** The free blocks that a growth takes *)

Lemma zseq_S lo n : zseq lo (S n) = lo :: zseq (lo + 1) n.
Proof.
  unfold zseq. cbn [seq map]. f_equal; [lia|].
  rewrite <- seq_shift, map_map. apply map_ext. intros k. lia.
Qed.

Lemma zseq_NoDup n : forall lo, NoDup (zseq lo n).
Proof.
  induction n as [|n IH]; intros lo.
  - constructor.
  - rewrite zseq_S. constructor; [|apply IH].
    intros H. apply in_zseq in H. lia.
Qed.

Lemma filter_length_cover (f g : Z -> bool) (l extra : list Z) :
  NoDup l ->
  (forall x, In x l -> f x = true -> g x = true \/ In x extra) ->
  (length (filter f l) <= length (filter g l) + length extra)%nat.
Proof.
  intros Hnd Hcov. rewrite <- length_app.
  apply NoDup_incl_length; [now apply NoDup_filter|].
  intros x Hx. apply filter_In in Hx. destruct Hx as [Hin Hf].
  apply in_or_app. destruct (Hcov x Hin Hf) as [Hg|He]; [left|now right].
  apply filter_In. auto.
Qed.

Lemma free_blocks_full s :
  (forall b, 0 < b < BLOCK_COUNT -> bitmap_get (bbm s) b = true) ->
  free_blocks s = 0.
Proof.
  intros Hfull. unfold free_blocks.
  destruct (filter _ _) as [|x l] eqn:E; [reflexivity|].
  assert (Hin : In x (x :: l)) by now left.
  rewrite <- E in Hin. apply filter_In in Hin. destruct Hin as [Hr Hc].
  apply in_zseq in Hr. rewrite Hfull in Hc by zlia. discriminate.
Qed.

(** the blocks that a growth takes come out of the free blocks: the new
    file blocks and at most one indirect block *)
Lemma grown_free_ge i s s' cur bs :
  grown i s s' cur bs ->
  free_blocks s <= free_blocks s' + Z.of_nat (length bs) + 1.
Proof.
  intros G. unfold free_blocks.
  pose proof (filter_length_cover
                (fun b => negb (bitmap_get (bbm s) b))
                (fun b => negb (bitmap_get (bbm s') b))
                (zseq 1 (Z.to_nat (BLOCK_COUNT - 1)))
                (indirect (itab s' i) :: bs)
                (zseq_NoDup _ _)) as H.
  cbn [length] in H.
  enough (length (filter (fun b => negb (bitmap_get (bbm s) b))
                         (zseq 1 (Z.to_nat (BLOCK_COUNT - 1)))) <=
          length (filter (fun b => negb (bitmap_get (bbm s') b))
                         (zseq 1 (Z.to_nat (BLOCK_COUNT - 1)))) + S (length bs))%nat
    by lia.
  apply H. intros x _ Hx.
  destruct (bitmap_get (bbm s') x) eqn:E; [|now left]. right.
  apply (gr_bbm _ _ _ _ _ G) in E.
  destruct E as [E|[E|(_ & _ & E)]].
  - rewrite E in Hx. discriminate.
  - now right.
  - now left.
Qed.

(** the new file blocks were free blocks *)
Lemma grown_new_le_free i s s' cur bs :
  grown i s s' cur bs -> Z.of_nat (length bs) <= free_blocks s.
Proof.
  intros G. unfold free_blocks. apply inj_le.
  apply NoDup_incl_length; [apply (gr_nodup _ _ _ _ _ G)|].
  intros b Hb. destruct (gr_fresh _ _ _ _ _ G b Hb) as (Hr & Hc & _).
  apply filter_In. split; [apply in_zseq; zlia | now rewrite Hc].
Qed.

(** [grow_inode] on an inode with a well-formed block chain *)
Lemma grow_inode_effect s i n :
  chain_ok s i -> off_table s i -> n <= 2147483647 ->
  exists r sg,
    grow_inode (Some i) n s = Ok r sg /\
    chain_ok sg i /\ off_table sg i /\ size (itab s i) <= size (itab sg i) /\
    ibm sg = ibm s /\
    (forall i', i' <> i -> low_inode i' -> itab sg i' = itab s i') /\
    inum (itab sg i) = inum (itab s i) /\
    mode (itab sg i) = mode (itab s i) /\ links (itab sg i) = links (itab s i) /\
    (forall b, bitmap_get (bbm s) b = true -> bitmap_get (bbm sg) b = true) /\
    (forall x, 0 <= x < size (itab s i) -> file_byte sg i x = file_byte s i x) /\
    (forall b, TABLE_END <= b -> bitmap_get (bbm s) b = true ->
               b <> indirect (itab s i) -> blocks sg b = blocks s b) /\
    ((n < size (itab s i) /\ r = -1 /\ sg = s) \/
     (size (itab s i) <= n /\ r = 0 /\ size (itab sg i) = n /\
      bytes_to_blocks n - bytes_to_blocks (size (itab s i)) <= free_blocks s) \/
     (size (itab s i) <= n /\ r = -1 /\ size (itab sg i) < n /\
      (exists c, size (itab sg i) = BLOCK_SIZE * c) /\
      free_blocks s <= bytes_to_blocks n - bytes_to_blocks (size (itab s i)) /\
      forall b, 0 < b < BLOCK_COUNT -> bitmap_get (bbm sg) b = true)).
Proof.
  intros C O Hmax.
  destruct (grow_inode_returns s i n C O Hmax) as (r & sg & Hg).
  exists r, sg. split; [assumption|].
  destruct (grow_inode_chain_ok _ _ _ _ _ C O Hmax Hg) as (Cg & Og & Hsz & Hr0).
  split; [assumption|]. split; [assumption|]. split; [assumption|].
  pose proof (grow_inode_keeps_bytes _ _ _ _ _ C O Hmax Hg) as Hbytes.
  pose proof (grow_inode_frame _ _ _ _ _ (ot_low _ _ O) (ot_reserved _ _ O)
                (ot_indirect _ _ O) Hg) as Hframe.
  destruct (Z_lt_le_dec n (size (itab s i))) as [Hlt|Hge].
  - assert (E : r = -1 /\ sg = s).
    { rewrite grow_inode_unfold in Hg. rewrite (ltb_true n _) in Hg by assumption.
      rewrite orb_true_r in Hg. injection Hg as <- <-. auto. }
    destruct E as [-> ->]. repeat (split; [auto|]). left. auto.
  - pose proof (ck_size _ _ C) as Hs0.
    destruct (grow_inode_spec s i n (ot_low _ _ O) (ot_reserved _ _ O)
                (ot_indirect _ _ O) Hmax (ck_valid _ _ C) ltac:(lia)
                (ck_indirect _ _ C))
      as [[Hf _]|(r' & s'' & bs & Hg' & G & Hcase)]; [congruence|].
    rewrite Hg in Hg'. injection Hg' as <- <-.
    split; [apply (gr_ibm _ _ _ _ _ G)|].
    split; [apply (gr_other _ _ _ _ _ G)|].
    split; [apply (gr_inum _ _ _ _ _ G)|].
    split; [apply (gr_mode _ _ _ _ _ G)|].
    split; [apply (gr_links _ _ _ _ _ G)|].
    split; [intros b; apply (grown_mono _ _ _ _ _ _ G)|].
    split; [assumption|]. split; [assumption|].
    right. destruct Hcase as [(-> & Hs & Hlen)|(-> & Hs & Hlt & Hfull)].
    + left. split; [assumption|]. split; [reflexivity|]. split; [assumption|].
      pose proof (grown_new_le_free _ _ _ _ _ G). lia.
    + right. split; [assumption|]. split; [reflexivity|].
      split; [|split; [eexists; exact Hs | split; [|assumption]]].
      2:{ pose proof (grown_free_ge _ _ _ _ _ G) as Hfg.
          rewrite (free_blocks_full sg Hfull) in Hfg. lia. }
      rewrite Hs. pose proof (bytes_to_blocks_bounds n).
      set (c := bytes_to_blocks (size (itab s i)) + Z.of_nat (length bs)) in *.
      unfold BLOCK_SIZE in *. nia.
Qed.

(** [inode_write] on an inode with a well-formed block chain *)
Lemma inode_write_effect s i buf off n :
  chain_ok s i -> off_table s i -> 0 <= off -> 0 < n -> off + n <= 2147483647 ->
  exists r s',
    inode_write (Some i) buf off n s = Ok r s' /\
    chain_ok s' i /\ off_table s' i /\ size (itab s i) <= size (itab s' i) /\
    ibm s' = ibm s /\
    (forall i', i' <> i -> low_inode i' -> itab s' i' = itab s i') /\
    inum (itab s' i) = inum (itab s i) /\
    mode (itab s' i) = mode (itab s i) /\ links (itab s' i) = links (itab s i) /\
    (forall b, bitmap_get (bbm s) b = true -> bitmap_get (bbm s') b = true) /\
    let w := Z.max 0 (Z.min n (size (itab s' i) - off)) in
    r = (if w =? 0 then -1 else w) /\
    (forall x, off <= x < off + w ->
       file_byte s' i x = Some (nth (Z.to_nat (x - off)) buf 0)) /\
    (forall x, 0 <= x < size (itab s i) -> x < off \/ off + w <= x ->
       file_byte s' i x = file_byte s i x) /\
    ((size (itab s' i) = Z.max (size (itab s i)) (off + n) /\
      bytes_to_blocks (size (itab s' i)) - bytes_to_blocks (size (itab s i))
        <= free_blocks s) \/
     (size (itab s' i) < off + n /\
      (exists c, size (itab s' i) = BLOCK_SIZE * c) /\
      free_blocks s <= bytes_to_blocks (off + n)
                       - bytes_to_blocks (size (itab s i)) /\
      forall b, 0 < b < BLOCK_COUNT -> bitmap_get (bbm s') b = true)).
Proof.
  intros C O Hoff Hn Hmax.
  pose proof (ot_low _ _ O) as Hlow.
  destruct (grow_inode_effect s i (off + n) C O Hmax)
    as (rg & sg & Hg & Cg & Og & Hsz & Hib & Hoth & Hin & Hmd & Hln & Hmono & Hbytes
        & _ & Hcase).
  destruct (write_loop_spec i (Z.to_nat n) buf off 0 sg Cg Og Hoff ltac:(lia))
    as (s2 & Hrun & C2 & O2 & Hit & Hib2 & Hbb2 & _ & Hwb).
  rewrite !Z.add_0_r in *. rewrite Z.add_0_l in Hrun.
  unfold room in *. rewrite Z2Nat.id in * by lia.
  eexists _, s2. split.
  { rewrite inode_write_unfold. rewrite (ck_valid _ _ C).
    rewrite (ltb_false off 0) by lia. rewrite (leb_false n 0) by lia.
    cbn [negb orb]. rewrite (int32_id (off + n)) by lia. rewrite Hg. exact Hrun. }
  rewrite (Hit i Hlow). split; [assumption|]. split; [assumption|].
  split; [assumption|].
  split; [congruence|].
  split; [intros i' Hi' Hl'; rewrite (Hit i' Hl'); now apply Hoth|].
  split; [assumption|].
  split; [assumption|]. split; [assumption|].
  split; [intros b Hb; rewrite Hbb2; now apply Hmono|].
  cbv zeta.
  set (w := Z.max 0 (Z.min n (size (itab sg i) - off))) in *.
  split.
  { destruct (Z.eqb_spec w n); destruct (Z.eqb_spec w 0); try reflexivity; lia. }
  split.
  { intros x Hx. rewrite Hwb by (unfold w in *; lia).
    rewrite (leb_true off x) by lia. rewrite (ltb_true x (off + w)) by lia.
    reflexivity. }
  split.
  { intros x Hx Hout. rewrite Hwb by lia.
    destruct (Z.leb_spec off x); destruct (Z.ltb_spec x (off + w)); cbn [andb];
      try lia; now apply Hbytes. }
  destruct Hcase
    as [(Hlt & _ & ->)|[(Hge & _ & Hs & Hfr)|(Hge & _ & Hs & Hc & Hfr & Hfull)]].
  - left. split; [lia|]. pose proof (free_blocks_nonneg s). lia.
  - left. split; [lia|]. now rewrite Hs.
  - right. split; [assumption|]. split; [assumption|]. split; [assumption|].
    intros b Hb. rewrite Hbb2. now apply Hfull.
Qed.

(** X6: on an inode of the reserved part of the table with a well-formed
    block chain past the table, [inode_write] (with [off + n] an [int])
    changes no byte of the file outside the range that it writes, never
    makes the file smaller, and touches neither another inode record of the
    reserved part, nor the inode bitmap, nor the mode or the link count of
    the inode; it falls short of [off + n] only when no block of the volume
    is free. *)
Theorem inode_write_frame (s : image) (i : Z) (buf : list Z) (off n : Z) :
  chain_ok s i -> off_table s i -> 0 <= off -> 0 < n ->
  off + n <= 2147483647 ->
  exists r s',
    inode_write (Some i) buf off n s = Ok r s' /\
    chain_ok s' i /\ size (itab s i) <= size (itab s' i) /\
    (forall x, 0 <= x < size (itab s i) -> x < off \/ off + n <= x ->
       file_byte s' i x = file_byte s i x) /\
    ibm s' = ibm s /\
    (forall i', i' <> i -> low_inode i' -> itab s' i' = itab s i') /\
    mode (itab s' i) = mode (itab s i) /\ links (itab s' i) = links (itab s i) /\
    (size (itab s' i) = Z.max (size (itab s i)) (off + n) \/
     (size (itab s' i) < off + n /\
      forall b, 0 < b < BLOCK_COUNT -> bitmap_get (bbm s') b = true)).
Proof.
  intros C O Hoff Hn Hmax.
  destruct (inode_write_effect s i buf off n C O Hoff Hn Hmax)
    as (r & s' & Hrun & C' & _ & Hsz & Hib & Hoth & _ & Hmd & Hln & _ & Hw).
  cbv zeta in Hw. destruct Hw as (_ & _ & Hkeep & Hcase).
  exists r, s'. split; [assumption|]. split; [assumption|]. split; [assumption|].
  split; [intros x Hx Hout; apply Hkeep; [assumption|lia]|].
  split; [assumption|]. split; [assumption|]. split; [assumption|].
  split; [assumption|].
  destruct Hcase as [[H _]|(H1 & _ & _ & H2)]; [now left|right; auto].
Qed.

Lemma one_file_reserved : table_reserved one_file.
Proof. exact (ot_reserved _ _ one_file_off_table). Qed.

Lemma low_inode_small i : 0 <= i <= 226 -> low_inode i.
Proof. apply low_inode_bound. Qed.

(** a file of one block past the table *)
Lemma off_table_one_block s i b :
  low_inode i -> table_reserved s ->
  0 < size (itab s i) <= BLOCK_SIZE ->
  indirect (itab s i) = 0 ->
  file_block s i 0 = Some b -> TABLE_END <= b ->
  off_table s i.
Proof.
  intros Hl Hres Hs Hi Hb Hge.
  assert (Hn : bytes_to_blocks (size (itab s i)) = 1).
  { pose proof (bytes_to_blocks_bounds (size (itab s i))). zlia. }
  constructor; try assumption.
  - intros H. congruence.
  - rewrite Hn. intros j b' Hj Hb'. assert (j = 0) by lia. subst j.
    congruence.
Qed.

Lemma one_file_root_off_table : off_table one_file DIR_ROOT.
Proof.
  apply (off_table_one_block _ _ 5).
  - apply low_inode_small. unfold DIR_ROOT. lia.
  - exact one_file_reserved.
  - vm_compute. split; [reflexivity|discriminate].
  - vm_compute. reflexivity.
  - vm_compute. reflexivity.
  - vm_compute. discriminate.
Qed.

Lemma inode_write_frame_witness :
  exists r s',
    inode_write (Some DIR_ROOT) (path "xy") 70 2 one_file = Ok r s' /\
    chain_ok s' DIR_ROOT /\
    size (itab one_file DIR_ROOT) <= size (itab s' DIR_ROOT) /\
    (forall x, 0 <= x < size (itab one_file DIR_ROOT) -> x < 70 \/ 70 + 2 <= x ->
       file_byte s' DIR_ROOT x = file_byte one_file DIR_ROOT x) /\
    ibm s' = ibm one_file /\
    (forall i', i' <> DIR_ROOT -> low_inode i' -> itab s' i' = itab one_file i') /\
    mode (itab s' DIR_ROOT) = mode (itab one_file DIR_ROOT) /\
    links (itab s' DIR_ROOT) = links (itab one_file DIR_ROOT) /\
    (size (itab s' DIR_ROOT) = Z.max (size (itab one_file DIR_ROOT)) (70 + 2) \/
     (size (itab s' DIR_ROOT) < 70 + 2 /\
      forall b, 0 < b < BLOCK_COUNT -> bitmap_get (bbm s') b = true)).
Proof.
  apply (inode_write_frame one_file DIR_ROOT (path "xy") 70 2).
  - exact one_file_root_chain_ok.
  - exact one_file_root_off_table.
  - lia.
  - lia.
  - lia.
Defined.

(** ** Growing with enough free blocks *)

(** X7: [grow_inode] succeeds whenever the volume has one free block more than
    the file blocks that the new size adds (the one more is for the indirect
    block): on an inode of the reserved part of the table with a well-formed
    block chain past the table it then returns 0 with the size set to [n],
    and the bytes of the file as they were. *)
Theorem grow_inode_enough (s : image) (i n : Z) :
  chain_ok s i -> off_table s i -> size (itab s i) <= n -> n <= 2147483647 ->
  bytes_to_blocks n - bytes_to_blocks (size (itab s i)) + 1 <= free_blocks s ->
  exists s',
    grow_inode (Some i) n s = Ok 0 s' /\
    chain_ok s' i /\ size (itab s' i) = n /\
    forall x, 0 <= x < size (itab s i) -> file_byte s' i x = file_byte s i x.
Proof.
  intros C O Hn Hmax Hfree. pose proof (ck_size _ _ C) as Hs0.
  destruct (grow_inode_effect s i n C O Hmax)
    as (r & s' & Hg & C' & _ & _ & _ & _ & _ & _ & _ & _ & Hbytes & _ & Hcase).
  destruct Hcase as [(Hlt & _)|[(_ & -> & Hs & _)|(_ & _ & _ & _ & Hfr & _)]].
  - lia.
  - exists s'. auto.
  - lia.
Qed.

Lemma grow_inode_enough_witness :
  exists s',
    grow_inode (Some 2) 5000 one_file = Ok 0 s' /\
    chain_ok s' 2 /\ size (itab s' 2) = 5000 /\
    forall x, 0 <= x < size (itab one_file 2) ->
              file_byte s' 2 x = file_byte one_file 2 x.
Proof.
  apply grow_inode_enough.
  - exact one_file_chain_ok.
  - exact one_file_off_table.
  - vm_compute. discriminate.
  - lia.
  - vm_compute. discriminate.
Defined.

(** * Further properties of the directory layer *)

(** ** Entries *)

Lemma zseq_nth lo n k d : (k < n)%nat -> nth k (zseq lo n) d = lo + Z.of_nat k.
Proof.
  intros Hk. unfold zseq.
  rewrite (nth_indep _ d (lo + Z.of_nat 0)) by (rewrite length_map, length_seq; lia).
  rewrite (map_nth (fun k => lo + Z.of_nat k)). now rewrite seq_nth by lia.
Qed.

Lemma slot_bytes_length s i ii : length (slot_bytes s i ii) = 64%nat.
Proof. unfold slot_bytes. now rewrite length_map, zseq_length. Qed.

Lemma slot_bytes_nth s i ii t :
  (t < 64)%nat ->
  nth t (slot_bytes s i ii) 0 =
  match file_byte s i (ii * DIRENT_SIZE + Z.of_nat t) with
  | Some c => c
  | None => 0
  end.
Proof.
  intros Ht. unfold slot_bytes.
  set (f := fun t => match file_byte s i (ii * DIRENT_SIZE + t) with
                     | Some c => c | None => 0 end).
  rewrite (nth_indep _ 0 (f 0)) by (rewrite length_map, zseq_length; exact Ht).
  rewrite map_nth. rewrite zseq_nth by exact Ht. reflexivity.
Qed.

Lemma slot_bytes_inum s i ii : dirent_inum (slot_bytes s i ii) = slot_inum s i ii.
Proof.
  unfold dirent_inum, slot_inum. rewrite !slot_bytes_nth by lia.
  unfold DIR_NAME_LENGTH. cbn [Z.of_nat Pos.of_succ_nat Pos.succ].
  replace (ii * DIRENT_SIZE + 48 + 1) with (ii * DIRENT_SIZE + 49) by lia.
  replace (ii * DIRENT_SIZE + 48 + 2) with (ii * DIRENT_SIZE + 50) by lia.
  replace (ii * DIRENT_SIZE + 48 + 3) with (ii * DIRENT_SIZE + 51) by lia.
  reflexivity.
Qed.

(** the read of an entry returns the bytes of the entry *)
Lemma slot_read_bytes s i ii :
  chain_ok s i -> 0 <= ii < slot_count s i ->
  inode_read s (Some i) (ii * DIRENT_SIZE) DIRENT_SIZE
    = Some (DIRENT_SIZE, slot_bytes s i ii).
Proof.
  intros C Hii. pose proof (slot_in_size s i ii (ck_size _ _ C) Hii) as Hsz.
  unfold inode_read. rewrite (ck_valid _ _ C).
  rewrite (ltb_false (ii * DIRENT_SIZE) 0) by zlia.
  rewrite (ltb_false DIRENT_SIZE 0) by zlia. cbn [negb orb].
  destruct (read_loop_spec i (Z.to_nat DIRENT_SIZE) (ii * DIRENT_SIZE) 0 s C
              ltac:(zlia) ltac:(lia)) as (cs & Hrd & Hl & Hcs).
  rewrite Z.add_0_r in *.
  assert (Hw : room (Z.to_nat DIRENT_SIZE) (size (itab s i)) (ii * DIRENT_SIZE) = 64)
    by (unfold room; zlia).
  rewrite Hw in *. rewrite Hrd.
  assert (E : cs = slot_bytes s i ii).
  { apply (nth_ext _ _ 0 0).
    - rewrite slot_bytes_length. rewrite Hl. reflexivity.
    - intros t Ht. rewrite slot_bytes_nth by (rewrite Hl in Ht; simpl in Ht; lia).
      rewrite Hcs by assumption. reflexivity. }
  rewrite E. reflexivity.
Qed.

Lemma overlay_full cs d :
  length cs = 64%nat -> length d = 64%nat -> overlay cs d = cs.
Proof.
  intros Hc Hd. unfold overlay. rewrite skipn_all2 by lia. apply app_nil_r.
Qed.

Lemma zero_dirent_length : length zero_dirent = 64%nat.
Proof. reflexivity. Qed.

Lemma dirent_read_bytes s i ii temp :
  chain_ok s i -> 0 <= ii < slot_count s i -> length temp = 64%nat ->
  dirent_read s (Some i) temp ii = Some (0, slot_bytes s i ii).
Proof.
  intros C Hii Hl. unfold dirent_read. rewrite slot_read_bytes by assumption.
  rewrite Z.eqb_refl. rewrite overlay_full; [reflexivity | apply slot_bytes_length | assumption].
Qed.

(** ** [dirent_lookup] and [directory_lookup] *)

Lemma dirent_lookup_loop_find s i name : chain_ok s i -> forall iis,
  (forall ii, In ii iis -> 0 <= ii < slot_count s i) ->
  dirent_lookup_loop s (Some i) name iis =
  Some (match find (slot_named s i name) iis with Some ii => ii | None => -1 end).
Proof.
  intros C. induction iis as [|ii rest IH]; intros Hin; [reflexivity|].
  cbn [dirent_lookup_loop find].
  rewrite dirent_read_bytes;
    [| assumption | apply Hin; now left | apply zero_dirent_length].
  unfold slot_named at 1. destruct (streq name (slot_bytes s i ii)); [reflexivity|].
  apply IH. intros ii' H'. apply Hin. now right.
Qed.

Lemma dirent_lookup_find s i name :
  chain_ok s i ->
  dirent_lookup s (Some i) name =
  Some (match first_named s i name with Some ii => ii | None => -1 end).
Proof.
  intros C. unfold dirent_lookup, dir_slots, first_named. fold (slot_count s i).
  apply dirent_lookup_loop_find; [assumption|].
  intros ii Hii. apply in_zseq in Hii. lia.
Qed.

Lemma first_named_some s i name ii :
  first_named s i name = Some ii ->
  0 <= ii < slot_count s i /\ slot_named s i name ii = true.
Proof.
  unfold first_named. intros H. apply find_some in H.
  destruct H as [Hin Hn]. apply in_zseq in Hin. split; [lia|assumption].
Qed.

Lemma directory_lookup_find s i name :
  chain_ok s i ->
  directory_lookup s (Some i) name =
  Some (match first_named s i name with
        | Some ii => slot_inum s i ii
        | None => -1
        end).
Proof.
  intros C. unfold directory_lookup. rewrite dirent_lookup_find by assumption.
  destruct (first_named s i name) as [ii|] eqn:E; [|reflexivity].
  apply first_named_some in E. destruct E as [Hii _].
  rewrite (ltb_false ii 0) by lia.
  rewrite dirent_read_bytes by (assumption || apply zero_dirent_length).
  cbn [negb Z.eqb]. now rewrite slot_bytes_inum.
Qed.

Lemma find_zseq_first (f : Z -> bool) n : forall lo ii,
  find f (zseq lo n) = Some ii <->
  (lo <= ii < lo + Z.of_nat n /\ f ii = true /\
   forall jj, lo <= jj < ii -> f jj = false).
Proof.
  induction n as [|n IH]; intros lo ii.
  - cbn. split; [discriminate|]. intros [H _]. lia.
  - rewrite zseq_S. cbn [find]. destruct (f lo) eqn:E.
    + split.
      * intros H. injection H as <-. split; [lia|]. split; [assumption|]. intros; lia.
      * intros (Hr & Hf & Hfirst). f_equal.
        destruct (Z.eq_dec lo ii) as [|Hne]; [assumption|].
        rewrite (Hfirst lo) in E by lia. discriminate.
    + rewrite IH. split.
      * intros (Hr & Hf & Hfirst). split; [lia|]. split; [assumption|].
        intros jj Hjj. destruct (Z.eq_dec jj lo) as [->|Hne]; [assumption|].
        apply Hfirst. lia.
      * intros (Hr & Hf & Hfirst).
        assert (lo <> ii) by (intros ->; congruence).
        split; [lia|]. split; [assumption|]. intros jj Hjj. apply Hfirst. lia.
Qed.

Lemma find_zseq_none (f : Z -> bool) n lo :
  find f (zseq lo n) = None <-> forall jj, lo <= jj < lo + Z.of_nat n -> f jj = false.
Proof.
  split.
  - intros H jj Hjj. apply (find_none _ _ H). apply in_zseq. assumption.
  - intros H. destruct (find f (zseq lo n)) as [ii|] eqn:E; [|reflexivity].
    apply find_some in E. destruct E as [Hin Hf]. apply in_zseq in Hin.
    rewrite H in Hf by assumption. discriminate.
Qed.

Lemma slot_count_nonneg s i : 0 <= size (itab s i) -> 0 <= slot_count s i.
Proof.
  intros H. unfold slot_count. rewrite Z.quot_div_nonneg by zlia.
  apply Z.div_pos; zlia.
Qed.

Lemma first_named_first s i name ii :
  0 <= size (itab s i) ->
  first_named s i name = Some ii <->
  (0 <= ii < slot_count s i /\ slot_named s i name ii = true /\
   forall jj, 0 <= jj < ii -> slot_named s i name jj = false).
Proof.
  intros Hs. unfold first_named. rewrite find_zseq_first.
  pose proof (slot_count_nonneg s i Hs). rewrite Z2Nat.id by assumption.
  rewrite Z.add_0_l. reflexivity.
Qed.

Lemma first_named_none s i name :
  0 <= size (itab s i) ->
  first_named s i name = None <->
  forall jj, 0 <= jj < slot_count s i -> slot_named s i name jj = false.
Proof.
  intros Hs. unfold first_named. rewrite find_zseq_none.
  pose proof (slot_count_nonneg s i Hs). rewrite Z2Nat.id by assumption.
  rewrite Z.add_0_l. reflexivity.
Qed.

(** X8: [directory_lookup] in a directory with a well-formed block chain returns
    the inode number of the first entry whose name is the given one, an
    empty entry included (for which it returns 0), and -1 when no entry has
    that name. *)
Theorem directory_lookup_first (s : image) (i : Z) (name : cstring) :
  chain_ok s i ->
  ((forall ii, 0 <= ii < slot_count s i -> slot_named s i name ii = false) ->
   directory_lookup s (Some i) name = Some (-1)) /\
  (forall ii,
     0 <= ii < slot_count s i -> slot_named s i name ii = true ->
     (forall jj, 0 <= jj < ii -> slot_named s i name jj = false) ->
     directory_lookup s (Some i) name = Some (slot_inum s i ii)).
Proof.
  intros C. pose proof (ck_size _ _ C) as Hs.
  rewrite directory_lookup_find by assumption. split.
  - intros H. apply (first_named_none s i name Hs) in H. now rewrite H.
  - intros ii Hii Hn Hfirst.
    rewrite (proj2 (first_named_first s i name ii Hs)); [reflexivity|auto].
Qed.

Lemma directory_lookup_first_witness :
  directory_lookup one_file (Some DIR_ROOT) (path "b") = Some (-1) /\
  directory_lookup one_file (Some DIR_ROOT) (path "a")
    = Some (slot_inum one_file DIR_ROOT 0).
Proof.
  destruct (directory_lookup_first one_file DIR_ROOT (path "b")
              one_file_root_chain_ok) as [Hb _].
  destruct (directory_lookup_first one_file DIR_ROOT (path "a")
              one_file_root_chain_ok) as [_ Ha].
  split.
  - apply Hb. intros ii Hii.
    assert (ii = 0) as -> by (vm_compute in Hii; destruct Hii as [H1 H2];
      destruct ii; try reflexivity; try (exfalso; apply H1; reflexivity);
      destruct p; try discriminate).
    vm_compute. reflexivity.
  - apply (Ha 0).
    + vm_compute. split; [discriminate|reflexivity].
    + vm_compute. reflexivity.
    + intros jj Hjj. lia.
Defined.

(** ** Names *)

Lemma bytes_eqb_refl a : bytes_eqb a a = true.
Proof. induction a as [|x a IH]; [reflexivity|]. cbn. now rewrite Z.eqb_refl. Qed.

Lemma bytes_eqb_eq a : forall b, bytes_eqb a b = true <-> a = b.
Proof.
  induction a as [|x a IH]; intros [|y b]; cbn; try (split; (reflexivity || discriminate)).
  rewrite andb_true_iff, Z.eqb_eq, IH. split.
  - intros [-> ->]. reflexivity.
  - intros H. injection H as -> ->. auto.
Qed.

Lemma cstr_id name : Forall (fun c => c <> 0) name -> cstr name = name.
Proof.
  induction 1 as [|c name Hc _ IH]; [reflexivity|].
  cbn [cstr]. rewrite (eqb_false c 0) by assumption. now rewrite IH.
Qed.

Lemma cstr_app_zero name rest :
  Forall (fun c => c <> 0) name -> cstr (name ++ 0 :: rest) = name.
Proof.
  induction 1 as [|c name Hc _ IH]; [reflexivity|].
  cbn [cstr app]. rewrite (eqb_false c 0) by assumption. now rewrite IH.
Qed.

(** the name field of an entry, filled by [memcpy] from a name that fits *)
Lemma name_field name :
  name_fits name ->
  exists pad, firstn 48 (name ++ repeat 0 48) = name ++ 0 :: pad.
Proof.
  intros [Hnz Hlen]. unfold DIR_NAME_LENGTH in Hlen.
  rewrite firstn_app. rewrite firstn_all2 by lia.
  destruct (48 - length name)%nat as [|m] eqn:E; [lia|].
  exists (firstn m (repeat 0 47)). reflexivity.
Qed.

Lemma cstr_entry name d :
  name_fits name -> firstn 48 d = firstn 48 (name ++ repeat 0 48) ->
  cstr d = name.
Proof.
  intros Hfit Hd. destruct (name_field name Hfit) as (pad & Hpad).
  rewrite <- (firstn_skipn 48 d). rewrite Hd, Hpad. rewrite <- app_assoc.
  cbn [app]. apply cstr_app_zero. apply Hfit.
Qed.

Lemma streq_entry name name' d :
  name_fits name -> firstn 48 d = firstn 48 (name ++ repeat 0 48) ->
  streq name' d = streq name' name.
Proof.
  intros Hfit Hd. unfold streq. rewrite (cstr_entry name d Hfit Hd).
  rewrite (cstr_id name) by apply Hfit. reflexivity.
Qed.

Lemma streq_refl name : streq name name = true.
Proof. apply bytes_eqb_refl. Qed.

(** the entry that [directory_put] writes *)
Lemma put_entry name inum_ d :
  length d = 64%nat ->
  let e := dirent_set_inum inum_ (dirent_set_name name d) in
  length e = 64%nat /\
  firstn 48 e = firstn 48 (name ++ repeat 0 48) /\
  (-2147483648 <= inum_ < 2147483648 -> dirent_inum e = inum_).
Proof.
  intros Hd e.
  assert (Hn : length (firstn 48 (name ++ repeat 0 48)) = 48%nat).
  { rewrite length_firstn, length_app, repeat_length. lia. }
  assert (Hs : length (dirent_set_name name d) = 64%nat).
  { unfold dirent_set_name. rewrite length_app, Hn, length_skipn. lia. }
  assert (Hf : firstn 48 (dirent_set_name name d) = firstn 48 (name ++ repeat 0 48)).
  { unfold dirent_set_name. rewrite firstn_app, Hn.
    rewrite firstn_all2 by lia. cbn [Nat.sub firstn]. apply app_nil_r. }
  assert (Hf48 : length (firstn 48 (dirent_set_name name d)) = 48%nat)
    by (rewrite Hf; exact Hn).
  subst e. unfold dirent_set_inum. split; [|split].
  - rewrite length_app, Hf48. cbn [length app]. rewrite length_skipn. lia.
  - rewrite firstn_app, Hf48. rewrite firstn_all2 by lia.
    cbn [Nat.sub firstn]. rewrite app_nil_r. exact Hf.
  - intros Hr. unfold dirent_inum.
    assert (Hnth : forall k l,
              nth (48 + k) (firstn 48 (dirent_set_name name d) ++ l) 0 = nth k l 0).
    { intros k l. rewrite <- Hf48 at 1. apply app_nth2_plus. }
    rewrite (Hnth 0%nat), (Hnth 1%nat), (Hnth 2%nat), (Hnth 3%nat).
    cbn [nth app]. now apply int_of_bytes_int_byte.
Qed.

(** ** What a change of the table or of a file does to an entry *)

Lemma slot_bytes_ext s s' i ii :
  (forall t, 0 <= t < DIRENT_SIZE ->
     file_byte s' i (ii * DIRENT_SIZE + t) = file_byte s i (ii * DIRENT_SIZE + t)) ->
  slot_bytes s' i ii = slot_bytes s i ii.
Proof.
  intros H. unfold slot_bytes. apply map_ext_in. intros t Ht.
  apply in_zseq in Ht. rewrite H by lia. reflexivity.
Qed.

Lemma slot_inum_ext s s' i ii :
  slot_bytes s' i ii = slot_bytes s i ii -> slot_inum s' i ii = slot_inum s i ii.
Proof. intros H. rewrite <- !slot_bytes_inum. now rewrite H. Qed.

Lemma slot_bytes_written s i ii e :
  length e = 64%nat ->
  (forall t, 0 <= t < DIRENT_SIZE ->
     file_byte s i (ii * DIRENT_SIZE + t) = Some (nth (Z.to_nat t) e 0)) ->
  slot_bytes s i ii = e.
Proof.
  intros Hl H. apply (nth_ext _ _ 0 0).
  - now rewrite slot_bytes_length.
  - intros t Ht. rewrite slot_bytes_length in Ht.
    rewrite slot_bytes_nth by assumption.
    rewrite H by (unfold DIRENT_SIZE; lia). now rewrite Nat2Z.id.
Qed.

(** the bytes and the chain of a file past the table depend on the inode
    bitmap, the blocks past the table, and the number, size and block
    numbers of the inode *)
Lemma file_block_record_ext s s' i j :
  ibm s' = ibm s -> (forall b, TABLE_END <= b -> blocks s' b = blocks s b) ->
  (indirect (itab s i) <> 0 -> TABLE_END <= indirect (itab s i)) ->
  inum (itab s' i) = inum (itab s i) ->
  direct (itab s' i) = direct (itab s i) ->
  indirect (itab s' i) = indirect (itab s i) ->
  file_block s' i j = file_block s i j.
Proof.
  intros Hib Hbl Hoff Hin Hd Hind. apply file_block_ext; try assumption.
  - intros _. now rewrite Hd.
  - intros _ Hne. now rewrite Hbl by auto.
Qed.

Lemma inode_get_byte_via s i x :
  inode_get_byte s (Some i) x =
  if negb (inode_valid s (Some i)) || (x <? 0) || (size (itab s i) <=? x)
  then Some None
  else match file_block s i (Z.quot x BLOCK_SIZE) with
       | Some b => Some (Some (b, Z.rem x BLOCK_SIZE))
       | None => None
       end.
Proof.
  unfold inode_get_byte, file_block.
  destruct (negb (inode_valid s (Some i)) || (x <? 0) || (size (itab s i) <=? x));
    [reflexivity|].
  destruct (inode_get_bnum s (Some i) (Z.quot x BLOCK_SIZE)); reflexivity.
Qed.

Lemma file_byte_record_ext s s' i x :
  ibm s' = ibm s -> (forall b, TABLE_END <= b -> blocks s' b = blocks s b) ->
  off_table s i ->
  inum (itab s' i) = inum (itab s i) -> size (itab s' i) = size (itab s i) ->
  direct (itab s' i) = direct (itab s i) ->
  indirect (itab s' i) = indirect (itab s i) ->
  file_byte s' i x = file_byte s i x.
Proof.
  intros Hib Hbl O Hin Hsz Hd Hind.
  unfold file_byte. rewrite !inode_get_byte_via.
  rewrite (file_block_record_ext s s' i _ Hib Hbl (ot_indirect _ _ O) Hin Hd Hind).
  rewrite (inode_valid_ext s s' i Hib Hin), Hsz.
  destruct (negb (inode_valid s (Some i)) || (x <? 0) || (size (itab s i) <=? x))
    eqn:G; [reflexivity|].
  apply orb_false_elim in G. destruct G as [G Hx2].
  apply orb_false_elim in G. destruct G as [_ Hx1].
  apply Z.ltb_ge in Hx1. apply Z.leb_gt in Hx2.
  destruct (file_block s i (Z.quot x BLOCK_SIZE)) as [b|] eqn:Hb; [|reflexivity].
  unfold load_byte. cbn [fst snd]. rewrite Hbl; [reflexivity|].
  apply (ot_blocks _ _ O (Z.quot x BLOCK_SIZE)); [|assumption].
  rewrite Z.quot_div_nonneg by zlia. apply byte_block_range. lia.
Qed.

Lemma chain_ok_record_ext s s' i :
  ibm s' = ibm s -> bbm s' = bbm s ->
  (forall b, TABLE_END <= b -> blocks s' b = blocks s b) ->
  off_table s i ->
  inum (itab s' i) = inum (itab s i) -> size (itab s' i) = size (itab s i) ->
  direct (itab s' i) = direct (itab s i) ->
  indirect (itab s' i) = indirect (itab s i) ->
  chain_ok s i -> chain_ok s' i /\ off_table s' i.
Proof.
  intros Hib Hbb Hbl O Hin Hsz Hd Hind C.
  assert (Hfb : forall j, file_block s' i j = file_block s i j)
    by (intros j; apply file_block_record_ext; try assumption;
        apply (ot_indirect _ _ O)).
  split.
  - constructor.
    + rewrite (inode_valid_ext s s' i Hib Hin). apply (ck_valid _ _ C).
    + rewrite Hsz. apply (ck_size _ _ C).
    + unfold indirect_ok, used_block. rewrite Hind, Hbb. apply (ck_indirect _ _ C).
    + rewrite Hsz. intros j Hj. rewrite Hfb, Hind. unfold used_block. rewrite Hbb.
      apply (ck_mapped _ _ C j Hj).
    + rewrite Hsz. intros j1 j2 b. rewrite !Hfb. apply (ck_inj _ _ C).
  - constructor.
    + apply (ot_low _ _ O).
    + unfold table_reserved. rewrite Hbb. apply (ot_reserved _ _ O).
    + rewrite Hind. apply (ot_indirect _ _ O).
    + rewrite Hsz. intros j b. rewrite Hfb. apply (ot_blocks _ _ O).
Qed.

(** the link count is no part of the block chain *)
Lemma set_links_fields s n v i :
  inum (itab (with_field n f_links v s) i) = inum (itab s i) /\
  size (itab (with_field n f_links v s) i) = size (itab s i) /\
  direct (itab (with_field n f_links v s) i) = direct (itab s i) /\
  indirect (itab (with_field n f_links v s) i) = indirect (itab s i) /\
  mode (itab (with_field n f_links v s) i) = mode (itab s i).
Proof.
  destruct (Z.eq_dec i n) as [->|Hne].
  - rewrite itab_with_field_same by exact I. cbn. auto.
  - rewrite itab_with_field_other by (assumption || exact I). auto.
Qed.

Lemma set_links_blocks s n v b :
  low_inode n -> TABLE_END <= b -> blocks (with_field n f_links v s) b = blocks s b.
Proof. intros Hl Hb. now apply blocks_with_field. Qed.

Lemma set_links_file_byte s n v i x :
  low_inode n -> off_table s i ->
  file_byte (with_field n f_links v s) i x = file_byte s i x.
Proof.
  intros Hl O.
  destruct (set_links_fields s n v i) as (H1 & H2 & H3 & H4 & _).
  apply file_byte_record_ext; auto.
  intros b Hb. now apply set_links_blocks.
Qed.

Lemma set_links_chain_ok s n v i :
  low_inode n -> off_table s i ->
  chain_ok s i ->
  chain_ok (with_field n f_links v s) i /\ off_table (with_field n f_links v s) i.
Proof.
  intros Hl O.
  destruct (set_links_fields s n v i) as (H1 & H2 & H3 & H4 & _).
  apply chain_ok_record_ext; auto.
  intros b Hb. now apply set_links_blocks.
Qed.

Lemma set_links_slot_bytes s n v i ii :
  low_inode n -> off_table s i ->
  slot_bytes (with_field n f_links v s) i ii = slot_bytes s i ii.
Proof.
  intros Hl O. apply slot_bytes_ext. intros t _. now apply set_links_file_byte.
Qed.

Lemma set_links_size s n v i :
  size (itab (with_field n f_links v s) i) = size (itab s i).
Proof. apply (set_links_fields s n v i). Qed.

(** ** [directory_put] *)

Lemma put_scan_find s i off : chain_ok s i -> forall iis dirent,
  (forall ii, In ii iis -> 0 <= ii < slot_count s i) ->
  length dirent = 64%nat ->
  exists d',
    length d' = 64%nat /\
    put_scan s (Some i) iis off dirent =
    Some (match find (fun ii => slot_inum s i ii =? 0) iis with
          | Some ii => ii * DIRENT_SIZE
          | None => off
          end, d').
Proof.
  intros C. induction iis as [|ii rest IH]; intros dirent Hin Hl.
  - exists dirent. auto.
  - cbn [put_scan find].
    rewrite dirent_read_bytes; [| assumption | apply Hin; now left | assumption].
    rewrite slot_bytes_inum.
    destruct (slot_inum s i ii =? 0).
    + exists (slot_bytes s i ii). split; [apply slot_bytes_length|reflexivity].
    + apply IH; [|apply slot_bytes_length]. intros ii' H'. apply Hin. now right.
Qed.

Lemma directory_put_unfold d name inum_ s :
  directory_put (Some d) name inum_ s =
  if negb (inode_valid s (Some d) && inode_valid s (get_inode inum_)) then Ok (-1) s
  else
    match get_inode inum_ with
    | None => Ok (-1) s
    | Some n =>
        match put_scan s (Some d)
                (zseq 0 (Z.to_nat (Z.quot (size (itab s d)) DIRENT_SIZE)))
                (size (itab s d)) zero_dirent with
        | None => Fault
        | Some sc =>
            match inode_write (Some d)
                    (dirent_set_inum inum_ (dirent_set_name name (snd sc)))
                    (fst sc) DIRENT_SIZE s with
            | Ok _ s1 => Ok 0 (with_field n f_links (links (itab s1 n) + 1) s1)
            | Fault => Fault
            | Hang => Hang
            end
        end
    end.
Proof.
  unfold directory_put, bind, reads, deref, ret, modify, dir_slots.
  destruct (negb (inode_valid s (Some d) && inode_valid s (get_inode inum_)));
    [reflexivity|].
  destruct (get_inode inum_) as [n|]; [|reflexivity].
  destruct (put_scan s (Some d) _ _ _) as [sc|]; [|reflexivity].
  destruct (inode_write (Some d) _ _ _ s); reflexivity.
Qed.

Lemma get_inode_some i n : get_inode i = Some n -> n = i /\ 0 < i < INODE_COUNT.
Proof.
  unfold get_inode. destruct (Z.leb_spec i 0) as [H0|H0]; [discriminate|].
  destruct (Z.leb_spec INODE_COUNT i) as [H1|H1]; [discriminate|].
  cbn [orb]. intros E. injection E as <-. lia.
Qed.

Lemma first_empty_some s i ii :
  0 <= size (itab s i) ->
  first_empty s i = Some ii <->
  (0 <= ii < slot_count s i /\ slot_inum s i ii = 0 /\
   forall jj, 0 <= jj < ii -> slot_inum s i jj <> 0).
Proof.
  intros Hs. unfold first_empty. rewrite find_zseq_first.
  pose proof (slot_count_nonneg s i Hs). rewrite Z2Nat.id by assumption.
  rewrite Z.add_0_l, Z.eqb_eq.
  split; intros (H1 & H2 & H3); (split; [assumption|]); (split; [assumption|]);
    intros jj Hjj; specialize (H3 jj Hjj).
  - now apply Z.eqb_neq.
  - now apply Z.eqb_neq.
Qed.

Lemma dir_ok_size s i : dir_ok s i -> size (itab s i) = DIRENT_SIZE * slot_count s i.
Proof.
  intros [C Hm]. pose proof (ck_size _ _ C). unfold slot_count.
  rewrite Z.quot_div_nonneg by zlia.
  pose proof (Z.div_mod (size (itab s i)) DIRENT_SIZE ltac:(zlia)). lia.
Qed.

Lemma slot_count_of_size s i k :
  size (itab s i) = DIRENT_SIZE * k -> 0 <= k -> slot_count s i = k.
Proof.
  intros H Hk. unfold slot_count. rewrite H.
  rewrite Z.quot_div_nonneg by zlia.
  rewrite Z.mul_comm. apply Z.div_mul. zlia.
Qed.

(** what [directory_put] does to a directory whose size is a whole number
    of entries *)
Lemma directory_put_effect s d name inum_ n :
  dir_ok s d -> off_table s d -> get_inode inum_ = Some n -> low_inode n ->
  inode_valid s (Some n) = true ->
  let k := put_slot_of s d in
  exists e s',
    directory_put (Some d) name inum_ s = Ok 0 s' /\
    length e = 64%nat /\ firstn 48 e = firstn 48 (name ++ repeat 0 48) /\
    dirent_inum e = inum_ /\
    dir_ok s' d /\ off_table s' d /\ ibm s' = ibm s /\
    links (itab s' n) = int32 (links (itab s n) + 1) /\
    (forall i', low_inode i' -> inum (itab s' i') = inum (itab s i') /\
                                mode (itab s' i') = mode (itab s i')) /\
    (forall i', i' <> d -> i' <> n -> low_inode i' -> itab s' i' = itab s i') /\
    (n <> d -> itab s' n = set_links (int32 (links (itab s n) + 1)) (itab s n)) /\
    (forall b, bitmap_get (bbm s) b = true -> bitmap_get (bbm s') b = true) /\
    (forall jj, 0 <= jj < slot_count s d -> jj <> k ->
                slot_bytes s' d jj = slot_bytes s d jj) /\
    ((slot_count s' d = Z.max (slot_count s d) (k + 1) /\ slot_bytes s' d k = e /\
      bytes_to_blocks (size (itab s' d)) - bytes_to_blocks (size (itab s d))
        <= free_blocks s) \/
     (first_empty s d = None /\ size (itab s' d) = size (itab s d) /\
      (exists c, size (itab s d) = BLOCK_SIZE * c) /\
      free_blocks s <= 1 /\
      forall b, 0 < b < BLOCK_COUNT -> bitmap_get (bbm s') b = true)).
Proof.
  intros [C Hm] O Hget Hln0 Hvn k.
  pose proof (ck_size _ _ C) as Hs0.
  pose proof (dir_ok_size s d (conj C Hm)) as Hsize.
  pose proof (slot_count_nonneg s d Hs0) as Hc0.
  pose proof (chain_ok_size_max s d C) as Hsmax.
  destruct (get_inode_some _ _ Hget) as [-> Hrange].
  rewrite directory_put_unfold. rewrite (ck_valid _ _ C), Hget, Hvn. cbn [andb negb].
  destruct (put_scan_find s d (size (itab s d)) C
              (zseq 0 (Z.to_nat (slot_count s d))) zero_dirent) as (d' & Hl' & Hscan).
  { intros ii Hii. apply in_zseq in Hii. lia. }
  { apply zero_dirent_length. }
  unfold slot_count in Hscan at 1. rewrite Hscan. cbn [fst snd].
  fold (first_empty s d).
  set (off := match first_empty s d with
              | Some ii => ii * DIRENT_SIZE
              | None => size (itab s d)
              end).
  assert (Hoff : off = k * DIRENT_SIZE).
  { subst off k. unfold put_slot_of. destruct (first_empty s d); [reflexivity|]. lia. }
  assert (Hk : 0 <= k <= slot_count s d).
  { subst k. unfold put_slot_of. destruct (first_empty s d) as [ii|] eqn:E; [|lia].
    apply first_empty_some in E; [lia|assumption]. }
  destruct (put_entry name inum_ d' Hl') as (He1 & He2 & He3).
  set (e := dirent_set_inum inum_ (dirent_set_name name d')) in *.
  destruct (inode_write_effect s d e off DIRENT_SIZE C O ltac:(zlia) ltac:(zlia)
              ltac:(zlia))
    as (r & s1 & Hw & C1 & O1 & Hsz & Hib & Hoth & Hin & Hmd & Hln & Hmono & Hrest).
  cbv zeta in Hrest. destruct Hrest as (_ & Hwin & Hkeep & Hcase).
  rewrite Hw. exists e. eexists. split; [reflexivity|].
  set (s' := with_field inum_ f_links (links (itab s1 inum_) + 1) s1).
  destruct (set_links_fields s1 inum_ (links (itab s1 inum_) + 1) d)
    as (F1 & F2 & F3 & F4 & F5).
  fold s' in F1, F2, F3, F4, F5.
  destruct (set_links_chain_ok s1 inum_ (links (itab s1 inum_) + 1) d Hln0 O1 C1)
    as (C' & O'). fold s' in C', O'.
  assert (Hsb : forall jj, slot_bytes s' d jj = slot_bytes s1 d jj)
    by (intros jj; now apply set_links_slot_bytes).
  assert (Hcnt : slot_count s' d = slot_count s1 d)
    by (unfold slot_count; now rewrite F2).
  assert (Hsz1 : size (itab s1 d) mod DIRENT_SIZE = 0).
  { destruct Hcase as [[E _]|(_ & (c & E) & _ & _)]; rewrite E.
    - rewrite Hsize, Hoff.
      destruct (Z.max_spec (DIRENT_SIZE * slot_count s d) (k * DIRENT_SIZE + DIRENT_SIZE))
        as [[_ ->]|[_ ->]].
      + replace (k * DIRENT_SIZE + DIRENT_SIZE) with ((k + 1) * DIRENT_SIZE) by lia.
        apply Z.mod_mul. zlia.
      + rewrite Z.mul_comm. apply Z.mod_mul. zlia.
    - unfold BLOCK_SIZE, DIRENT_SIZE. replace (4096 * c) with ((64 * c) * 64) by lia.
      apply Z.mod_mul. lia. }
  assert (Hitn : itab s' inum_ = set_links (int32 (links (itab s1 inum_) + 1))
                                           (itab s1 inum_))
    by (subst s'; now rewrite itab_with_field_same).
  split; [assumption|]. split; [assumption|]. split; [apply He3; zlia|].
  split; [split; [assumption | now rewrite F2]|].
  split; [assumption|].
  split; [subst s'; rewrite ibm_with_field; assumption|].
  split.
  { rewrite Hitn. cbn [links set_links].
    destruct (Z.eq_dec inum_ d) as [->|Hne]; [now rewrite Hln|].
    now rewrite Hoth. }
  split.
  { intros i' Hl'0. destruct (set_links_fields s1 inum_ (links (itab s1 inum_) + 1) i')
      as (G1 & _ & _ & _ & G5). fold s' in G1, G5. rewrite G1, G5.
    destruct (Z.eq_dec i' d) as [->|Hne]; [split; assumption|].
    rewrite (Hoth i' Hne Hl'0). split; reflexivity. }
  split.
  { intros i' Hd Hn Hl'0. subst s'.
    rewrite itab_with_field_other by (assumption || exact I). now apply Hoth. }
  split.
  { intros Hne. rewrite Hitn. now rewrite Hoth. }
  split; [intros b Hb; subst s'; rewrite bbm_with_field; now apply Hmono|].
  split.
  { intros jj Hjj Hne. rewrite Hsb. apply slot_bytes_ext. intros t Ht.
    pose proof (slot_in_size s d jj Hs0 Hjj).
    apply Hkeep; [zlia|]. rewrite Hoff.
    assert (jj < k \/ k < jj) as [H'|H'] by lia; [left|right]; zlia. }
  destruct Hcase as [[E Hfr]|(Hlt & Hc & Hfr & Hfull)].
  - left. assert (Hs1 : size (itab s1 d) = DIRENT_SIZE * Z.max (slot_count s d) (k + 1)).
    { rewrite E, Hsize, Hoff. zlia. }
    split; [|split].
    + rewrite Hcnt. apply slot_count_of_size; [assumption|lia].
    + rewrite Hsb. apply slot_bytes_written; [assumption|].
      intros t Ht. rewrite <- Hoff.
      rewrite Hwin by (rewrite Hs1, Hoff; zlia).
      do 2 f_equal. lia.
    + now rewrite F2.
  - right.
    assert (Hnone : first_empty s d = None).
    { destruct (first_empty s d) as [ii|] eqn:E; [|reflexivity].
      apply first_empty_some in E; [|assumption]. exfalso.
      pose proof (slot_in_size s d ii Hs0 ltac:(lia)).
      subst off. lia. }
    assert (Hsame : size (itab s1 d) = size (itab s d)).
    { subst off. rewrite Hnone in Hlt.
      apply Z.le_antisymm; [|assumption].
      rewrite Hsize in *.
      pose proof (Z.div_mod (size (itab s1 d)) DIRENT_SIZE ltac:(zlia)) as Hdm.
      rewrite Hsz1 in Hdm. unfold DIRENT_SIZE in *. lia. }
    split; [assumption|]. split; [now rewrite F2|].
    split; [destruct Hc as (c & Hc); exists c; congruence|].
    split; [|intros b Hb; subst s'; rewrite bbm_with_field; now apply Hfull].
    subst off. rewrite Hnone in Hfr.
    pose proof (bytes_to_blocks_bounds (size (itab s d) + DIRENT_SIZE)).
    pose proof (bytes_to_blocks_bounds (size (itab s d))).
    unfold BLOCK_SIZE, DIRENT_SIZE in *. lia.
Qed.

Lemma slot_named_entry s d name name' k :
  name_fits name ->
  firstn 48 (slot_bytes s d k) = firstn 48 (name ++ repeat 0 48) ->
  slot_named s d name' k = streq name' name.
Proof. intros Hfit He. unfold slot_named. now apply streq_entry. Qed.

(** what [directory_put] of a new name does to the lookups in the
    directory *)
Lemma directory_put_found (s : image) (d : Z) (name : cstring) (inum_ : Z) :
  dir_ok s d -> off_table s d -> low_inode inum_ ->
  inode_valid s (get_inode inum_) = true -> name_fits name ->
  (forall ii, 0 <= ii < slot_count s d -> slot_named s d name ii = false) ->
  first_empty s d <> None \/ 2 <= free_blocks s ->
  exists s',
    directory_put (Some d) name inum_ s = Ok 0 s' /\
    dir_ok s' d /\ off_table s' d /\
    directory_lookup s' (Some d) name = Some inum_ /\
    links (itab s' inum_) = int32 (links (itab s inum_) + 1) /\
    ibm s' = ibm s /\
    (forall i', low_inode i' -> inum (itab s' i') = inum (itab s i') /\
                                mode (itab s' i') = mode (itab s i')) /\
    (inum_ <> d ->
     itab s' inum_ = set_links (int32 (links (itab s inum_) + 1)) (itab s inum_)) /\
    (forall b, bitmap_get (bbm s) b = true -> bitmap_get (bbm s') b = true) /\
    (exists k, first_named s' d name = Some k /\ slot_inum s' d k = inum_ /\
               forall jj, 0 <= jj < slot_count s' d -> jj <> k ->
                          slot_named s' d name jj = false) /\
    forall name' v,
      streq name' name = false ->
      directory_lookup s (Some d) name' = Some v -> v <> 0 -> v <> -1 ->
      directory_lookup s' (Some d) name' = Some v.
Proof.
  intros D O Hlow Hv Hfit Habs Hroom.
  destruct (get_inode inum_) as [n|] eqn:Hget; [|discriminate].
  destruct (get_inode_some _ _ Hget) as [-> Hrange].
  destruct (directory_put_effect s d name inum_ inum_ D O Hget Hlow Hv)
    as (e & s' & Hrun & Hl & He & Hnum & D' & O' & Hib & Hln & Hfld & Hoth & Hszn
        & Hmono & Hslots & Hcase).
  set (k := put_slot_of s d) in *.
  destruct D as [C Hm]. pose proof (ck_size _ _ C) as Hs0.
  destruct D' as [C' Hm']. pose proof (ck_size _ _ C') as Hs0'.
  assert (Hk : 0 <= k <= slot_count s d).
  { subst k. unfold put_slot_of. destruct (first_empty s d) as [ii|] eqn:E.
    - apply first_empty_some in E; [lia|assumption].
    - pose proof (slot_count_nonneg s d Hs0). lia. }
  assert (Hkempty : k < slot_count s d -> slot_inum s d k = 0).
  { subst k. unfold put_slot_of. destruct (first_empty s d) as [ii|] eqn:E; [|lia].
    apply first_empty_some in E; [tauto|assumption]. }
  destruct Hcase as [(Hcnt & Hslot & _)|(Hnone & _ & _ & Hfr & _)].
  2:{ exfalso. destruct Hroom as [H|H]; [congruence|lia]. }
  exists s'. split; [assumption|]. split; [split; assumption|].
  split; [assumption|].
  assert (Hnamed : forall name', slot_named s' d name' k = streq name' name).
  { intros name'. apply slot_named_entry; [assumption|]. now rewrite Hslot. }
  assert (Hold : forall name' jj, 0 <= jj < slot_count s d -> jj <> k ->
                   slot_named s' d name' jj = slot_named s d name' jj).
  { intros name' jj Hjj Hne. unfold slot_named. now rewrite Hslots. }
  assert (Hfk : first_named s' d name = Some k).
  { apply (first_named_first s' d name k Hs0').
    split; [lia|]. split; [rewrite Hnamed; apply streq_refl|].
    intros jj Hjj. rewrite Hold by lia. apply Habs. lia. }
  assert (Hik : slot_inum s' d k = inum_)
    by (rewrite <- slot_bytes_inum, Hslot; assumption).
  split; [|split; [assumption|split; [assumption|split; [assumption|
    split; [assumption|split; [assumption|split]]]]]].
  - rewrite (directory_lookup_find s' d name C'). rewrite Hfk. now rewrite Hik.
  - exists k. split; [assumption|]. split; [assumption|].
    intros jj Hjj Hne. rewrite Hold by lia. apply Habs. lia.
  - intros name' v Hne Hlk Hv0 Hv1.
    rewrite directory_lookup_find in Hlk by assumption.
    destruct (first_named s d name') as [j|] eqn:Ej; [|congruence].
    injection Hlk as Hj.
    apply first_named_first in Ej; [|assumption].
    destruct Ej as (Hjr & Hjn & Hjfirst).
    assert (Hjk : j <> k) by (intros ->; rewrite Hkempty in Hj by lia; congruence).
    rewrite directory_lookup_find by assumption.
    rewrite (proj2 (first_named_first s' d name' j Hs0')).
    + f_equal. rewrite <- Hj. apply slot_inum_ext. apply Hslots; lia.
    + split; [lia|]. split; [rewrite Hold by lia; assumption|].
      intros jj Hjj. destruct (Z.eq_dec jj k) as [->|Hne'].
      * now rewrite Hnamed.
      * rewrite Hold by lia. apply Hjfirst. lia.
Qed.

(** X9: An entry that [directory_put] has written is found by
    [directory_lookup]: for a directory of the reserved part of the table
    whose block chain is well formed and past the table and whose size is a
    whole number of entries, a valid inode [inum] of the reserved part, a
    name that fits an entry and that no entry of the directory has, and with
    an empty entry in the directory or two free blocks in the volume,
    [directory_put] returns 0, the lookup of the name returns [inum], the
    link count of the inode is one more (as an [int]), and every other name
    that was found with a non-empty entry is found as before. *)
Theorem directory_put_lookup (s : image) (d : Z) (name : cstring) (inum_ : Z) :
  dir_ok s d -> off_table s d -> low_inode inum_ ->
  inode_valid s (get_inode inum_) = true -> name_fits name ->
  (forall ii, 0 <= ii < slot_count s d -> slot_named s d name ii = false) ->
  first_empty s d <> None \/ 2 <= free_blocks s ->
  exists s',
    directory_put (Some d) name inum_ s = Ok 0 s' /\
    dir_ok s' d /\
    directory_lookup s' (Some d) name = Some inum_ /\
    links (itab s' inum_) = int32 (links (itab s inum_) + 1) /\
    forall name' v,
      streq name' name = false ->
      directory_lookup s (Some d) name' = Some v -> v <> 0 -> v <> -1 ->
      directory_lookup s' (Some d) name' = Some v.
Proof.
  intros D O Hlow Hv Hfit Habs Hroom.
  destruct (directory_put_found s d name inum_ D O Hlow Hv Hfit Habs Hroom)
    as (s' & H1 & H2 & _ & H3 & H4 & _ & _ & _ & _ & _ & H5).
  exists s'. auto.
Qed.

Lemma one_file_root_dir_ok : dir_ok one_file DIR_ROOT.
Proof. split; [exact one_file_root_chain_ok | vm_compute; reflexivity]. Qed.

Lemma one_file_root_slots ii :
  0 <= ii < slot_count one_file DIR_ROOT -> ii = 0.
Proof.
  assert (Hc : slot_count one_file DIR_ROOT = 1) by (vm_compute; reflexivity).
  rewrite Hc. lia.
Qed.

Lemma name_fits_b : name_fits (path "b").
Proof.
  split; [repeat constructor; discriminate | vm_compute; reflexivity].
Qed.

Lemma directory_put_lookup_witness :
  exists s',
    directory_put (Some DIR_ROOT) (path "b") 2 one_file = Ok 0 s' /\
    dir_ok s' DIR_ROOT /\
    directory_lookup s' (Some DIR_ROOT) (path "b") = Some 2 /\
    links (itab s' 2) = int32 (links (itab one_file 2) + 1).
Proof.
  destruct (directory_put_lookup one_file DIR_ROOT (path "b") 2)
    as (s' & H1 & H2 & H3 & H4 & _).
  - exact one_file_root_dir_ok.
  - exact one_file_root_off_table.
  - apply low_inode_small. lia.
  - vm_compute. reflexivity.
  - exact name_fits_b.
  - intros ii Hii. apply one_file_root_slots in Hii. subst ii.
    vm_compute. reflexivity.
  - right. vm_compute. discriminate.
  - exists s'. auto.
Defined.

Lemma find_ext_in {A} (f g : A -> bool) (l : list A) :
  (forall x, In x l -> f x = g x) -> find f l = find g l.
Proof.
  induction l as [|x l IH]; intros H; [reflexivity|]. cbn [find].
  rewrite (H x (or_introl eq_refl)). destruct (g x); [reflexivity|].
  apply IH. intros y Hy. apply H. now right.
Qed.

(** X10: [directory_put] does not look at what [inode_write] returns: where the
    directory (of the reserved part of the table, with a well-formed block
    chain past the table) has no empty entry, its size is a whole number of
    blocks, and no block of the volume is free, it writes nothing, and still
    returns 0 and adds one to the link count of the inode (of the reserved
    part; as an [int]); every lookup in the directory returns what it
    returned before. *)
Theorem directory_put_full (s : image) (d : Z) (name : cstring) (inum_ : Z) :
  dir_ok s d -> off_table s d -> low_inode inum_ ->
  inode_valid s (get_inode inum_) = true ->
  first_empty s d = None ->
  size (itab s d) = BLOCK_SIZE * bytes_to_blocks (size (itab s d)) ->
  (forall b, 0 < b < BLOCK_COUNT -> bitmap_get (bbm s) b = true) ->
  exists s',
    directory_put (Some d) name inum_ s = Ok 0 s' /\
    size (itab s' d) = size (itab s d) /\
    links (itab s' inum_) = int32 (links (itab s inum_) + 1) /\
    forall name', directory_lookup s' (Some d) name'
                  = directory_lookup s (Some d) name'.
Proof.
  intros D O Hlow Hv Hnone Hal Hfull.
  destruct (get_inode inum_) as [n|] eqn:Hget; [|discriminate].
  destruct (get_inode_some _ _ Hget) as [-> Hrange].
  destruct (directory_put_effect s d name inum_ inum_ D O Hget Hlow Hv)
    as (e & s' & Hrun & _ & _ & _ & D' & _ & _ & Hln & _ & _ & _ & _ & Hslots & Hcase).
  unfold put_slot_of in *. rewrite Hnone in *.
  destruct D as [C Hm]. destruct D' as [C' Hm'].
  pose proof (ck_size _ _ C) as Hs0. pose proof (ck_size _ _ C') as Hs0'.
  pose proof (slot_count_nonneg s d Hs0) as Hc0.
  assert (Hsame : size (itab s' d) = size (itab s d)).
  { destruct Hcase as [(Hcnt & _ & Hfr)|(_ & E & _)]; [exfalso|assumption].
    rewrite (free_blocks_full s Hfull) in Hfr.
    rewrite (dir_ok_size s' d (conj C' Hm')) in Hfr. rewrite Hcnt in Hfr.
    rewrite Z.max_r in Hfr by lia.
    pose proof (dir_ok_size s d (conj C Hm)) as Hsz.
    pose proof (bytes_to_blocks_bounds (DIRENT_SIZE * (slot_count s d + 1))).
    unfold BLOCK_SIZE, DIRENT_SIZE in *. lia. }
  exists s'. split; [assumption|]. split; [assumption|]. split; [assumption|].
  assert (Hcnt : slot_count s' d = slot_count s d)
    by (unfold slot_count; now rewrite Hsame).
  assert (Hfn : forall name', first_named s' d name' = first_named s d name').
  { intros name'. unfold first_named. rewrite Hcnt. apply find_ext_in.
    intros ii Hin. apply in_zseq in Hin. unfold slot_named.
    rewrite Hslots by lia. reflexivity. }
  intros name'. rewrite !directory_lookup_find by assumption. rewrite Hfn.
  destruct (first_named s d name') as [ii|] eqn:E; [|reflexivity].
  apply first_named_first in E; [|assumption].
  f_equal. apply slot_inum_ext. apply Hslots; lia.
Qed.

Lemma chain_ok_empty s i :
  inode_valid s (Some i) = true -> size (itab s i) = 0 ->
  indirect (itab s i) = 0 -> chain_ok s i.
Proof.
  intros Hv Hs Hi. constructor.
  - assumption.
  - rewrite Hs. lia.
  - now left.
  - rewrite Hs. change (bytes_to_blocks 0) with 0. intros j Hj. lia.
  - rewrite Hs. change (bytes_to_blocks 0) with 0. intros j1 j2 b Hj. lia.
Qed.

Lemma full_volume_full b :
  0 < b < BLOCK_COUNT -> bitmap_get (bbm full_volume) b = true.
Proof.
  intros Hb.
  assert (H : forallb (bitmap_get (bbm full_volume))
                (zseq 1 (Z.to_nat (BLOCK_COUNT - 1))) = true)
    by (vm_compute; reflexivity).
  rewrite forallb_forall in H. apply H. apply in_zseq. zlia.
Qed.

Lemma off_table_empty s i :
  low_inode i -> table_reserved s -> size (itab s i) = 0 ->
  indirect (itab s i) = 0 -> off_table s i.
Proof.
  intros Hl Hres Hs Hi. constructor; try assumption.
  - intros H. congruence.
  - rewrite Hs. change (bytes_to_blocks 0) with 0. intros j b Hj. lia.
Qed.

Lemma directory_put_full_witness :
  exists s',
    directory_put (Some 2) (path "x") 2 full_volume = Ok 0 s' /\
    size (itab s' 2) = size (itab full_volume 2) /\
    links (itab s' 2) = int32 (links (itab full_volume 2) + 1) /\
    forall name', directory_lookup s' (Some 2) name'
                  = directory_lookup full_volume (Some 2) name'.
Proof.
  apply directory_put_full.
  - split; [|vm_compute; reflexivity].
    apply chain_ok_empty; vm_compute; reflexivity.
  - apply off_table_empty.
    + apply low_inode_small. lia.
    + intros b Hb. apply full_volume_full. rewrite TABLE_END_eq in Hb. zlia.
    + vm_compute. reflexivity.
    + vm_compute. reflexivity.
  - apply low_inode_small. lia.
  - vm_compute. reflexivity.
  - vm_compute. reflexivity.
  - vm_compute. reflexivity.
  - exact full_volume_full.
Defined.

(** ** Freeing an inode next to another *)

Lemma file_block_ext_valid s s' i j :
  inode_valid s' (Some i) = inode_valid s (Some i) ->
  indirect (itab s' i) = indirect (itab s i) ->
  (0 <= j < NDIRECT -> direct (itab s' i) j = direct (itab s i) j) ->
  (NDIRECT <= j -> indirect (itab s i) <> 0 ->
   load_int (blocks s' (indirect (itab s i))) (4 * (j - NDIRECT)) =
   load_int (blocks s (indirect (itab s i))) (4 * (j - NDIRECT))) ->
  file_block s' i j = file_block s i j.
Proof.
  intros Hv Hi Hd Hl.
  unfold file_block, inode_get_bnum. rewrite Hv, Hi.
  destruct (inode_valid s (Some i)); [|reflexivity].
  destruct (Z.ltb_spec j 0); [reflexivity|].
  destruct (Z.leb_spec (NINDIRECT + NDIRECT) j); [reflexivity|].
  cbn [negb orb].
  destruct (Z.ltb_spec j NDIRECT).
  - unfold load_slot. rewrite Hd by lia. reflexivity.
  - destruct (Z.eqb_spec (indirect (itab s i)) 0); [reflexivity|].
    unfold load_slot. rewrite Hl by (assumption || lia). reflexivity.
Qed.

Lemma owns_data s i j b :
  0 <= j < bytes_to_blocks (size (itab s i)) -> file_block s i j = Some b ->
  owns s i b.
Proof. intros Hj Hb. left. exists j. auto. Qed.

Lemma owns_past_table s i b : off_table s i -> owns s i b -> TABLE_END <= b.
Proof.
  intros O [(j & Hj & Hfb)|[Hne ->]].
  - apply (ot_blocks _ _ O j); assumption.
  - apply (ot_indirect _ _ O Hne).
Qed.

(** [shrink_inode] of [n] to size 0, and the clearing of the bit of [n],
    leave the file of an inode [d] that shares no block with [n] as it
    is *)
Lemma free_inode_other s n d :
  chain_ok s n -> off_table s n -> 0 < n -> inum (itab s n) = n ->
  chain_ok s d -> off_table s d -> d <> n -> inum (itab s d) <> n ->
  chains_apart s d n ->
  exists s',
    free_inode n s = Ok tt s' /\
    chain_ok s' d /\ off_table s' d /\ itab s' d = itab s d /\
    (forall x, file_byte s' d x = file_byte s d x) /\
    bitmap_get (ibm s') n = false /\
    (forall j, j <> n -> bitmap_get (ibm s') j = bitmap_get (ibm s) j) /\
    links (itab s' n) = links (itab s n) /\
    (forall i', low_inode i' -> inum (itab s' i') = inum (itab s i') /\
                                mode (itab s' i') = mode (itab s i')) /\
    (forall i', i' <> n -> low_inode i' -> itab s' i' = itab s i') /\
    (forall b, bitmap_get (bbm s') b = true <->
        bitmap_get (bbm s) b = true /\ ~ owns s n b).
Proof.
  intros Cn On Hn Hnum Cd Od Hdn Hdnum Hap.
  pose proof (ck_valid _ _ Cn) as Hv. unfold inode_valid in Hv.
  rewrite Hnum in Hv. apply andb_prop in Hv. destruct Hv as [Hbit _].
  assert (Hg : get_inode n = Some n)
    by (apply get_inode_low; [apply (ot_low _ _ On)|assumption]).
  rewrite free_inode_unfold, Hbit, Hg.
  destruct (shrink_inode_spec s n 0 Cn On
              ltac:(pose proof (ck_size _ _ Cn); lia) ltac:(lia))
    as (s1 & Hrun & C1 & O1 & Hsz & Hib & Hoth & Hin & Hmd & Hln & Hind & _ & Hbl & Hbits).
  rewrite Hrun. eexists. split; [reflexivity|].
  change (bytes_to_blocks 0) with 0 in *.
  change (0 <=? NDIRECT) with true in Hind. cbv iota in Hind.
  set (s' := with_ibm (bitmap_put (ibm s1) n false) s1).
  assert (Hit' : forall i', itab s' i' = itab s1 i') by reflexivity.
  assert (Hibm' : ibm s' = bitmap_put (ibm s1) n false) by reflexivity.
  assert (Hbbm' : bbm s' = bbm s1) by reflexivity.
  assert (Hblk' : blocks s' = blocks s1) by reflexivity.
  clearbody s'.
  assert (Hitd : itab s' d = itab s d)
    by (rewrite Hit'; apply Hoth; [assumption|apply (ot_low _ _ Od)]).
  assert (Hvd : inode_valid s' (Some d) = inode_valid s (Some d)).
  { unfold inode_valid. rewrite Hitd, Hibm'.
    rewrite bitmap_get_put_other by assumption. now rewrite Hib. }
  assert (Hdi : forall b, owns s d b -> b <> indirect (itab s n) \/ indirect (itab s n) = 0).
  { intros b Hb. destruct (Z.eq_dec (indirect (itab s n)) 0) as [E|E]; [now right|left].
    intros ->. apply (Hap _ Hb). right. auto. }
  assert (Hbld : forall b, owns s d b -> blocks s' b = blocks s b).
  { intros b Hb. pose proof (owns_past_table s d b Od Hb) as Hge.
    rewrite Hblk'. apply Hbl; [assumption|].
    destruct (Hdi b Hb) as [H|H]; [assumption|].
    rewrite H. rewrite TABLE_END_eq in Hge. lia. }
  assert (Hbitd : forall b, owns s d b -> bitmap_get (bbm s) b = true ->
                            bitmap_get (bbm s') b = true).
  { intros b Hb Hu. rewrite Hbbm'. apply Hbits. split; [assumption|]. split.
    - intros j Hj Hfb. apply (Hap _ Hb). left. exists j. split; [lia|assumption].
    - intros _ Hne ->. apply (Hap _ Hb). right. auto. }
  assert (Hfbd : forall j, 0 <= j < bytes_to_blocks (size (itab s d)) ->
                           file_block s' d j = file_block s d j).
  { intros j Hj. apply file_block_ext_valid; try rewrite Hitd; try reflexivity;
      try assumption.
    intros Hj' Hne.
    rewrite Hbld; [reflexivity | right; auto]. }
  assert (Cd' : chain_ok s' d).
  { constructor.
    - rewrite Hvd. apply (ck_valid _ _ Cd).
    - rewrite Hitd. apply (ck_size _ _ Cd).
    - unfold indirect_ok. rewrite Hitd.
      destruct (ck_indirect _ _ Cd) as [E|[Hr Hu]]; [now left|right].
      split; [assumption|]. apply Hbitd; [right; split; [lia|reflexivity]|assumption].
    - rewrite Hitd. intros j Hj. rewrite Hfbd by assumption.
      destruct (ck_mapped _ _ Cd j Hj) as (b & Hb & [Hr Hu] & Hne).
      exists b. split; [assumption|]. split; [|assumption].
      split; [assumption|]. apply Hbitd; [eapply owns_data; eassumption|assumption].
    - rewrite Hitd. intros j1 j2 b Hj1 Hj2. rewrite !Hfbd by assumption.
      apply (ck_inj _ _ Cd); assumption. }
  assert (Od' : off_table s' d).
  { constructor.
    - apply (ot_low _ _ Od).
    - unfold table_reserved. rewrite Hbbm'. apply (ot_reserved _ _ O1).
    - rewrite Hitd. apply (ot_indirect _ _ Od).
    - rewrite Hitd. intros j b Hj. rewrite Hfbd by assumption.
      apply (ot_blocks _ _ Od); assumption. }
  split; [assumption|]. split; [assumption|]. split; [assumption|].
  split.
  { intros x. unfold file_byte. rewrite !inode_get_byte_via. rewrite Hvd, Hitd.
    destruct (negb (inode_valid s (Some d)) || (x <? 0) || (size (itab s d) <=? x))
      eqn:G; [reflexivity|].
    apply orb_false_elim in G. destruct G as [G Hx2].
    apply orb_false_elim in G. destruct G as [_ Hx1].
    apply Z.ltb_ge in Hx1. apply Z.leb_gt in Hx2.
    assert (Hj : 0 <= Z.quot x BLOCK_SIZE < bytes_to_blocks (size (itab s d))).
    { rewrite Z.quot_div_nonneg by zlia. apply byte_block_range. lia. }
    rewrite Hfbd by assumption.
    destruct (ck_mapped _ _ Cd _ Hj) as (b & Hb & [Hr Hu] & Hne).
    rewrite Hb. unfold load_byte. cbn [fst snd].
    rewrite Hbld; [reflexivity | eapply owns_data; eassumption]. }
  split; [rewrite Hibm'; apply bitmap_get_put_same; lia|].
  split; [intros j Hj; rewrite Hibm'; rewrite bitmap_get_put_other by assumption;
          now rewrite Hib|].
  split; [rewrite Hit'; assumption|].
  split.
  { intros i' Hl'. rewrite Hit'. destruct (Z.eq_dec i' n) as [->|Hne]; [auto|].
    rewrite Hoth by assumption. auto. }
  split; [intros i' Hi' Hl'; rewrite Hit'; now apply Hoth|].
  intros b. rewrite Hbbm'. rewrite Hbits. unfold owns. split.
  - intros (H1 & H2 & H3). split; [assumption|].
    intros [(j & Hj & Hfb)|[Hne ->]].
    + apply (H2 j); [lia|assumption].
    + apply H3; [unfold NDIRECT; lia | assumption | reflexivity].
  - intros (H1 & H2). split; [assumption|]. split.
    + intros j Hj Hfb. apply H2. left. exists j. split; [lia|assumption].
    + intros _ Hne ->. apply H2. right. auto.
Qed.

(** ** [directory_delete] *)

Lemma directory_delete_unfold d name s :
  directory_delete (Some d) name s =
  if negb (inode_valid s (Some d)) then Ok (-1) s
  else
    match dirent_lookup s (Some d) name with
    | None => Fault
    | Some idx =>
        if idx =? -1 then Ok (-1) s
        else
          match inode_read s (Some d) (idx * DIRENT_SIZE) DIRENT_SIZE with
          | None => Fault
          | Some rd =>
              if fst rd =? 0 then Ok (-1) s
              else
                let dirent := overlay (snd rd) zero_dirent in
                if negb (inode_valid s (get_inode (dirent_inum dirent)))
                then Ok (-1) s
                else
                  match get_inode (dirent_inum dirent) with
                  | None => Ok (-1) s
                  | Some n =>
                      let s0 := with_field n f_links (links (itab s n) - 1) s in
                      match (if links (itab s0 n) <=? 0
                             then free_inode (dirent_inum dirent) else ret tt) s0 with
                      | Ok _ s1 =>
                          match inode_write (Some d)
                                  (dirent_clear_name (dirent_set_inum 0 dirent))
                                  (idx * DIRENT_SIZE) DIRENT_SIZE s1 with
                          | Ok _ s2 => Ok 0 s2
                          | Fault => Fault
                          | Hang => Hang
                          end
                      | Fault => Fault
                      | Hang => Hang
                      end
                  end
          end
    end.
Proof.
  unfold directory_delete, bind, reads, deref, ret, modify.
  destruct (negb (inode_valid s (Some d))); [reflexivity|].
  destruct (dirent_lookup s (Some d) name) as [idx|]; [|reflexivity].
  destruct (idx =? -1); [reflexivity|].
  destruct (inode_read s (Some d) (idx * DIRENT_SIZE) DIRENT_SIZE) as [rd|];
    [|reflexivity].
  destruct (fst rd =? 0); [reflexivity|]. cbv zeta.
  destruct (negb (inode_valid s (get_inode (dirent_inum (overlay (snd rd) zero_dirent)))));
    [reflexivity|].
  destruct (get_inode (dirent_inum (overlay (snd rd) zero_dirent))) as [n|];
    [|reflexivity].
  destruct ((if links (itab (with_field n f_links (links (itab s n) - 1) s) n) <=? 0
             then free_inode (dirent_inum (overlay (snd rd) zero_dirent))
             else fun s => Ok tt s)
              (with_field n f_links (links (itab s n) - 1) s)) as [u s1| |];
    reflexivity.
Qed.

(** the entry that [directory_delete] writes *)
Lemma tomb_entry d :
  length d = 64%nat ->
  let e := dirent_clear_name (dirent_set_inum 0 d) in
  length e = 64%nat /\ dirent_name e = [] /\ dirent_inum e = 0.
Proof.
  intros Hd e. subst e. unfold dirent_clear_name, dirent_set_inum.
  assert (H48 : length (firstn 48 d) = 48%nat) by (rewrite length_firstn; lia).
  rewrite skipn_app, H48. rewrite skipn_all2 by lia.
  change (48 - 48)%nat with 0%nat. rewrite skipn_O. cbn [app].
  change (int_byte 0 0) with 0. change (int_byte 0 1) with 0.
  change (int_byte 0 2) with 0. change (int_byte 0 3) with 0.
  split; [|split].
  - rewrite length_app, repeat_length. cbn [length]. rewrite length_skipn. lia.
  - reflexivity.
  - reflexivity.
Qed.

Lemma set_size_same s i i' :
  -2147483648 <= size (itab s i) < 2147483648 ->
  itab (with_field i f_size (size (itab s i)) s) i' = itab s i'.
Proof.
  intros Hr. destruct (Z.eq_dec i' i) as [->|Hne].
  - rewrite itab_with_field_same by exact I. cbn [set_field].
    rewrite int32_id by assumption. destruct (itab s i). reflexivity.
  - now rewrite itab_with_field_other by (assumption || exact I).
Qed.

(** [grow_inode] to a size that the file has already changes no record, no
    bitmap and no block past the table *)
Lemma grow_inode_within s i n :
  chain_ok s i -> low_inode i -> n <= size (itab s i) ->
  exists r sg,
    grow_inode (Some i) n s = Ok r sg /\
    bbm sg = bbm s /\ ibm sg = ibm s /\
    (forall b, TABLE_END <= b -> blocks sg b = blocks s b) /\
    forall i', itab sg i' = itab s i'.
Proof.
  intros C Hl Hn. rewrite grow_inode_unfold. rewrite (ck_valid _ _ C). cbn [negb orb].
  destruct (Z.ltb_spec n (size (itab s i))) as [Hlt|Hge].
  - eexists _, _. split; [reflexivity|]. auto.
  - assert (n = size (itab s i)) as -> by lia.
    rewrite Z.sub_diag. cbn [Z.to_nat grow_loop]. unfold ret.
    eexists _, _. split; [reflexivity|].
    split; [reflexivity|]. split; [reflexivity|].
    split; [intros b Hb; now apply blocks_with_field|].
    intros i'. apply set_size_same.
    pose proof (ck_size _ _ C). pose proof (chain_ok_size_max s i C). zlia.
Qed.

(** a write inside the file takes no block and changes nothing but the
    bytes that it writes *)
Lemma inode_write_inplace s i buf off n :
  chain_ok s i -> off_table s i -> 0 <= off -> 0 < n ->
  off + n <= size (itab s i) ->
  exists s',
    inode_write (Some i) buf off n s = Ok n s' /\
    chain_ok s' i /\ off_table s' i /\ bbm s' = bbm s /\ ibm s' = ibm s /\
    (forall i', low_inode i' -> itab s' i' = itab s i') /\
    (forall x, off <= x < off + n ->
       file_byte s' i x = Some (nth (Z.to_nat (x - off)) buf 0)) /\
    (forall x, 0 <= x < size (itab s i) -> x < off \/ off + n <= x ->
       file_byte s' i x = file_byte s i x).
Proof.
  intros C O Hoff Hn Hin.
  pose proof (chain_ok_size_max s i C) as Hmax.
  destruct (grow_inode_within s i (off + n) C (ot_low _ _ O) Hin)
    as (rg & sg & Hg & Hbb & Hib & Hbl & Hit).
  destruct (chain_ok_record_ext s sg i Hib Hbb Hbl O) as (Cg & Og);
    try assumption; try (rewrite Hit; reflexivity).
  assert (Hfb : forall x, file_byte sg i x = file_byte s i x).
  { intros x. apply file_byte_record_ext; try assumption; rewrite Hit; reflexivity. }
  destruct (write_loop_spec i (Z.to_nat n) buf off 0 sg Cg Og Hoff ltac:(lia))
    as (s2 & Hrun & C2 & O2 & Hit2 & Hib2 & Hbb2 & _ & Hwb).
  rewrite !Z.add_0_r in *. rewrite Z.add_0_l in Hrun.
  unfold room in *. rewrite Z2Nat.id in * by lia. rewrite Hit in *.
  replace (Z.max 0 (Z.min n (size (itab s i) - off))) with n in * by lia.
  rewrite Z.eqb_refl in Hrun.
  exists s2. split.
  { rewrite inode_write_unfold. rewrite (ck_valid _ _ C).
    rewrite (ltb_false off 0) by lia. rewrite (leb_false n 0) by lia.
    cbn [negb orb]. rewrite (int32_id (off + n)) by zlia. rewrite Hg. exact Hrun. }
  split; [assumption|]. split; [assumption|].
  split; [congruence|]. split; [congruence|].
  split; [intros i' Hl'; rewrite (Hit2 i' Hl'); apply Hit|].
  split.
  - intros x Hx. rewrite Hwb by lia.
    rewrite (leb_true off x) by lia. rewrite (ltb_true x (off + n)) by lia.
    reflexivity.
  - intros x Hx Hout. rewrite Hwb by lia. rewrite Hfb.
    destruct (Z.leb_spec off x); destruct (Z.ltb_spec x (off + n)); cbn [andb];
      try lia; reflexivity.
Qed.

Lemma set_links_owns s n v i b :
  low_inode n ->
  (indirect (itab s i) <> 0 -> TABLE_END <= indirect (itab s i)) ->
  owns (with_field n f_links v s) i b <-> owns s i b.
Proof.
  intros Hl Hoff.
  destruct (set_links_fields s n v i) as (H1 & H2 & H3 & H4 & _).
  assert (Hfb : forall j, file_block (with_field n f_links v s) i j
                          = file_block s i j).
  { intros j. apply file_block_record_ext; auto.
    intros b' Hb'. now apply set_links_blocks. }
  unfold owns. rewrite H2, H4. setoid_rewrite Hfb. reflexivity.
Qed.

(** what [directory_delete] does when it finds the name; the link count
    that it tests is the decremented one, an [int] *)
Lemma directory_delete_effect s d name ii n :
  dir_ok s d -> off_table s d -> first_named s d name = Some ii ->
  slot_inum s d ii = n -> low_inode n ->
  inode_valid s (get_inode n) = true ->
  (int32 (links (itab s n) - 1) <= 0 ->
   n <> d /\ chain_ok s n /\ off_table s n /\ inum (itab s n) = n /\
   inum (itab s d) <> n /\ chains_apart s d n) ->
  exists s',
    directory_delete (Some d) name s = Ok 0 s' /\
    dir_ok s' d /\ off_table s' d /\ slot_count s' d = slot_count s d /\
    slot_inum s' d ii = 0 /\ dirent_name (slot_bytes s' d ii) = [] /\
    (forall jj, 0 <= jj < slot_count s d -> jj <> ii ->
                slot_bytes s' d jj = slot_bytes s d jj) /\
    links (itab s' n) = int32 (links (itab s n) - 1) /\
    (forall i', low_inode i' -> inum (itab s' i') = inum (itab s i') /\
                                mode (itab s' i') = mode (itab s i')) /\
    (forall i', i' <> n -> low_inode i' -> itab s' i' = itab s i') /\
    (0 < int32 (links (itab s n) - 1) -> ibm s' = ibm s /\ bbm s' = bbm s) /\
    (int32 (links (itab s n) - 1) <= 0 ->
     bitmap_get (ibm s') n = false /\
     (forall j, j <> n -> bitmap_get (ibm s') j = bitmap_get (ibm s) j) /\
     forall b, bitmap_get (bbm s') b = true <->
               bitmap_get (bbm s) b = true /\ ~ owns s n b).
Proof.
  intros [C Hm] O Hfirst Hnum Hlown Hv Hfree.
  pose proof (ck_size _ _ C) as Hs0.
  apply first_named_first in Hfirst; [|assumption].
  destruct Hfirst as (Hii & Hnamed & Hbefore).
  destruct (get_inode n) as [n'|] eqn:Hget; [|discriminate].
  destruct (get_inode_some _ _ Hget) as [-> Hrange].
  rewrite directory_delete_unfold. rewrite (ck_valid _ _ C). cbn [negb].
  rewrite dirent_lookup_find by assumption.
  rewrite (proj2 (first_named_first s d name ii Hs0)) by auto.
  rewrite (eqb_false ii (-1)) by lia.
  rewrite slot_read_bytes by assumption. cbn [fst snd].
  change (DIRENT_SIZE =? 0) with false. cbv iota zeta.
  rewrite overlay_full by (apply slot_bytes_length || apply zero_dirent_length).
  rewrite slot_bytes_inum, Hnum, Hget, Hv. cbn [negb].
  set (l' := int32 (links (itab s n) - 1)) in *.
  set (s0 := with_field n f_links (links (itab s n) - 1) s).
  assert (Hl0 : links (itab s0 n) = l')
    by (subst s0; rewrite itab_with_field_same by exact I; reflexivity).
  assert (Hoth0 : forall i', i' <> n -> itab s0 i' = itab s i')
    by (intros i' Hi'; subst s0; now rewrite itab_with_field_other).
  assert (Hbb0 : bbm s0 = bbm s) by reflexivity.
  assert (Hib0 : ibm s0 = ibm s) by reflexivity.
  destruct (set_links_chain_ok s n (links (itab s n) - 1) d Hlown O C) as (C0 & O0).
  fold s0 in C0, O0.
  destruct (set_links_fields s n (links (itab s n) - 1) d) as (Fd1 & Fd2 & _ & _ & _).
  fold s0 in Fd1, Fd2.
  destruct (tomb_entry (slot_bytes s d ii) (slot_bytes_length _ _ _)) as (Ht1 & Ht2 & Ht3).
  set (tomb := dirent_clear_name (dirent_set_inum 0 (slot_bytes s d ii))) in *.
  pose proof (slot_in_size s d ii Hs0 Hii) as Hfit.
  (* the inode *)
  assert (H1 : exists u s1,
    (if links (itab s0 n) <=? 0 then free_inode n else ret tt) s0 = Ok u s1 /\
    chain_ok s1 d /\ off_table s1 d /\ size (itab s1 d) = size (itab s d) /\
    (forall x, file_byte s1 d x = file_byte s d x) /\
    links (itab s1 n) = l' /\
    (forall i', low_inode i' -> inum (itab s1 i') = inum (itab s i') /\
                                mode (itab s1 i') = mode (itab s i')) /\
    (forall i', i' <> n -> low_inode i' -> itab s1 i' = itab s i') /\
    (0 < l' -> ibm s1 = ibm s /\ bbm s1 = bbm s) /\
    (l' <= 0 ->
     bitmap_get (ibm s1) n = false /\
     (forall j, j <> n -> bitmap_get (ibm s1) j = bitmap_get (ibm s) j) /\
     forall b, bitmap_get (bbm s1) b = true <->
               bitmap_get (bbm s) b = true /\ ~ owns s n b)).
  { rewrite Hl0. destruct (Z.leb_spec l' 0) as [Hle|Hgt].
    - destruct (Hfree Hle) as (Hnd & Cn & On & Hin & Hdn & Hap).
      destruct (set_links_chain_ok s n (links (itab s n) - 1) n Hlown On Cn)
        as (Cn0 & On0).
      fold s0 in Cn0, On0.
      destruct (set_links_fields s n (links (itab s n) - 1) n) as (Fn1 & _).
      fold s0 in Fn1.
      destruct (free_inode_other s0 n d Cn0 On0 ltac:(lia) ltac:(congruence) C0 O0
                  ltac:(congruence) ltac:(congruence))
        as (s1 & Hrun & C1 & O1 & Hit & Hfb & Hb1 & Hb2 & Hln & Hfld & Hoth & Hbits).
      { intros b Hb Hb'.
        apply (set_links_owns s n _ d b Hlown (ot_indirect _ _ O)) in Hb.
        apply (set_links_owns s n _ n b Hlown (ot_indirect _ _ On)) in Hb'.
        exact (Hap b Hb Hb'). }
      exists tt, s1. split; [assumption|]. split; [assumption|].
      split; [assumption|].
      split; [rewrite Hit; assumption|].
      split; [intros x; rewrite Hfb; now apply set_links_file_byte|].
      split; [congruence|].
      split.
      { intros i' Hl'0. destruct (Hfld i' Hl'0) as [G1 G2]. rewrite G1, G2.
        destruct (set_links_fields s n (links (itab s n) - 1) i')
          as (K1 & _ & _ & _ & K5). split; assumption. }
      split.
      { intros i' Hi' Hl'0. rewrite Hoth by assumption. now apply Hoth0. }
      split; [intros; lia|].
      intros _. split; [assumption|]. split; [assumption|].
      intros b. rewrite Hbits. rewrite Hbb0. unfold s0.
      rewrite (set_links_owns s n (links (itab s n) - 1) n b Hlown
                 (ot_indirect _ _ On)). reflexivity.
    - exists tt, s0. split; [reflexivity|]. split; [assumption|].
      split; [assumption|]. split; [assumption|].
      split; [intros x; now apply set_links_file_byte|].
      split; [assumption|].
      split.
      { intros i' _. destruct (set_links_fields s n (links (itab s n) - 1) i')
          as (K1 & _ & _ & _ & K5). split; assumption. }
      split; [intros i' Hi' _; now apply Hoth0|].
      split; [intros _; split; reflexivity|]. intros; lia. }
  destruct H1 as (u & s1 & E1 & C1 & O1 & Hsz1 & Hfb1 & Hln1 & Hfld1 & Hoth1 & Hkeep1
                  & Hfree1).
  rewrite E1.
  destruct (inode_write_inplace s1 d tomb (ii * DIRENT_SIZE) DIRENT_SIZE C1 O1
              ltac:(zlia) ltac:(zlia) ltac:(rewrite Hsz1; lia))
    as (s2 & Hw & C2 & O2 & Hbb2 & Hib2 & Hit2 & Hwin & Hout).
  rewrite Hw. exists s2. split; [reflexivity|].
  assert (Hsz2 : size (itab s2 d) = size (itab s d))
    by (rewrite (Hit2 d (ot_low _ _ O)); assumption).
  assert (Hcnt : slot_count s2 d = slot_count s d)
    by (unfold slot_count; now rewrite Hsz2).
  assert (Hslot : slot_bytes s2 d ii = tomb).
  { apply slot_bytes_written; [assumption|]. intros t Ht.
    rewrite Hwin by lia. do 2 f_equal. lia. }
  split; [split; [assumption | now rewrite Hsz2]|].
  split; [assumption|]. split; [assumption|].
  split; [rewrite <- slot_bytes_inum, Hslot; assumption|].
  split; [rewrite Hslot; assumption|].
  split.
  { intros jj Hjj Hne. apply slot_bytes_ext. intros t Ht.
    pose proof (slot_in_size s d jj Hs0 Hjj).
    rewrite Hout; [apply Hfb1 | rewrite Hsz1; zlia |].
    assert (jj < ii \/ ii < jj) as [H'|H'] by lia; [left|right]; zlia. }
  split; [rewrite (Hit2 n Hlown); assumption|].
  split; [intros i' Hl'0; rewrite (Hit2 i' Hl'0); now apply Hfld1|].
  split; [intros i' Hi' Hl'0; rewrite (Hit2 i' Hl'0); now apply Hoth1|].
  split.
  - intros Hl. destruct (Hkeep1 Hl). split; congruence.
  - intros Hl. destruct (Hfree1 Hl) as (G1 & G2 & G3). rewrite Hib2, Hbb2. auto.
Qed.

Lemma streq_trans_false name name' e :
  streq name e = true -> streq name' name = false -> streq name' e = false.
Proof.
  unfold streq. intros H1 H2. apply bytes_eqb_eq in H1. now rewrite <- H1.
Qed.

Lemma streq_empty name e :
  cstr e = [] -> cstr name <> [] -> streq name e = false.
Proof.
  unfold streq. intros He Hn. rewrite He.
  destruct (cstr name); [contradiction|reflexivity].
Qed.

(** [directory_delete], entry by entry *)
Lemma directory_delete_spec (s : image) (d : Z) (name : cstring) :
  dir_ok s d -> off_table s d ->
  ((forall ii, 0 <= ii < slot_count s d -> slot_named s d name ii = false) ->
   directory_delete (Some d) name s = Ok (-1) s) /\
  (forall ii,
     first_named s d name = Some ii ->
     inode_valid s (get_inode (slot_inum s d ii)) = false ->
     directory_delete (Some d) name s = Ok (-1) s) /\
  (forall ii n,
     first_named s d name = Some ii -> slot_inum s d ii = n -> low_inode n ->
     inode_valid s (get_inode n) = true ->
     (int32 (links (itab s n) - 1) <= 0 ->
      n <> d /\ chain_ok s n /\ off_table s n /\ inum (itab s n) = n /\
      inum (itab s d) <> n /\ chains_apart s d n) ->
     exists s',
       directory_delete (Some d) name s = Ok 0 s' /\
       dir_ok s' d /\ off_table s' d /\
       links (itab s' n) = int32 (links (itab s n) - 1) /\
       bitmap_get (ibm s') n
         = (if int32 (links (itab s n) - 1) <=? 0 then false
            else bitmap_get (ibm s) n) /\
       (forall j, j <> n -> bitmap_get (ibm s') j = bitmap_get (ibm s) j) /\
       (int32 (links (itab s n) - 1) <= 0 ->
        forall b, bitmap_get (bbm s') b = true <->
                  bitmap_get (bbm s) b = true /\ ~ owns s n b) /\
       (cstr name <> [] ->
        (forall jj, 0 <= jj < slot_count s d -> jj <> ii ->
                    slot_named s d name jj = false) ->
        directory_lookup s' (Some d) name = Some (-1)) /\
       (forall name' v,
          cstr name' <> [] -> streq name' name = false ->
          directory_lookup s (Some d) name' = Some v -> v <> -1 ->
          directory_lookup s' (Some d) name' = Some v)).
Proof.
  intros D O. pose proof D as [C Hm]. pose proof (ck_size _ _ C) as Hs0.
  split; [|split].
  - intros Habs. rewrite directory_delete_unfold. rewrite (ck_valid _ _ C).
    cbn [negb]. rewrite dirent_lookup_find by assumption.
    rewrite (proj2 (first_named_none s d name Hs0) Habs). reflexivity.
  - intros ii Hfirst Hinv. rewrite directory_delete_unfold.
    rewrite (ck_valid _ _ C). cbn [negb].
    rewrite dirent_lookup_find by assumption. rewrite Hfirst.
    apply first_named_some in Hfirst. destruct Hfirst as [Hii _].
    rewrite (eqb_false ii (-1)) by lia.
    rewrite slot_read_bytes by assumption. cbn [fst snd].
    change (DIRENT_SIZE =? 0) with false. cbv iota zeta.
    rewrite overlay_full by (apply slot_bytes_length || apply zero_dirent_length).
    rewrite slot_bytes_inum, Hinv. reflexivity.
  - intros ii n Hfirst Hnum Hlown Hv Hfree.
    destruct (directory_delete_effect s d name ii n D O Hfirst Hnum Hlown Hv Hfree)
      as (s' & Hrun & D' & O' & Hcnt & Hinum & Hname & Hslots & Hln & _ & _ & Hkeep & Hfr).
    pose proof D' as [C' Hm']. pose proof (ck_size _ _ C') as Hs0'.
    apply first_named_first in Hfirst; [|assumption].
    destruct Hfirst as (Hii & Hnamed & Hbefore).
    assert (Hold : forall name' jj, 0 <= jj < slot_count s d -> jj <> ii ->
                     slot_named s' d name' jj = slot_named s d name' jj).
    { intros name' jj Hjj Hne. unfold slot_named. now rewrite Hslots. }
    assert (Htomb : forall name', cstr name' <> [] -> slot_named s' d name' ii = false).
    { intros name' Hne. unfold slot_named. now apply streq_empty. }
    exists s'. split; [assumption|]. split; [assumption|]. split; [assumption|].
    split; [assumption|].
    split.
    { destruct (Z.leb_spec (int32 (links (itab s n) - 1)) 0) as [Hle|Hgt].
      - apply (Hfr Hle).
      - destruct (Hkeep Hgt) as [E _]. now rewrite E. }
    split.
    { intros j Hj. destruct (Z.leb_spec (int32 (links (itab s n) - 1)) 0) as [Hle|Hgt].
      - apply (Hfr Hle). assumption.
      - destruct (Hkeep Hgt) as [E _]. now rewrite E. }
    split; [intros Hle; apply (Hfr Hle)|].
    split.
    + intros Hne Hothers. rewrite directory_lookup_find by assumption.
      rewrite (proj2 (first_named_none s' d name Hs0')); [reflexivity|].
      intros jj Hjj. rewrite Hcnt in Hjj.
      destruct (Z.eq_dec jj ii) as [->|Hji]; [now apply Htomb|].
      rewrite Hold by assumption. now apply Hothers.
    + intros name' v Hne Hdiff Hlk Hv1.
      rewrite directory_lookup_find in Hlk by assumption.
      destruct (first_named s d name') as [j|] eqn:Ej; [|congruence].
      injection Hlk as Hj.
      apply first_named_first in Ej; [|assumption].
      destruct Ej as (Hjr & Hjn & Hjfirst).
      assert (Hji : j <> ii).
      { intros ->. unfold slot_named in *.
        rewrite (streq_trans_false name name' _ Hnamed Hdiff) in Hjn. discriminate. }
      rewrite directory_lookup_find by assumption.
      rewrite (proj2 (first_named_first s' d name' j Hs0')).
      * f_equal. rewrite <- Hj. apply slot_inum_ext. now apply Hslots.
      * rewrite Hcnt. split; [assumption|]. split; [rewrite Hold; assumption|].
        intros jj Hjj. destruct (Z.eq_dec jj ii) as [->|Hne'].
        -- now apply Htomb.
        -- rewrite Hold by lia. now apply Hjfirst.
Qed.

(** X11: in a directory of the reserved part of the table whose block chain
    is well formed and past the table, [directory_delete] returns -1 and
    changes nothing when no entry has the name, or when the first entry
    with the name holds no valid inode (an empty entry).  Otherwise (for an
    inode of the reserved part) it turns that entry into an empty one with
    an empty name, takes one from the link count of the inode (an [int]),
    and frees the inode with its blocks when the count is then 0 or less
    (here for an inode other than the directory, with a well-formed chain
    past the table that shares no block with the directory); it returns 0.
    A name that is not empty is then no longer found, unless another entry
    has it, and the other names are found as before. *)
Theorem directory_delete_result (s : image) (d : Z) (name : cstring) :
  dir_ok s d -> off_table s d ->
  ((forall ii, 0 <= ii < slot_count s d -> slot_named s d name ii = false) ->
   directory_delete (Some d) name s = Ok (-1) s) /\
  (forall ii,
     first_named s d name = Some ii ->
     inode_valid s (get_inode (slot_inum s d ii)) = false ->
     directory_delete (Some d) name s = Ok (-1) s) /\
  (forall ii n,
     first_named s d name = Some ii -> slot_inum s d ii = n -> low_inode n ->
     inode_valid s (get_inode n) = true ->
     (int32 (links (itab s n) - 1) <= 0 ->
      n <> d /\ chain_ok s n /\ off_table s n /\ inum (itab s n) = n /\
      inum (itab s d) <> n /\ chains_apart s d n) ->
     exists s',
       directory_delete (Some d) name s = Ok 0 s' /\
       dir_ok s' d /\
       links (itab s' n) = int32 (links (itab s n) - 1) /\
       bitmap_get (ibm s') n
         = (if int32 (links (itab s n) - 1) <=? 0 then false
            else bitmap_get (ibm s) n) /\
       (forall j, j <> n -> bitmap_get (ibm s') j = bitmap_get (ibm s) j) /\
       (int32 (links (itab s n) - 1) <= 0 ->
        forall b, bitmap_get (bbm s') b = true <->
                  bitmap_get (bbm s) b = true /\ ~ owns s n b) /\
       (cstr name <> [] ->
        (forall jj, 0 <= jj < slot_count s d -> jj <> ii ->
                    slot_named s d name jj = false) ->
        directory_lookup s' (Some d) name = Some (-1)) /\
       (forall name' v,
          cstr name' <> [] -> streq name' name = false ->
          directory_lookup s (Some d) name' = Some v -> v <> -1 ->
          directory_lookup s' (Some d) name' = Some v)).
Proof.
  intros D O. destruct (directory_delete_spec s d name D O) as (H1 & H2 & H3).
  split; [assumption|]. split; [assumption|].
  intros ii n Hf Hn Hl Hv Hfree.
  destruct (H3 ii n Hf Hn Hl Hv Hfree)
    as (s' & G1 & G2 & _ & G3 & G4 & G5 & G6 & G7 & G8).
  exists s'. auto 10.
Qed.

Lemma one_file_apart : chains_apart one_file DIR_ROOT 2.
Proof.
  assert (Hs : size (itab one_file 2) = 0) by (vm_compute; reflexivity).
  assert (Hi : indirect (itab one_file 2) = 0) by (vm_compute; reflexivity).
  intros b _ [(j & Hj & _)|[Hne _]].
  - rewrite Hs in Hj. change (bytes_to_blocks 0) with 0 in Hj. lia.
  - contradiction.
Qed.

Lemma directory_delete_result_witness :
  directory_delete (Some DIR_ROOT) (path "b") one_file = Ok (-1) one_file /\
  exists s',
    directory_delete (Some DIR_ROOT) (path "a") one_file = Ok 0 s' /\
    dir_ok s' DIR_ROOT /\
    links (itab s' 2) = int32 (links (itab one_file 2) - 1) /\
    bitmap_get (ibm s') 2 = false /\
    directory_lookup s' (Some DIR_ROOT) (path "a") = Some (-1).
Proof.
  destruct (directory_delete_result one_file DIR_ROOT (path "b")
              one_file_root_dir_ok one_file_root_off_table) as (Hb & _ & _).
  destruct (directory_delete_result one_file DIR_ROOT (path "a")
              one_file_root_dir_ok one_file_root_off_table) as (_ & _ & Ha).
  split.
  - apply Hb. intros ii Hii. apply one_file_root_slots in Hii. subst ii.
    vm_compute. reflexivity.
  - destruct (Ha 0 2) as (s' & H1 & H2 & H3 & H4 & _ & _ & H6 & _).
    + vm_compute. reflexivity.
    + vm_compute. reflexivity.
    + apply low_inode_small. lia.
    + vm_compute. reflexivity.
    + intros _. split; [discriminate|]. split; [exact one_file_chain_ok|].
      split; [exact one_file_off_table|].
      split; [vm_compute; reflexivity|]. split; [vm_compute; discriminate|].
      exact one_file_apart.
    + exists s'. split; [assumption|]. split; [assumption|].
      split; [assumption|]. split; [exact H4|].
      apply H6; [vm_compute; discriminate|].
      intros jj Hjj Hne. apply one_file_root_slots in Hjj. contradiction.
Defined.

(** ** [directory_list] *)

Lemma directory_list_loop_names s i : chain_ok s i -> forall iis acc,
  (forall ii, In ii iis -> 0 <= ii < slot_count s i) ->
  directory_list_loop s (Some i) iis acc =
  Some (rev (map (fun ii => dirent_name (slot_bytes s i ii))
                 (filter (live_slot s i) iis)) ++ acc).
Proof.
  intros C. induction iis as [|ii rest IH]; intros acc Hin; [reflexivity|].
  cbn [directory_list_loop filter].
  rewrite slot_read_bytes; [| assumption | apply Hin; now left].
  cbv zeta.
  rewrite overlay_full by (apply slot_bytes_length || apply zero_dirent_length).
  rewrite slot_bytes_inum. fold (live_slot s i ii).
  rewrite IH by (intros ii' H'; apply Hin; now right).
  destruct (live_slot s i ii); [|reflexivity].
  cbn [map rev]. now rewrite <- app_assoc.
Qed.

(** X12: The loop of [directory_list] collects the names of the non-empty
    entries in the order of the entries; [directory_list] runs it for every
    inode with a well-formed chain that is not a directory, and returns the
    empty list for one that is. *)
Theorem directory_list_names (s : image) (i : Z) :
  chain_ok s i ->
  directory_list s (Some i) =
  Some (if mode_isdir (mode (itab s i)) then [] else listed_names s i).
Proof.
  intros C. unfold directory_list.
  destruct (mode_isdir (mode (itab s i))); [reflexivity|].
  unfold dir_slots. fold (slot_count s i).
  rewrite directory_list_loop_names; [|assumption|].
  - rewrite app_nil_r, rev_involutive. reflexivity.
  - intros ii Hii. apply in_zseq in Hii. lia.
Qed.

Lemma self_entry_chain_ok : chain_ok self_entry 2.
Proof.
  destruct (inode_write_read one_file 2 (dirent_of (path "a") 2) 0 DIRENT_SIZE
              self_entry one_file_chain_ok one_file_off_table eq_refl)
    as (C & _ & _); [|exact C].
  apply (outcome_eta (inode_write (Some 2) (dirent_of (path "a") 2) 0 DIRENT_SIZE
                        one_file)).
  vm_compute. reflexivity.
Qed.

Lemma directory_list_names_witness :
  directory_list self_entry (Some 2) = Some (listed_names self_entry 2).
Proof. exact (directory_list_names self_entry 2 self_entry_chain_ok). Defined.

(** ** Paths and their components *)

Lemma explode_from_comp e : forall rest part,
  Forall (fun c => c <> SLASH /\ c <> 0) e ->
  explode_from (e ++ rest) SLASH part = explode_from rest SLASH (rev e ++ part).
Proof.
  induction e as [|c e IH]; intros rest part H; [reflexivity|].
  inversion H as [|c' e' [Hc _] He]; subst.
  cbn [app explode_from]. rewrite (eqb_false c SLASH) by assumption.
  rewrite IH by assumption. cbn [rev]. now rewrite <- app_assoc.
Qed.

Lemma explode_comp_path es : forall e,
  comp_ok e -> Forall comp_ok es ->
  explode_from (e ++ path_of es) SLASH [] = e :: es.
Proof.
  induction es as [|e' es IH]; intros e [Hne He] Hes.
  - unfold path_of. cbn [map concat]. rewrite explode_from_comp by assumption.
    cbn [explode_from]. rewrite app_nil_r.
    destruct (rev e) as [|x l] eqn:E.
    + apply (f_equal (@rev Z)) in E. rewrite rev_involutive in E. contradiction.
    + rewrite <- E, rev_involutive. reflexivity.
  - inversion Hes as [|x l He' Hes']; subst.
    unfold path_of. cbn [map concat]. fold (path_of es).
    rewrite explode_from_comp by assumption. rewrite app_nil_r.
    cbn [app explode_from]. rewrite Z.eqb_refl.
    destruct (rev e) as [|x l] eqn:E.
    + apply (f_equal (@rev Z)) in E. rewrite rev_involutive in E. contradiction.
    + rewrite <- E, rev_involutive. apply (f_equal (cons e)). now apply IH.
Qed.

Lemma explode_path_of es :
  Forall comp_ok es -> slist_explode (path_of es) SLASH = es.
Proof.
  intros H. unfold slist_explode. destruct es as [|e es]; [reflexivity|].
  inversion H; subst. unfold path_of. cbn [map concat]. fold (path_of es).
  cbn [app explode_from]. rewrite Z.eqb_refl. now apply explode_comp_path.
Qed.

Lemma explode_tl_path_of es :
  Forall comp_ok es -> slist_explode (tl (path_of es)) SLASH = es.
Proof.
  intros H. unfold slist_explode. destruct es as [|e es]; [reflexivity|].
  inversion H; subst. unfold path_of. cbn [map concat tl]. fold (path_of es).
  now apply explode_comp_path.
Qed.

Lemma last_comp dir e : comp_ok e -> last (dir ++ e) 0 <> SLASH.
Proof.
  intros [Hne He]. destruct (exists_last Hne) as (e' & c & ->).
  rewrite app_assoc, last_last.
  apply Forall_app in He. destruct He as [_ Hc]. inversion Hc as [|? ? [H _] _]. assumption.
Qed.

Lemma split_loop_cons dir e e2 rest :
  split_loop dir (e :: e2 :: rest) =
  split_loop (if negb (last (dir ++ e) 0 =? SLASH)
                 && negb (match rest with [] => true | _ => false end)
              then (dir ++ e) ++ [SLASH] else dir ++ e) (e2 :: rest).
Proof. reflexivity. Qed.

Lemma split_loop_join es : forall dir name,
  Forall comp_ok es ->
  split_loop dir (es ++ [name]) = (dir ++ join es, name).
Proof.
  induction es as [|e es IH]; intros dir name Hes.
  - cbn. now rewrite app_nil_r.
  - inversion Hes as [|x l He Hes']; subst.
    destruct es as [|e2 es].
    + change (([e] ++ [name])) with (e :: [name]).
      rewrite split_loop_cons.
      rewrite (eqb_false _ SLASH) by now apply last_comp.
      cbn [negb andb]. reflexivity.
    + change ((e :: e2 :: es) ++ [name]) with (e :: e2 :: (es ++ [name])).
      rewrite split_loop_cons.
      rewrite (eqb_false _ SLASH) by now apply last_comp.
      assert (Hn : (match es ++ [name] with [] => true | _ :: _ => false end) = false)
        by (destruct es; reflexivity).
      rewrite Hn. cbn [negb andb].
      change (e2 :: es ++ [name]) with ((e2 :: es) ++ [name]).
      rewrite IH by assumption.
      change (join (e :: e2 :: es)) with (e ++ SLASH :: join (e2 :: es)).
      f_equal. rewrite <- !app_assoc. reflexivity.
Qed.

Lemma join_path_of es : es <> [] -> SLASH :: join es = path_of es.
Proof.
  induction es as [|e es IH]; intros Hne; [contradiction|].
  destruct es as [|e2 es].
  - unfold path_of. cbn. now rewrite app_nil_r.
  - change (join (e :: e2 :: es)) with (e ++ SLASH :: join (e2 :: es)).
    rewrite IH by discriminate. reflexivity.
Qed.

Lemma explode_slashes k : forall part,
  explode_from (repeat SLASH k) SLASH part
  = match part with [] => [] | _ => [rev part] end.
Proof.
  induction k as [|k IH]; intros part; [reflexivity|].
  cbn [repeat explode_from]. rewrite Z.eqb_refl.
  destruct part; rewrite IH; reflexivity.
Qed.

Lemma path_split_path_of es name buf_dir buf_name :
  Forall comp_ok es -> comp_ok name ->
  path_split_strings (path_of (es ++ [name])) buf_dir buf_name
  = (0, dir_of es, firstn (Z.to_nat DIR_NAME_LENGTH) name).
Proof.
  intros Hes Hname. unfold path_split_strings.
  rewrite explode_path_of by (apply Forall_app; auto).
  destruct (es ++ [name]) as [|x l] eqn:E; [destruct es; discriminate|].
  rewrite <- E. rewrite split_loop_join by assumption. cbn [fst snd].
  destruct es as [|e es']; [reflexivity|].
  cbn [app dir_of]. rewrite join_path_of by discriminate. reflexivity.
Qed.

(** X14: [path_split_strings] splits the path [/e1/.../ek/name] into the path
    [/e1/.../ek] of the directory ([/] when there is no directory component)
    and the first [DIR_NAME_LENGTH] bytes of [name], and returns 0; for a
    path with no component (the empty path, or slashes only) it returns -1
    and leaves both buffers as they are. *)
Theorem path_split_strings_parts (es : slist_t) (name : cstring)
        (buf_dir buf_name : list Z) :
  (Forall comp_ok es -> comp_ok name ->
   path_split_strings (path_of (es ++ [name])) buf_dir buf_name
   = (0, dir_of es, firstn (Z.to_nat DIR_NAME_LENGTH) name)) /\
  (forall k, path_split_strings (repeat SLASH k) buf_dir buf_name
             = (-1, buf_dir, buf_name)).
Proof.
  split.
  - apply path_split_path_of.
  - intros k. unfold path_split_strings, slist_explode.
    rewrite explode_slashes. reflexivity.
Qed.

Lemma comp_ok_d : comp_ok (path "d").
Proof.
  split; [discriminate|]. repeat constructor; discriminate.
Qed.

Lemma comp_ok_x : comp_ok (path "x").
Proof.
  split; [discriminate|]. repeat constructor; discriminate.
Qed.

Lemma path_split_strings_parts_witness :
  path_split_strings (path "/d/x") [] [] = (0, path "/d", path "x").
Proof.
  apply (proj1 (path_split_strings_parts [path "d"] (path "x") [] [])).
  - constructor; [exact comp_ok_d | constructor].
  - exact comp_ok_x.
Defined.

(** ** [path_get_inode] *)

Lemma path_walk_range s : forall es di i,
  es <> [] -> path_walk s di es = Some (Some i) -> 0 < i < INODE_COUNT.
Proof.
  induction es as [|e es IH]; intros di i Hne H; [contradiction|].
  cbn [path_walk] in H.
  destruct (directory_lookup s di e) as [v|]; [|discriminate].
  destruct (v =? -1); [discriminate|].
  destruct es as [|e2 es].
  - cbn [path_walk] in H. injection H as H. apply get_inode_some in H. lia.
  - apply (IH (get_inode v) i); [discriminate|assumption].
Qed.

Lemma path_walk_app s : forall es di d e,
  path_walk s di es = Some (Some d) ->
  path_walk s di (es ++ [e]) =
  match directory_lookup s (Some d) e with
  | None => None
  | Some v => Some (if v =? -1 then None else get_inode v)
  end.
Proof.
  induction es as [|e1 es IH]; intros di d e H.
  - cbn [path_walk] in H. injection H as ->. cbn [app path_walk].
    destruct (directory_lookup s (Some d) e) as [v|]; [|reflexivity].
    destruct (v =? -1); reflexivity.
  - cbn [app path_walk] in *.
    destruct (directory_lookup s di e1) as [v|]; [|discriminate].
    destruct (v =? -1); [discriminate|]. now apply IH.
Qed.

Lemma cstr_comp e rest :
  comp_ok e -> cstr (SLASH :: e ++ rest) <> [SLASH].
Proof.
  intros [Hne He]. destruct e as [|c e]; [contradiction|].
  inversion He as [|? ? [_ Hc] _]; subst.
  cbn [cstr app]. change (SLASH =? 0) with false. cbv iota.
  rewrite (eqb_false c 0) by assumption. discriminate.
Qed.

Lemma path_get_inode_path_of s es :
  Forall comp_ok es ->
  path_get_inode s (path_of es) = path_walk s (Some DIR_ROOT) es.
Proof.
  intros Hes. unfold path_get_inode.
  rewrite explode_tl_path_of by assumption.
  replace (streq (path_of es) [SLASH]) with false; [reflexivity|].
  symmetry. unfold streq. destruct es as [|e es]; [reflexivity|].
  inversion Hes; subst. unfold path_of. cbn [map concat]. fold (path_of es).
  destruct (bytes_eqb (cstr ((SLASH :: e) ++ path_of es)) (cstr [SLASH])) eqn:E;
    [|reflexivity].
  apply bytes_eqb_eq in E. exfalso. revert E. now apply cstr_comp.
Qed.

Lemma path_get_inode_dir_of s es :
  Forall comp_ok es ->
  path_get_inode s (dir_of es) = path_walk s (Some DIR_ROOT) es.
Proof.
  intros Hes. destruct es as [|e es]; [reflexivity|].
  now apply path_get_inode_path_of.
Qed.

(** X15: [path_get_inode] resolves [/] to the root inode in every image, and
    every inode that it returns is an inode of the table.  The path
    [/e1/.../ek/e] resolves, when [/e1/.../ek] resolves to an inode [d], to
    what [directory_lookup] finds for [e] in [d]: [NULL] when that is -1, 0,
    or no number of the table. *)
Theorem path_get_inode_step (s : image) :
  path_get_inode s [SLASH] = Some (Some DIR_ROOT) /\
  (forall p i, path_get_inode s p = Some (Some i) -> 0 < i < INODE_COUNT) /\
  (forall es e d,
     Forall comp_ok es -> comp_ok e ->
     path_get_inode s (dir_of es) = Some (Some d) ->
     path_get_inode s (path_of (es ++ [e])) =
     match directory_lookup s (Some d) e with
     | None => None
     | Some v => Some (if v =? -1 then None else get_inode v)
     end).
Proof.
  split; [reflexivity|]. split.
  - intros p i H. unfold path_get_inode in H.
    destruct (streq p [SLASH]).
    + injection H as <-. unfold DIR_ROOT, INODE_COUNT. lia.
    + destruct (slist_explode (tl p) SLASH) as [|e es] eqn:E.
      * cbn [path_walk] in H. injection H as <-. unfold DIR_ROOT, INODE_COUNT. lia.
      * apply (path_walk_range s (e :: es) (get_inode DIR_ROOT) i);
          [discriminate|assumption].
  - intros es e d Hes He Hd.
    rewrite path_get_inode_dir_of in Hd by assumption.
    rewrite path_get_inode_path_of by (apply Forall_app; auto).
    now apply path_walk_app.
Qed.

Lemma path_get_inode_step_witness :
  path_get_inode one_file (path "/a") =
  match directory_lookup one_file (Some DIR_ROOT) (path "a") with
  | None => None
  | Some v => Some (if v =? -1 then None else get_inode v)
  end.
Proof.
  apply (proj2 (proj2 (path_get_inode_step one_file)) [] (path "a") DIR_ROOT).
  - constructor.
  - split; [discriminate|]. repeat constructor; discriminate.
  - reflexivity.
Defined.
(** * Further properties of the storage layer *)

(** ** What depends on the validity, the record and the blocks only *)

Lemma file_byte_ext_valid s s' i x :
  inode_valid s' (Some i) = inode_valid s (Some i) ->
  itab s' i = itab s i ->
  (forall b, TABLE_END <= b -> blocks s' b = blocks s b) ->
  off_table s i ->
  file_byte s' i x = file_byte s i x.
Proof.
  intros Hv Hit Hbl O.
  assert (Hfb : forall j, file_block s' i j = file_block s i j).
  { intros j. apply file_block_ext_valid; try rewrite Hit; auto.
    intros _ Hne. rewrite Hbl; [reflexivity|]. apply (ot_indirect _ _ O Hne). }
  unfold file_byte. rewrite !inode_get_byte_via. rewrite Hv, Hit, Hfb.
  destruct (negb (inode_valid s (Some i)) || (x <? 0) || (size (itab s i) <=? x))
    eqn:G; [reflexivity|].
  apply orb_false_elim in G. destruct G as [G Hx2].
  apply orb_false_elim in G. destruct G as [_ Hx1].
  apply Z.ltb_ge in Hx1. apply Z.leb_gt in Hx2.
  destruct (file_block s i (Z.quot x BLOCK_SIZE)) as [b|] eqn:Hb; [|reflexivity].
  unfold load_byte. cbn [fst snd]. rewrite Hbl; [reflexivity|].
  apply (ot_blocks _ _ O (Z.quot x BLOCK_SIZE)); [|assumption].
  rewrite Z.quot_div_nonneg by zlia. apply byte_block_range. lia.
Qed.

Lemma chain_ok_ext_valid s s' i :
  inode_valid s' (Some i) = inode_valid s (Some i) ->
  itab s' i = itab s i -> bbm s' = bbm s ->
  (forall b, TABLE_END <= b -> blocks s' b = blocks s b) ->
  off_table s i ->
  chain_ok s i -> chain_ok s' i /\ off_table s' i.
Proof.
  intros Hv Hit Hbb Hbl O C.
  assert (Hfb : forall j, file_block s' i j = file_block s i j).
  { intros j. apply file_block_ext_valid; try rewrite Hit; auto.
    intros _ Hne. rewrite Hbl; [reflexivity|]. apply (ot_indirect _ _ O Hne). }
  split.
  - constructor.
    + rewrite Hv. apply (ck_valid _ _ C).
    + rewrite Hit. apply (ck_size _ _ C).
    + unfold indirect_ok, used_block. rewrite Hit, Hbb. apply (ck_indirect _ _ C).
    + rewrite Hit. intros j Hj. rewrite Hfb. unfold used_block. rewrite Hbb.
      apply (ck_mapped _ _ C j Hj).
    + rewrite Hit. intros j1 j2 b. rewrite !Hfb. apply (ck_inj _ _ C).
  - constructor.
    + apply (ot_low _ _ O).
    + unfold table_reserved. rewrite Hbb. apply (ot_reserved _ _ O).
    + rewrite Hit. apply (ot_indirect _ _ O).
    + rewrite Hit. intros j b. rewrite Hfb. apply (ot_blocks _ _ O).
Qed.

(** ** [alloc_inode] next to the other inodes *)

Lemma alloc_inode_effect s md :
  (exists j, 2 <= j /\ low_inode j /\ bitmap_get (ibm s) j = false) ->
  exists i s1,
    alloc_inode md s = Ok i s1 /\
    2 <= i /\ low_inode i /\ bitmap_get (ibm s) i = false /\
    (forall j, 2 <= j < i -> bitmap_get (ibm s) j = true) /\
    ibm s1 = bitmap_put (ibm s) i true /\ bbm s1 = bbm s /\
    (forall b, TABLE_END <= b -> blocks s1 b = blocks s b) /\
    (forall j, j <> i -> itab s1 j = itab s j) /\
    mode (itab s1 i) = int32 md /\ inum (itab s1 i) = i /\
    size (itab s1 i) = size (itab s i) /\ links (itab s1 i) = links (itab s i) /\
    direct (itab s1 i) = direct (itab s i) /\
    indirect (itab s1 i) = indirect (itab s i).
Proof.
  intros (j & Hj & Hjl & Hfree). apply low_inode_bound in Hjl. unfold alloc_inode.
  destruct (first_clear (ibm s) 2 (Z.to_nat (INODE_COUNT - 2))) as [i|] eqn:E.
  - apply first_clear_some in E. destruct E as (Hr & Hc & Hlow).
    assert (Hi : 2 <= i < INODE_COUNT) by zlia.
    assert (Hij : i <= j).
    { destruct (Z_le_gt_dec i j) as [H|H]; [assumption|].
      rewrite Hlow in Hfree by lia. discriminate. }
    assert (Hil : low_inode i) by (apply low_inode_bound; lia).
    unfold get_inode. rewrite (leb_false i 0) by lia.
    rewrite (leb_false INODE_COUNT i) by lia. cbn [orb].
    eexists i, _. split; [reflexivity|].
    rewrite !bbm_with_field, !ibm_with_field.
    rewrite !itab_with_field_same by exact I. rewrite itab_with_ibm.
    rewrite (int32_id i) by (unfold INODE_COUNT in Hi; lia). proj.
    split; [lia|]. split; [assumption|]. split; [assumption|].
    split; [intros j' Hj'; apply Hlow; lia|].
    split; [reflexivity|]. split; [reflexivity|].
    split; [intros b Hb; now rewrite !blocks_with_field by (assumption || exact I)|].
    split; [intros j' Hj'; now rewrite !itab_with_field_other by (assumption || exact I)|].
    auto 10.
  - unfold INODE_COUNT in *.
    pose proof (first_clear_none _ _ _ E j ltac:(lia)). congruence.
Qed.

Lemma alloc_inode_none s md :
  (forall j, 2 <= j < INODE_COUNT -> bitmap_get (ibm s) j = true) ->
  alloc_inode md s = Ok (-1) s.
Proof.
  intros Hfull. unfold alloc_inode.
  destruct (first_clear (ibm s) 2 (Z.to_nat (INODE_COUNT - 2))) as [i|] eqn:E;
    [|reflexivity].
  apply first_clear_some in E. destruct E as (Hr & Hc & _).
  rewrite Hfull in Hc by zlia. discriminate.
Qed.

(** the inodes that were valid stay as they are *)
Lemma alloc_inode_other s s1 i d :
  ibm s1 = bitmap_put (ibm s) i true -> bbm s1 = bbm s ->
  (forall b, TABLE_END <= b -> blocks s1 b = blocks s b) ->
  (forall j, j <> i -> itab s1 j = itab s j) ->
  bitmap_get (ibm s) i = false -> 0 <= i ->
  chain_ok s d -> off_table s d -> d <> i ->
  chain_ok s1 d /\ off_table s1 d /\ itab s1 d = itab s d /\
  forall x, file_byte s1 d x = file_byte s d x.
Proof.
  intros Hib Hbb Hbl Hoth Hfree Hi C O Hd.
  assert (Hit : itab s1 d = itab s d) by now apply Hoth.
  assert (Hv : inode_valid s1 (Some d) = inode_valid s (Some d)).
  { pose proof (ck_valid _ _ C) as Hv. unfold inode_valid in *.
    rewrite Hit, Hib. apply andb_prop in Hv. destruct Hv as [Hb Hn].
    rewrite bitmap_get_put_other; [reflexivity|]. intros E. congruence. }
  destruct (chain_ok_ext_valid s s1 d Hv Hit Hbb Hbl O C) as (C1 & O1).
  split; [assumption|]. split; [assumption|]. split; [assumption|].
  intros x. now apply file_byte_ext_valid.
Qed.

(** ** [storage_mknod] and [storage_unlink] in the root directory *)

Lemma path_of_single name : path_of [name] = SLASH :: name.
Proof. unfold path_of. cbn [map concat]. now rewrite app_nil_r. Qed.

Lemma path_split_single name buf_dir buf_name :
  comp_ok name ->
  path_split_strings (SLASH :: name) buf_dir buf_name
  = (0, [SLASH], firstn (Z.to_nat DIR_NAME_LENGTH) name).
Proof.
  intros Hn. rewrite <- path_of_single. unfold path_split_strings.
  rewrite explode_path_of by (constructor; [assumption|constructor]).
  reflexivity.
Qed.

Lemma firstn_name_fits name :
  name_fits name -> firstn (Z.to_nat DIR_NAME_LENGTH) name = name.
Proof. intros [_ Hl]. apply firstn_all2. lia. Qed.

Lemma path_get_inode_single s name :
  comp_ok name ->
  path_get_inode s (SLASH :: name) =
  match directory_lookup s (Some DIR_ROOT) name with
  | None => None
  | Some v => Some (if v =? -1 then None else get_inode v)
  end.
Proof.
  intros Hn. rewrite <- path_of_single.
  rewrite path_get_inode_path_of by (constructor; [assumption|constructor]).
  apply (path_walk_app s [] (Some DIR_ROOT) DIR_ROOT name). reflexivity.
Qed.

Lemma storage_mknod_unfold name md s :
  comp_ok name -> name_fits name ->
  storage_mknod (SLASH :: name) md s =
  match alloc_inode md s with
  | Ok inum_ s1 =>
      if inum_ <? 0 then Ok (-1) s1
      else
        match directory_put (Some DIR_ROOT) name inum_ s1 with
        | Ok r s2 => Ok (if r =? -1 then -1 else 0) s2
        | Fault => Fault
        | Hang => Hang
        end
  | Fault => Fault
  | Hang => Hang
  end.
Proof.
  intros Hc Hf. unfold storage_mknod.
  rewrite path_split_single by assumption. rewrite firstn_name_fits by assumption.
  unfold bind, deref, ret.
  destruct (alloc_inode md s) as [inum_ s1| |]; try reflexivity.
  destruct (inum_ <? 0); [reflexivity|].
  change (path_get_inode s1 [SLASH]) with (Some (Some DIR_ROOT)). cbv iota.
  destruct (directory_put (Some DIR_ROOT) name inum_ s1) as [r s2| |];
    try reflexivity.
  destruct (r =? -1); reflexivity.
Qed.

Lemma slot_bytes_same s s' i :
  (forall x, file_byte s' i x = file_byte s i x) ->
  forall ii, slot_bytes s' i ii = slot_bytes s i ii.
Proof. intros H ii. apply slot_bytes_ext. intros t _. apply H. Qed.

Lemma first_empty_same s s' i :
  size (itab s' i) = size (itab s i) ->
  (forall ii, slot_bytes s' i ii = slot_bytes s i ii) ->
  first_empty s' i = first_empty s i.
Proof.
  intros Hs Hb. unfold first_empty, slot_count. rewrite Hs.
  apply find_ext_in. intros ii _. rewrite <- !slot_bytes_inum. now rewrite Hb.
Qed.

Lemma free_blocks_same s s' : bbm s' = bbm s -> free_blocks s' = free_blocks s.
Proof. intros H. unfold free_blocks. now rewrite H. Qed.

(** [storage_mknod] of a name in the root directory *)
Lemma storage_mknod_root_effect (s : image) (name : cstring) (md : Z) :
  dir_ok s DIR_ROOT -> off_table s DIR_ROOT -> comp_ok name -> name_fits name ->
  (forall ii, 0 <= ii < slot_count s DIR_ROOT ->
              slot_named s DIR_ROOT name ii = false) ->
  first_empty s DIR_ROOT <> None \/ 2 <= free_blocks s ->
  (exists j, 2 <= j /\ low_inode j /\ bitmap_get (ibm s) j = false) ->
  exists i s',
    storage_mknod (SLASH :: name) md s = Ok 0 s' /\
    2 <= i /\ low_inode i /\ bitmap_get (ibm s) i = false /\
    (forall j, 2 <= j < i -> bitmap_get (ibm s) j = true) /\
    path_get_inode s' (SLASH :: name) = Some (Some i) /\
    inode_valid s' (Some i) = true /\ inum (itab s' i) = i /\
    mode (itab s' i) = int32 md /\
    size (itab s' i) = size (itab s i) /\
    indirect (itab s' i) = indirect (itab s i) /\
    links (itab s' i) = int32 (links (itab s i) + 1) /\
    dir_ok s' DIR_ROOT /\ off_table s' DIR_ROOT /\
    ibm s' = bitmap_put (ibm s) i true /\
    (forall i', i' <> i -> low_inode i' -> inum (itab s' i') = inum (itab s i')) /\
    (forall b, bitmap_get (bbm s) b = true -> bitmap_get (bbm s') b = true) /\
    (exists k, first_named s' DIR_ROOT name = Some k /\
               slot_inum s' DIR_ROOT k = i /\
               forall jj, 0 <= jj < slot_count s' DIR_ROOT -> jj <> k ->
                          slot_named s' DIR_ROOT name jj = false) /\
    (forall name' v,
       comp_ok name' -> streq name' name = false ->
       path_get_inode s (SLASH :: name') = Some (Some v) ->
       path_get_inode s' (SLASH :: name') = Some (Some v)).
Proof.
  intros [C Hm] O Hc Hf Habs Hroom Hfree.
  rewrite storage_mknod_unfold by assumption.
  destruct (alloc_inode_effect s md Hfree)
    as (i & s1 & Ha & Hi & Hil & Hbit & Hlow & Hib & Hbb & Hbl & Hoth & Hmd & Hin & Hsz
        & Hln & Hdir & Hind).
  pose proof (proj1 (low_inode_bound i) Hil) as Hi226.
  rewrite Ha. rewrite (ltb_false i 0) by lia.
  destruct (alloc_inode_other s s1 i DIR_ROOT Hib Hbb Hbl Hoth Hbit ltac:(lia) C O
              ltac:(unfold DIR_ROOT; lia)) as (C1 & O1 & Hit1 & Hfb1).
  pose proof (slot_bytes_same s s1 DIR_ROOT Hfb1) as Hsb1.
  assert (Hs1 : size (itab s1 DIR_ROOT) = size (itab s DIR_ROOT)) by now rewrite Hit1.
  assert (Hcnt1 : slot_count s1 DIR_ROOT = slot_count s DIR_ROOT)
    by (unfold slot_count; now rewrite Hs1).
  assert (Hget : get_inode i = Some i) by (apply get_inode_low; [assumption|lia]).
  assert (Hv1 : inode_valid s1 (get_inode i) = true).
  { rewrite Hget. unfold inode_valid. rewrite Hin, Hib.
    rewrite bitmap_get_put_same by lia. rewrite (eqb_false i 0) by lia. reflexivity. }
  destruct (directory_put_found s1 DIR_ROOT name i)
    as (s' & Hput & D' & O' & Hlk & Hln' & Hib' & Hfld & Hszn & Hmono & Honly & Hnames).
  { split; [assumption | now rewrite Hs1]. }
  { assumption. }
  { assumption. }
  { assumption. }
  { assumption. }
  { intros ii Hii. unfold slot_named. rewrite Hsb1. apply Habs. now rewrite <- Hcnt1. }
  { rewrite (first_empty_same s s1 DIR_ROOT Hs1 Hsb1).
    now rewrite (free_blocks_same s s1 Hbb). }
  rewrite Hput. change (0 =? -1) with false. cbv iota.
  exists i, s'. split; [reflexivity|]. split; [assumption|]. split; [assumption|].
  split; [assumption|]. split; [assumption|].
  assert (Hres : path_get_inode s' (SLASH :: name) = Some (Some i)).
  { rewrite path_get_inode_single by assumption. rewrite Hlk.
    rewrite (eqb_false i (-1)) by lia. now rewrite Hget. }
  split; [assumption|].
  destruct (Hfld i Hil) as [Hin' Hmd'].
  split.
  { unfold inode_valid. rewrite Hin', Hin, Hib', Hib.
    rewrite bitmap_get_put_same by lia. rewrite (eqb_false i 0) by lia. reflexivity. }
  split; [congruence|]. split; [congruence|].
  assert (Hrec : itab s' i = set_links (int32 (links (itab s1 i) + 1)) (itab s1 i))
    by (apply Hszn; unfold DIR_ROOT; lia).
  split; [rewrite Hrec; assumption|].
  split; [rewrite Hrec; assumption|].
  split; [congruence|]. split; [assumption|]. split; [assumption|].
  split; [congruence|].
  split; [intros i' Hi' Hl'; destruct (Hfld i' Hl') as [E _]; rewrite E;
          now rewrite Hoth|].
  split; [intros b Hb; apply Hmono; now rewrite Hbb|].
  split; [assumption|].
  intros name' v Hc' Hdiff Hres0.
  rewrite path_get_inode_single in Hres0 by assumption.
  rewrite path_get_inode_single by assumption.
  destruct (directory_lookup s (Some DIR_ROOT) name') as [v'|] eqn:Elk; [|discriminate].
  destruct (Z.eqb_spec v' (-1)) as [->|Hne]; [discriminate|].
  injection Hres0 as Hg. apply get_inode_some in Hg. destruct Hg as [<- Hr].
  assert (Elk1 : directory_lookup s1 (Some DIR_ROOT) name' = Some v).
  { rewrite directory_lookup_find in * by assumption.
    assert (Hfn : first_named s1 DIR_ROOT name' = first_named s DIR_ROOT name').
    { unfold first_named. rewrite Hcnt1. apply find_ext_in. intros ii _.
      unfold slot_named. now rewrite Hsb1. }
    rewrite Hfn. destruct (first_named s DIR_ROOT name') as [j|]; [|assumption].
    rewrite <- Elk. f_equal. apply slot_inum_ext. apply Hsb1. }
  rewrite (Hnames name' v Hdiff Elk1 ltac:(lia) ltac:(lia)).
  rewrite (eqb_false v (-1)) by lia.
  unfold get_inode. rewrite (leb_false v 0) by lia.
  now rewrite (leb_false INODE_COUNT v) by lia.
Qed.

Lemma comp_ok_b : comp_ok (path "b").
Proof.
  split; [discriminate|]. repeat constructor; discriminate.
Qed.

(** X16: [storage_mknod] of a name in the root directory: with no free inode it
    returns -1 and changes nothing.  With a free inode in the reserved part
    of the table, a root directory whose block chain is well formed and past
    the table and whose size is a whole number of entries, a name that fits
    an entry and that no entry of the root has, and an empty entry or two
    free blocks, it returns 0; the path then resolves to the new inode,
    which is the lowest free one, is valid, has the mode [md] and one link
    more than the record had (both as [int]; its size is left as it was);
    the other names of the root resolve as before. *)
Theorem storage_mknod_root (s : image) (name : cstring) (md : Z) :
  comp_ok name -> name_fits name ->
  ((forall j, 2 <= j < INODE_COUNT -> bitmap_get (ibm s) j = true) ->
   storage_mknod (SLASH :: name) md s = Ok (-1) s) /\
  (dir_ok s DIR_ROOT -> off_table s DIR_ROOT ->
   (forall ii, 0 <= ii < slot_count s DIR_ROOT ->
               slot_named s DIR_ROOT name ii = false) ->
   first_empty s DIR_ROOT <> None \/ 2 <= free_blocks s ->
   (exists j, 2 <= j /\ low_inode j /\ bitmap_get (ibm s) j = false) ->
   exists i s',
     storage_mknod (SLASH :: name) md s = Ok 0 s' /\
     2 <= i < INODE_COUNT /\ bitmap_get (ibm s) i = false /\
     (forall j, 2 <= j < i -> bitmap_get (ibm s) j = true) /\
     path_get_inode s' (SLASH :: name) = Some (Some i) /\
     storage_access s' (SLASH :: name) = Some 1 /\
     inode_valid s' (Some i) = true /\ mode (itab s' i) = int32 md /\
     size (itab s' i) = size (itab s i) /\
     links (itab s' i) = int32 (links (itab s i) + 1) /\
     (forall name' v,
        comp_ok name' -> streq name' name = false ->
        path_get_inode s (SLASH :: name') = Some (Some v) ->
        path_get_inode s' (SLASH :: name') = Some (Some v))).
Proof.
  intros Hc Hf. split.
  - intros Hfull. rewrite storage_mknod_unfold by assumption.
    now rewrite alloc_inode_none.
  - intros D O Habs Hroom Hfree.
    destruct (storage_mknod_root_effect s name md D O Hc Hf Habs Hroom Hfree)
      as (i & s' & Hrun & Hi & Hil & Hbit & Hlow & Hres & Hv & _ & Hmd & Hsz & _ & Hln
          & _ & _ & Hib & _ & _ & _ & Hnames).
    apply low_inode_bound in Hil.
    exists i, s'. split; [assumption|]. split; [unfold INODE_COUNT; lia|].
    split; [assumption|].
    split; [assumption|]. split; [assumption|].
    split; [unfold storage_access; now rewrite Hres|].
    auto 10.
Qed.

Lemma storage_mknod_root_witness :
  exists i s',
    storage_mknod (path "/b") MODE_FILE one_file = Ok 0 s' /\
    path_get_inode s' (path "/b") = Some (Some i) /\
    storage_access s' (path "/b") = Some 1 /\
    mode (itab s' i) = MODE_FILE /\
    path_get_inode s' (path "/a") = Some (Some 2).
Proof.
  destruct (proj2 (storage_mknod_root one_file (path "b") MODE_FILE
                     comp_ok_b name_fits_b))
    as (i & s' & H1 & _ & _ & _ & H2 & H3 & _ & H4 & _ & _ & H5).
  - exact one_file_root_dir_ok.
  - exact one_file_root_off_table.
  - intros ii Hii. apply one_file_root_slots in Hii. subst ii.
    vm_compute. reflexivity.
  - right. vm_compute. discriminate.
  - exists 3. split; [lia|]. split; [apply low_inode_small; lia|].
    vm_compute. reflexivity.
  - exists i, s'. split; [exact H1|]. split; [exact H2|]. split; [exact H3|].
    split; [exact H4|].
    apply (H5 (path "a") 2).
    + split; [discriminate|]. repeat constructor; discriminate.
    + vm_compute. reflexivity.
    + vm_compute. reflexivity.
Defined.

Lemma storage_unlink_unfold name s :
  comp_ok name -> name_fits name ->
  storage_unlink (SLASH :: name) s = directory_delete (Some DIR_ROOT) name s.
Proof.
  intros Hc Hf. unfold storage_unlink.
  rewrite path_split_single by assumption. rewrite firstn_name_fits by assumption.
  unfold bind, deref.
  change (path_get_inode s [SLASH]) with (Some (Some DIR_ROOT)). reflexivity.
Qed.

Lemma comp_ok_cstr name : comp_ok name -> cstr name <> [].
Proof.
  intros [Hne Hall]. rewrite cstr_id; [assumption|].
  eapply Forall_impl; [|exact Hall]. intros c [_ H]. exact H.
Qed.

Lemma path_single_none s name :
  comp_ok name -> directory_lookup s (Some DIR_ROOT) name = Some (-1) ->
  path_get_inode s (SLASH :: name) = Some None.
Proof.
  intros Hc Hlk. rewrite path_get_inode_single by assumption. now rewrite Hlk.
Qed.

Lemma path_single_lookup s name v :
  comp_ok name -> path_get_inode s (SLASH :: name) = Some (Some v) ->
  directory_lookup s (Some DIR_ROOT) name = Some v /\ 0 < v < INODE_COUNT.
Proof.
  intros Hc H. rewrite path_get_inode_single in H by assumption.
  destruct (directory_lookup s (Some DIR_ROOT) name) as [v'|]; [|discriminate].
  destruct (Z.eqb_spec v' (-1)); [discriminate|].
  injection H as Hg. apply get_inode_some in Hg. destruct Hg as [<- Hr]. auto.
Qed.

Lemma path_single_some s name v :
  comp_ok name -> directory_lookup s (Some DIR_ROOT) name = Some v ->
  0 < v < INODE_COUNT ->
  path_get_inode s (SLASH :: name) = Some (Some v).
Proof.
  intros Hc Hlk Hv. rewrite path_get_inode_single by assumption. rewrite Hlk.
  rewrite (eqb_false v (-1)) by lia.
  unfold get_inode. rewrite (leb_false v 0) by lia.
  now rewrite (leb_false INODE_COUNT v) by lia.
Qed.

(** X18: [storage_unlink] of a name in the root directory, for a root whose
    block chain is well formed and past the table: it returns -1 and changes
    nothing when no entry of the root has the name.  When one entry has it,
    with a valid inode of the reserved part of the table, it returns 0; the
    path then no longer resolves, the inode has one link less (as an [int])
    and is freed when that leaves none (here for an inode with a well-formed
    chain past the table that shares no block with the root), and the other
    names of the root resolve as before. *)
Theorem storage_unlink_file (s : image) (name : cstring) :
  comp_ok name -> name_fits name -> dir_ok s DIR_ROOT -> off_table s DIR_ROOT ->
  ((forall ii, 0 <= ii < slot_count s DIR_ROOT ->
               slot_named s DIR_ROOT name ii = false) ->
   storage_unlink (SLASH :: name) s = Ok (-1) s) /\
  (forall ii n,
     first_named s DIR_ROOT name = Some ii -> slot_inum s DIR_ROOT ii = n ->
     low_inode n ->
     inode_valid s (get_inode n) = true ->
     (forall jj, 0 <= jj < slot_count s DIR_ROOT -> jj <> ii ->
                 slot_named s DIR_ROOT name jj = false) ->
     (int32 (links (itab s n) - 1) <= 0 ->
      n <> DIR_ROOT /\ chain_ok s n /\ off_table s n /\ inum (itab s n) = n /\
      inum (itab s DIR_ROOT) <> n /\ chains_apart s DIR_ROOT n) ->
     exists s',
       storage_unlink (SLASH :: name) s = Ok 0 s' /\
       path_get_inode s' (SLASH :: name) = Some None /\
       storage_access s' (SLASH :: name) = Some 0 /\
       links (itab s' n) = int32 (links (itab s n) - 1) /\
       bitmap_get (ibm s') n
         = (if int32 (links (itab s n) - 1) <=? 0 then false
            else bitmap_get (ibm s) n) /\
       (forall name' v,
          comp_ok name' -> streq name' name = false ->
          path_get_inode s (SLASH :: name') = Some (Some v) ->
          path_get_inode s' (SLASH :: name') = Some (Some v))).
Proof.
  intros Hc Hf D O. rewrite storage_unlink_unfold by assumption.
  destruct (directory_delete_spec s DIR_ROOT name D O) as (Habs & _ & Hdel).
  split; [assumption|].
  intros ii n Hfirst Hnum Hlown Hv Honly Hfree.
  destruct (Hdel ii n Hfirst Hnum Hlown Hv Hfree)
    as (s' & Hrun & D' & _ & Hln & Hbit & _ & _ & Hgone & Hnames).
  exists s'. split; [assumption|].
  assert (Hres : path_get_inode s' (SLASH :: name) = Some None).
  { apply path_single_none; [assumption|].
    apply Hgone; [now apply comp_ok_cstr | assumption]. }
  split; [assumption|].
  split; [unfold storage_access; now rewrite Hres|].
  split; [assumption|]. split; [assumption|].
  intros name' v Hc' Hdiff Hres0.
  destruct (path_single_lookup s name' v Hc' Hres0) as [Hlk Hr].
  apply path_single_some; [assumption | | assumption].
  apply Hnames; [now apply comp_ok_cstr | assumption | assumption | lia].
Qed.

Lemma name_fits_a : name_fits (path "a").
Proof.
  split; [repeat constructor; discriminate | vm_compute; reflexivity].
Qed.

Lemma comp_ok_a : comp_ok (path "a").
Proof.
  split; [discriminate|]. repeat constructor; discriminate.
Qed.

Lemma storage_unlink_file_witness :
  storage_unlink (path "/b") one_file = Ok (-1) one_file /\
  exists s',
    storage_unlink (path "/a") one_file = Ok 0 s' /\
    path_get_inode s' (path "/a") = Some None /\
    storage_access s' (path "/a") = Some 0 /\
    bitmap_get (ibm s') 2 = false.
Proof.
  split.
  - apply (proj1 (storage_unlink_file one_file (path "b") comp_ok_b name_fits_b
                    one_file_root_dir_ok one_file_root_off_table)).
    intros ii Hii. apply one_file_root_slots in Hii. subst ii.
    vm_compute. reflexivity.
  - destruct (proj2 (storage_unlink_file one_file (path "a") comp_ok_a name_fits_a
                       one_file_root_dir_ok one_file_root_off_table) 0 2)
      as (s' & H1 & H2 & H3 & _ & H5 & _).
    + vm_compute. reflexivity.
    + vm_compute. reflexivity.
    + apply low_inode_small. lia.
    + vm_compute. reflexivity.
    + intros jj Hjj Hne. apply one_file_root_slots in Hjj. contradiction.
    + intros _. split; [discriminate|]. split; [exact one_file_chain_ok|].
      split; [exact one_file_off_table|].
      split; [vm_compute; reflexivity|]. split; [vm_compute; discriminate|].
      exact one_file_apart.
    + exists s'. split; [exact H1|]. split; [exact H2|]. split; [exact H3|].
      exact H5.
Defined.

(** ** [storage_rmdir] of a directory *)

Lemma storage_unlink_path_of es name d s :
  Forall comp_ok es -> comp_ok name -> name_fits name ->
  path_get_inode s (dir_of es) = Some (Some d) ->
  storage_unlink (path_of (es ++ [name])) s = directory_delete (Some d) name s.
Proof.
  intros Hes Hc Hf Hd. unfold storage_unlink.
  rewrite path_split_path_of by assumption. rewrite firstn_name_fits by assumption.
  unfold bind, deref. rewrite Hd. reflexivity.
Qed.

Lemma path_of_lookup s es name d i :
  Forall comp_ok es -> comp_ok name ->
  path_get_inode s (dir_of es) = Some (Some d) ->
  path_get_inode s (path_of (es ++ [name])) = Some (Some i) ->
  directory_lookup s (Some d) name = Some i /\ get_inode i = Some i.
Proof.
  intros Hes Hc Hd Hp.
  rewrite path_get_inode_dir_of in Hd by assumption.
  rewrite path_get_inode_path_of in Hp by (apply Forall_app; auto).
  rewrite (path_walk_app s es _ d name Hd) in Hp.
  destruct (directory_lookup s (Some d) name) as [v|]; [|discriminate].
  destruct (Z.eqb_spec v (-1)); [discriminate|].
  injection Hp as Hg. pose proof (get_inode_some _ _ Hg) as [Hv _]. subst i.
  split; [reflexivity|assumption].
Qed.

Lemma path_of_single_app name : path_of ([] ++ [name]) = SLASH :: name.
Proof. unfold path_of. cbn [app map concat]. now rewrite app_nil_r. Qed.

Lemma storage_rmdir_live s p i :
  path_get_inode s p = Some (Some i) -> chain_ok s i ->
  (exists ii, 0 <= ii < slot_count s i /\ slot_inum s i ii <> 0) ->
  storage_rmdir p s = Ok (-1) s.
Proof.
  intros Hp C H. apply live_slot_exists in H.
  rewrite storage_rmdir_unfold, Hp.
  destruct (directory_read_first s i C) as (t & ->). rewrite H. reflexivity.
Qed.

Lemma storage_rmdir_dead s p i :
  path_get_inode s p = Some (Some i) -> chain_ok s i ->
  (forall ii, 0 <= ii < slot_count s i -> slot_inum s i ii = 0) ->
  storage_rmdir p s = storage_unlink p s.
Proof.
  intros Hp C H. rewrite storage_rmdir_unfold, Hp.
  destruct (directory_read_first s i C) as (t & ->).
  destruct (existsb (live_slot s i) (zseq 0 (Z.to_nat (slot_count s i)))) eqn:E;
    [|reflexivity].
  apply live_slot_exists in E. destruct E as (ii & Hr & Hne).
  exfalso. apply Hne. now apply H.
Qed.

(** C8, as the code has it: for a path that resolves to a directory inode
    with a well-formed block chain, [storage_rmdir] returns -1 and leaves the
    image as it is when the directory has an entry that is not empty, and
    also when the path is the root.  When all entries are empty, or there
    are none, it does what [storage_unlink] of the path does; for a path
    [/e1/.../ek/name] whose directory part [/e1/.../ek] resolves to a
    directory [d] with a well-formed chain past the table, and an inode of
    the reserved part of the table, that is: it returns 0, the inode has one
    link less (as an [int]) and is freed when that leaves none (here for an
    inode whose chain is past the table and shares no block with [d]), and
    the name is no longer found in [d] when no other entry of [d] has it;
    for a path [/name] the path then no longer resolves. *)
Theorem storage_rmdir_result (s : image) (p : cstring) (i : Z) :
  path_get_inode s p = Some (Some i) ->
  chain_ok s i ->
  ((exists ii, 0 <= ii < slot_count s i /\ slot_inum s i ii <> 0) ->
   storage_rmdir p s = Ok (-1) s) /\
  ((forall ii, 0 <= ii < slot_count s i -> slot_inum s i ii = 0) ->
   storage_rmdir p s = storage_unlink p s /\
   forall es name d,
     Forall comp_ok es -> comp_ok name -> name_fits name ->
     p = path_of (es ++ [name]) ->
     path_get_inode s (dir_of es) = Some (Some d) ->
     dir_ok s d -> off_table s d -> low_inode i ->
     (int32 (links (itab s i) - 1) <= 0 ->
      i <> d /\ off_table s i /\ inum (itab s i) = i /\
      inum (itab s d) <> i /\ chains_apart s d i) ->
     exists s',
       storage_rmdir p s = Ok 0 s' /\
       links (itab s' i) = int32 (links (itab s i) - 1) /\
       bitmap_get (ibm s') i
         = (if int32 (links (itab s i) - 1) <=? 0 then false
            else bitmap_get (ibm s) i) /\
       (forall j, j <> i -> bitmap_get (ibm s') j = bitmap_get (ibm s) j) /\
       ((forall ii jj, first_named s d name = Some ii ->
                       0 <= jj < slot_count s d -> jj <> ii ->
                       slot_named s d name jj = false) ->
        directory_lookup s' (Some d) name = Some (-1) /\
        (es = [] -> path_get_inode s' p = Some None))) /\
  (p = path "/" -> storage_rmdir p s = Ok (-1) s).
Proof.
  intros Hp C.
  pose proof (storage_rmdir_live s p i Hp C) as Hlive.
  pose proof (storage_rmdir_dead s p i Hp C) as Hdead.
  split; [assumption|]. split.
  - intros Hall. split; [now apply Hdead|].
    intros es name d Hes Hc Hf Hpath Hd D O Hlow Hfree.
    rewrite (Hdead Hall). subst p.
    rewrite (storage_unlink_path_of es name d s Hes Hc Hf Hd).
    destruct (path_of_lookup s es name d i Hes Hc Hd Hp) as [Hlk Hg].
    pose proof D as [Cd _].
    rewrite (directory_lookup_find s d name Cd) in Hlk.
    destruct (first_named s d name) as [ii|] eqn:Hfirst.
    2:{ injection Hlk as <-. vm_compute in Hg. discriminate. }
    injection Hlk as Hnum.
    destruct (directory_delete_spec s d name D O) as (_ & _ & Hdel).
    destruct (Hdel ii i Hfirst Hnum Hlow) as
      (s' & Hrun & _ & _ & Hln & Hbit & Hoth & _ & Hgone & _).
    + rewrite Hg. exact (ck_valid _ _ C).
    + intros Hle. destruct (Hfree Hle) as (H1 & H2 & H3 & H4 & H5).
      split; [assumption|]. split; [assumption|]. split; [assumption|].
      split; [assumption|]. split; assumption.
    + exists s'. split; [assumption|]. split; [assumption|].
      split; [assumption|]. split; [assumption|].
      intros Honly.
      assert (Hlk' : directory_lookup s' (Some d) name = Some (-1)).
      { apply Hgone; [now apply comp_ok_cstr|].
        intros jj Hjj Hne. now apply (Honly ii jj). }
      split; [assumption|].
      intros ->. cbn [dir_of] in Hd.
      change (path_get_inode s [SLASH]) with (Some (Some DIR_ROOT)) in Hd.
      injection Hd as <-. rewrite path_of_single_app.
      now apply path_single_none.
  - intros ->.
    assert (i = DIR_ROOT) by (vm_compute in Hp; injection Hp as <-; reflexivity).
    subst i.
    destruct (existsb (live_slot s DIR_ROOT)
                (zseq 0 (Z.to_nat (slot_count s DIR_ROOT)))) eqn:E.
    + apply Hlive. now apply live_slot_exists.
    + assert (Hall : forall ii, 0 <= ii < slot_count s DIR_ROOT ->
                                slot_inum s DIR_ROOT ii = 0).
      { intros ii Hii. destruct (Z.eq_dec (slot_inum s DIR_ROOT ii) 0) as [|Hne];
          [assumption|].
        assert (existsb (live_slot s DIR_ROOT)
                  (zseq 0 (Z.to_nat (slot_count s DIR_ROOT))) = true)
          by (apply live_slot_exists; eauto).
        congruence. }
      rewrite (Hdead Hall). now apply storage_unlink_root.
Qed.

Lemma tomb_dir_reserved : table_reserved tomb_dir.
Proof.
  intros b Hb. change TABLE_END with 5 in Hb.
  assert (b = 1 \/ b = 2 \/ b = 3 \/ b = 4) as [->|[->|[->| ->]]] by lia;
    vm_compute; reflexivity.
Qed.

Lemma tomb_dir_root_chain_ok : chain_ok tomb_dir DIR_ROOT.
Proof.
  apply (chain_ok_one_block _ _ 5); try (vm_compute; reflexivity).
  - vm_compute. split; [reflexivity|discriminate].
  - unfold BLOCK_COUNT. lia.
Qed.

Lemma tomb_dir_root_off_table : off_table tomb_dir DIR_ROOT.
Proof.
  apply (off_table_one_block _ _ 5).
  - apply low_inode_small. unfold DIR_ROOT. lia.
  - exact tomb_dir_reserved.
  - vm_compute. split; [reflexivity|discriminate].
  - vm_compute. reflexivity.
  - vm_compute. reflexivity.
  - vm_compute. discriminate.
Qed.

Lemma tomb_dir_off_table : off_table tomb_dir 2.
Proof.
  apply (off_table_one_block _ _ 6).
  - apply low_inode_small. lia.
  - exact tomb_dir_reserved.
  - vm_compute. split; [reflexivity|discriminate].
  - vm_compute. reflexivity.
  - vm_compute. reflexivity.
  - vm_compute. discriminate.
Qed.

Lemma tomb_dir_apart : chains_apart tomb_dir DIR_ROOT 2.
Proof.
  assert (H1 : bytes_to_blocks (size (itab tomb_dir DIR_ROOT)) = 1)
    by (vm_compute; reflexivity).
  assert (H2 : bytes_to_blocks (size (itab tomb_dir 2)) = 1)
    by (vm_compute; reflexivity).
  assert (B1 : file_block tomb_dir DIR_ROOT 0 = Some 5) by (vm_compute; reflexivity).
  assert (B2 : file_block tomb_dir 2 0 = Some 6) by (vm_compute; reflexivity).
  assert (I1 : indirect (itab tomb_dir DIR_ROOT) = 0) by (vm_compute; reflexivity).
  assert (I2 : indirect (itab tomb_dir 2) = 0) by (vm_compute; reflexivity).
  intros b [(j & Hj & Hb)|[Hne _]]; [|contradiction].
  rewrite H1 in Hj. assert (j = 0) by lia. subst j.
  intros [(j & Hj' & Hb')|[Hne _]]; [|contradiction].
  rewrite H2 in Hj'. assert (j = 0) by lia. subst j. congruence.
Qed.

Lemma storage_rmdir_result_witness :
  slot_count tomb_dir 2 = 1 /\ slot_inum tomb_dir 2 0 = 0 /\
  (exists s',
     storage_rmdir (path "/d") tomb_dir = Ok 0 s' /\
     bitmap_get (ibm s') 2 = false /\
     path_get_inode s' (path "/d") = Some None) /\
  slot_inum one_file DIR_ROOT 0 = 2 /\
  storage_rmdir (path "/") one_file = Ok (-1) one_file.
Proof.
  split; [vm_compute; reflexivity|]. split; [vm_compute; reflexivity|].
  split; [|split].
  - destruct (proj1 (proj2 (storage_rmdir_result tomb_dir (path "/d") 2
                              ltac:(vm_compute; reflexivity) tomb_dir_chain_ok)))
      as [_ H].
    { intros ii Hii. replace (slot_count tomb_dir 2) with 1 in Hii
        by (vm_compute; reflexivity).
      assert (ii = 0) as -> by lia. vm_compute. reflexivity. }
    destruct (H [] (path "d") DIR_ROOT) as (s' & H1 & _ & H3 & _ & H5).
    + constructor.
    + exact comp_ok_d.
    + split; [repeat constructor; discriminate | vm_compute; reflexivity].
    + reflexivity.
    + reflexivity.
    + split; [exact tomb_dir_root_chain_ok | vm_compute; reflexivity].
    + exact tomb_dir_root_off_table.
    + apply low_inode_small. lia.
    + intros _. split; [discriminate|]. split; [exact tomb_dir_off_table|].
      split; [vm_compute; reflexivity|]. split; [vm_compute; discriminate|].
      exact tomb_dir_apart.
    + exists s'. split; [exact H1|]. split; [exact H3|].
      apply H5; [|reflexivity].
      intros ii jj Hfirst Hjj Hne.
      replace (slot_count tomb_dir DIR_ROOT) with 1 in Hjj
        by (vm_compute; reflexivity).
      assert (Hii : ii = 0)
        by (vm_compute in Hfirst; injection Hfirst as <-; reflexivity).
      lia.
  - vm_compute. reflexivity.
  - apply (proj1 (storage_rmdir_result one_file (path "/") DIR_ROOT
                    ltac:(vm_compute; reflexivity) one_file_root_chain_ok)).
    exists 0. split; [vm_compute; split; [discriminate|reflexivity]|].
    vm_compute. discriminate.
Defined.

(** C8, counterexample: the root of a fresh image resolves and has no
    entries, and [storage_rmdir] of it returns -1. *)
Lemma rmdir_root_fails :
  path_get_inode fresh (path "/") = Some (Some DIR_ROOT) /\
  slot_count fresh DIR_ROOT = 0 /\
  value_of (storage_rmdir (path "/") fresh) = Some (-1).
Proof. vm_compute. repeat split; reflexivity. Qed.

(** ** Creating a file and unlinking it *)

(** X19: After [storage_mknod] of a new name in the root directory and
    [storage_unlink] of the same path, both returning 0, the path does not
    resolve, the inode bitmap is as it was before the two calls, no block
    that was in use has been freed, and the other names of the root resolve
    as before; this for a root whose block chain is well formed and past the
    table and a volume whose lowest free inode is in the reserved part of
    the table and has size 0, no indirect block and no link, as [free_inode]
    leaves the inode of an entry that [directory_delete] took the last link
    of. *)
Theorem mknod_unlink_roundtrip (s : image) (name : cstring) (md : Z) :
  comp_ok name -> name_fits name -> dir_ok s DIR_ROOT -> off_table s DIR_ROOT ->
  (forall ii, 0 <= ii < slot_count s DIR_ROOT ->
              slot_named s DIR_ROOT name ii = false) ->
  first_empty s DIR_ROOT <> None \/ 2 <= free_blocks s ->
  (exists j, 2 <= j /\ low_inode j /\ bitmap_get (ibm s) j = false) ->
  (forall j, 2 <= j < INODE_COUNT -> bitmap_get (ibm s) j = false ->
             (forall j', 2 <= j' < j -> bitmap_get (ibm s) j' = true) ->
             size (itab s j) = 0 /\ indirect (itab s j) = 0 /\
             -2147483648 <= links (itab s j) <= 0) ->
  exists s1 s2,
    storage_mknod (SLASH :: name) md s = Ok 0 s1 /\
    storage_unlink (SLASH :: name) s1 = Ok 0 s2 /\
    path_get_inode s2 (SLASH :: name) = Some None /\
    (forall j, bitmap_get (ibm s2) j = bitmap_get (ibm s) j) /\
    (forall b, bitmap_get (bbm s) b = true -> bitmap_get (bbm s2) b = true) /\
    (forall name' v,
       comp_ok name' -> streq name' name = false ->
       path_get_inode s (SLASH :: name') = Some (Some v) ->
       path_get_inode s2 (SLASH :: name') = Some (Some v)).
Proof.
  intros Hc Hf D O Habs Hroom Hfree Hclean.
  destruct (storage_mknod_root_effect s name md D O Hc Hf Habs Hroom Hfree)
    as (i & s1 & Hmk & Hi & Hil & Hbit & Hlow & Hres & Hv & Hin & _ & Hsz & Hind & Hln
        & D1 & O1 & Hib & Hinum & Hmono & (k & Hfk & Hik & Honly) & Hnames).
  pose proof (proj1 (low_inode_bound i) Hil) as Hi226.
  destruct (Hclean i ltac:(unfold INODE_COUNT; lia) Hbit Hlow) as (Hs0 & Hi0 & Hl0).
  rewrite Hs0 in Hsz. rewrite Hi0 in Hind.
  rewrite (int32_id (links (itab s i) + 1)) in Hln by lia.
  assert (Hget : get_inode i = Some i) by (apply get_inode_low; [assumption|lia]).
  assert (Hnown : forall b, ~ owns s1 i b).
  { intros b [(j & Hj & _)|[Hne _]].
    - rewrite Hsz in Hj. change (bytes_to_blocks 0) with 0 in Hj. lia.
    - contradiction. }
  assert (Hle : int32 (links (itab s1 i) - 1) <= 0)
    by (rewrite Hln; rewrite int32_id by lia; lia).
  destruct (directory_delete_spec s1 DIR_ROOT name D1 O1) as (_ & _ & Hdel).
  destruct (Hdel k i Hfk Hik Hil ltac:(rewrite Hget; exact Hv))
    as (s2 & Hrun & D2 & _ & Hln2 & Hbit2 & Hibm & Hbbm & Hgone & Hnames2).
  { intros _. split; [unfold DIR_ROOT; lia|].
    split; [now apply chain_ok_empty|].
    split; [apply off_table_empty; try assumption; apply (ot_reserved _ _ O1)|].
    split; [assumption|].
    split.
    - rewrite Hinum by (unfold DIR_ROOT; lia || apply low_inode_small; unfold DIR_ROOT; lia).
      destruct D as [C _]. pose proof (ck_valid _ _ C) as Hvr.
      unfold inode_valid in Hvr. apply andb_prop in Hvr. destruct Hvr as [Hb _].
      intros E. rewrite E in Hb. congruence.
    - intros b _. apply Hnown. }
  exists s1, s2. split; [assumption|].
  split; [rewrite storage_unlink_unfold by assumption; assumption|].
  split.
  { apply path_single_none; [assumption|].
    apply Hgone; [now apply comp_ok_cstr | assumption]. }
  rewrite (leb_true _ 0) in Hbit2 by assumption.
  split.
  { intros j. destruct (Z.eq_dec j i) as [->|Hne]; [congruence|].
    rewrite Hibm by assumption. rewrite Hib. now apply bitmap_get_put_other. }
  split.
  { intros b Hb. apply (Hbbm Hle). split; [now apply Hmono | apply Hnown]. }
  intros name' v Hc' Hdiff Hres0.
  pose proof (Hnames name' v Hc' Hdiff Hres0) as Hres1.
  destruct (path_single_lookup s1 name' v Hc' Hres1) as [Hlk Hr].
  apply path_single_some; [assumption | | assumption].
  apply Hnames2; [now apply comp_ok_cstr | assumption | assumption | lia].
Qed.

Lemma one_file_lowest_free j :
  2 <= j < INODE_COUNT -> bitmap_get (ibm one_file) j = false ->
  (forall j', 2 <= j' < j -> bitmap_get (ibm one_file) j' = true) ->
  size (itab one_file j) = 0 /\ indirect (itab one_file j) = 0 /\
  -2147483648 <= links (itab one_file j) <= 0.
Proof.
  intros Hj Hbit Hlow.
  assert (H2 : bitmap_get (ibm one_file) 2 = true) by (vm_compute; reflexivity).
  assert (H3 : bitmap_get (ibm one_file) 3 = false) by (vm_compute; reflexivity).
  assert (j = 3) as ->.
  { destruct (Z_lt_le_dec j 3) as [Hlt|Hge].
    - assert (j = 2) as -> by lia. congruence.
    - destruct (Z.eq_dec j 3) as [|Hne]; [assumption|].
      rewrite (Hlow 3) in H3 by lia. discriminate. }
  vm_compute. repeat split; discriminate.
Qed.

Lemma mknod_unlink_roundtrip_witness :
  exists s1 s2,
    storage_mknod (path "/b") MODE_FILE one_file = Ok 0 s1 /\
    storage_unlink (path "/b") s1 = Ok 0 s2 /\
    path_get_inode s2 (path "/b") = Some None /\
    (forall j, bitmap_get (ibm s2) j = bitmap_get (ibm one_file) j) /\
    path_get_inode s2 (path "/a") = Some (Some 2).
Proof.
  destruct (mknod_unlink_roundtrip one_file (path "b") MODE_FILE
              comp_ok_b name_fits_b one_file_root_dir_ok one_file_root_off_table)
    as (s1 & s2 & H1 & H2 & H3 & H4 & _ & H6).
  - intros ii Hii. apply one_file_root_slots in Hii. subst ii.
    vm_compute. reflexivity.
  - right. vm_compute. discriminate.
  - exists 3. split; [lia|]. split; [apply low_inode_small; lia|].
    vm_compute. reflexivity.
  - exact one_file_lowest_free.
  - exists s1, s2. split; [exact H1|]. split; [exact H2|]. split; [exact H3|].
    split; [exact H4|].
    apply (H6 (path "a") 2); [exact comp_ok_a | |]; vm_compute; reflexivity.
Defined.

(** ** Truncation through a path *)

(** X20: [storage_truncate] on a path that resolves to an inode of the
    reserved part of the table with a well-formed block chain past the
    table, for a size [n] in [0, INT_MAX] that is not above the size of the
    file or that the free blocks suffice for (one more than the file blocks
    [n] adds): it returns 0 and sets the size to [n], keeps the chain well
    formed and every byte below both the old size and [n], and touches
    neither the inode bitmap, nor another inode record of the reserved part,
    nor the mode or the link count of the inode. *)
Theorem storage_truncate_result (s : image) (p : cstring) (i n : Z) :
  path_get_inode s p = Some (Some i) -> chain_ok s i -> off_table s i ->
  0 <= n <= 2147483647 ->
  (size (itab s i) < n ->
   bytes_to_blocks n - bytes_to_blocks (size (itab s i)) + 1 <= free_blocks s) ->
  exists s',
    storage_truncate p n s = Ok 0 s' /\
    chain_ok s' i /\ size (itab s' i) = n /\
    (forall x, 0 <= x < Z.min n (size (itab s i)) ->
               file_byte s' i x = file_byte s i x) /\
    ibm s' = ibm s /\
    (forall i', i' <> i -> low_inode i' -> itab s' i' = itab s i') /\
    mode (itab s' i) = mode (itab s i) /\ links (itab s' i) = links (itab s i).
Proof.
  intros Hp C O Hn Hroom.
  unfold storage_truncate, bind, deref, reads. rewrite Hp.
  rewrite (int32_id n) by lia.
  destruct (Z.ltb_spec (size (itab s i)) n) as [Hlt|Hge].
  - destruct (grow_inode_effect s i n C O ltac:(lia))
      as (r & sg & Hg & Cg & _ & _ & Hib & Hoth & _ & Hmd & Hln & _ & Hby & _ & Hcase).
    rewrite Hg.
    destruct Hcase as [(Hbad & _)|[(_ & -> & Hsz & _)|(_ & _ & _ & _ & Hfree & _)]].
    + lia.
    + cbn [andb Z.eqb]. rewrite Hsz, Z.ltb_irrefl. cbn [andb]. unfold ret.
      exists sg. split; [reflexivity|]. split; [assumption|].
      split; [assumption|]. split.
      { intros x Hx. apply Hby. lia. }
      repeat split; assumption.
    + specialize (Hroom Hlt). lia.
  - cbn [andb]. unfold ret at 1.
    destruct (Z.ltb_spec n (size (itab s i))) as [Hlt|Hge'].
    + destruct (shrink_inode_spec s i n C O ltac:(lia) ltac:(lia))
        as (s' & Hs & C' & _ & Hsz & Hib & Hoth & _ & Hmd & Hln & _ & Hfb & Hbl & _).
      rewrite Hs. cbn [andb].
      replace (n =? -1) with false by (symmetry; apply Z.eqb_neq; lia).
      unfold ret. exists s'. split; [reflexivity|]. split; [assumption|].
      split; [assumption|]. split.
      { intros x Hx.
        assert (Hxb : 0 <= x / BLOCK_SIZE < bytes_to_blocks (size (itab s i)))
          by (apply byte_block_range; lia).
        destruct (ck_mapped _ _ C (x / BLOCK_SIZE) Hxb) as (b' & Hb' & _ & Hne).
        apply file_byte_ext; try assumption; try lia.
        - apply Hfb. apply byte_block_range. lia.
        - intros b Hb. assert (b = b') by congruence. subst b.
          apply Hbl; [|assumption].
          apply (ot_blocks _ _ O (x / BLOCK_SIZE)); assumption. }
      repeat split; assumption.
    + cbn [andb]. unfold ret. exists s. split; [reflexivity|].
      split; [assumption|]. split; [lia|]. repeat split; reflexivity.
Qed.

Lemma storage_truncate_result_witness :
  exists s',
    storage_truncate (path "/a") 5000 one_file = Ok 0 s' /\
    chain_ok s' 2 /\ size (itab s' 2) = 5000 /\
    (forall x, 0 <= x < Z.min 5000 (size (itab one_file 2)) ->
               file_byte s' 2 x = file_byte one_file 2 x) /\
    ibm s' = ibm one_file /\
    (forall i', i' <> 2 -> low_inode i' -> itab s' i' = itab one_file i') /\
    mode (itab s' 2) = mode (itab one_file 2) /\
    links (itab s' 2) = links (itab one_file 2).
Proof.
  apply (storage_truncate_result one_file (path "/a") 2 5000).
  - vm_compute. reflexivity.
  - exact one_file_chain_ok.
  - exact one_file_off_table.
  - lia.
  - intros _. vm_compute. discriminate.
Defined.

(** ** Renaming in the root directory *)

Lemma storage_rename_unfold s a b fi :
  comp_ok a -> name_fits a -> comp_ok b -> name_fits b ->
  path_get_inode s (SLASH :: a) = Some (Some fi) ->
  path_get_inode s (SLASH :: b) = Some None ->
  storage_rename (SLASH :: a) (SLASH :: b) s =
  match directory_put (Some DIR_ROOT) b (inum (itab s fi)) s with
  | Ok r s1 =>
      if r =? -1 then Ok (-1) s1
      else
        match directory_delete (Some DIR_ROOT) a s1 with
        | Ok r' s2 => Ok (if r' =? -1 then -1 else 0) s2
        | Fault => Fault
        | Hang => Hang
        end
  | Fault => Fault
  | Hang => Hang
  end.
Proof.
  intros Hca Hfa Hcb Hfb Hfrom Hto. unfold storage_rename.
  rewrite !path_split_single by assumption.
  rewrite !firstn_name_fits by assumption.
  unfold bind, deref, reads, ret.
  change (path_get_inode s [SLASH]) with (Some (Some DIR_ROOT)). cbv iota.
  rewrite Hfrom. cbv iota.
  change (path_get_inode s [SLASH]) with (Some (Some DIR_ROOT)). cbv beta iota.
  destruct (mode_isfile (mode (itab s fi))); [rewrite Hto|]; cbv beta iota;
    (destruct (directory_put (Some DIR_ROOT) b (inum (itab s fi)) s) as [r s1| |];
     try reflexivity;
     destruct (r =? -1); [reflexivity|];
     destruct (directory_delete (Some DIR_ROOT) a s1) as [r' s2| |];
     try reflexivity;
     destruct (r' =? -1); reflexivity).
Qed.

Lemma streq_sym a b : streq a b = streq b a.
Proof.
  unfold streq. destruct (bytes_eqb (cstr a) (cstr b)) eqn:E1.
  - apply bytes_eqb_eq in E1. rewrite E1. symmetry. apply bytes_eqb_refl.
  - destruct (bytes_eqb (cstr b) (cstr a)) eqn:E2; [|reflexivity].
    apply bytes_eqb_eq in E2. rewrite E2, bytes_eqb_refl in E1. discriminate.
Qed.

(** X21: [storage_rename] of a name of the root directory to a name that the
    root does not have.  For a root whose block chain is well formed and
    past the table and whose size is a whole number of entries, where
    exactly one entry has the old name, with a valid inode [fi] of the
    reserved part of the table whose record holds its own number and a link
    count above 0 (and below [INT_MAX]), and with an empty entry in the root
    or two free blocks in the volume: it returns 0, the new path resolves to
    [fi] and the old path to nothing, the link count of [fi] and the inode
    bitmap are as before, and every other name of the root resolves as
    before. *)
Theorem storage_rename_root (s : image) (a b : cstring) (ka fi : Z) :
  comp_ok a -> name_fits a -> comp_ok b -> name_fits b ->
  dir_ok s DIR_ROOT -> off_table s DIR_ROOT ->
  first_named s DIR_ROOT a = Some ka -> slot_inum s DIR_ROOT ka = fi ->
  (forall jj, 0 <= jj < slot_count s DIR_ROOT -> jj <> ka ->
              slot_named s DIR_ROOT a jj = false) ->
  (forall ii, 0 <= ii < slot_count s DIR_ROOT ->
              slot_named s DIR_ROOT b ii = false) ->
  low_inode fi ->
  inode_valid s (get_inode fi) = true -> inum (itab s fi) = fi ->
  0 < links (itab s fi) < 2147483647 ->
  first_empty s DIR_ROOT <> None \/ 2 <= free_blocks s ->
  exists s',
    storage_rename (SLASH :: a) (SLASH :: b) s = Ok 0 s' /\
    path_get_inode s' (SLASH :: b) = Some (Some fi) /\
    path_get_inode s' (SLASH :: a) = Some None /\
    links (itab s' fi) = links (itab s fi) /\
    (forall j, bitmap_get (ibm s') j = bitmap_get (ibm s) j) /\
    (forall name' v,
       comp_ok name' -> streq name' a = false -> streq name' b = false ->
       path_get_inode s (SLASH :: name') = Some (Some v) ->
       path_get_inode s' (SLASH :: name') = Some (Some v)).
Proof.
  intros Hca Hfa Hcb Hfb D O Hka Hfi Hone Habs Hlowfi Hv Hinum Hlinks Hroom.
  pose proof D as [C Hm]. pose proof (ck_size _ _ C) as Hs0.
  destruct (get_inode fi) as [n|] eqn:Hget; [|discriminate].
  destruct (get_inode_some _ _ Hget) as [-> Hrange].
  pose proof (first_named_some _ _ _ _ Hka) as [Hkar Hkan].
  (* the two names differ *)
  assert (Hab : streq a b = false).
  { destruct (streq a b) eqn:E; [|reflexivity].
    pose proof (Habs ka Hkar) as Hb. unfold slot_named in Hb, Hkan.
    unfold streq in E, Hb, Hkan. apply bytes_eqb_eq in E. rewrite <- E in Hb.
    congruence. }
  assert (Hba : streq b a = false) by (rewrite streq_sym; assumption).
  (* the paths before *)
  assert (Hlka : directory_lookup s (Some DIR_ROOT) a = Some fi).
  { rewrite (directory_lookup_find s DIR_ROOT a C), Hka. now rewrite Hfi. }
  assert (Hlkb : directory_lookup s (Some DIR_ROOT) b = Some (-1)).
  { rewrite (directory_lookup_find s DIR_ROOT b C).
    now rewrite (proj2 (first_named_none s DIR_ROOT b Hs0) Habs). }
  assert (Hfrom : path_get_inode s (SLASH :: a) = Some (Some fi))
    by (apply path_single_some; [assumption|assumption|lia]).
  assert (Hto : path_get_inode s (SLASH :: b) = Some None)
    by (apply path_single_none; assumption).
  rewrite (storage_rename_unfold s a b fi) by assumption. rewrite Hinum.
  (* the entry for the new name *)
  destruct (directory_put_effect s DIR_ROOT b fi fi D O Hget Hlowfi Hv)
    as (e & s1 & Hrun & Hl & He & Hnum & D1 & O1 & Hib & Hln & Hfld & Hoth & Hszn
        & Hmono & Hslots & Hcase).
  rewrite (int32_id (links (itab s fi) + 1)) in Hln by lia.
  set (k := put_slot_of s DIR_ROOT) in *.
  pose proof D1 as [C1 Hm1]. pose proof (ck_size _ _ C1) as Hs1.
  assert (Hk : 0 <= k <= slot_count s DIR_ROOT).
  { subst k. unfold put_slot_of.
    destruct (first_empty s DIR_ROOT) as [ii|] eqn:E.
    - apply first_empty_some in E; [lia|assumption].
    - pose proof (slot_count_nonneg s DIR_ROOT Hs0). lia. }
  assert (Hkempty : k < slot_count s DIR_ROOT -> slot_inum s DIR_ROOT k = 0).
  { subst k. unfold put_slot_of.
    destruct (first_empty s DIR_ROOT) as [ii|] eqn:E; [|lia].
    apply first_empty_some in E; [tauto|assumption]. }
  destruct Hcase as [(Hcnt & Hslot & _)|(Hnone & _ & _ & Hfr & _)].
  2:{ exfalso. destruct Hroom as [H|H]; [congruence|lia]. }
  rewrite Hrun. cbn [Z.eqb].
  assert (Hnamed : forall name', slot_named s1 DIR_ROOT name' k = streq name' b).
  { intros name'. apply slot_named_entry; [assumption|]. now rewrite Hslot. }
  assert (Hold : forall name' jj, 0 <= jj < slot_count s DIR_ROOT -> jj <> k ->
                   slot_named s1 DIR_ROOT name' jj = slot_named s DIR_ROOT name' jj).
  { intros name' jj Hjj Hne. unfold slot_named. now rewrite Hslots. }
  assert (Hkka : ka <> k).
  { intros E. rewrite <- E in Hkempty. rewrite Hkempty in Hfi by lia. lia. }
  assert (Hik : slot_inum s1 DIR_ROOT k = fi)
    by (rewrite <- slot_bytes_inum, Hslot; assumption).
  assert (Hfkb : first_named s1 DIR_ROOT b = Some k).
  { apply (first_named_first s1 DIR_ROOT b k Hs1).
    split; [lia|]. split; [rewrite Hnamed; apply streq_refl|].
    intros jj Hjj. rewrite Hold by lia. apply Habs. lia. }
  assert (Hfka : first_named s1 DIR_ROOT a = Some ka).
  { apply (first_named_first s1 DIR_ROOT a ka Hs1).
    split; [lia|]. split; [rewrite Hold by lia; assumption|].
    intros jj Hjj. destruct (Z.eq_dec jj k) as [->|Hne].
    - now rewrite Hnamed.
    - rewrite Hold by lia. apply Hone; lia. }
  assert (Hika : slot_inum s1 DIR_ROOT ka = fi).
  { rewrite <- Hfi. apply slot_inum_ext. apply Hslots; lia. }
  assert (Hone1 : forall jj, 0 <= jj < slot_count s1 DIR_ROOT -> jj <> ka ->
                    slot_named s1 DIR_ROOT a jj = false).
  { intros jj Hjj Hne. destruct (Z.eq_dec jj k) as [->|Hne'].
    - now rewrite Hnamed.
    - rewrite Hold by lia. apply Hone; lia. }
  assert (Hv1 : inode_valid s1 (get_inode fi) = true).
  { rewrite Hget. unfold inode_valid in *. rewrite Hib.
    now rewrite (proj1 (Hfld fi Hlowfi)). }
  assert (Hl1 : int32 (links (itab s1 fi) - 1) = links (itab s fi))
    by (rewrite Hln; rewrite int32_id by lia; lia).
  (* the entry of the old name *)
  destruct (directory_delete_spec s1 DIR_ROOT a D1 O1) as (_ & _ & Hdel).
  destruct (Hdel ka fi Hfka Hika Hlowfi Hv1 ltac:(lia))
    as (s2 & Hrun2 & D2 & _ & Hln2 & Hbit2 & Hibm & _ & Hgone & Hnames2).
  rewrite Hrun2. cbn [Z.eqb]. exists s2. split; [reflexivity|].
  pose proof D2 as [C2 _].
  assert (Hlk1b : directory_lookup s1 (Some DIR_ROOT) b = Some fi).
  { rewrite (directory_lookup_find s1 DIR_ROOT b C1), Hfkb. now rewrite Hik. }
  split.
  { apply path_single_some; [assumption| |lia].
    apply Hnames2; [now apply comp_ok_cstr | assumption | assumption | lia]. }
  split.
  { apply path_single_none; [assumption|].
    apply Hgone; [now apply comp_ok_cstr | assumption]. }
  split; [lia|].
  split.
  { intros j. rewrite <- Hib. destruct (Z.eq_dec j fi) as [->|Hne].
    - rewrite Hbit2. now rewrite (leb_false _ 0) by lia.
    - now apply Hibm. }
  intros name' v Hc' Hna Hnb Hres0.
  destruct (path_single_lookup s name' v Hc' Hres0) as [Hlk Hr].
  apply path_single_some; [assumption | | assumption].
  apply Hnames2; [now apply comp_ok_cstr | assumption | | lia].
  rewrite directory_lookup_find in Hlk by assumption.
  destruct (first_named s DIR_ROOT name') as [j|] eqn:Ej; [|injection Hlk; lia].
  injection Hlk as Hj.
  apply first_named_first in Ej; [|assumption].
  destruct Ej as (Hjr & Hjn & Hjfirst).
  assert (Hjk : j <> k) by (intros ->; rewrite Hkempty in Hj by lia; lia).
  rewrite directory_lookup_find by assumption.
  rewrite (proj2 (first_named_first s1 DIR_ROOT name' j Hs1)).
  - f_equal. rewrite <- Hj. apply slot_inum_ext. apply Hslots; lia.
  - split; [lia|]. split; [rewrite Hold by lia; assumption|].
    intros jj Hjj. destruct (Z.eq_dec jj k) as [->|Hne'].
    + now rewrite Hnamed.
    + rewrite Hold by lia. apply Hjfirst. lia.
Qed.

Lemma storage_rename_root_witness :
  exists s',
    storage_rename (path "/a") (path "/b") one_file = Ok 0 s' /\
    path_get_inode s' (path "/b") = Some (Some 2) /\
    path_get_inode s' (path "/a") = Some None /\
    links (itab s' 2) = links (itab one_file 2) /\
    (forall j, bitmap_get (ibm s') j = bitmap_get (ibm one_file) j).
Proof.
  destruct (storage_rename_root one_file (path "a") (path "b") 0 2
              comp_ok_a name_fits_a comp_ok_b name_fits_b one_file_root_dir_ok
              one_file_root_off_table)
    as (s' & H1 & H2 & H3 & H4 & H5 & _).
  - vm_compute. reflexivity.
  - vm_compute. reflexivity.
  - intros jj Hjj Hne. apply one_file_root_slots in Hjj. contradiction.
  - intros ii Hii. apply one_file_root_slots in Hii. subst ii.
    vm_compute. reflexivity.
  - apply low_inode_small. lia.
  - vm_compute. reflexivity.
  - vm_compute. reflexivity.
  - vm_compute. split; reflexivity.
  - right. vm_compute. discriminate.
  - exists s'. repeat split; assumption.
Defined.

(** ** The entries that [directory_read] counts *)

Lemma directory_read_loop_stop s di dnum iis temp :
  directory_read_loop s di dnum iis dnum temp = Some (dnum, temp).
Proof.
  destruct iis as [|ii rest]; [reflexivity|].
  cbn [directory_read_loop]. now rewrite Z.ltb_irrefl.
Qed.

Lemma directory_read_loop_nth s i dnum : chain_ok s i -> forall iis c temp,
  (forall ii, In ii iis -> 0 <= ii < slot_count s i) ->
  length temp = 64%nat -> c < dnum ->
  (dnum - c <= Z.of_nat (length (filter (live_slot s i) iis)) ->
   directory_read_loop s (Some i) dnum iis c temp
   = Some (dnum, slot_bytes s i
                   (nth (Z.to_nat (dnum - c - 1)) (filter (live_slot s i) iis) 0))) /\
  (Z.of_nat (length (filter (live_slot s i) iis)) < dnum - c ->
   exists t,
     length t = 64%nat /\
     directory_read_loop s (Some i) dnum iis c temp
     = Some (c + Z.of_nat (length (filter (live_slot s i) iis)), t)).
Proof.
  intros C. induction iis as [|ii rest IH]; intros c temp Hin Hl Hc.
  - cbn [filter length directory_read_loop]. split; [lia|].
    intros _. exists temp. split; [assumption|]. now rewrite Z.add_0_r.
  - cbn [directory_read_loop filter].
    rewrite (proj2 (Z.ltb_lt c dnum) Hc).
    rewrite dirent_read_bytes; [| assumption | apply Hin; now left | assumption].
    rewrite Z.eqb_refl, andb_true_l, slot_bytes_inum. fold (live_slot s i ii).
    assert (Hin' : forall ii', In ii' rest -> 0 <= ii' < slot_count s i)
      by (intros ii' H'; apply Hin; now right).
    destruct (live_slot s i ii).
    + cbn [length nth]. destruct (Z.eq_dec (c + 1) dnum) as [E|Hne].
      * rewrite E, directory_read_loop_stop. split; [|lia].
        intros _. replace (dnum - c - 1) with 0 by lia. reflexivity.
      * destruct (IH (c + 1) (slot_bytes s i ii) Hin' (slot_bytes_length s i ii)
                     ltac:(lia)) as [H1 H2].
        split.
        -- intros H. rewrite H1 by lia.
           replace (Z.to_nat (dnum - c - 1)) with (S (Z.to_nat (dnum - (c + 1) - 1)))
             by lia.
           reflexivity.
        -- intros H. destruct H2 as (t & Ht & E); [lia|].
           exists t. split; [assumption|]. rewrite E. f_equal. f_equal. lia.
    + apply (IH c (slot_bytes s i ii) Hin' (slot_bytes_length s i ii) Hc).
Qed.

(** X13: [directory_read] counts the entries that are not empty: for a directory
    inode with a well-formed block chain and [dnum >= 0], it returns 0 with
    the bytes of entry number [dnum] among the non-empty ones (counted from
    0, in the order of the directory) when there are more than [dnum] of
    them, and -1 otherwise. *)
Theorem directory_read_nth (s : image) (i dnum : Z) :
  chain_ok s i -> 0 <= dnum ->
  (dnum < Z.of_nat (length (filter (live_slot s i)
                                   (zseq 0 (Z.to_nat (slot_count s i))))) ->
   directory_read s (Some i) dnum
   = Some (0, slot_bytes s i
                (nth (Z.to_nat dnum)
                     (filter (live_slot s i) (zseq 0 (Z.to_nat (slot_count s i))))
                     0))) /\
  (Z.of_nat (length (filter (live_slot s i)
                            (zseq 0 (Z.to_nat (slot_count s i))))) <= dnum ->
   exists t, directory_read s (Some i) dnum = Some (-1, t)).
Proof.
  intros C Hd. unfold directory_read.
  rewrite (proj2 (Z.ltb_lt (-1) dnum)) by lia.
  unfold dir_slots. fold (slot_count s i).
  destruct (directory_read_loop_nth s i dnum C
              (zseq 0 (Z.to_nat (slot_count s i))) (-1) zero_dirent)
    as [H1 H2].
  - intros ii Hii. apply in_zseq in Hii. lia.
  - apply zero_dirent_length.
  - lia.
  - split.
    + intros H. rewrite H1 by lia. rewrite Z.leb_refl.
      replace (dnum - -1 - 1) with dnum by lia. reflexivity.
    + intros H. destruct H2 as (t & _ & E); [lia|]. rewrite E.
      exists t. now rewrite (leb_false dnum _) by lia.
Qed.

Lemma directory_read_nth_witness :
  directory_read one_file (Some DIR_ROOT) 0
  = Some (0, slot_bytes one_file DIR_ROOT 0) /\
  exists t, directory_read one_file (Some DIR_ROOT) 1 = Some (-1, t).
Proof.
  split.
  - apply (proj1 (directory_read_nth one_file DIR_ROOT 0 one_file_root_chain_ok
                    ltac:(lia))).
    vm_compute. reflexivity.
  - apply (proj2 (directory_read_nth one_file DIR_ROOT 1 one_file_root_chain_ok
                    ltac:(lia))).
    vm_compute. discriminate.
Defined.

(** ** Creation below a directory that does not exist *)









(** * Further properties of the formatting *)

Lemma put_get_or bm i j :
  0 <= j -> bitmap_get (bitmap_put bm i true) j = bitmap_get bm j || (j =? i).
Proof.
  intros Hj. destruct (Z.eqb_spec j i) as [->|Hne].
  - rewrite bitmap_get_put_same by assumption. now rewrite orb_true_r.
  - rewrite bitmap_get_put_other by assumption. now rewrite orb_false_r.
Qed.

Lemma fold_put_get (l : list Z) :
  forall bm j, 0 <= j ->
    bitmap_get (fold_left (fun bm ii => bitmap_put bm ii true) l bm) j
    = bitmap_get bm j || existsb (Z.eqb j) l.
Proof.
  induction l as [|i l IH]; intros bm j Hj; cbn [fold_left existsb].
  - now rewrite orb_false_r.
  - rewrite IH by assumption. rewrite put_get_or by assumption.
    now rewrite orb_assoc.
Qed.

Lemma bitmap_ext bm bm' :
  (forall j, 0 <= j -> bitmap_get bm j = bitmap_get bm' j) -> bm = bm'.
Proof. intros H. apply Z.bits_inj'. exact H. Qed.

Lemma fold_put_idem (l : list Z) (bm : Z) :
  let f := fold_left (fun bm ii => bitmap_put bm ii true) l in
  f (f bm) = f bm.
Proof.
  intros f. apply bitmap_ext. intros j Hj. subst f.
  rewrite !fold_put_get by assumption.
  now rewrite <- orb_assoc, orb_diag.
Qed.

Lemma fold_put_comm (l : list Z) (bm i : Z) :
  fold_left (fun bm ii => bitmap_put bm ii true) l (bitmap_put bm i true)
  = bitmap_put (fold_left (fun bm ii => bitmap_put bm ii true) l bm) i true.
Proof.
  apply bitmap_ext. intros j Hj.
  rewrite fold_put_get, !put_get_or, fold_put_get by assumption.
  rewrite <- !orb_assoc. f_equal. apply orb_comm.
Qed.

Lemma put_true_set bm i :
  bitmap_get bm i = true -> bitmap_put bm i true = bm.
Proof.
  intros Hb. apply bitmap_ext. intros j Hj. rewrite put_get_or by assumption.
  destruct (Z.eqb_spec j i) as [->|]; [now rewrite Hb|apply orb_false_r].
Qed.

(** X22: Mounting twice is mounting once.  On every image the formatting code
    ([blocks_init], [inode_init], [directory_init]) returns, and run on its
    own result it changes nothing.  Afterwards the bit of the root inode is
    set and its mode is that of a directory.  The code never touches a byte
    of a block other than the eight of the fields [inum] and [mode] of the
    root, an inode record other than that of the root, or the size, the
    link count and the block pointers of the root; and it clears no bit of
    either bitmap. *)
Theorem storage_init_remount (s : image) :
  exists s1,
    storage_init s = Ok tt s1 /\
    storage_init s1 = Ok tt s1 /\
    bitmap_get (ibm s1) DIR_ROOT = true /\
    mode_isdir (mode (itab s1 DIR_ROOT)) = true /\
    (forall b o, ~ field_bytes DIR_ROOT f_inum b o ->
                 ~ field_bytes DIR_ROOT f_mode b o ->
                 blocks s1 b o = blocks s b o) /\
    (forall i, i <> DIR_ROOT -> itab s1 i = itab s i) /\
    size (itab s1 DIR_ROOT) = size (itab s DIR_ROOT) /\
    links (itab s1 DIR_ROOT) = links (itab s DIR_ROOT) /\
    direct (itab s1 DIR_ROOT) = direct (itab s DIR_ROOT) /\
    indirect (itab s1 DIR_ROOT) = indirect (itab s DIR_ROOT) /\
    (forall b, bitmap_get (bbm s) b = true -> bitmap_get (bbm s1) b = true) /\
    (forall i, bitmap_get (ibm s) i = true -> bitmap_get (ibm s1) i = true).
Proof.
  set (l := zseq 1 (Z.to_nat (bytes_to_blocks (INODE_COUNT * INODE_SIZE) - 1))).
  set (F := fold_left (fun bm ii => bitmap_put bm ii true) l).
  assert (HB : forall bb, F (bitmap_put (F (bitmap_put bb 0 true)) 0 true)
               = F (bitmap_put bb 0 true)).
  { intros bb. unfold F. rewrite !fold_put_comm.
    rewrite (put_true_set (bitmap_put _ 0 true) 0)
      by (apply bitmap_get_put_same; lia).
    f_equal. apply fold_put_idem. }
  assert (Hmono : forall bb b, bitmap_get bb b = true ->
                    bitmap_get (F (bitmap_put bb 0 true)) b = true).
  { intros bb b Hb. destruct (Z_lt_le_dec b 0) as [Hneg|Hpos].
    - unfold bitmap_get in Hb. rewrite Z.testbit_neg_r in Hb by assumption.
      discriminate.
    - unfold F. rewrite fold_put_get, put_get_or by assumption.
      now rewrite Hb. }
  assert (Hmono0 : forall ib i, bitmap_get ib i = true ->
                     bitmap_get (bitmap_put ib 0 true) i = true).
  { intros ib i Hi. destruct (Z.eq_dec i 0) as [->|Hne].
    - apply bitmap_get_put_same. lia.
    - now rewrite bitmap_get_put_other. }
  (* the image after the two bitmaps are set *)
  set (s0 := with_ibm (bitmap_put (ibm s) 0 true)
               (with_bbm (F (bitmap_put (bbm s) 0 true)) s)).
  assert (Hinit : forall t,
            (blocks_init ;;; inode_init) t
            = Ok tt (with_ibm (bitmap_put (ibm t) 0 true)
                       (with_bbm (F (bitmap_put (bbm t) 0 true)) t)))
    by reflexivity.
  assert (Hrun : forall t,
            storage_init t =
            directory_init (with_ibm (bitmap_put (ibm t) 0 true)
                              (with_bbm (F (bitmap_put (bbm t) 0 true)) t)))
    by reflexivity.
  assert (Hagain : forall t,
            bitmap_get (ibm t) 0 = true ->
            F (bitmap_put (bbm t) 0 true) = bbm t ->
            with_ibm (bitmap_put (ibm t) 0 true)
              (with_bbm (F (bitmap_put (bbm t) 0 true)) t) = t).
  { intros [bb ib bl] H0 HF. cbn [ibm bbm with_ibm with_bbm blocks] in *.
    rewrite HF. now rewrite (put_true_set ib 0 H0). }
  rewrite Hrun. fold s0.
  assert (Hit0 : itab s0 = itab s) by reflexivity.
  unfold directory_init. change (get_inode DIR_ROOT) with (Some 1).
  cbv beta iota.
  destruct (bitmap_get (ibm s0) DIR_ROOT && mode_isdir (mode (itab s0 1))) eqn:E.
  - exists s0. split; [reflexivity|].
    assert (Hs0 : with_ibm (bitmap_put (ibm s0) 0 true)
                    (with_bbm (F (bitmap_put (bbm s0) 0 true)) s0) = s0).
    { apply Hagain.
      - unfold s0. cbn [ibm with_ibm]. apply bitmap_get_put_same. lia.
      - unfold s0. cbn [bbm with_ibm with_bbm]. apply HB. }
    split.
    { rewrite Hrun, Hs0. unfold directory_init.
      change (get_inode DIR_ROOT) with (Some 1). cbv beta iota. now rewrite E. }
    apply andb_prop in E. destruct E as [E1 E2].
    split; [assumption|]. split; [assumption|].
    split; [reflexivity|]. split; [reflexivity|].
    split; [reflexivity|]. split; [reflexivity|].
    split; [reflexivity|]. split; [reflexivity|].
    split; [intros b Hb; unfold s0; cbn [bbm with_ibm with_bbm]; now apply Hmono|].
    intros i Hi. unfold s0. cbn [ibm with_ibm with_bbm]. now apply Hmono0.
  - set (s1 := with_field 1 f_mode MODE_ROOT
                 (with_field 1 f_inum DIR_ROOT
                    (with_ibm (bitmap_put (ibm s0) DIR_ROOT true) s0))).
    exists s1. split; [reflexivity|].
    assert (Hit1 : itab s1 1 = set_mode MODE_ROOT (set_inum DIR_ROOT (itab s 1))).
    { unfold s1. rewrite !itab_with_field_same by exact I.
      rewrite itab_with_ibm, Hit0. reflexivity. }
    assert (Hib1 : ibm s1 = bitmap_put (bitmap_put (ibm s) 0 true) DIR_ROOT true)
      by reflexivity.
    assert (Hbb1 : bbm s1 = F (bitmap_put (bbm s) 0 true)) by reflexivity.
    assert (Hs1 : with_ibm (bitmap_put (ibm s1) 0 true)
                    (with_bbm (F (bitmap_put (bbm s1) 0 true)) s1) = s1).
    { apply Hagain.
      - rewrite Hib1. rewrite bitmap_get_put_other by (unfold DIR_ROOT; lia).
        apply bitmap_get_put_same. lia.
      - rewrite Hbb1. apply HB. }
    assert (Hbit1 : bitmap_get (ibm s1) DIR_ROOT = true)
      by (rewrite Hib1; apply bitmap_get_put_same; unfold DIR_ROOT; lia).
    split.
    { rewrite Hrun, Hs1. unfold directory_init.
      change (get_inode DIR_ROOT) with (Some 1). cbv beta iota.
      rewrite Hbit1, Hit1. reflexivity. }
    split; [assumption|].
    change DIR_ROOT with 1 in *.
    split; [rewrite Hit1; reflexivity|].
    split.
    { intros b o H1 H2. unfold s1.
      rewrite !blocks_with_field_frame by assumption. reflexivity. }
    split.
    { intros i Hi. unfold s1.
      rewrite !itab_with_field_other by (assumption || exact I).
      rewrite itab_with_ibm. now rewrite Hit0. }
    rewrite Hit1. cbn [size links direct indirect set_mode set_inum].
    split; [reflexivity|]. split; [reflexivity|]. split; [reflexivity|].
    split; [reflexivity|].
    split; [intros b Hb; rewrite Hbb1; now apply Hmono|].
    intros i Hi. rewrite Hib1. destruct (Z.eq_dec i 1) as [->|Hne].
    + apply bitmap_get_put_same. lia.
    + rewrite bitmap_get_put_other by assumption. now apply Hmono0.
Qed.
